(** * Tetrise: tetrahedral cages over a triangulated surface

    A shallow embedding of [tetrise.h] (namespace [Tetrise]) and the
    properties of its topology extraction, tetrahedron construction,
    weight transfer, frame construction, adjacency construction,
    degeneracy filter and distance primitives.

    Conventions of the embedding.
    - A C++ [int] is a [Z]; signed overflow is undefined in C++, so the
      model describes the executions that stay in range.  Loop counters,
      which start at 0 and only grow, are [nat].
    - A [std::vector] is a [list]; [v[i]] outside the vector is undefined
      behaviour and is reported as [Undefined OutOfRange].
    - A [double] is an exact rational [Q]: rounding and overflow are not
      modelled.  A division by zero has no rational value; in
      [distPtLin] it is reported as [Undefined ZeroDivide], and in the
      matrix inverse of [distPtTri], whose infinities and NaNs the source
      goes on to compare, as a matrix that is not finite.
    - The square root of doubles is a parameter [sqrt] of the frame
      builders; the properties assume of it that the root of a positive
      number is positive, and say where they need the root to be exact.
      [sqrtQ] is a square root for the examples.
    - A [std::map] keyed by [couple<int>] is a [gmap (Z * Z)].

    The embedding comes first, the properties after it. *)

From Stdlib Require Import ZArith QArith Qabs Lia Lqa List Bool.
From Stdlib Require Qcanon.
From stdpp Require Import base option list gmap.

Open Scope Z_scope.

(** ** Undefined behaviour as an error value *)

Inductive fault : Set :=
| OutOfRange        (* a vector read or written outside its bounds *)
| AssertionFailed   (* [assert] of <cassert> *)
| ZeroDivide.       (* a floating division whose divisor is zero *)

Inductive result (A : Type) : Type :=
| Ok (a : A)
| Undefined (f : fault).
Arguments Ok {A} a.
Arguments Undefined {A} f.

Definition bind {A B} (r : result A) (k : A -> result B) : result B :=
  match r with
  | Ok a => k a
  | Undefined f => Undefined f
  end.

Notation "'let*' x := r 'in' k" := (bind r (fun x => k))
  (at level 10, x name, r at level 100, k at level 200).
Notation "'let*' ' p := r 'in' k" := (bind r (fun p => k))
  (at level 10, p pattern, r at level 100, k at level 200).

(** ** Vectors *)

(** [v[i]] *)
Definition vat {A} (v : list A) (i : Z) : result A :=
  if i <? 0 then Undefined OutOfRange
  else match v !! Z.to_nat i with
       | Some x => Ok x
       | None => Undefined OutOfRange
       end.

(** [v[i] = x] *)
Definition vset {A} (v : list A) (i : Z) (x : A) : result (list A) :=
  if (0 <=? i) && (i <? Z.of_nat (length v))
  then Ok (<[Z.to_nat i := x]> v)
  else Undefined OutOfRange.

(** [(int)v.size()] *)
Definition size {A} (v : list A) : Z := Z.of_nat (length v).

(** ** Counted loops

    [forFrom i n body s] runs [body i], [body (i+1)], ..., [body (i+n-1)]
    on the state [s]: the loop [for(int k=i; k<i+n; k++)]. *)

Fixpoint forFrom {S} (i n : nat) (body : nat -> S -> result S) (s : S)
  : result S :=
  match n with
  | O => Ok s
  | Datatypes.S n' => let* s' := body i s in forFrom (Datatypes.S i) n' body s'
  end.

Definition forLoop {S} (n : nat) (body : nat -> S -> result S) (s : S)
  : result S := forFrom 0 n body s.


(** ** Data of the mesh *)

(** tetrahedra construction mode *)
Definition TM_FACE : Z := 0.
Definition TM_EDGE : Z := 1.
Definition TM_VERTEX : Z := 2.
Definition TM_VFACE : Z := 10.

(** [class edge]: [vertices] and [faces] are vectors that the
    constructors resize to two entries. *)
Record edge : Set := Edge { vertices : Z * Z; faces : Z * Z }.

(** [edge(s,t,f,g)] *)
Definition newEdge (s t f g : Z) : edge := Edge (s, t) (f, g).

(** [c[j]] on a two-entry vector, for the loop counter [j] of
    [for(int j=0;j<2;j++)] *)
Definition sel (c : Z * Z) (j : nat) : Z :=
  match j with
  | O => fst c
  | _ => snd c
  end.

(** [class vertex] *)
Record vertex : Set := Vertex { index : Z; connectedTriangles : list Z }.

(** [v.push_back(x)] *)
Definition push_back {A} (v : list A) (x : A) : list A := v ++ [x].

(** [v.resize(n)] and [v.resize(n, d)] are stdpp's [resize n d v]: the
    first [n] entries of [v], padded with [d]. *)

(** ** Topology extraction *)

(** One pass of the inner loop of [makeEdgeList]: side [j] of face [i].
    The state is the map [edges] and the vector [edgeList]. *)
Definition makeEdgeList_side (faceList : list Z) (i j : nat)
    (st : gmap (Z * Z) Z * list edge) : result (gmap (Z * Z) Z * list edge) :=
  let '(edges, edgeList) := st in
  let* s := vat faceList (3 * Z.of_nat i + Z.of_nat j) in
  let* t := vat faceList (3 * Z.of_nat i + (Z.of_nat j + 1) mod 3) in
  let '(s, t) := if s >? t then (t, s) else (s, t) in
  let pa := (s, t) in
  match edges !! pa with
  | None => Ok (<[pa := Z.of_nat i]> edges, edgeList)
  | Some f => Ok (edges, push_back edgeList (newEdge s t f (Z.of_nat i)))
  end.

(** [makeEdgeList(faceList, edgeList)]: the new [edgeList] and the
    returned count. *)
Definition makeEdgeList (faceList : list Z) : result (list edge * Z) :=
  let* '(_, edgeList) :=
    forLoop (length faceList / 3)
      (fun i => forLoop 3 (makeEdgeList_side faceList i))
      (∅, []) in
  Ok (edgeList, size edgeList).

(** ** Tetrahedron construction *)

(** The loop [while(faceList[3*f+k]==e.vertices[0] ||
    faceList[3*f+k]==e.vertices[1]) k++], run over [rest], the part of
    [faceList] from position [3*f+k] on: it ends on the first entry that
    is not an end of the edge, and leaves the vector when there is none. *)
Fixpoint skipEdgeEnds (e : edge) (rest : list Z) (k : nat) : result nat :=
  match rest with
  | [] => Undefined OutOfRange
  | x :: rest' =>
      if (x =? fst (vertices e)) || (x =? snd (vertices e))
      then skipEdgeEnds e rest' (S k)
      else Ok k
  end.

(** The body of the two nested loops of the [TM_EDGE] branch;
    [assert(k<3)] is compiled in. *)
Definition makeTetList_edge (numPts : Z) (faceList : list Z)
    (edgeList : list edge) (i j : nat) (tetList : list Z) : result (list Z) :=
  let* e := vat edgeList (Z.of_nat i) in
  let f := sel (faces e) j in
  let* k := (if 3 * f <? 0 then Undefined OutOfRange
             else skipEdgeEnds e (drop (Z.to_nat (3 * f)) faceList) 0) in
  if negb (Z.of_nat k <? 3) then Undefined AssertionFailed else
  let k := Z.of_nat k in
  let i := Z.of_nat i in
  let j := Z.of_nat j in
  let* a := vat faceList (3 * f + (k + 1) mod 3) in
  let* tetList := vset tetList (8 * i + 4 * j) a in
  let* b := vat faceList (3 * f + (k + 2) mod 3) in
  let* tetList := vset tetList (8 * i + 4 * j + 1) b in
  let* c := vat faceList (3 * f + k) in
  let* tetList := vset tetList (8 * i + 4 * j + 2) c in
  vset tetList (8 * i + 4 * j + 3) (i + numPts).

(** The body of the inner loop of the [TM_VERTEX] branch. *)
Definition makeTetList_vertex (numPts : Z) (v : vertex) (i j : nat)
    (tetList : list Z) : result (list Z) :=
  let tetList := push_back tetList (index v) in
  let* a := vat (connectedTriangles v) (2 * Z.of_nat j) in
  let tetList := push_back tetList a in
  let* b := vat (connectedTriangles v) (2 * Z.of_nat j + 1) in
  let tetList := push_back tetList b in
  Ok (push_back tetList (numPts + Z.of_nat i)).

(** The body of the inner loop of the [TM_VFACE] branch; the state is
    [tetList] and the running counter [cur]. *)
Definition makeTetList_vface (numPts : Z) (v : vertex) (j : nat)
    (st : list Z * Z) : result (list Z * Z) :=
  let '(tetList, cur) := st in
  let tetList := push_back tetList (index v) in
  let* a := vat (connectedTriangles v) (2 * Z.of_nat j) in
  let tetList := push_back tetList a in
  let* b := vat (connectedTriangles v) (2 * Z.of_nat j + 1) in
  let tetList := push_back tetList b in
  Ok (push_back tetList (numPts + cur), cur + 1).

(** [makeTetList(tetMode, numPts, faceList, edgeList, vertexList,
    tetList)]: the new [tetList] and the returned [dim]. *)
Definition makeTetList (tetMode numPts : Z) (faceList : list Z)
    (edgeList : list edge) (vertexList : list vertex) : result (list Z * Z) :=
  if tetMode =? TM_FACE then
    let numTet := size faceList / 3 in
    let dim := numTet + numPts in
    let* tetList :=
      forLoop (Z.to_nat numTet)
        (fun i tetList =>
           let i := Z.of_nat i in
           let* a := vat faceList (3 * i) in
           let* tetList := vset tetList (4 * i) a in
           let* b := vat faceList (3 * i + 1) in
           let* tetList := vset tetList (4 * i + 1) b in
           let* c := vat faceList (3 * i + 2) in
           let* tetList := vset tetList (4 * i + 2) c in
           vset tetList (4 * i + 3) (i + numPts))
        (resize (Z.to_nat (4 * numTet)) 0 []) in
    Ok (tetList, dim)
  else if tetMode =? TM_EDGE then
    let numTet := 2 * size edgeList in
    let dim := numPts + size edgeList in
    let* tetList :=
      forLoop (length edgeList)
        (fun i => forLoop 2 (makeTetList_edge numPts faceList edgeList i))
        (resize (Z.to_nat (4 * numTet)) 0 []) in
    Ok (tetList, dim)
  else if tetMode =? TM_VERTEX then
    let dim := numPts + size vertexList in
    let* tetList :=
      forLoop (length vertexList)
        (fun i tetList =>
           let* v := vat vertexList (Z.of_nat i) in
           forLoop (length (connectedTriangles v) / 2)
             (makeTetList_vertex numPts v i) tetList)
        [] in
    Ok (tetList, dim)
  else if tetMode =? TM_VFACE then
    let* '(tetList, _) :=
      forLoop (length vertexList)
        (fun i st =>
           let* v := vat vertexList (Z.of_nat i) in
           forLoop (length (connectedTriangles v) / 2)
             (makeTetList_vface numPts v) st)
        ([], 0) in
    Ok (tetList, numPts + size tetList / 4)
  else Ok ([], 0).

(** The apex slot of tetrahedron [t] of a tetrahedron list. *)
Definition apexAt (tetList : list Z) (t : nat) : option Z :=
  tetList !! (4 * t + 3)%nat.

(** The number of ghost points of a mode: faces, edges, vertices, or
    wedges (pairs of consecutive fan entries) over all vertices. *)
Definition wedges (v : vertex) : nat := (length (connectedTriangles v) / 2)%nat.

Definition wedgeCount (vertexList : list vertex) : nat :=
  foldr (fun v n => (wedges v + n)%nat) O vertexList.

Definition ghostCount (tetMode : Z) (faceList : list Z)
    (edgeList : list edge) (vertexList : list vertex) : Z :=
  if tetMode =? TM_FACE then Z.of_nat (length faceList / 3)
  else if tetMode =? TM_EDGE then Z.of_nat (length edgeList)
  else if tetMode =? TM_VERTEX then Z.of_nat (length vertexList)
  else if tetMode =? TM_VFACE then Z.of_nat (wedgeCount vertexList)
  else 0.

(** What the [TM_EDGE] branch needs of an edge and one of its faces [f]:
    the three corners of face [f] are in [faceList], and one of them is
    not an end of the edge. *)
Definition faceOfEdge (faceList : list Z) (e : edge) (f : Z) : bool :=
  (0 <=? f) && (3 * f + 3 <=? size faceList) &&
  existsb (fun x => negb ((x =? fst (vertices e)) || (x =? snd (vertices e))))
          (take 3 (drop (Z.to_nat (3 * f)) faceList)).

(** Well-formed input of [makeTetList]: in [TM_EDGE] mode every edge
    names two faces of [faceList] that have a corner off the edge.  The
    other branches read nothing out of range. *)
Definition wellFormed (tetMode : Z) (faceList : list Z)
    (edgeList : list edge) : bool :=
  if tetMode =? TM_EDGE
  then forallb (fun e => faceOfEdge faceList e (fst (faces e)) &&
                         faceOfEdge faceList e (snd (faces e))) edgeList
  else true.

(** ** Sides of the triangles, for the statements about [makeEdgeList] *)

(** The pair [(s,t)] after [if(s>t) swap(s,t)]. *)
Definition couple_of (s t : Z) : Z * Z := if s >? t then (t, s) else (s, t).

(** Side [j] of face [i]: the corners at [3*i+j] and [3*i+((j+1)%3)], as
    an ordered pair. *)
Definition sideOf (faceList : list Z) (i j : nat) : option (Z * Z) :=
  match faceList !! (3 * i + j)%nat, faceList !! (3 * i + (j + 1) mod 3)%nat with
  | Some s, Some t => Some (couple_of s t)
  | _, _ => None
  end.

(** All sides of all faces in the order in which [makeEdgeList] visits
    them, each with the index of its face. *)
Definition allSides (faceList : list Z) : list ((Z * Z) * Z) :=
  flat_map
    (fun i => flat_map
                (fun j => match sideOf faceList i j with
                          | Some pa => [(pa, Z.of_nat i)]
                          | None => []
                          end)
                (seq 0 3))
    (seq 0 (length faceList / 3)).

(** The faces that have the pair [pa] as a side, in visiting order, once
    per side: a pair shared by exactly two triangles has two sightings. *)
Definition sightings (faceList : list Z) (pa : Z * Z) : list Z :=
  (filter (fun x => fst x = pa) (allSides faceList)).*2.

(** The emitted edges that join the pair [pa]. *)
Definition edgesOf (pa : Z * Z) (edgeList : list edge) : list edge :=
  filter (fun e => vertices e = pa) edgeList.

(** The edge [e] joins the unordered pair of [a] and [b]. *)
Definition joins (a b : Z) (e : edge) : Prop :=
  vertices e = (a, b) \/ vertices e = (b, a).

#[global] Instance joins_dec a b e : Decision (joins a b e) :=
  or_dec (decide (vertices e = (a, b))) (decide (vertices e = (b, a))).

(** The edges that [makeEdgeList] emits for a pair with the sightings
    [fs]: none for the first sighting, and one for each later sighting,
    which joins the first face to the face of that sighting. *)
Definition emitted (pa : Z * Z) (fs : list Z) : list edge :=
  match fs with
  | [] => []
  | f :: rest => map (fun g => newEdge (fst pa) (snd pa) f g) rest
  end.

(** The visit of side [j] of face [i], and the sides visited before it. *)
Definition sideOn (faceList : list Z) (i j : nat) : list ((Z * Z) * Z) :=
  match sideOf faceList i j with
  | Some pa => [(pa, Z.of_nat i)]
  | None => []
  end.

Definition sidesBefore (faceList : list Z) (i j : nat) : list ((Z * Z) * Z) :=
  flat_map (fun i => flat_map (sideOn faceList i) (seq 0 3)) (seq 0 i)
  ++ flat_map (sideOn faceList i) (seq 0 j).

(** The sightings of [pa] among the visited sides [pre]. *)
Definition seen (pa : Z * Z) (pre : list ((Z * Z) * Z)) : list Z :=
  (filter (fun x => fst x = pa) pre).*2.

(** The loop invariant of [makeEdgeList]: the map holds the first
    sighting of every pair, and the edges emitted for a pair are those of
    its later sightings. *)
Definition edgeInv (pre : list ((Z * Z) * Z))
    (st : gmap (Z * Z) Z * list edge) : Prop :=
  forall pa, fst st !! pa = head (seen pa pre) /\
             edgesOf pa (snd st) = emitted pa (seen pa pre).

(** The unit square 0-1-2-3 split along the diagonal 0-2. *)
Definition unitSquare : list Z := [0; 1; 2; 0; 2; 3].

(** Every triangle of [faceList] has three different corners. *)
Definition properTriangles (faceList : list Z) : Prop :=
  forall i a b c,
    faceList !! (3 * i)%nat = Some a ->
    faceList !! (3 * i + 1)%nat = Some b ->
    faceList !! (3 * i + 2)%nat = Some c ->
    a <> b /\ b <> c /\ c <> a.

(** ** Weight transfer *)

(** [tetWeight[i] = w], [ptsWeight[i] += w] *)
Definition vadd (v : list Q) (i : Z) (w : Q) : result (list Q) :=
  let* x := vat v i in vset v i (x + w)%Q.

(** [makeWeightList(tetMode, tetList, faceList, edgeList, vertexList,
    ptsWeight, tetWeight)]: the new [tetWeight]. *)
Definition makeWeightList (tetMode : Z) (tetList : list Z)
    (faceList : list Z) (edgeList : list edge) (vertexList : list vertex)
    (ptsWeight : list Q) (tetWeight : list Q) : result (list Q) :=
  let numTet := size tetList / 4 in
  let tetWeight := resize (Z.to_nat numTet) 0%Q tetWeight in
  if tetMode =? TM_FACE then
    forLoop (Z.to_nat numTet)
      (fun i tetWeight =>
         let i := Z.of_nat i in
         let* p0 := vat tetList (4 * i) in
         let* w0 := vat ptsWeight p0 in
         let* p1 := vat tetList (4 * i + 1) in
         let* w1 := vat ptsWeight p1 in
         let* p2 := vat tetList (4 * i + 2) in
         let* w2 := vat ptsWeight p2 in
         vset tetWeight i ((w0 + w1 + w2) / 3)%Q)
      tetWeight
  else if tetMode =? TM_EDGE then
    forLoop (length edgeList)
      (fun i tetWeight =>
         let i := Z.of_nat i in
         let* e := vat edgeList i in
         let* w0 := vat ptsWeight (fst (vertices e)) in
         let* w1 := vat ptsWeight (snd (vertices e)) in
         let w := ((w0 + w1) / 2)%Q in
         let* tetWeight := vset tetWeight (2 * i + 1) w in
         vset tetWeight (2 * i) w)
      tetWeight
  else if (tetMode =? TM_VERTEX) || (tetMode =? TM_VFACE) then
    forLoop (Z.to_nat numTet)
      (fun i tetWeight =>
         let i := Z.of_nat i in
         let* p0 := vat tetList (4 * i) in
         let* w0 := vat ptsWeight p0 in
         vset tetWeight i w0)
      tetWeight
  else Ok tetWeight.

(** [makePtsWeightList(tetMode, numPts, tetList, faceList, edgeList,
    vertexList, tetWeight, ptsWeight)]: the new [ptsWeight].  A negative
    [numPts] makes [resize] throw; the model reports it as out of range. *)
Definition makePtsWeightList (tetMode numPts : Z) (tetList : list Z)
    (faceList : list Z) (edgeList : list edge) (vertexList : list vertex)
    (tetWeight : list Q) : result (list Q) :=
  let numTet := size tetList / 4 in
  if numPts <? 0 then Undefined OutOfRange else
  let ptsWeight := resize (Z.to_nat numPts) 0%Q [] in
  if tetMode =? TM_FACE then
    forLoop (Z.to_nat numTet)
      (fun i =>
         forLoop 3
           (fun j ptsWeight =>
              let* p := vat tetList (4 * Z.of_nat i + Z.of_nat j) in
              let* w := vat tetWeight (Z.of_nat i) in
              vadd ptsWeight p w))
      ptsWeight
  else if tetMode =? TM_EDGE then
    forLoop (length edgeList)
      (fun i ptsWeight =>
         let i := Z.of_nat i in
         let* e := vat edgeList i in
         let* t0 := vat tetWeight (2 * i) in
         let* t1 := vat tetWeight (2 * i + 1) in
         let* ptsWeight := vadd ptsWeight (fst (vertices e)) (t0 + t1)%Q in
         let* e := vat edgeList i in
         let* t0 := vat tetWeight (2 * i) in
         let* t1 := vat tetWeight (2 * i + 1) in
         vadd ptsWeight (snd (vertices e)) (t0 + t1)%Q)
      ptsWeight
  else if (tetMode =? TM_VERTEX) || (tetMode =? TM_VFACE) then
    forLoop (Z.to_nat numTet)
      (fun i ptsWeight =>
         let* p := vat tetList (4 * Z.of_nat i) in
         let* w := vat tetWeight (Z.of_nat i) in
         vadd ptsWeight p w)
      ptsWeight
  else Ok ptsWeight.

(** The corner slots of the tetrahedra of [tetList]: positions 0, 1, 2 of
    each complete group of four. *)
Definition corners (tetList : list Z) : list Z :=
  flat_map (fun i => take 3 (drop (4 * i) tetList))
           (seq 0 (length tetList / 4)).

(** The incidence count of point [p]: the number of corner slots that
    hold [p]. *)
Definition incidence (tetList : list Z) (p : Z) : nat :=
  length (filter (fun x => x = p) (corners tetList)).

(** The corner slots visited before slot [j] of tetrahedron [i], and the
    number of them that hold [p]. *)
Definition cornersBefore (tetList : list Z) (i j : nat) : list Z :=
  flat_map (fun i => take 3 (drop (4 * i) tetList)) (seq 0 i)
  ++ take j (drop (4 * i) tetList).

Definition hits (p : Z) (cs : list Z) : nat :=
  length (filter (fun x => x = p) cs).

(** A count as a rational. *)
Definition Qnat (n : nat) : Q := inject_Z (Z.of_nat n).

(** Equality of two vectors of rationals, entry by entry. *)
Definition Qvec_eq (v w : list Q) : Prop := Forall2 Qeq v w.

(** The per-face tetrahedra of one triangle on three points, and of the
    unit square on four points. *)
Definition triangleTets : list Z := [0; 1; 2; 3].
Definition squareTets : list Z := [0; 1; 2; 4; 0; 2; 3; 5].

(** The point indices of the corners are valid for [numPts] points. *)
Definition cornersInRange (numPts : Z) (tetList : list Z) : Prop :=
  Forall (fun c => 0 <= c < numPts) (corners tetList).

(** ** Adjacency *)

(** [adjacencyList[a].push_back(b)] *)
Definition adjPush (adjacencyList : list (list Z)) (a b : Z)
  : result (list (list Z)) :=
  let* l := vat adjacencyList a in vset adjacencyList a (push_back l b).

(** [adjacencyList[a].insert(adjacencyList[a].end(), adj.begin(),
    adj.end())] *)
Definition adjAppend (adjacencyList : list (list Z)) (a : Z) (adj : list Z)
  : result (list (list Z)) :=
  let* l := vat adjacencyList a in vset adjacencyList a (l ++ adj).

(** The two pushes that link [a] and [b] in both directions:
    [adjacencyList[a].push_back(b); adjacencyList[b].push_back(a)]. *)
Definition adjLink (adjacencyList : list (list Z)) (a b : Z)
  : result (list (list Z)) :=
  let* adjacencyList := adjPush adjacencyList a b in
  adjPush adjacencyList b a.

(** One pass of the [TM_EDGE] branch of [makeAdjacencyList]; the state
    is [faceShareList] and [adjacencyList]. *)
Definition makeAdjacencyList_edge (edgeList : list edge) (i : nat)
    (st : list (list Z) * list (list Z))
  : result (list (list Z) * list (list Z)) :=
  let '(faceShareList, adjacencyList) := st in
  let* e := vat edgeList (Z.of_nat i) in
  let i := Z.of_nat i in
  let* adjacencyList := adjLink adjacencyList (2 * i) (2 * i + 1) in
  let* share0 := vat faceShareList (fst (faces e)) in
  let* adjacencyList :=
    forLoop (length share0)
      (fun j adjacencyList =>
         let* x := vat share0 (Z.of_nat j) in
         adjLink adjacencyList (2 * i) x)
      adjacencyList in
  let* share1 := vat faceShareList (snd (faces e)) in
  let* adjacencyList :=
    forLoop (length share1)
      (fun j adjacencyList =>
         let* x := vat share1 (Z.of_nat j) in
         adjLink adjacencyList (2 * i + 1) x)
      adjacencyList in
  let* faceShareList := adjPush faceShareList (fst (faces e)) (2 * i) in
  let* faceShareList := adjPush faceShareList (snd (faces e)) (2 * i + 1) in
  Ok (faceShareList, adjacencyList).

(** The test of a directed pair against the map [edges] in the
    per-vertex branch: the first wedge with the pair is recorded, a later
    one is linked to it. *)
Definition shareEdge (pa : Z * Z) (cur : Z)
    (st : gmap (Z * Z) Z * list (list Z))
  : result (gmap (Z * Z) Z * list (list Z)) :=
  let '(edges, adjacencyList) := st in
  match edges !! pa with
  | None => Ok (<[pa := cur]> edges, adjacencyList)
  | Some c =>
      let* adjacencyList := adjLink adjacencyList cur c in
      Ok (edges, adjacencyList)
  end.

(** The vector [adj] of the per-vertex branch after the loop
    [adj[j] = cur+j] over the [n] wedges of a vertex. *)
Definition fanTets (cur : Z) (n : nat) : list Z :=
  (fun j => cur + Z.of_nat j) <$> seq 0 n.

(** The second inner loop of the per-vertex branch, for wedge [j] of
    vertex [v]; the state is [edges], [cur] and [adjacencyList]. *)
Definition makeAdjacencyList_wedge (v : vertex) (adj : list Z) (j : nat)
    (st : gmap (Z * Z) Z * Z * list (list Z))
  : result (gmap (Z * Z) Z * Z * list (list Z)) :=
  let '(edges, cur, adjacencyList) := st in
  let* adjacencyList := adjAppend adjacencyList cur adj in
  let* s := vat (connectedTriangles v) (2 * Z.of_nat j) in
  let* t := vat (connectedTriangles v) (2 * Z.of_nat j + 1) in
  let pa1 := (index v, s) in
  let pa2 := (t, index v) in
  let* '(edges, adjacencyList) := shareEdge pa1 cur (edges, adjacencyList) in
  let* '(edges, adjacencyList) := shareEdge pa2 cur (edges, adjacencyList) in
  Ok (edges, cur + 1, adjacencyList).

(** [makeAdjacencyList(tetMode, tetList, edgeList, vertexList,
    adjacencyList)]: the new [adjacencyList]. *)
Definition makeAdjacencyList (tetMode : Z) (tetList : list Z)
    (edgeList : list edge) (vertexList : list vertex)
  : result (list (list Z)) :=
  let adjacencyList : list (list Z) := resize (length tetList / 4) [] [] in
  if tetMode =? TM_FACE then
    forLoop (length edgeList)
      (fun i adjacencyList =>
         let* e := vat edgeList (Z.of_nat i) in
         adjLink adjacencyList (fst (faces e)) (snd (faces e)))
      adjacencyList
  else if tetMode =? TM_EDGE then
    let faceShareList : list (list Z) := resize (2 * length edgeList) [] [] in
    let* '(_, adjacencyList) :=
      forLoop (length edgeList) (makeAdjacencyList_edge edgeList)
        (faceShareList, adjacencyList) in
    Ok adjacencyList
  else if (tetMode =? TM_VERTEX) || (tetMode =? TM_VFACE) then
    let* '(_, _, adjacencyList) :=
      forLoop (length vertexList)
        (fun i st =>
           let* v := vat vertexList (Z.of_nat i) in
           let n := (length (connectedTriangles v) / 2)%nat in
           let adj := fanTets (snd (fst st)) n in
           forLoop n (makeAdjacencyList_wedge v adj) st)
        (∅, 0, adjacencyList) in
    Ok adjacencyList
  else Ok adjacencyList.

(** The number of times tetrahedron [b] is listed in [adjacencyList[a]]. *)
Definition links (adjacencyList : list (list Z)) (a : nat) (b : Z) : nat :=
  match adjacencyList !! a with
  | Some l => length (filter (fun x => x = b) l)
  | None => 0
  end.

(** The adjacency is symmetric, counting multiplicity. *)
Definition symmetric (adjacencyList : list (list Z)) : Prop :=
  forall a b : nat,
    links adjacencyList a (Z.of_nat b) = links adjacencyList b (Z.of_nat a).

(** Symmetry up to the entries [D] that a running fan has listed in one
    direction only. *)
Definition balanced (D : nat -> nat -> nat) (adjacencyList : list (list Z))
  : Prop :=
  forall x y : nat,
    (links adjacencyList x (Z.of_nat y) + D y x
     = links adjacencyList y (Z.of_nat x) + D x y)%nat.

(** The fan entries listed so far: the rows of the first [j] of the [n]
    wedges that start at tetrahedron [m] list all [n] wedges. *)
Definition fanRows (m j n : nat) (x y : nat) : nat :=
  if decide ((m <= x < m + j) /\ (m <= y < m + n))%nat then 1%nat else 0%nat.

(** Input on which [makeAdjacencyList] reads and writes in range: the
    faces of the edges are tetrahedra in [TM_FACE] mode and entries of
    [faceShareList] in [TM_EDGE] mode, and [tetList] has a tetrahedron for
    every edge side, or for every wedge. *)
Definition inRange (n : nat) (x : Z) : bool := (0 <=? x) && (x <? Z.of_nat n).

Definition adjacencyInput (tetMode : Z) (tetList : list Z)
    (edgeList : list edge) (vertexList : list vertex) : bool :=
  let numTet := (length tetList / 4)%nat in
  if tetMode =? TM_FACE then
    forallb (fun e => inRange numTet (fst (faces e)) &&
                      inRange numTet (snd (faces e))) edgeList
  else if tetMode =? TM_EDGE then
    (2 * length edgeList <=? numTet)%nat &&
    forallb (fun e => inRange (2 * length edgeList) (fst (faces e)) &&
                      inRange (2 * length edgeList) (snd (faces e))) edgeList
  else if (tetMode =? TM_VERTEX) || (tetMode =? TM_VFACE) then
    (wedgeCount vertexList <=? numTet)%nat
  else true.

(** The number of edges between the faces [a] and [b], in either order
    of the two face entries. *)
Definition edgesBetween (edgeList : list edge) (a b : Z) : nat :=
  (length (filter (fun e => faces e = (a, b)) edgeList)
   + length (filter (fun e => faces e = (b, a)) edgeList))%nat.

(** ** Vectors, matrices and doubles *)

Open Scope Q_scope.

(** [x < y] on doubles *)
Definition Qltb (x y : Q) : bool := negb (Qle_bool y x).

(** [x / y] on doubles: no rational value when [y] is zero (IEEE gives
    an infinity or a NaN). *)
Definition fdiv (x y : Q) : result Q :=
  if Qeq_bool y 0 then Undefined ZeroDivide else Ok (x / y).

(** [std::sqrt] on doubles is a parameter [sqrt : Q -> Q] of the
    definitions that take square roots.  What the properties assume of
    it: the root of a positive number is positive. *)
Definition sqrtPositive (sqrt : Q -> Q) : Prop :=
  forall x, 0 < x -> 0 < sqrt x.

(** A square root for the examples: the root of [n/d], in lowest terms,
    rounded down to a multiple of [1/(d * 2^52)].  It is exact on the
    square of a rational. *)
Definition sqrtQ (x : Q) : Q :=
  let r := Qred x in
  let n := Qnum r in
  let d := Qden r in
  Z.sqrt (n * Zpos d * 4 ^ 52) # (d * 2 ^ 52).

(** threshold for being zero: [#define EPSILON 10e-6] *)
Definition EPSILON : Q := 1 # 100000.

(** [Eigen::Vector3d] *)
Record Vector3d : Set := V3 { vx : Q; vy : Q; vz : Q }.

Definition Zero : Vector3d := V3 0 0 0.

Definition plus (a b : Vector3d) : Vector3d :=
  V3 (vx a + vx b) (vy a + vy b) (vz a + vz b).

Definition minus (a b : Vector3d) : Vector3d :=
  V3 (vx a - vx b) (vy a - vy b) (vz a - vz b).

Definition scale (t : Q) (a : Vector3d) : Vector3d :=
  V3 (t * vx a) (t * vy a) (t * vz a).

Definition dot (a b : Vector3d) : Q := vx a * vx b + vy a * vy b + vz a * vz b.

Definition cross (a b : Vector3d) : Vector3d :=
  V3 (vy a * vz b - vz a * vy b)
     (vz a * vx b - vx a * vz b)
     (vx a * vy b - vy a * vx b).

Definition squaredNorm (a : Vector3d) : Q := dot a a.

(** Equality of two vectors of doubles, entry by entry. *)
Definition veq (a b : Vector3d) : Prop :=
  vx a == vx b /\ vy a == vy b /\ vz a == vz b.

(** [a.normalized()] of Eigen (3.3 and later):
      [RealScalar z = n.squaredNorm();
       if(z>RealScalar(0)) return n / numext::sqrt(z); else return n;]
    so the zero vector is returned as it is. *)
Definition normalized (sqrt : Q -> Q) (a : Vector3d) : result Vector3d :=
  let z := squaredNorm a in
  if Qltb 0 z then
    let s := sqrt z in
    let* x := fdiv (vx a) s in
    let* y := fdiv (vy a) s in
    let* w := fdiv (vz a) s in
    Ok (V3 x y w)
  else Ok a.

(** [n = (b-a).cross(c-a)], the vector that [distPtTri] and the frame
    builders compute from the corners of a triangle. *)
Definition triNormal (a b c : Vector3d) : Vector3d :=
  cross (minus b a) (minus c a).

(** [Eigen::Matrix3d], by rows. *)
Record Matrix3d : Set :=
  M3 { m00 : Q; m01 : Q; m02 : Q;
       m10 : Q; m11 : Q; m12 : Q;
       m20 : Q; m21 : Q; m22 : Q }.

Definition determinant3 (m : Matrix3d) : Q :=
  m00 m * (m11 m * m22 m - m12 m * m21 m)
  - m01 m * (m10 m * m22 m - m12 m * m20 m)
  + m02 m * (m10 m * m21 m - m11 m * m20 m).

(** [A.inverse()] of a fixed 3x3 matrix: Eigen multiplies the cofactors
    by [1/det].  With a zero determinant [1/det] is an infinity, and every
    entry of the result is the product of an infinity with a cofactor: an
    infinity, or a NaN when the cofactor is zero.  That matrix has no
    rational entries: [None]. *)
Definition inverse (m : Matrix3d) : option Matrix3d :=
  let d := determinant3 m in
  if Qeq_bool d 0 then None else
  Some (M3 ((m11 m * m22 m - m12 m * m21 m) / d)
           ((m02 m * m21 m - m01 m * m22 m) / d)
           ((m01 m * m12 m - m02 m * m11 m) / d)
           ((m12 m * m20 m - m10 m * m22 m) / d)
           ((m00 m * m22 m - m02 m * m20 m) / d)
           ((m02 m * m10 m - m00 m * m12 m) / d)
           ((m10 m * m21 m - m11 m * m20 m) / d)
           ((m01 m * m20 m - m00 m * m21 m) / d)
           ((m00 m * m11 m - m01 m * m10 m) / d)).

(** [A * v] *)
Definition mulv (m : Matrix3d) (v : Vector3d) : Vector3d :=
  V3 (m00 m * vx v + m01 m * vy v + m02 m * vz v)
     (m10 m * vx v + m11 m * vy v + m12 m * vz v)
     (m20 m * vx v + m21 m * vy v + m22 m * vz v).

(** [Eigen::Matrix4d] with the layout of [mat]: four rows, each a point
    and the entry of the fourth column. *)
Record Matrix4d : Set :=
  M4 { row0 : Vector3d * Q; row1 : Vector3d * Q;
       row2 : Vector3d * Q; row3 : Vector3d * Q }.

(** [mat(p0,p1,p2,c)]: compose a matrix out of four vectors *)
Definition mat (p0 p1 p2 c : Vector3d) : Matrix4d :=
  M4 (p0, 1) (p1, 1) (p2, 1) (c, 1).

(** The 3x3 matrix of three points. *)
Definition rows3 (a b c : Vector3d) : Matrix3d :=
  M3 (vx a) (vy a) (vz a) (vx b) (vy b) (vz b) (vx c) (vy c) (vz c).

(** [m.determinant()], expanded along the fourth column. *)
Definition determinant (m : Matrix4d) : Q :=
  - snd (row0 m) * determinant3 (rows3 (fst (row1 m)) (fst (row2 m)) (fst (row3 m)))
  + snd (row1 m) * determinant3 (rows3 (fst (row0 m)) (fst (row2 m)) (fst (row3 m)))
  - snd (row2 m) * determinant3 (rows3 (fst (row0 m)) (fst (row1 m)) (fst (row3 m)))
  + snd (row3 m) * determinant3 (rows3 (fst (row0 m)) (fst (row1 m)) (fst (row2 m))).

(** The value of a default-constructed [Matrix4d], which Eigen leaves
    uninitialised. *)
Definition Matrix4d_default : Matrix4d :=
  M4 (Zero, 0) (Zero, 0) (Zero, 0) (Zero, 0).

(** ** Distance primitives *)

(** A [double] returned by [distPtTri]: a number, or [HUGE_VAL]. *)
Inductive distance : Set :=
| Finite (d : Q)
| HUGE_VAL.

(** [min(x, y)] of <algorithm>: [y] when [y < x], else [x]. *)
Definition fmin (x y : distance) : distance :=
  match x, y with
  | Finite a, Finite b => if Qltb b a then Finite b else Finite a
  | Finite a, HUGE_VAL => Finite a
  | HUGE_VAL, Finite b => Finite b
  | HUGE_VAL, HUGE_VAL => HUGE_VAL
  end.

(** [distPtLin(p,a,b)]: squared distance between the segment [ab] and
    the point [p]. *)
Definition distPtLin (p a b : Vector3d) : result Q :=
  let* t := fdiv (dot (minus a b) (minus p b)) (squaredNorm (minus a b)) in
  if Qltb 1 t then Ok (squaredNorm (minus a p))
  else if Qltb t 0 then Ok (squaredNorm (minus b p))
  else Ok (squaredNorm (minus (scale t (minus a b)) (minus p b))).

(** [distPtTri(p,a,b,c)]: squared distance between the triangle [abc]
    and the point [p]; [HUGE_VAL] if [p] is in the outer half-space.

    When [A] is singular, every entry of [A.inverse()] is an infinity or
    a NaN, and so is every entry of [v = A.inverse()*(p-a)], a sum of
    products of such entries with doubles.  The test
    [v(0)>0 && v(1)>0 && v(0)+v(1)<1] then fails: a NaN fails every
    comparison, and if [v(0)] and [v(1)] are both the positive infinity,
    so is their sum.  So [s[3]] is [HUGE_VAL]. *)
Definition distPtTri (p a b c : Vector3d) : result distance :=
  let n := cross (minus b a) (minus c a) in
  if Qltb (squaredNorm n) EPSILON then Ok (Finite (squaredNorm (minus p a)))
  else
    let k := dot n (minus a p) in
    if Qltb k 0 then Ok HUGE_VAL else
    let* s0 := distPtLin p a b in
    let* s1 := distPtLin p b c in
    let* s2 := distPtLin p c a in
    let A := M3 (vx b - vx a) (vx c - vx a) (vx n - vx a)
                (vy b - vy a) (vy c - vy a) (vy n - vy a)
                (vz b - vz a) (vz c - vz a) (vz n - vz a) in
    let s3 :=
      match inverse A with
      | Some Ainv =>
          let v := mulv Ainv (minus p a) in
          if Qltb 0 (vx v) && Qltb 0 (vy v) && Qltb (vx v + vy v) 1
          then Finite (k * k) else HUGE_VAL
      | None => HUGE_VAL
      end in
    Ok (fmin (fmin (fmin (Finite s0) (Finite s1)) (Finite s2)) s3).

(** The triangle of the distance examples. *)
Definition tri_a : Vector3d := V3 0 0 0.
Definition tri_b : Vector3d := V3 1 0 0.
Definition tri_c : Vector3d := V3 0 1 0.

Close Scope Q_scope.

(** ** Frame construction *)

(** [a / 2] *)
Definition half (a : Vector3d) : Vector3d :=
  V3 (vx a / 2)%Q (vy a / 2)%Q (vz a / 2)%Q.

(** [pts[v[i]]] *)
Definition point (pts : list Vector3d) (v : list Z) (i : Z) : result Vector3d :=
  let* k := vat v i in vat pts k.

(** The body of the loop of the [TM_FACE]/[TM_VFACE] branch of
    [tetMatrix]. *)
Definition tetMatrix_face (sqrt : Q -> Q) (pts : list Vector3d)
    (tetList : list Z) (i : nat) (P : list Matrix4d)
  : result (list Matrix4d) :=
  let i := Z.of_nat i in
  let* p0 := point pts tetList (4 * i) in
  let* p1 := point pts tetList (4 * i + 1) in
  let* p2 := point pts tetList (4 * i + 2) in
  let u := minus p1 p0 in
  let v := minus p2 p0 in
  let* q := normalized sqrt (cross u v) in
  let c := plus q p0 in
  vset P i (mat p0 p1 p2 c).

(** The sum of the unit normals of the two faces of an edge. *)
Definition edgeNormal (sqrt : Q -> Q) (pts : list Vector3d)
    (faceList : list Z) (e : edge) (j : nat) (c : Vector3d)
  : result Vector3d :=
  let f := sel (faces e) j in
  let* x1 := point pts faceList (3 * f + 1) in
  let* x0 := point pts faceList (3 * f) in
  let u := minus x1 x0 in
  let* x2 := point pts faceList (3 * f + 2) in
  let* x0 := point pts faceList (3 * f) in
  let v := minus x2 x0 in
  let* q := normalized sqrt (cross u v) in
  Ok (plus c q).

(** The body of the outer loop of the [TM_EDGE] branch of [tetMatrix]. *)
Definition tetMatrix_edge (sqrt : Q -> Q) (pts : list Vector3d)
    (tetList faceList : list Z) (edgeList : list edge) (i : nat)
    (P : list Matrix4d) : result (list Matrix4d) :=
  let* e := vat edgeList (Z.of_nat i) in
  let* c := forLoop 2 (edgeNormal sqrt pts faceList e) Zero in
  let* y0 := vat pts (fst (vertices e)) in
  let* y1 := vat pts (snd (vertices e)) in
  let* cn := normalized sqrt c in
  let c := plus (half (plus y0 y1)) cn in
  forLoop 2
    (fun j P =>
       let k := 8 * Z.of_nat i + 4 * Z.of_nat j in
       let* p0 := point pts tetList k in
       let* p1 := point pts tetList (k + 1) in
       let* p2 := point pts tetList (k + 2) in
       vset P (2 * Z.of_nat i + Z.of_nat j) (mat p0 p1 p2 c))
    P.

(** The apex of the wedges of a vertex: the vertex plus the unit sum of
    the unit normals of its wedges. *)
Definition vertexApex (sqrt : Q -> Q) (pts : list Vector3d) (v : vertex)
    (p0 : Vector3d) : result Vector3d :=
  let* c :=
    forLoop (length (connectedTriangles v) / 2)
      (fun j c =>
         let* p1 := point pts (connectedTriangles v) (2 * Z.of_nat j) in
         let* p2 := point pts (connectedTriangles v) (2 * Z.of_nat j + 1) in
         let* q := normalized sqrt (cross (minus p1 p0) (minus p2 p0)) in
         Ok (plus c q))
      Zero in
  let* cn := normalized sqrt c in
  Ok (plus p0 cn).

(** The body of the outer loop of the [TM_VERTEX] branch of [tetMatrix]. *)
Definition tetMatrix_vertex (sqrt : Q -> Q) (pts : list Vector3d)
    (vertexList : list vertex) (i : nat) (P : list Matrix4d)
  : result (list Matrix4d) :=
  let* v := vat vertexList (Z.of_nat i) in
  let* p0 := vat pts (index v) in
  let* c := vertexApex sqrt pts v p0 in
  forLoop (length (connectedTriangles v) / 2)
    (fun j P =>
       let* p1 := point pts (connectedTriangles v) (2 * Z.of_nat j) in
       let* p2 := point pts (connectedTriangles v) (2 * Z.of_nat j + 1) in
       Ok (push_back P (mat p0 p1 p2 c)))
    P.

(** [tetMatrix(tetMode, pts, tetList, faceList, edgeList, vertexList,
    P)]: the new [P]. *)
Definition tetMatrix (sqrt : Q -> Q) (tetMode : Z) (pts : list Vector3d)
    (tetList faceList : list Z) (edgeList : list edge)
    (vertexList : list vertex) : result (list Matrix4d) :=
  let numTet := Z.to_nat (size tetList / 4) in
  if (tetMode =? TM_FACE) || (tetMode =? TM_VFACE) then
    forLoop numTet (tetMatrix_face sqrt pts tetList)
      (resize numTet Matrix4d_default [])
  else if tetMode =? TM_EDGE then
    forLoop (length edgeList)
      (tetMatrix_edge sqrt pts tetList faceList edgeList)
      (resize numTet Matrix4d_default [])
  else if tetMode =? TM_VERTEX then
    forLoop (length vertexList) (tetMatrix_vertex sqrt pts vertexList) []
  else Ok [].

(** The body of the outer loop of the [TM_VERTEX] branch of
    [tetMatrixNormalised]. *)
Definition tetMatrixNormalised_vertex (sqrt : Q -> Q) (pts : list Vector3d)
    (vertexList : list vertex) (i : nat) (P : list Matrix4d)
  : result (list Matrix4d) :=
  let* v := vat vertexList (Z.of_nat i) in
  let* p0 := vat pts (index v) in
  let* c := vertexApex sqrt pts v p0 in
  forLoop (length (connectedTriangles v) / 2)
    (fun j P =>
       let* x1 := point pts (connectedTriangles v) (2 * Z.of_nat j) in
       let* u1 := normalized sqrt (minus x1 p0) in
       let p1 := plus p0 u1 in
       let* x2 := point pts (connectedTriangles v) (2 * Z.of_nat j + 1) in
       let* u2 := normalized sqrt (minus x2 p0) in
       let p2 := plus p0 u2 in
       Ok (push_back P (mat p0 p1 p2 c)))
    P.

(** The body of the loop of the [TM_VFACE] branch of
    [tetMatrixNormalised]. *)
Definition tetMatrixNormalised_vface (sqrt : Q -> Q) (pts : list Vector3d)
    (tetList : list Z) (i : nat) (P : list Matrix4d) : result (list Matrix4d) :=
  let i := Z.of_nat i in
  let* p0 := point pts tetList (4 * i) in
  let* x1 := point pts tetList (4 * i + 1) in
  let* u1 := normalized sqrt (minus x1 p0) in
  let p1 := plus p0 u1 in
  let* x2 := point pts tetList (4 * i + 2) in
  let* u2 := normalized sqrt (minus x2 p0) in
  let p2 := plus p0 u2 in
  let u := minus p1 p0 in
  let v := minus p2 p0 in
  let* q := normalized sqrt (cross u v) in
  let c := plus q p0 in
  vset P i (mat p0 p1 p2 c).

(** [tetMatrixNormalised(tetMode, pts, tetList, faceList, edgeList,
    vertexList, P)]: the new [P]. *)
Definition tetMatrixNormalised (sqrt : Q -> Q) (tetMode : Z)
    (pts : list Vector3d) (tetList faceList : list Z) (edgeList : list edge)
    (vertexList : list vertex) : result (list Matrix4d) :=
  let numTet := Z.to_nat (size tetList / 4) in
  if (tetMode =? TM_FACE) || (tetMode =? TM_EDGE) then
    tetMatrix sqrt tetMode pts tetList faceList edgeList vertexList
  else if tetMode =? TM_VERTEX then
    forLoop (length vertexList)
      (tetMatrixNormalised_vertex sqrt pts vertexList) []
  else if tetMode =? TM_VFACE then
    forLoop numTet (tetMatrixNormalised_vface sqrt pts tetList)
      (resize numTet Matrix4d_default [])
  else Ok [].

(** The two edge vectors of a frame that do not end in the apex. *)
Definition edge1 (M : Matrix4d) : Vector3d := minus (fst (row1 M)) (fst (row0 M)).
Definition edge2 (M : Matrix4d) : Vector3d := minus (fst (row2 M)) (fst (row0 M)).

(** The first corner and the apex of a frame: the points of its first
    and of its fourth row. *)
Definition corner0 (M : Matrix4d) : Vector3d := fst (row0 M).
Definition apex (M : Matrix4d) : Vector3d := fst (row3 M).

(** [u] is the vector [v] rescaled to unit length the way [normalized]
    does it: [v] divided by the square root [s] of its squared length,
    which has length 1 where [s] is the exact root; the zero vector stays
    as it is. *)
Definition rescaledTo (sqrt : Q -> Q) (v u : Vector3d) : Prop :=
  (squaredNorm v == 0 -> veq u v)%Q /\
  (0 < squaredNorm v ->
   0 < sqrt (squaredNorm v) /\
   veq (scale (sqrt (squaredNorm v)) u) v /\
   (sqrt (squaredNorm v) * sqrt (squaredNorm v) == squaredNorm v ->
    squaredNorm u == 1))%Q.

(** The frame [M] starts at the point [p0] and its two edge vectors
    that do not end in the apex are the edge vectors [x1-p0] and [x2-p0]
    rescaled. *)
Definition rescaled (sqrt : Q -> Q) (p0 x1 x2 : Vector3d) (M : Matrix4d)
  : Prop :=
  corner0 M = p0 /\
  rescaledTo sqrt (minus x1 p0) (edge1 M) /\
  rescaledTo sqrt (minus x2 p0) (edge2 M).

(** The point indices of the vertices and of their fans are valid for
    [numPts] points. *)
Definition fansInRange (numPts : Z) (vertexList : list vertex) : Prop :=
  Forall (fun v => 0 <= index v < numPts /\
                   Forall (fun x => 0 <= x < numPts) (connectedTriangles v))
         vertexList.

(** A triangle with two sides of length 2, and its per-face tetrahedron. *)
Definition bigTriangle : list Vector3d := [V3 0 0 0; V3 2 0 0; V3 0 2 0].

(** The corners of the unit square. *)
Definition squarePts : list Vector3d :=
  [V3 0 0 0; V3 1 0 0; V3 1 1 0; V3 0 1 0]%Q.

(** ** Degeneracy filter *)

(** [abs(M.determinant()) > EPSILON], with [abs] the absolute value of
    a double. *)
Definition nonDegenerate (M : Matrix4d) : bool :=
  Qltb EPSILON (Qabs (determinant M)).

(** The values of the default constructors [edge()] and [vertex()]
    (the latter leaves [index] uninitialised). *)
Definition edge_default : edge := Edge (0, 0) (0, 0).
Definition vertex_default : vertex := Vertex 0 [].

(** The lists that [removeDegenerate] updates in place. *)
Record lists : Set :=
  Lists { l_tetList : list Z; l_faceList : list Z;
          l_edgeList : list edge; l_vertexList : list vertex }.

(** [v.resize(goodList.size()); for(i...) v[i] = old[goodList[i]]], where
    [old] is the copy of [v] taken before. *)
Definition keepGood {A} (d : A) (goodList : list Z) (v : list A)
  : result (list A) :=
  let old := v in
  forLoop (length goodList)
    (fun i v =>
       let* g := vat goodList (Z.of_nat i) in
       let* x := vat old g in
       vset v (Z.of_nat i) x)
    (resize (length goodList) d v).

(** The loop over the wedges of a vertex in the per-vertex branch; the
    state is [isGood] and [cur].  [&&] does not read [P[cur]] once
    [isGood] is false. *)
Definition wedgesGood (P : list Matrix4d) (j : nat) (st : bool * Z)
  : result (bool * Z) :=
  let '(isGood, cur) := st in
  let* isGood :=
    (if isGood then let* M := vat P cur in Ok (nonDegenerate M)
     else Ok false) in
  Ok (isGood, cur + 1).

(** [removeDegenerate(tetMode, numPts, tetList, faceList, edgeList,
    vertexList, P)]: the returned count and the updated lists. *)
Definition removeDegenerate (tetMode numPts : Z) (tetList faceList : list Z)
    (edgeList : list edge) (vertexList : list vertex) (P : list Matrix4d)
  : result (Z * lists) :=
  let* '(faceList, edgeList, vertexList) :=
    if tetMode =? TM_FACE then
      let oldFaceList := faceList in
      let numTet := Z.to_nat (size tetList / 4) in
      let* goodList :=
        forLoop numTet
          (fun i goodList =>
             let* M := vat P (Z.of_nat i) in
             if nonDegenerate M then Ok (push_back goodList (Z.of_nat i))
             else Ok goodList)
          [] in
      let numFaces := length goodList in
      let* faceList :=
        forLoop numFaces
          (fun i faceList =>
             let i := Z.of_nat i in
             let* g := vat goodList i in
             let* a := vat oldFaceList (3 * g) in
             let* faceList := vset faceList (3 * i) a in
             let* g := vat goodList i in
             let* b := vat oldFaceList (3 * g + 1) in
             let* faceList := vset faceList (3 * i + 1) b in
             let* g := vat goodList i in
             let* c := vat oldFaceList (3 * g + 2) in
             vset faceList (3 * i + 2) c)
          (resize (3 * numFaces) 0%Z faceList) in
      let* '(edgeList, _) := makeEdgeList faceList in
      Ok (faceList, edgeList, vertexList)
    else if tetMode =? TM_EDGE then
      let* goodList :=
        forLoop (length edgeList)
          (fun i goodList =>
             let* M0 := vat P (2 * Z.of_nat i) in
             if nonDegenerate M0 then
               let* M1 := vat P (2 * Z.of_nat i + 1) in
               if nonDegenerate M1 then Ok (push_back goodList (Z.of_nat i))
               else Ok goodList
             else Ok goodList)
          [] in
      let* edgeList := keepGood edge_default goodList edgeList in
      Ok (faceList, edgeList, vertexList)
    else if (tetMode =? TM_VERTEX) || (tetMode =? TM_VFACE) then
      let* '(goodList, _) :=
        forLoop (length vertexList)
          (fun i '(goodList, cur) =>
             let* v := vat vertexList (Z.of_nat i) in
             let* '(isGood, cur) :=
               forLoop (length (connectedTriangles v) / 2) (wedgesGood P)
                 (true, cur) in
             Ok (if isGood : bool then push_back goodList (Z.of_nat i)
                 else goodList, cur))
          ([], 0%Z) in
      let* vertexList := keepGood vertex_default goodList vertexList in
      Ok (faceList, edgeList, vertexList)
    else Ok (faceList, edgeList, vertexList) in
  let* '(tetList, dim) :=
    makeTetList tetMode numPts faceList edgeList vertexList in
  Ok (dim, Lists tetList faceList edgeList vertexList).

(** Tetrahedron [t] has a frame in [P] and it is not degenerate. *)
Definition good (P : list Matrix4d) (t : nat) : bool :=
  match P !! t with
  | Some M => nonDegenerate M
  | None => false
  end.

(** Both tetrahedra of edge [i] are good. *)
Definition bothGood (P : list Matrix4d) (i : nat) : bool :=
  good P (2 * i) && good P (2 * i + 1).

(** Every wedge of vertex [i] is good; the wedges of vertex [i] are the
    tetrahedra that follow those of the vertices before it. *)
Definition allGood (P : list Matrix4d) (vertexList : list vertex) (i : nat)
  : bool :=
  match vertexList !! i with
  | Some v => forallb (fun k => good P (wedgeCount (take i vertexList) + k))
                      (seq 0 (wedges v))
  | None => false
  end.

(** The entries of [v] at the positions that satisfy [keep], in order. *)
Definition keptAt {A} (keep : nat -> bool) (v : list A) : list A :=
  omap (fun i => v !! i) (filter (fun i => keep i = true) (seq 0 (length v))).

(** A frame of determinant -1, and a frame of four equal rows. *)
Definition frame_unit : Matrix4d :=
  mat (V3 0 0 0) (V3 1 0 0) (V3 0 1 0) (V3 0 0 1).
Definition frame_flat : Matrix4d := mat Zero Zero Zero Zero.

(** The edge of the unit square, and its two per-edge tetrahedra. *)
Definition squareEdge : edge := newEdge 0 2 0 1.
Definition squareEdgeTets : list Z := [2; 0; 1; 4; 0; 2; 3; 4]%Z.

(** A vertex with two wedges, and its two per-vertex tetrahedra. *)
Definition fanVertex : vertex := Vertex 0 [1; 2; 2; 3]%Z.
Definition fanTetList : list Z := [0; 1; 2; 4; 0; 2; 3; 4]%Z.

(** ** Keys of the edge map *)

(** [couple<int>::operator==] and [couple<int>::operator<], on the pair
    [(left, right)]; the second is the order of the keys of the map
    [edges]. *)
Definition couple_eq (a b : Z * Z) : bool :=
  (fst a =? fst b) && (snd a =? snd b).

Definition couple_lt (a b : Z * Z) : bool :=
  (fst a <? fst b) || ((fst a =? fst b) && (snd a <? snd b)).

(** The pair [pa] is a side of face [f] of [faceList]. *)
Definition sideOfFace (faceList : list Z) (pa : Z * Z) (f : Z) : Prop :=
  0 <= f < size faceList / 3 /\
  exists j, (j < 3)%nat /\ sideOf faceList (Z.to_nat f) j = Some pa.

(** ** Entries of the tetrahedron list *)

(** The four entries of tetrahedron [t], and the three corners of face
    [f]. *)
Definition tetAt (tetList : list Z) (t : nat) : list Z :=
  take 4 (drop (4 * t) tetList).

Definition faceAt (faceList : list Z) (f : nat) : list Z :=
  take 3 (drop (3 * f) faceList).

(** [x] is an end of the edge [e]: the test of the [while] loop of the
    [TM_EDGE] branch of [makeTetList]. *)
Definition onEdge (e : edge) (x : Z) : bool :=
  (x =? fst (vertices e)) || (x =? snd (vertices e)).

(** The tetrahedron [tet] of edge number [i] on face [f]: the corners of
    the face in their cyclic order, rotated so that the first corner
    that is not an end of the edge comes third, and the ghost point of
    the edge. *)
Definition rotatesFace (numPts : Z) (faceList : list Z) (e : edge)
    (i f : nat) (tet : list Z) : Prop :=
  exists k x y z,
    (k < 3)%nat /\
    faceList !! (3 * f + k)%nat = Some z /\
    faceList !! (3 * f + (k + 1) mod 3)%nat = Some x /\
    faceList !! (3 * f + (k + 2) mod 3)%nat = Some y /\
    onEdge e z = false /\
    (forall k' w, (k' < k)%nat -> faceList !! (3 * f + k')%nat = Some w ->
                  onEdge e w = true) /\
    tet = [x; y; z; numPts + Z.of_nat i].

(** ** Totals and bounds of the weight transfer *)

(** The sum of a vector of doubles. *)
Definition Qsum (v : list Q) : Q := foldr Qplus 0%Q v.

(** The number of points that [makePtsWeightList] adds the weight of one
    tetrahedron to: its three corners, the two ends of its edge, or its
    vertex. *)
Definition fanout (tetMode : Z) : Q :=
  if tetMode =? TM_FACE then 3%Q
  else if tetMode =? TM_EDGE then 2%Q
  else if (tetMode =? TM_VERTEX) || (tetMode =? TM_VFACE) then 1%Q
  else 0%Q.

(** The number of tetrahedra that the loops of the weight transfer
    visit: all of [tetList], or two for every edge. *)
Definition visitedTets (tetMode : Z) (tetList : list Z)
    (edgeList : list edge) : nat :=
  if tetMode =? TM_FACE then (length tetList / 4)%nat
  else if tetMode =? TM_EDGE then (2 * length edgeList)%nat
  else if (tetMode =? TM_VERTEX) || (tetMode =? TM_VFACE)
       then (length tetList / 4)%nat
  else 0%nat.

(** The point indices of the ends of the edges are valid for [numPts]
    points. *)
Definition edgeEndsInRange (numPts : Z) (edgeList : list edge) : Prop :=
  Forall (fun e => 0 <= fst (vertices e) < numPts /\
                   0 <= snd (vertices e) < numPts) edgeList.

(** Input on which the weight transfer reads and writes in range, for
    [numPts] points and [numWeights] tetrahedron weights. *)
Definition weightInput (tetMode numPts : Z) (tetList : list Z)
    (edgeList : list edge) (numWeights : nat) : Prop :=
  if tetMode =? TM_EDGE
  then edgeEndsInRange numPts edgeList /\
       (2 * length edgeList <= numWeights)%nat
  else cornersInRange numPts tetList /\
       (length tetList / 4 <= numWeights)%nat.

(** Point weights for the unit square, and tetrahedron weights for its
    two per-face tetrahedra. *)
Definition squareWeights : list Q := [1; 2; 3; 4]%Q.
Definition squareTetWeights : list Q := [2; 3]%Q.

(** ** What the degeneracy filter keeps *)

(** The corners of the faces [G] of [faceList], face after face. *)
Definition facesAt (faceList : list Z) (G : list nat) : list Z :=
  flat_map (faceAt faceList) G.

(** The faces whose per-face tetrahedron is good. *)
Definition goodFaces (P : list Matrix4d) (numTet : nat) : list nat :=
  filter (fun i => good P i = true) (seq 0 numTet).

(** There is a frame in [P] for every tetrahedron that the per-edge or
    per-vertex branch of [removeDegenerate] tests. *)
Definition framesCover (tetMode : Z) (edgeList : list edge)
    (vertexList : list vertex) (P : list Matrix4d) : Prop :=
  if tetMode =? TM_EDGE then (2 * length edgeList <= length P)%nat
  else (wedgeCount vertexList <= length P)%nat.



(** ** Tetrahedron centres *)

(** [a / 3] *)
Definition third (a : Vector3d) : Vector3d :=
  V3 (vx a / 3)%Q (vy a / 3)%Q (vz a / 3)%Q.

(** The value of a default-constructed [Vector3d], which Eigen leaves
    uninitialised. *)
Definition Vector3d_default : Vector3d := Zero.

(** [makeTetCenterList(tetMode, pts, tetList, tetCenter)]: the new
    [tetCenter]. *)
Definition makeTetCenterList (tetMode : Z) (pts : list Vector3d)
    (tetList : list Z) (tetCenter : list Vector3d)
  : result (list Vector3d) :=
  let numTet := Z.to_nat (size tetList / 4) in
  let tetCenter := resize numTet Vector3d_default tetCenter in
  if tetMode =? TM_FACE then
    forLoop numTet
      (fun i tetCenter =>
         let i := Z.of_nat i in
         let* p0 := point pts tetList (4 * i) in
         let* p1 := point pts tetList (4 * i + 1) in
         let* p2 := point pts tetList (4 * i + 2) in
         vset tetCenter i (third (plus (plus p0 p1) p2)))
      tetCenter
  else if tetMode =? TM_EDGE then
    forLoop numTet
      (fun i tetCenter =>
         let i := Z.of_nat i in
         let* p0 := point pts tetList (4 * i) in
         let* p1 := point pts tetList (4 * i + 1) in
         vset tetCenter i (half (plus p0 p1)))
      tetCenter
  else if (tetMode =? TM_VERTEX) || (tetMode =? TM_VFACE) then
    forLoop numTet
      (fun i tetCenter =>
         let i := Z.of_nat i in
         let* p0 := point pts tetList (4 * i) in
         vset tetCenter i p0)
      tetCenter
  else Ok tetCenter.

(** What the centre [c] of a tetrahedron with the corners [p0], [p1],
    [p2] is in each mode: the centroid of the triangle, the midpoint of
    the first two corners, or the first corner. *)
Definition centreOf (tetMode : Z) (p0 p1 p2 c : Vector3d) : Prop :=
  if tetMode =? TM_FACE then veq (scale 3 c) (plus (plus p0 p1) p2)
  else if tetMode =? TM_EDGE then
    veq (scale 2 c) (plus p0 p1) /\
    (squaredNorm (minus c p0) == squaredNorm (minus c p1))%Q
  else if (tetMode =? TM_VERTEX) || (tetMode =? TM_VFACE) then c = p0
  else True.

(** The rows of [tetCenter] that the loop of a mode writes. *)
Definition writtenCentres (tetMode : Z) (tetList : list Z) : nat :=
  if (tetMode =? TM_FACE) || (tetMode =? TM_EDGE) ||
     (tetMode =? TM_VERTEX) || (tetMode =? TM_VFACE)
  then (length tetList / 4)%nat else 0%nat.

(** ** Tetrahedra of the wedges *)

(** The tetrahedron of wedge [j] of vertex [v] with the ghost point
    [ghost]: the vertex, the two neighbours of the wedge, the ghost
    point. *)
Definition wedgeTet (v : vertex) (j : nat) (ghost : Z) (tet : list Z) : Prop :=
  exists a b,
    connectedTriangles v !! (2 * j)%nat = Some a /\
    connectedTriangles v !! (2 * j + 1)%nat = Some b /\
    tet = [index v; a; b; ghost].

(** ** Rows of the adjacency *)

(** Every entry of every row is one of the [n] tetrahedra. *)
Definition rowsInRange (n : nat) (adjacencyList : list (list Z)) : Prop :=
  Forall (Forall (fun b => 0 <= b < Z.of_nat n)) adjacencyList.

(** ** Round trip of the weights in the per-vertex modes *)

(** The first entries of the first [i] tetrahedra of [tetList], and the
    number of tetrahedra of [tetList] whose first entry is the point
    [p]: in the per-vertex modes, the number of wedges of the vertex at
    [p]. *)
Definition anchorsBefore (tetList : list Z) (i : nat) : list Z :=
  flat_map (fun i => take 1 (drop (4 * i) tetList)) (seq 0 i).

Definition anchorCount (tetList : list Z) (p : Z) : nat :=
  hits p (anchorsBefore tetList (length tetList / 4)).

(** ** Input of the frame builders *)



(** ** Pairs of corners and the triangles they occur in *)

(** The triangles of [faceList] in which the pair of [a] and [b] occurs:
    those that have both [a] and [b] among their three corners, in
    order. *)
Definition trianglesWith (faceList : list Z) (a b : Z) : list Z :=
  Z.of_nat <$> filter (fun f => a ∈ faceAt faceList f /\
                                b ∈ faceAt faceList f)
                      (seq 0 (length faceList / 3)).

(** A triangle with a repeated corner. *)
Definition repeatedCorner : list Z := [5; 5; 7].

(** ** Relations between tetrahedra *)

(** Per-edge mode.  Tetrahedron [2i+j] is built on face [j] of edge [i].
    The number of relations between the tetrahedra [2i+j] and [2i'+j']:
    one if they are the two tetrahedra of one edge, and one if they are
    tetrahedra of two different edges on the same face. *)
Definition edgeRelations (edgeList : list edge) (i j i' j' : nat) : nat :=
  match edgeList !! i, edgeList !! i' with
  | Some e, Some e' =>
      if decide (i = i') then (if decide (j = j') then 0 else 1)%nat
      else if decide (sel (faces e) j = sel (faces e') j') then 1%nat
           else 0%nat
  | _, _ => 0%nat
  end.

(** The tetrahedra on face [f] among those of the first [m] edges, in
    order: the row [f] of [faceShareList] after [m] passes. *)
Definition shareOf (edgeList : list edge) (m : nat) (f : Z) : list Z :=
  flat_map
    (fun i => match edgeList !! i with
              | Some e =>
                  (if decide (fst (faces e) = f) then [2 * Z.of_nat i]
                   else [])
                  ++ (if decide (snd (faces e) = f)
                      then [2 * Z.of_nat i + 1] else [])
              | None => []
              end)
    (seq 0 m).

(** Per-vertex and vface modes.  The two directed pairs that wedge [j] of
    the vertex [v] looks up in the map [edges], in order, each with the
    index of the wedge; [cur] is the index of the first wedge of [v]. *)
Definition wedgeKeys (v : vertex) (cur : nat) (j : nat)
  : list ((Z * Z) * Z) :=
  match connectedTriangles v !! (2 * j)%nat,
        connectedTriangles v !! (2 * j + 1)%nat with
  | Some s, Some t => [((index v, s), Z.of_nat (cur + j));
                       ((t, index v), Z.of_nat (cur + j))]
  | _, _ => []
  end.

(** The pairs of the first [j] wedges of [v], and of all the wedges of
    the vertices of [vertexList], whose first wedge has the index
    [cur]. *)
Definition vertexKeys (v : vertex) (cur : nat) (j : nat)
  : list ((Z * Z) * Z) :=
  flat_map (wedgeKeys v cur) (seq 0 j).

Fixpoint fanKeys (cur : nat) (vertexList : list vertex)
  : list ((Z * Z) * Z) :=
  match vertexList with
  | [] => []
  | v :: vs => vertexKeys v cur (wedges v) ++ fanKeys (cur + wedges v) vs
  end.

(** The number of vertices that have both [x] and [y] among their
    wedges: 1 if [x] and [y] are wedges of the same vertex. *)
Fixpoint fanLinks (cur : nat) (vertexList : list vertex) (x y : nat) : nat :=
  match vertexList with
  | [] => 0%nat
  | v :: vs => (fanRows cur (wedges v) (wedges v) x y
                + fanLinks (cur + wedges v) vs x y)%nat
  end.

(** The number of times the wedge [x] comes with a pair that has been
    seen before, and first with the wedge [y]; [pre] are the pairs
    before those of [keys]. *)
Fixpoint sharedFrom (pre keys : list ((Z * Z) * Z)) (x y : Z) : nat :=
  match keys with
  | [] => 0%nat
  | (pa, c) :: rest =>
      ((if decide (c = x /\ head (seen pa pre) = Some y) then 1 else 0)
       + sharedFrom (pre ++ [(pa, c)]) rest x y)%nat
  end.

Definition sharedWith (keys : list ((Z * Z) * Z)) (x y : Z) : nat :=
  sharedFrom [] keys x y.

(** A vertex whose two wedges start with the same neighbour. *)
Definition twinVertex : vertex := Vertex 0 [1; 2; 1; 3].
(** * Properties *)

(** ** The error monad, vectors and loops *)

Lemma bind_Ok {A B} (r : result A) (k : A -> result B) (b : B) :
  bind r k = Ok b -> exists a, r = Ok a /\ k a = Ok b.
Proof. destruct r as [a|f]; simpl; [eauto | discriminate]. Qed.

Ltac inv_bind H :=
  let a := fresh "a" in
  let Ha := fresh "Ha" in
  apply bind_Ok in H; destruct H as (a & Ha & H).

Lemma vat_Ok {A} (v : list A) i x :
  vat v i = Ok x <-> 0 <= i /\ v !! Z.to_nat i = Some x.
Proof.
  unfold vat. destruct (Z.ltb_spec i 0).
  - split; [discriminate | lia].
  - destruct (v !! Z.to_nat i) eqn:E; split.
    + intros [= ->]. auto.
    + intros [_ [= ->]]. reflexivity.
    + discriminate.
    + intros [_ [=]].
Qed.

Lemma vat_lt {A} (v : list A) i :
  0 <= i < size v -> exists x, vat v i = Ok x.
Proof.
  intros [H0 H1]. unfold size in H1.
  destruct (lookup_lt_is_Some_2 v (Z.to_nat i)) as [x Hx]; [lia|].
  exists x. apply vat_Ok. auto.
Qed.

Lemma vat_nat {A} (v : list A) (n : nat) x :
  vat v (Z.of_nat n) = Ok x <-> v !! n = Some x.
Proof. rewrite vat_Ok, Nat2Z.id. intuition lia. Qed.

Lemma vset_Ok {A} (v : list A) i x v' :
  vset v i x = Ok v' <-> (0 <= i < size v) /\ v' = <[Z.to_nat i := x]> v.
Proof.
  unfold vset, size.
  destruct (Z.leb_spec 0 i), (Z.ltb_spec i (Z.of_nat (length v))); simpl;
    split; try discriminate; try (intros [? _]; lia).
  - intros [= <-]. split; [lia | reflexivity].
  - intros [_ ->]. reflexivity.
Qed.

(** Total-correctness rule: an invariant that every iteration preserves,
    and under which every iteration is defined, holds at the end. *)
Lemma forFrom_total {S} (I : nat -> S -> Prop) body n :
  forall i (s : S),
    I i s ->
    (forall k s, (i <= k < i + n)%nat -> I k s ->
                 exists s', body k s = Ok s' /\ I (Datatypes.S k) s') ->
    exists s', forFrom i n body s = Ok s' /\ I (i + n)%nat s'.
Proof.
  induction n as [|n IH]; intros i s Hi Hstep; simpl.
  - exists s. rewrite Nat.add_0_r. auto.
  - destruct (Hstep i s) as (s1 & -> & H1); [lia | assumption |]. simpl.
    destruct (IH (Datatypes.S i) s1 H1) as (s2 & -> & H2).
    + intros k s0 Hk. apply Hstep. lia.
    + exists s2. split; [reflexivity|].
      replace (i + Datatypes.S n)%nat with (Datatypes.S i + n)%nat by lia.
      exact H2.
Qed.

(** Partial-correctness rule, for runs that are known to be defined. *)
Lemma forFrom_inv {S} (I : nat -> S -> Prop) body n :
  forall i (s s' : S),
    forFrom i n body s = Ok s' ->
    I i s ->
    (forall k s s', (i <= k < i + n)%nat -> I k s -> body k s = Ok s' ->
                    I (Datatypes.S k) s') ->
    I (i + n)%nat s'.
Proof.
  induction n as [|n IH]; intros i s s' Hrun Hi Hstep; simpl in Hrun.
  - injection Hrun as <-. rewrite Nat.add_0_r. assumption.
  - inv_bind Hrun.
    replace (i + Datatypes.S n)%nat with (Datatypes.S i + n)%nat by lia.
    apply (IH _ _ _ Hrun).
    + apply (Hstep i s a); [lia | assumption | assumption].
    + intros k s0 s0' Hk. apply Hstep. lia.
Qed.

Lemma forLoop_total {S} (I : nat -> S -> Prop) body n (s : S) :
  I O s ->
  (forall k s, (k < n)%nat -> I k s ->
               exists s', body k s = Ok s' /\ I (Datatypes.S k) s') ->
  exists s', forLoop n body s = Ok s' /\ I n s'.
Proof.
  intros H0 Hstep. apply (forFrom_total I body n 0%nat s H0).
  intros k s0 Hk. apply Hstep. lia.
Qed.

Lemma forLoop_inv {S} (I : nat -> S -> Prop) body n (s s' : S) :
  forLoop n body s = Ok s' ->
  I O s ->
  (forall k s s', (k < n)%nat -> I k s -> body k s = Ok s' ->
                  I (Datatypes.S k) s') ->
  I n s'.
Proof.
  intros Hrun H0 Hstep.
  apply (forFrom_inv I body n 0%nat s s' Hrun H0).
  intros k s0 s0' Hk. apply Hstep. lia.
Qed.

(** ** Tetrahedron construction *)

Lemma vset_lt {A} (v : list A) i x :
  0 <= i < size v -> vset v i x = Ok (<[Z.to_nat i := x]> v).
Proof. intros H. apply vset_Ok. auto. Qed.

Lemma size_insert {A} (v : list A) n x : size (<[n := x]> v) = size v.
Proof. unfold size. now rewrite length_insert. Qed.

(** Writing the four entries of tetrahedron [t] sets its apex slot and
    leaves the apex slots of the other tetrahedra alone. *)
Lemma write_tet (tl : list Z) (t : nat) a b c x :
  (4 * t + 3 < length tl)%nat ->
  let tl' := <[(4 * t + 3)%nat := x]>
               (<[(4 * t + 2)%nat := c]>
                  (<[(4 * t + 1)%nat := b]> (<[(4 * t)%nat := a]> tl))) in
  length tl' = length tl /\
  apexAt tl' t = Some x /\
  forall t', t' <> t -> apexAt tl' t' = apexAt tl t'.
Proof.
  intros Hlen tl'. subst tl'. unfold apexAt. repeat split.
  - now rewrite !length_insert.
  - apply list_lookup_insert_eq. rewrite !length_insert. lia.
  - intros t' Ht. rewrite !list_lookup_insert_ne by lia. reflexivity.
Qed.

Lemma makeTetList_face numPts faceList edgeList vertexList :
  exists tetList,
    makeTetList TM_FACE numPts faceList edgeList vertexList
      = Ok (tetList, numPts + Z.of_nat (length faceList / 3)) /\
    length tetList = (4 * (length faceList / 3))%nat /\
    forall t, (t < length faceList / 3)%nat ->
              apexAt tetList t = Some (numPts + Z.of_nat t).
Proof.
  unfold makeTetList. simpl (TM_FACE =? TM_FACE). cbv iota.
  set (n := (length faceList / 3)%nat).
  assert (Hn : size faceList / 3 = Z.of_nat n).
  { unfold size, n. now rewrite Nat2Z.inj_div. }
  assert (Hn3 : (3 * n <= length faceList)%nat).
  { unfold n. apply Nat.Div0.mul_div_le. }
  rewrite Hn, Nat2Z.id.
  match goal with
  | |- context [forLoop n ?body ?s0] =>
      destruct (forLoop_total
        (fun i tl => length tl = (4 * n)%nat /\
           forall t, (t < i)%nat -> apexAt tl t = Some (numPts + Z.of_nat t))
        body n s0) as (tl & Hrun & Hlen & Hapex)
  end.
  - split; [rewrite length_resize; lia | intros; lia].
  - intros i tl Hi [Hlen Hapex].
    destruct (vat_lt faceList (3 * Z.of_nat i)) as [a ->]; [unfold size; lia|].
    destruct (vat_lt faceList (3 * Z.of_nat i + 1)) as [b ->]; [unfold size; lia|].
    destruct (vat_lt faceList (3 * Z.of_nat i + 2)) as [c ->]; [unfold size; lia|].
    cbn [bind].
    rewrite vset_lt by (unfold size; lia). cbn [bind].
    rewrite vset_lt by (rewrite size_insert; unfold size; lia). cbn [bind].
    rewrite vset_lt by (rewrite !size_insert; unfold size; lia). cbn [bind].
    rewrite vset_lt by (rewrite !size_insert; unfold size; lia).
    eexists; split; [reflexivity|].
    replace (Z.to_nat (4 * Z.of_nat i)) with (4 * i)%nat by lia.
    replace (Z.to_nat (4 * Z.of_nat i + 1)) with (4 * i + 1)%nat by lia.
    replace (Z.to_nat (4 * Z.of_nat i + 2)) with (4 * i + 2)%nat by lia.
    replace (Z.to_nat (4 * Z.of_nat i + 3)) with (4 * i + 3)%nat by lia.
    destruct (write_tet tl i a b c (Z.of_nat i + numPts)) as (L & Hi' & Hother);
      [lia|].
    split; [lia|].
    intros t Ht. destruct (Nat.eq_dec t i) as [->|Hne].
    + rewrite Hi'. f_equal. lia.
    + rewrite Hother by assumption. apply Hapex. lia.
  - exists tl. rewrite Hrun. cbn [bind].
    split; [f_equal; f_equal; lia | auto].
Qed.

Lemma skipEdgeEnds_found e l k0 :
  existsb (fun x => negb ((x =? fst (vertices e)) || (x =? snd (vertices e))))
          (take 3 l) = true ->
  exists k, (k < 3)%nat /\ (k < length l)%nat /\
            skipEdgeEnds e l k0 = Ok (k0 + k)%nat.
Proof.
  destruct l as [|x [|y [|z l]]]; simpl; try discriminate;
    destruct ((x =? fst (vertices e)) || (x =? snd (vertices e))); simpl;
    try discriminate;
    try (intros _; exists 0%nat; repeat split; [lia | lia | f_equal; lia]);
    destruct ((y =? fst (vertices e)) || (y =? snd (vertices e))); simpl;
    try discriminate;
    try (intros _; exists 1%nat; repeat split; [lia | lia | f_equal; lia]);
    destruct ((z =? fst (vertices e)) || (z =? snd (vertices e))); simpl;
    try discriminate;
    intros _; exists 2%nat; repeat split; [lia | lia | f_equal; lia].
Qed.

Lemma makeTetList_edge_step numPts faceList edgeList i j e tl :
  edgeList !! i = Some e ->
  (j < 2)%nat ->
  faceOfEdge faceList e (sel (faces e) j) = true ->
  (4 * (2 * i + j) + 3 < length tl)%nat ->
  exists tl',
    makeTetList_edge numPts faceList edgeList i j tl = Ok tl' /\
    length tl' = length tl /\
    apexAt tl' (2 * i + j) = Some (numPts + Z.of_nat i) /\
    forall t', t' <> (2 * i + j)%nat -> apexAt tl' t' = apexAt tl t'.
Proof.
  intros He Hj Hwf Hlen. unfold makeTetList_edge.
  apply vat_nat in He. rewrite He. cbn [bind].
  set (f := sel (faces e) j) in *.
  unfold faceOfEdge in Hwf.
  apply andb_prop in Hwf as [Hwf Hex]. apply andb_prop in Hwf as [Hf0 Hf3].
  apply Z.leb_le in Hf0, Hf3.
  destruct (Z.ltb_spec (3 * f) 0) as [|_]; [lia|].
  destruct (skipEdgeEnds_found e _ 0%nat Hex) as (k & Hk & _ & ->).
  cbn [bind]. simpl (0 + k)%nat.
  destruct (Z.ltb_spec (Z.of_nat k) 3) as [_|]; [|lia]. cbn [negb].
  assert (Hm1 : 0 <= (Z.of_nat k + 1) mod 3 < 3) by (apply Z.mod_pos_bound; lia).
  assert (Hm2 : 0 <= (Z.of_nat k + 2) mod 3 < 3) by (apply Z.mod_pos_bound; lia).
  destruct (vat_lt faceList (3 * f + (Z.of_nat k + 1) mod 3)) as [a ->]; [lia|].
  destruct (vat_lt faceList (3 * f + (Z.of_nat k + 2) mod 3)) as [b ->]; [lia|].
  destruct (vat_lt faceList (3 * f + Z.of_nat k)) as [c ->]; [lia|].
  cbn [bind].
  rewrite vset_lt by (unfold size; lia). cbn [bind].
  rewrite vset_lt by (rewrite size_insert; unfold size; lia). cbn [bind].
  rewrite vset_lt by (rewrite !size_insert; unfold size; lia). cbn [bind].
  rewrite vset_lt by (rewrite !size_insert; unfold size; lia).
  eexists; split; [reflexivity|].
  replace (Z.to_nat (8 * Z.of_nat i + 4 * Z.of_nat j))
    with (4 * (2 * i + j))%nat by lia.
  replace (Z.to_nat (8 * Z.of_nat i + 4 * Z.of_nat j + 1))
    with (4 * (2 * i + j) + 1)%nat by lia.
  replace (Z.to_nat (8 * Z.of_nat i + 4 * Z.of_nat j + 2))
    with (4 * (2 * i + j) + 2)%nat by lia.
  replace (Z.to_nat (8 * Z.of_nat i + 4 * Z.of_nat j + 3))
    with (4 * (2 * i + j) + 3)%nat by lia.
  rewrite (Z.add_comm (Z.of_nat i) numPts).
  apply write_tet. assumption.
Qed.

Lemma wellFormed_edge faceList edgeList i e j :
  wellFormed TM_EDGE faceList edgeList = true ->
  edgeList !! i = Some e ->
  (j < 2)%nat ->
  faceOfEdge faceList e (sel (faces e) j) = true.
Proof.
  unfold wellFormed. simpl (TM_EDGE =? TM_EDGE). cbv iota.
  intros Hall He Hj. rewrite forallb_forall in Hall.
  specialize (Hall e). rewrite <- list_elem_of_In in Hall.
  apply list_elem_of_lookup_2 in He. apply Hall in He.
  apply andb_prop in He as [H0 H1].
  destruct j as [|[|j]]; simpl; [assumption | assumption | lia].
Qed.

Lemma makeTetList_edge_mode numPts faceList edgeList vertexList :
  wellFormed TM_EDGE faceList edgeList = true ->
  exists tetList,
    makeTetList TM_EDGE numPts faceList edgeList vertexList
      = Ok (tetList, numPts + Z.of_nat (length edgeList)) /\
    length tetList = (4 * (2 * length edgeList))%nat /\
    forall t, (t < 2 * length edgeList)%nat ->
              apexAt tetList t = Some (numPts + Z.of_nat (t / 2)).
Proof.
  intros Hwf. unfold makeTetList.
  simpl (TM_EDGE =? TM_FACE). simpl (TM_EDGE =? TM_EDGE). cbv iota.
  set (n := length edgeList).
  pose (Inv := fun (m : nat) (tl : list Z) =>
    length tl = (4 * (2 * n))%nat /\
    forall t, (t < m)%nat -> apexAt tl t = Some (numPts + Z.of_nat (t / 2))).
  match goal with
  | |- context [forLoop n ?body ?s0] =>
      destruct (forLoop_total (fun i => Inv (2 * i)%nat) body n s0)
        as (tl & Hrun & Hlen & Hapex)
  end.
  - split; [rewrite length_resize; unfold size; fold n; lia | intros; lia].
  - intros i tl Hi HI.
    destruct (lookup_lt_is_Some_2 edgeList i) as [e He]; [assumption|].
    destruct (forLoop_total (fun j => Inv (2 * i + j)%nat)
                (makeTetList_edge numPts faceList edgeList i) 2 tl)
      as (tl' & Hrun' & HI').
    + now rewrite Nat.add_0_r.
    + intros j tl0 Hj [Hlen0 Hapex0].
      destruct (makeTetList_edge_step numPts faceList edgeList i j e tl0)
        as (tl1 & Hstep & Hlen1 & Hnew & Hold); auto.
      * eapply wellFormed_edge; eauto.
      * lia.
      * exists tl1. split; [assumption|]. split; [lia|].
        intros t Ht. destruct (Nat.eq_dec t (2 * i + j)%nat) as [->|Hne].
        -- rewrite Hnew. do 2 f_equal.
           rewrite Nat.mul_comm, Nat.div_add_l by lia.
           rewrite (Nat.div_small j 2) by lia. lia.
        -- rewrite Hold by assumption. apply Hapex0. lia.
    + exists tl'. split; [assumption|].
      replace (2 * S i)%nat with (2 * i + 2)%nat by lia. assumption.
  - exists tl. rewrite Hrun. cbn [bind]. unfold size. fold n.
    split; [reflexivity|]. split; [assumption|]. assumption.
Qed.

Lemma wedgeCount_app vs ws :
  wedgeCount (vs ++ ws) = (wedgeCount vs + wedgeCount ws)%nat.
Proof.
  unfold wedgeCount. induction vs as [|v vs IH]; simpl; [reflexivity|].
  rewrite IH. lia.
Qed.

Lemma wedgeCount_take_S vs i v :
  vs !! i = Some v ->
  wedgeCount (take (S i) vs) = (wedgeCount (take i vs) + wedges v)%nat.
Proof.
  intros Hv. rewrite (take_S_r _ _ _ Hv), wedgeCount_app.
  unfold wedgeCount at 2. simpl. lia.
Qed.

Lemma wedge_reads (v : vertex) j :
  (j < wedges v)%nat ->
  exists a b, vat (connectedTriangles v) (2 * Z.of_nat j) = Ok a /\
              vat (connectedTriangles v) (2 * Z.of_nat j + 1) = Ok b.
Proof.
  unfold wedges. intros Hj.
  assert (2 * (length (connectedTriangles v) / 2)
          <= length (connectedTriangles v))%nat
    by apply Nat.Div0.mul_div_le.
  destruct (vat_lt (connectedTriangles v) (2 * Z.of_nat j)) as [a Ha];
    [unfold size; lia|].
  destruct (vat_lt (connectedTriangles v) (2 * Z.of_nat j + 1)) as [b Hb];
    [unfold size; lia|].
  eauto.
Qed.

(** Appending the four entries of a tetrahedron to [m] tetrahedra. *)
Lemma push_tet (tl : list Z) (m : nat) a b c x :
  length tl = (4 * m)%nat ->
  let tl' := push_back (push_back (push_back (push_back tl a) b) c) x in
  length tl' = (4 * S m)%nat /\
  apexAt tl' m = Some x /\
  forall t, (t < m)%nat -> apexAt tl' t = apexAt tl t.
Proof.
  intros Hlen tl'. subst tl'. unfold push_back, apexAt.
  rewrite <- !app_assoc. cbn [app]. repeat split.
  - rewrite length_app. cbn [length]. lia.
  - rewrite lookup_app_r by lia.
    replace (4 * m + 3 - length tl)%nat with 3%nat by lia. reflexivity.
  - intros t Ht. apply lookup_app_l. lia.
Qed.

Lemma makeTetList_vertex_mode numPts faceList edgeList vertexList :
  exists tetList,
    makeTetList TM_VERTEX numPts faceList edgeList vertexList
      = Ok (tetList, numPts + Z.of_nat (length vertexList)) /\
    length tetList = (4 * wedgeCount vertexList)%nat /\
    forall t, (t < wedgeCount vertexList)%nat ->
      exists apex, apexAt tetList t = Some apex /\
                   numPts <= apex < numPts + Z.of_nat (length vertexList).
Proof.
  unfold makeTetList.
  simpl (TM_VERTEX =? _). cbv iota.
  set (n := length vertexList).
  pose (Inv := fun (m : nat) (bound : nat) (tl : list Z) =>
    length tl = (4 * m)%nat /\
    forall t, (t < m)%nat ->
      exists apex, apexAt tl t = Some apex /\
                   numPts <= apex < numPts + Z.of_nat bound).
  match goal with
  | |- context [forLoop n ?body ?s0] =>
      destruct (forLoop_total
                  (fun i => Inv (wedgeCount (take i vertexList)) i) body n s0)
        as (tl & Hrun & Hlen & Hapex)
  end.
  - split; [reflexivity | simpl; intros; lia].
  - intros i tl Hi [Hlen Hapex].
    destruct (lookup_lt_is_Some_2 vertexList i) as [v Hv]; [assumption|].
    rewrite (proj2 (vat_nat vertexList i v) Hv). cbn [bind].
    rewrite (wedgeCount_take_S _ _ _ Hv).
    set (m0 := wedgeCount (take i vertexList)) in *.
    destruct (forLoop_total (fun j => Inv (m0 + j)%nat (S i))
                (makeTetList_vertex numPts v i) (wedges v) tl)
      as (tl' & Hrun' & HI').
    + rewrite Nat.add_0_r. split; [assumption|].
      intros t Ht. destruct (Hapex t Ht) as (x & Hx & Hb).
      exists x. split; [assumption | lia].
    + intros j tl0 Hj [Hlen0 Hapex0]. unfold makeTetList_vertex.
      destruct (wedge_reads v j Hj) as (a & b & -> & ->). cbn [bind].
      eexists; split; [reflexivity|].
      destruct (push_tet tl0 (m0 + j) (index v) a b (numPts + Z.of_nat i) Hlen0)
        as (L & Hnew & Hold).
      split; [rewrite L; lia|].
      intros t Ht. destruct (Nat.eq_dec t (m0 + j)%nat) as [->|Hne].
      * eexists; split; [exact Hnew | lia].
      * rewrite Hold by lia. apply Hapex0. lia.
    + exists tl'. split; assumption.
  - exists tl. rewrite Hrun. cbn [bind]. unfold size. subst n.
    rewrite firstn_all in Hlen, Hapex. auto.
Qed.

Lemma makeTetList_vface_mode numPts faceList edgeList vertexList :
  exists tetList,
    makeTetList TM_VFACE numPts faceList edgeList vertexList
      = Ok (tetList, numPts + Z.of_nat (wedgeCount vertexList)) /\
    length tetList = (4 * wedgeCount vertexList)%nat /\
    forall t, (t < wedgeCount vertexList)%nat ->
              apexAt tetList t = Some (numPts + Z.of_nat t).
Proof.
  unfold makeTetList.
  simpl (TM_VFACE =? _). cbv iota.
  set (n := length vertexList).
  pose (Inv := fun (m : nat) (st : list Z * Z) =>
    length (fst st) = (4 * m)%nat /\ snd st = Z.of_nat m /\
    forall t, (t < m)%nat -> apexAt (fst st) t = Some (numPts + Z.of_nat t)).
  match goal with
  | |- context [forLoop n ?body ?s0] =>
      destruct (forLoop_total
                  (fun i => Inv (wedgeCount (take i vertexList))) body n s0)
        as ([tl cur] & Hrun & Hlen & Hcur & Hapex)
  end.
  - repeat split. simpl; intros; lia.
  - intros i st Hi HI.
    destruct (lookup_lt_is_Some_2 vertexList i) as [v Hv]; [assumption|].
    rewrite (proj2 (vat_nat vertexList i v) Hv). cbn [bind].
    rewrite (wedgeCount_take_S _ _ _ Hv).
    set (m0 := wedgeCount (take i vertexList)) in *.
    destruct (forLoop_total (fun j => Inv (m0 + j)%nat)
                (makeTetList_vface numPts v) (wedges v) st)
      as (st' & Hrun' & HI').
    + now rewrite Nat.add_0_r.
    + intros j [tl0 cur0] Hj (Hlen0 & Hcur0 & Hapex0). cbn [fst snd] in *.
      unfold makeTetList_vface.
      destruct (wedge_reads v j Hj) as (a & b & -> & ->). cbn [bind].
      eexists; split; [reflexivity|]. unfold Inv. cbn [fst snd].
      destruct (push_tet tl0 (m0 + j) (index v) a b (numPts + cur0) Hlen0)
        as (L & Hnew & Hold).
      split; [rewrite L; lia|]. split; [lia|].
      intros t Ht. destruct (Nat.eq_dec t (m0 + j)%nat) as [->|Hne].
      * rewrite Hnew, Hcur0. reflexivity.
      * rewrite Hold by lia. apply Hapex0. lia.
    + exists st'. split; assumption.
  - cbn [fst snd] in *. exists tl. rewrite Hrun. cbn [bind]. subst n.
    rewrite firstn_all in Hlen, Hapex.
    split; [|auto].
    replace (size tl / 4) with (Z.of_nat (wedgeCount vertexList));
      [reflexivity|].
    unfold size. rewrite Hlen. apply (Z.div_unique _ _ _ 0); lia.
Qed.

(** C1.  In each of the four modes and on every well-formed input,
    [makeTetList] is defined and returns [numPts] plus the ghost count of
    the mode (faces, edges, vertices, wedges), and the apex slot (position
    3) of every tetrahedron it emits holds an index of the half-open range
    from [numPts] to the returned count. *)
Theorem makeTetList_total_point_count
    tetMode numPts faceList edgeList vertexList :
  tetMode = TM_FACE \/ tetMode = TM_EDGE \/
  tetMode = TM_VERTEX \/ tetMode = TM_VFACE ->
  wellFormed tetMode faceList edgeList = true ->
  exists tetList,
    let dim := numPts + ghostCount tetMode faceList edgeList vertexList in
    makeTetList tetMode numPts faceList edgeList vertexList
      = Ok (tetList, dim) /\
    forall t, (t < length tetList / 4)%nat ->
      exists apex, apexAt tetList t = Some apex /\ numPts <= apex < dim.
Proof.
  intros [-> | [-> | [-> | ->]]] Hwf; unfold ghostCount;
    simpl (_ =? _); cbv iota zeta.
  - destruct (makeTetList_face numPts faceList edgeList vertexList)
      as (tl & Hrun & Hlen & Hapex).
    exists tl. split; [assumption|]. intros t Ht.
    rewrite Hlen, Nat.mul_comm, Nat.div_mul in Ht by lia.
    exists (numPts + Z.of_nat t). split; [auto | lia].
  - destruct (makeTetList_edge_mode numPts faceList edgeList vertexList Hwf)
      as (tl & Hrun & Hlen & Hapex).
    exists tl. split; [assumption|]. intros t Ht.
    rewrite Hlen, Nat.mul_comm, Nat.div_mul in Ht by lia.
    exists (numPts + Z.of_nat (t / 2)). split; [auto|].
    assert (t / 2 < length edgeList)%nat
      by (apply Nat.Div0.div_lt_upper_bound; lia).
    lia.
  - destruct (makeTetList_vertex_mode numPts faceList edgeList vertexList)
      as (tl & Hrun & Hlen & Hapex).
    exists tl. split; [assumption|]. intros t Ht.
    rewrite Hlen, Nat.mul_comm, Nat.div_mul in Ht by lia. auto.
  - destruct (makeTetList_vface_mode numPts faceList edgeList vertexList)
      as (tl & Hrun & Hlen & Hapex).
    exists tl. split; [assumption|]. intros t Ht.
    rewrite Hlen, Nat.mul_comm, Nat.div_mul in Ht by lia.
    exists (numPts + Z.of_nat t). split; [auto | lia].
Qed.

(** The square of two triangles that share the diagonal 0-2, in per-edge
    mode. *)
Lemma makeTetList_total_point_count_witness :
  exists tetList,
    let dim := 4 + ghostCount TM_EDGE [0; 1; 2; 0; 2; 3] [newEdge 0 2 0 1] [] in
    makeTetList TM_EDGE 4 [0; 1; 2; 0; 2; 3] [newEdge 0 2 0 1] []
      = Ok (tetList, dim) /\
    forall t, (t < length tetList / 4)%nat ->
      exists apex, apexAt tetList t = Some apex /\ 4 <= apex < dim.
Proof.
  apply (makeTetList_total_point_count
           TM_EDGE 4 [0; 1; 2; 0; 2; 3] [newEdge 0 2 0 1] []).
  - right. left. reflexivity.
  - reflexivity.
Defined.

(** The number of entries of [tetList] in the two per-vertex modes. *)
Lemma makeTetList_fan_length tetMode numPts faceList edgeList vertexList :
  tetMode = TM_VERTEX \/ tetMode = TM_VFACE ->
  exists tetList dim,
    makeTetList tetMode numPts faceList edgeList vertexList
      = Ok (tetList, dim) /\
    length tetList = (4 * wedgeCount vertexList)%nat.
Proof.
  intros [-> | ->].
  - destruct (makeTetList_vertex_mode numPts faceList edgeList vertexList)
      as (tl & Hrun & Hlen & _). eauto.
  - destruct (makeTetList_vface_mode numPts faceList edgeList vertexList)
      as (tl & Hrun & Hlen & _). eauto.
Qed.

(** C9, on the code: a fan of one neighbour pair yields one tetrahedron,
    in both per-vertex modes. *)
Lemma one_pair_fan_contributes_one_tetrahedron :
  let v := Vertex 0 [1; 2] in
  wedges v = 1%nat /\
  makeTetList TM_VERTEX 3 [] [] [] = Ok ([], 3) /\
  makeTetList TM_VERTEX 3 [] [] [v] = Ok ([0; 1; 2; 3], 4) /\
  makeTetList TM_VFACE 3 [] [] [] = Ok ([], 3) /\
  makeTetList TM_VFACE 3 [] [] [v] = Ok ([0; 1; 2; 3], 4).
Proof. repeat split. Qed.

(** C9, amended.  In the per-vertex and vface modes a vertex contributes
    one tetrahedron per complete neighbour pair of its fan: with the
    vertex in the list, [tetList] has four more entries per pair than
    without it.  So a fan of fewer than two entries (no pair) contributes
    no tetrahedron, and a fan of one pair contributes exactly one. *)
Theorem makeTetList_fan_contribution
    tetMode numPts faceList edgeList vs1 v vs2 :
  tetMode = TM_VERTEX \/ tetMode = TM_VFACE ->
  exists tetList dim tetList' dim',
    makeTetList tetMode numPts faceList edgeList (vs1 ++ v :: vs2)
      = Ok (tetList, dim) /\
    makeTetList tetMode numPts faceList edgeList (vs1 ++ vs2)
      = Ok (tetList', dim') /\
    length tetList
      = (length tetList' + 4 * (length (connectedTriangles v) / 2))%nat /\
    ((length (connectedTriangles v) < 2)%nat ->
     length tetList = length tetList') /\
    ((2 <= length (connectedTriangles v) < 4)%nat ->
     length tetList = (length tetList' + 4)%nat).
Proof.
  intros Hmode.
  destruct (makeTetList_fan_length tetMode numPts faceList edgeList
              (vs1 ++ v :: vs2) Hmode) as (tl & d & Hrun & Hlen).
  destruct (makeTetList_fan_length tetMode numPts faceList edgeList
              (vs1 ++ vs2) Hmode) as (tl' & d' & Hrun' & Hlen').
  exists tl, d, tl', d'. split; [assumption|]. split; [assumption|].
  assert (Hsum : length tl
                 = (length tl' + 4 * (length (connectedTriangles v) / 2))%nat).
  { rewrite Hlen, Hlen', !wedgeCount_app.
    change (v :: vs2) with ([v] ++ vs2). rewrite wedgeCount_app.
    unfold wedgeCount at 2. cbn [foldr]. unfold wedges. lia. }
  split; [assumption|]. split; intros Hfan; rewrite Hsum.
  - rewrite Nat.div_small by assumption. lia.
  - replace (length (connectedTriangles v) / 2)%nat with 1%nat; [lia|].
    apply (Nat.div_unique _ 2 1 (length (connectedTriangles v) - 2));
      lia.
Qed.

Lemma makeTetList_fan_contribution_witness :
  exists tetList dim tetList' dim',
    makeTetList TM_VFACE 4 [] [] ([Vertex 0 [1; 2; 2; 3]] ++ Vertex 1 [5] :: [])
      = Ok (tetList, dim) /\
    makeTetList TM_VFACE 4 [] [] ([Vertex 0 [1; 2; 2; 3]] ++ [])
      = Ok (tetList', dim') /\
    length tetList
      = (length tetList'
         + 4 * (length (connectedTriangles (Vertex 1%Z [5%Z])) / 2))%nat /\
    ((length (connectedTriangles (Vertex 1%Z [5%Z])) < 2)%nat ->
     length tetList = length tetList') /\
    ((2 <= length (connectedTriangles (Vertex 1%Z [5%Z])) < 4)%nat ->
     length tetList = (length tetList' + 4)%nat).
Proof.
  apply (makeTetList_fan_contribution
           TM_VFACE 4 [] [] [Vertex 0 [1; 2; 2; 3]] (Vertex 1 [5]) []).
  right. reflexivity.
Defined.

(** ** Topology extraction *)

Lemma sidesBefore_next_side faceList i j :
  sidesBefore faceList i (S j) = sidesBefore faceList i j ++ sideOn faceList i j.
Proof.
  unfold sidesBefore. rewrite (seq_S j 0), flat_map_app. simpl.
  now rewrite app_nil_r, app_assoc.
Qed.

Lemma sidesBefore_next_face faceList i :
  sidesBefore faceList (S i) 0 = sidesBefore faceList i 3.
Proof.
  unfold sidesBefore. rewrite (seq_S i 0), flat_map_app. simpl.
  now rewrite !app_nil_r.
Qed.

Lemma seen_snoc pa pre pa0 f :
  seen pa (pre ++ [(pa0, f)])
  = seen pa pre ++ (if decide (pa0 = pa) then [f] else []).
Proof.
  unfold seen. rewrite filter_app, fmap_app. f_equal.
  rewrite filter_cons, filter_nil. simpl.
  destruct (decide (pa0 = pa)); reflexivity.
Qed.

Lemma edgesOf_push pa edgeList e :
  edgesOf pa (push_back edgeList e)
  = edgesOf pa edgeList ++ (if decide (vertices e = pa) then [e] else []).
Proof.
  unfold edgesOf, push_back. rewrite filter_app. reflexivity.
Qed.

(** What one visit does to the state, and that it keeps the invariant. *)
Lemma visit_keeps_Inv pre edges edgeList pa0 f :
  edgeInv pre (edges, edgeList) ->
  edgeInv (pre ++ [(pa0, f)])
      (match edges !! pa0 with
       | None => (<[pa0 := f]> edges, edgeList)
       | Some f0 =>
           (edges, push_back edgeList (newEdge (fst pa0) (snd pa0) f0 f))
       end).
Proof.
  intros HI pa. destruct (HI pa) as [Hmap Hout].
  destruct (HI pa0) as [Hmap0 Hout0]. cbn [fst snd] in *.
  rewrite seen_snoc.
  destruct (edges !! pa0) as [f0|] eqn:E0; cbn [fst snd].
  - (* a later sighting of [pa0]: an edge is emitted *)
    rewrite edgesOf_push. cbn [vertices newEdge].
    rewrite <- surjective_pairing.
    destruct (decide (pa0 = pa)) as [->|Hne].
    + rewrite Hmap, Hout.
      destruct (seen pa pre) as [|f1 rest] eqn:Es; [discriminate|].
      injection Hmap0 as ->. split; [reflexivity|].
      cbn [emitted app]. now rewrite map_app.
    + now rewrite !app_nil_r.
  - (* the first sighting of [pa0]: it is recorded *)
    symmetry in Hmap0. apply head_None in Hmap0.
    destruct (decide (pa0 = pa)) as [->|Hne].
    + rewrite lookup_insert_eq, Hout, Hmap0. split; reflexivity.
    + rewrite lookup_insert_ne by assumption. now rewrite app_nil_r.
Qed.

Lemma side_reads faceList i j :
  (i < length faceList / 3)%nat -> (j < 3)%nat ->
  exists s t,
    vat faceList (3 * Z.of_nat i + Z.of_nat j) = Ok s /\
    vat faceList (3 * Z.of_nat i + (Z.of_nat j + 1) mod 3) = Ok t /\
    sideOf faceList i j = Some (couple_of s t).
Proof.
  intros Hi Hj.
  assert (3 * (length faceList / 3) <= length faceList)%nat
    by apply Nat.Div0.mul_div_le.
  assert (Hm : Z.to_nat (3 * Z.of_nat i + (Z.of_nat j + 1) mod 3)
               = (3 * i + (j + 1) mod 3)%nat).
  { destruct j as [|[|[|j]]]; [ | | | lia].
    - change ((Z.of_nat 0 + 1) mod 3) with 1.
      change ((0 + 1) mod 3)%nat with 1%nat. lia.
    - change ((Z.of_nat 1 + 1) mod 3) with 2.
      change ((1 + 1) mod 3)%nat with 2%nat. lia.
    - change ((Z.of_nat 2 + 1) mod 3) with 0.
      change ((2 + 1) mod 3)%nat with 0%nat. lia. }
  assert (Hb : (3 * i + (j + 1) mod 3 < length faceList)%nat).
  { pose proof (Nat.mod_upper_bound (j + 1) 3). lia. }
  destruct (lookup_lt_is_Some_2 faceList (3 * i + j)) as [s Hs]; [lia|].
  destruct (lookup_lt_is_Some_2 faceList (3 * i + (j + 1) mod 3))
    as [t Ht]; [lia|].
  exists s, t. unfold sideOf. rewrite Hs, Ht. repeat split.
  - apply vat_Ok. split; [lia|].
    replace (Z.to_nat (3 * Z.of_nat i + Z.of_nat j)) with (3 * i + j)%nat
      by lia. assumption.
  - apply vat_Ok. split.
    + pose proof (Z.mod_pos_bound (Z.of_nat j + 1) 3). lia.
    + now rewrite Hm.
Qed.

Lemma makeEdgeList_side_inv faceList i j st :
  (i < length faceList / 3)%nat -> (j < 3)%nat ->
  edgeInv (sidesBefore faceList i j) st ->
  exists st', makeEdgeList_side faceList i j st = Ok st' /\
              edgeInv (sidesBefore faceList i (S j)) st'.
Proof.
  intros Hi Hj HI. destruct st as [edges edgeList].
  destruct (side_reads faceList i j Hi Hj) as (s & t & Hs & Ht & Hside).
  unfold makeEdgeList_side. rewrite Hs, Ht. cbn [bind].
  change (if s >? t then (t, s) else (s, t)) with (couple_of s t).
  rewrite sidesBefore_next_side. unfold sideOn. rewrite Hside.
  pose proof (visit_keeps_Inv _ _ _ (couple_of s t) (Z.of_nat i) HI) as HI'.
  destruct (couple_of s t) as [s' t']. cbn [fst snd] in HI'.
  destruct (edges !! (s', t')); eexists; (split; [reflexivity | exact HI']).
Qed.

(** The whole run of the two loops of [makeEdgeList]. *)
Lemma makeEdgeList_run faceList :
  exists edgeList,
    makeEdgeList faceList = Ok (edgeList, size edgeList) /\
    forall pa, edgesOf pa edgeList = emitted pa (sightings faceList pa).
Proof.
  unfold makeEdgeList.
  destruct (forLoop_total (fun i => edgeInv (sidesBefore faceList i 0))
              (fun i => forLoop 3 (makeEdgeList_side faceList i))
              (length faceList / 3)%nat (∅, []))
    as ([edges edgeList] & Hrun & HI).
  - intros pa. split; reflexivity.
  - intros i st Hi HI.
    destruct (forLoop_total (fun j => edgeInv (sidesBefore faceList i j))
                (makeEdgeList_side faceList i) 3 st HI)
      as (st' & Hrun' & HI').
    + intros j st0 Hj. now apply makeEdgeList_side_inv.
    + exists st'. split; [assumption|]. now rewrite sidesBefore_next_face.
  - exists edgeList. rewrite Hrun. cbn [bind]. split; [reflexivity|].
    intros pa. destruct (HI pa) as [_ Hout]. cbn [snd] in Hout.
    rewrite Hout. unfold seen, sightings, allSides, sidesBefore.
    simpl (flat_map _ (seq 0 0)). now rewrite app_nil_r.
Qed.

(** Every sighted pair has its smaller index first. *)
Lemma sighted_ordered faceList pa :
  sightings faceList pa <> [] -> fst pa <= snd pa.
Proof.
  intros Hne.
  destruct (sightings faceList pa) as [|f fs] eqn:E; [congruence|].
  assert (Hin : f ∈ sightings faceList pa) by (rewrite E; left).
  unfold sightings in Hin. apply list_elem_of_fmap in Hin.
  destruct Hin as ([pa' f'] & ? & Hin). cbn [snd] in *. subst f'.
  apply list_elem_of_filter in Hin as [Hpa Hin]. cbn [fst] in Hpa. subst pa'.
  unfold allSides in Hin. rewrite list_elem_of_In in Hin.
  apply in_flat_map in Hin as (i & _ & Hin).
  apply in_flat_map in Hin as (j & _ & Hin).
  unfold sideOf in Hin.
  destruct (faceList !! (3 * i + j)%nat) as [s|]; [|destruct Hin].
  destruct (faceList !! (3 * i + (j + 1) mod 3)%nat) as [t|]; [|destruct Hin].
  destruct Hin as [[= <- _]|[]]. unfold couple_of.
  destruct (Z.gtb_spec s t); cbn [fst snd]; lia.
Qed.

Lemma filter_agree {A} (P Q : A -> Prop)
    `{!forall x, Decision (P x)} `{!forall x, Decision (Q x)} (l : list A) :
  (forall x, x ∈ l -> P x <-> Q x) -> filter P l = filter Q l.
Proof.
  induction l as [|x l IH]; intros Hagree; [reflexivity|].
  rewrite !filter_cons.
  assert (Hx : P x <-> Q x) by (apply Hagree; left).
  rewrite IH by (intros y Hy; apply Hagree; now right).
  destruct (decide (P x)), (decide (Q x)); tauto.
Qed.

Lemma emitted_ordered faceList edgeList e :
  (forall pa, edgesOf pa edgeList = emitted pa (sightings faceList pa)) ->
  e ∈ edgeList -> fst (vertices e) <= snd (vertices e).
Proof.
  intros Hout He. apply (sighted_ordered faceList). intros Hnone.
  assert (Hin : e ∈ edgesOf (vertices e) edgeList).
  { unfold edgesOf. apply list_elem_of_filter. auto. }
  rewrite Hout, Hnone in Hin. cbn [emitted] in Hin.
  now apply not_elem_of_nil in Hin.
Qed.

Lemma joins_couple_of a b e :
  fst (vertices e) <= snd (vertices e) ->
  joins a b e <-> vertices e = couple_of a b.
Proof.
  unfold joins, couple_of. destruct (vertices e) as [s t]. cbn [fst snd].
  intros Hst. destruct (Z.gtb_spec a b); split.
  - intros [[= -> ->] | [= -> ->]]; [lia | reflexivity].
  - intros [= -> ->]. now right.
  - intros [[= -> ->] | [= -> ->]]; [reflexivity | f_equal; lia].
  - intros [= -> ->]. now left.
Qed.

(** The edges in terms of the sightings.  On a triangle list in which
    no pair of corners is sighted as a side more than twice,
    [makeEdgeList] is defined and emits exactly one edge for each pair
    sighted twice, which records the two faces in visiting order; it
    emits no edge for a pair sighted once or never; every emitted edge
    stores its smaller point index first, and is the edge of a pair
    sighted twice. *)
Lemma makeEdgeList_sighted_edges faceList :
  (forall a b, (length (sightings faceList (couple_of a b)) <= 2)%nat) ->
  exists edgeList,
    makeEdgeList faceList = Ok (edgeList, size edgeList) /\
    (forall a b f g,
        sightings faceList (couple_of a b) = [f; g] ->
        filter (joins a b) edgeList
        = [newEdge (Z.min a b) (Z.max a b) f g]) /\
    (forall a b,
        (length (sightings faceList (couple_of a b)) <= 1)%nat ->
        forall e, e ∈ edgeList -> ~ joins a b e) /\
    (forall e, e ∈ edgeList -> fst (vertices e) <= snd (vertices e)) /\
    (forall e, e ∈ edgeList ->
       exists f g,
         sightings faceList (vertices e) = [f; g] /\
         e = newEdge (fst (vertices e)) (snd (vertices e)) f g).
Proof.
  intros Htwo.
  destruct (makeEdgeList_run faceList) as (edgeList & Hrun & Hout).
  exists edgeList. split; [assumption|].
  assert (Hord : forall e, e ∈ edgeList -> fst (vertices e) <= snd (vertices e))
    by (intros e; apply (emitted_ordered faceList); assumption).
  assert (Hjoin : forall a b,
             filter (joins a b) edgeList = edgesOf (couple_of a b) edgeList).
  { intros a b. unfold edgesOf. apply filter_agree.
    intros e He. apply joins_couple_of. auto. }
  repeat split.
  - intros a b f g Hfg. rewrite Hjoin, Hout, Hfg. cbn [emitted map].
    do 2 f_equal; unfold couple_of; destruct (Z.gtb_spec a b);
      cbn [fst snd]; lia.
  - intros a b Hone e He Hj.
    assert (Hin : e ∈ filter (joins a b) edgeList)
      by (apply list_elem_of_filter; auto).
    rewrite Hjoin, Hout in Hin.
    destruct (sightings faceList (couple_of a b)) as [|f [|g fs]];
      cbn [emitted map length] in *; try lia;
      now apply not_elem_of_nil in Hin.
  - assumption.
  - intros e He.
    assert (Hin : e ∈ edgesOf (vertices e) edgeList)
      by (apply list_elem_of_filter; auto).
    rewrite Hout in Hin.
    assert (Hc : vertices e = couple_of (fst (vertices e)) (snd (vertices e))).
    { specialize (Hord e He). unfold couple_of.
      destruct (Z.gtb_spec (fst (vertices e)) (snd (vertices e))); [lia|].
      apply surjective_pairing. }
    specialize (Htwo (fst (vertices e)) (snd (vertices e))).
    rewrite <- Hc in Htwo.
    destruct (sightings faceList (vertices e)) as [|f [|g [|h fs]]];
      cbn [emitted map length] in *; try lia;
      try (now apply not_elem_of_nil in Hin).
    apply list_elem_of_singleton in Hin. eauto.
Qed.

(** On triangles with three different corners a pair is sighted at most
    once per triangle: its sightings are the triangles that have it as a
    side, each once. *)

Lemma seen_app pa l1 l2 : seen pa (l1 ++ l2) = seen pa l1 ++ seen pa l2.
Proof. unfold seen. now rewrite filter_app, fmap_app. Qed.

Lemma seen_sideOn faceList pa i j :
  seen pa (sideOn faceList i j)
  = if decide (sideOf faceList i j = Some pa) then [Z.of_nat i] else [].
Proof.
  unfold seen, sideOn. destruct (sideOf faceList i j) as [pa'|].
  - rewrite filter_cons, filter_nil. cbn [fst].
    destruct (decide (pa' = pa)) as [Heq|Hne],
      (decide (Some pa' = Some pa)) as [E|E]; try reflexivity; exfalso.
    + apply E. now f_equal.
    + apply Hne. now injection E.
  - destruct (decide (None = Some pa)); [discriminate | reflexivity].
Qed.

Lemma couple_of_eq a b c d :
  couple_of a b = couple_of c d -> (a = c /\ b = d) \/ (a = d /\ b = c).
Proof.
  unfold couple_of.
  destruct (Z.gtb_spec a b), (Z.gtb_spec c d); intros [= -> ->]; lia.
Qed.

Lemma seen_face_once faceList pa i :
  properTriangles faceList ->
  seen pa (sideOn faceList i 0 ++ sideOn faceList i 1 ++ sideOn faceList i 2)
  = [] \/
  seen pa (sideOn faceList i 0 ++ sideOn faceList i 1 ++ sideOn faceList i 2)
  = [Z.of_nat i].
Proof.
  intros Hproper. rewrite !seen_app, !seen_sideOn. unfold sideOf.
  change ((0 + 1) mod 3)%nat with 1%nat.
  change ((1 + 1) mod 3)%nat with 2%nat.
  change ((2 + 1) mod 3)%nat with 0%nat.
  rewrite !Nat.add_0_r.
  specialize (Hproper i).
  destruct (faceList !! (3 * i)%nat) as [a|];
    destruct (faceList !! (3 * i + 1)%nat) as [b|];
    destruct (faceList !! (3 * i + 2)%nat) as [c|];
    repeat case_decide; try discriminate; cbn [app]; auto;
    exfalso; destruct (Hproper a b c) as (Hab & Hbc & Hca); try reflexivity;
    repeat match goal with
           | H : Some _ = Some _ |- _ => injection H as H
           end;
    repeat match goal with
           | H1 : couple_of _ _ = ?pa, H2 : couple_of _ _ = ?pa |- _ =>
               rewrite <- H2 in H1; apply couple_of_eq in H1
           end; lia.
Qed.

Lemma sidesBefore_face faceList i :
  sidesBefore faceList (S i) 0
  = sidesBefore faceList i 0
    ++ (sideOn faceList i 0 ++ sideOn faceList i 1 ++ sideOn faceList i 2).
Proof.
  rewrite sidesBefore_next_face, !sidesBefore_next_side.
  now rewrite <- !app_assoc.
Qed.

Lemma seen_before faceList pa n f :
  f ∈ seen pa (sidesBefore faceList n 0) -> 0 <= f < Z.of_nat n.
Proof.
  induction n as [|n IH].
  - unfold sidesBefore, seen. cbn. intros H. now apply not_elem_of_nil in H.
  - rewrite sidesBefore_face, seen_app, !seen_app, !seen_sideOn.
    rewrite !elem_of_app. intros [H | H].
    + specialize (IH H). lia.
    + repeat case_decide;
        repeat match goal with
               | H : _ \/ _ |- _ => destruct H as [H | H]
               | H : _ ∈ [_] |- _ => apply list_elem_of_singleton in H
               | H : _ ∈ [] |- _ => apply not_elem_of_nil in H; destruct H
               end; lia.
Qed.

Lemma sightings_once_per_triangle faceList pa :
  properTriangles faceList -> NoDup (sightings faceList pa).
Proof.
  intros Hproper.
  assert (E : sightings faceList pa
              = seen pa (sidesBefore faceList (length faceList / 3) 0)).
  { unfold seen, sightings, allSides, sidesBefore.
    simpl (flat_map _ (seq 0 0)). now rewrite app_nil_r. }
  rewrite E. clear E.
  induction (length faceList / 3)%nat as [|n IH].
  - unfold sidesBefore, seen. cbn. constructor.
  - rewrite sidesBefore_face, seen_app. apply NoDup_app.
    split; [assumption|]. split.
    + intros f Hf Hf'. apply seen_before in Hf.
      destruct (seen_face_once faceList pa n Hproper) as [E | E];
        rewrite E in Hf'.
      * now apply not_elem_of_nil in Hf'.
      * apply list_elem_of_singleton in Hf'. lia.
    + destruct (seen_face_once faceList pa n Hproper) as [-> | ->];
        [constructor | apply NoDup_singleton].
Qed.

(** ** Weight transfer *)

Lemma corner_slot (tetList : list Z) i j :
  (i < length tetList / 4)%nat -> (j < 3)%nat ->
  exists c, tetList !! (4 * i + j)%nat = Some c /\
            take (S j) (drop (4 * i) tetList)
            = take j (drop (4 * i) tetList) ++ [c].
Proof.
  intros Hi Hj.
  assert (4 * (length tetList / 4) <= length tetList)%nat
    by apply Nat.Div0.mul_div_le.
  destruct (lookup_lt_is_Some_2 tetList (4 * i + j)) as [c Hc]; [lia|].
  exists c. split; [assumption|].
  apply take_S_r. now rewrite lookup_drop.
Qed.

Lemma cornersBefore_next_tet tetList i :
  (i < length tetList / 4)%nat ->
  cornersBefore tetList (S i) 0 = cornersBefore tetList i 3.
Proof.
  intros Hi. unfold cornersBefore.
  rewrite (seq_S i 0), flat_map_app. cbn [flat_map take Nat.add].
  now rewrite !app_nil_r.
Qed.

Lemma cornersBefore_all tetList :
  cornersBefore tetList (length tetList / 4) 0 = corners tetList.
Proof. unfold cornersBefore, corners. cbn [take]. now rewrite app_nil_r. Qed.

Lemma cornersBefore_corners tetList i j c :
  (i < length tetList / 4)%nat -> (j <= 3)%nat ->
  c ∈ cornersBefore tetList i j -> c ∈ corners tetList.
Proof.
  intros Hi Hj. unfold cornersBefore, corners.
  rewrite elem_of_app, !list_elem_of_In, !in_flat_map.
  intros [(i' & Hi' & Hc) | Hc].
  - exists i'. split; [|assumption].
    apply in_seq in Hi'. apply in_seq. lia.
  - exists i. split; [apply in_seq; lia|].
    rewrite <- list_elem_of_In in *.
    rewrite <- (take_drop j (take 3 (drop (4 * i) tetList))).
    rewrite take_take, Nat.min_l by lia.
    apply elem_of_app. now left.
Qed.

Lemma hits_snoc p cs c :
  hits p (cs ++ [c]) = (hits p cs + (if decide (c = p) then 1 else 0))%nat.
Proof.
  unfold hits. rewrite filter_app, length_app. f_equal.
  rewrite filter_cons, filter_nil. now destruct (decide (c = p)).
Qed.

Lemma Qnat_S n : (Qnat (S n) == Qnat n + 1)%Q.
Proof.
  unfold Qnat. rewrite Nat2Z.inj_succ. unfold Z.succ.
  now rewrite inject_Z_plus.
Qed.

(** Point to tetrahedron on a constant field: every tetrahedron gets the
    constant. *)
Lemma makeWeightList_face_constant
    numPts tetList faceList edgeList vertexList ptsWeight tetWeight0 (w : Q) :
  numPts <= size ptsWeight ->
  cornersInRange numPts tetList ->
  Forall (fun x => x == w)%Q ptsWeight ->
  exists tetWeight,
    makeWeightList TM_FACE tetList faceList edgeList vertexList
                   ptsWeight tetWeight0 = Ok tetWeight /\
    length tetWeight = (length tetList / 4)%nat /\
    Forall (fun x => x == w)%Q tetWeight.
Proof.
  intros Hsize Hrange Hconst. unfold makeWeightList.
  simpl (TM_FACE =? TM_FACE). cbv iota zeta.
  set (n := (length tetList / 4)%nat).
  assert (Hn : size tetList / 4 = Z.of_nat n).
  { unfold size, n. now rewrite Nat2Z.inj_div. }
  rewrite Hn, Nat2Z.id.
  assert (Hread : forall i j, (i < n)%nat -> (j < 3)%nat ->
            exists p x, vat tetList (4 * Z.of_nat i + Z.of_nat j) = Ok p /\
                        vat ptsWeight p = Ok x /\ (x == w)%Q).
  { intros i j Hi Hj.
    destruct (corner_slot tetList i j Hi Hj) as (c & Hc & Htake).
    assert (Hin : c ∈ corners tetList).
    { apply (cornersBefore_corners tetList i (S j)); [assumption | lia |].
      unfold cornersBefore. rewrite Htake, app_assoc.
      apply elem_of_app. right. left. }
    unfold cornersInRange in Hrange. rewrite Forall_forall in Hrange.
    specialize (Hrange c Hin).
    destruct (vat_lt ptsWeight c) as [x Hx]; [lia|].
    exists c, x. split.
    - apply vat_Ok. split; [lia|].
      replace (Z.to_nat (4 * Z.of_nat i + Z.of_nat j)) with (4 * i + j)%nat
        by lia. assumption.
    - split; [assumption|].
      apply vat_Ok in Hx as [_ Hx]. rewrite Forall_forall in Hconst.
      apply Hconst. eapply list_elem_of_lookup_2. eassumption. }
  match goal with
  | |- context [forLoop n ?body ?s0] =>
      destruct (forLoop_total
        (fun i (tw : list Q) => length tw = n /\
           forall k x, (k < i)%nat -> tw !! k = Some x -> (x == w)%Q)
        body n s0) as (tw & Hrun & Hlen & Hval)
  end.
  - split; [apply length_resize | intros; lia].
  - intros i tw Hi [Hlen Hval].
    destruct (Hread i 0%nat Hi) as (p0 & w0 & H0 & Hw0 & E0); [lia|].
    destruct (Hread i 1%nat Hi) as (p1 & w1 & H1 & Hw1 & E1); [lia|].
    destruct (Hread i 2%nat Hi) as (p2 & w2 & H2 & Hw2 & E2); [lia|].
    rewrite Z.add_0_r in H0. change (Z.of_nat 1) with 1 in H1.
    change (Z.of_nat 2) with 2 in H2.
    rewrite H0, H1, H2. cbn [bind]. rewrite Hw0, Hw1, Hw2. cbn [bind].
    rewrite vset_lt by (unfold size; lia).
    eexists; split; [reflexivity|]. rewrite Nat2Z.id.
    split; [now rewrite length_insert|].
    intros k x Hk Hx. destruct (Nat.eq_dec k i) as [->|Hne].
    + rewrite list_lookup_insert_eq in Hx by lia. injection Hx as <-.
      rewrite E0, E1, E2. field.
    + rewrite list_lookup_insert_ne in Hx by lia. apply (Hval k); [lia|auto].
  - exists tw. split; [assumption|]. split; [assumption|].
    apply Forall_forall. intros x Hx.
    apply list_elem_of_lookup in Hx as [k Hk].
    apply (Hval k); [|assumption].
    apply lookup_lt_Some in Hk. lia.
Qed.

(** Tetrahedron to point on a constant field: every point gets the
    constant once per corner slot that holds it. *)
Lemma makePtsWeightList_face_constant
    numPts tetList faceList edgeList vertexList tetWeight (w : Q) :
  0 <= numPts ->
  cornersInRange numPts tetList ->
  length tetWeight = (length tetList / 4)%nat ->
  Forall (fun x => x == w)%Q tetWeight ->
  exists ptsWeight,
    makePtsWeightList TM_FACE numPts tetList faceList edgeList vertexList
                      tetWeight = Ok ptsWeight /\
    length ptsWeight = Z.to_nat numPts /\
    forall p x, ptsWeight !! p = Some x ->
                (x == w * Qnat (incidence tetList (Z.of_nat p)))%Q.
Proof.
  intros Hpos Hrange Hlen Hconst. unfold makePtsWeightList.
  destruct (Z.ltb_spec numPts 0) as [|_]; [lia|].
  simpl (TM_FACE =? TM_FACE). cbv iota zeta.
  set (n := (length tetList / 4)%nat) in *.
  assert (Hn : size tetList / 4 = Z.of_nat n).
  { unfold size, n. now rewrite Nat2Z.inj_div. }
  rewrite Hn, Nat2Z.id.
  pose (Inv := fun (pre : list Z) (pw : list Q) =>
    length pw = Z.to_nat numPts /\
    forall p x, pw !! p = Some x -> (x == w * Qnat (hits (Z.of_nat p) pre))%Q).
  match goal with
  | |- context [forLoop n ?body ?s0] =>
      destruct (forLoop_total (fun i => Inv (cornersBefore tetList i 0))
                  body n s0) as (pw & Hrun & Hlen' & Hval)
  end.
  - split; [apply length_resize|].
    intros p x Hx. rewrite resize_nil in Hx.
    apply lookup_replicate in Hx as [-> _].
    unfold cornersBefore, hits, Qnat. simpl. ring.
  - intros i pw0 Hi HI.
    destruct (forLoop_total (fun j => Inv (cornersBefore tetList i j))
      (fun j ptsWeight =>
         let* p := vat tetList (4 * Z.of_nat i + Z.of_nat j) in
         let* w := vat tetWeight (Z.of_nat i) in
         vadd ptsWeight p w) 3 pw0 HI) as (pw1 & Hrun1 & HI1).
    + intros j pw Hj [Hlenj Hvalj].
      destruct (corner_slot tetList i j Hi Hj) as (c & Hc & Htake).
      assert (Hin : c ∈ corners tetList).
      { apply (cornersBefore_corners tetList i (S j)); [assumption | lia |].
        unfold cornersBefore. rewrite Htake, app_assoc.
        apply elem_of_app. right. left. }
      unfold cornersInRange in Hrange. rewrite Forall_forall in Hrange.
      specialize (Hrange c Hin).
      assert (Hrc : vat tetList (4 * Z.of_nat i + Z.of_nat j) = Ok c).
      { apply vat_Ok. split; [lia|].
        replace (Z.to_nat (4 * Z.of_nat i + Z.of_nat j)) with (4 * i + j)%nat
          by lia. assumption. }
      destruct (lookup_lt_is_Some_2 tetWeight i) as [wi Hwi]; [lia|].
      assert (Ewi : (wi == w)%Q).
      { rewrite Forall_forall in Hconst. apply Hconst.
        eapply list_elem_of_lookup_2. eassumption. }
      rewrite Hrc. cbn [bind].
      rewrite (proj2 (vat_nat tetWeight i wi) Hwi). cbn [bind].
      unfold vadd.
      destruct (vat_lt pw c) as [x Hx]; [unfold size; lia|].
      rewrite Hx. cbn [bind].
      rewrite vset_lt by (unfold size; lia).
      eexists; split; [reflexivity|].
      split; [now rewrite length_insert|].
      intros p y Hy. unfold cornersBefore. rewrite Htake, app_assoc.
      fold (cornersBefore tetList i j). rewrite hits_snoc.
      apply vat_Ok in Hx as [_ Hx].
      destruct (Nat.eq_dec p (Z.to_nat c)) as [->|Hne].
      * rewrite list_lookup_insert_eq in Hy by lia. injection Hy as <-.
        rewrite Z2Nat.id by lia.
        destruct (decide (c = c)) as [_|]; [|congruence].
        rewrite Nat.add_1_r, Qnat_S, Ewi.
        rewrite (Hvalj _ _ Hx), Z2Nat.id by lia. ring.
      * rewrite list_lookup_insert_ne in Hy by lia.
        destruct (decide (c = Z.of_nat p)) as [->|_]; [lia|].
        rewrite Nat.add_0_r. auto.
    + exists pw1. split; [assumption|].
      now rewrite cornersBefore_next_tet.
  - exists pw. split; [assumption|]. split; [assumption|].
    intros p x Hx. unfold n in Hval. rewrite cornersBefore_all in Hval.
    now apply Hval.
Qed.

(** C8, on the code.  One triangle with the constant weight 1: its three
    points get 1 back, not 3, although each has incidence count 1.  Two
    triangles with the weights 1, 2, 3, 4: point 0 has weight 1 and
    incidence count 2 and gets 14/3, which is neither 2 nor 6. *)
Lemma weight_roundtrip_not_threefold :
  (exists tw pw,
      makeWeightList TM_FACE triangleTets [] [] [] [1; 1; 1]%Q [] = Ok tw /\
      makePtsWeightList TM_FACE 3 triangleTets [] [] [] tw = Ok pw /\
      incidence triangleTets 0 = 1%nat /\
      Qvec_eq pw [1; 1; 1]%Q /\
      ~ Qvec_eq pw [3 * 1 * Qnat 1; 3 * 1 * Qnat 1; 3 * 1 * Qnat 1]%Q) /\
  (exists tw pw x,
      makeWeightList TM_FACE squareTets [] [] []
                     [1; 2; 3; 4]%Q [] = Ok tw /\
      makePtsWeightList TM_FACE 4 squareTets [] [] [] tw
        = Ok pw /\
      incidence squareTets 0 = 2%nat /\
      pw !! 0%nat = Some x /\ (x == 14 # 3)%Q /\
      ~ (x == 3 * 1 * Qnat 2)%Q /\ ~ (x == 1 * Qnat 2)%Q).
Proof.
  split.
  - eexists; eexists. split; [vm_compute; reflexivity|].
    split; [vm_compute; reflexivity|]. split; [reflexivity|]. split.
    + repeat constructor.
    + intros H. inversion H as [|? ? ? ? Hq _]. vm_compute in Hq. discriminate.
  - eexists; eexists; eexists. split; [vm_compute; reflexivity|].
    split; [vm_compute; reflexivity|]. split; [reflexivity|].
    split; [reflexivity|]. split; [reflexivity|].
    split; intros Hq; vm_compute in Hq; discriminate.
Qed.

(** C8, amended.  In per-face mode, on a constant weight field [w] and
    tetrahedra whose corners are valid points, point to tetrahedron
    averaging followed by tetrahedron to point scatter is defined and
    gives each point [w] times its incidence count (the number of corner
    slots that hold it), without a factor 3. *)
Theorem weight_roundtrip_constant
    numPts tetList faceList edgeList vertexList ptsWeight tetWeight0 (w : Q) :
  0 <= numPts <= size ptsWeight ->
  cornersInRange numPts tetList ->
  Forall (fun x => x == w)%Q ptsWeight ->
  exists tetWeight ptsWeight',
    makeWeightList TM_FACE tetList faceList edgeList vertexList
                   ptsWeight tetWeight0 = Ok tetWeight /\
    makePtsWeightList TM_FACE numPts tetList faceList edgeList vertexList
                      tetWeight = Ok ptsWeight' /\
    length ptsWeight' = Z.to_nat numPts /\
    forall p x, ptsWeight' !! p = Some x ->
                (x == w * Qnat (incidence tetList (Z.of_nat p)))%Q.
Proof.
  intros [Hpos Hsize] Hrange Hconst.
  destruct (makeWeightList_face_constant numPts tetList faceList edgeList
              vertexList ptsWeight tetWeight0 w Hsize Hrange Hconst)
    as (tw & Htw & Hlen & Hw).
  destruct (makePtsWeightList_face_constant numPts tetList faceList edgeList
              vertexList tw w Hpos Hrange Hlen Hw)
    as (pw & Hpw & Hlen' & Hval).
  exists tw, pw. auto.
Qed.

Lemma weight_roundtrip_constant_witness :
  exists tetWeight ptsWeight',
    makeWeightList TM_FACE squareTets [] [] []
                   [5; 5; 5; 5]%Q [] = Ok tetWeight /\
    makePtsWeightList TM_FACE 4 squareTets [] [] []
                      tetWeight = Ok ptsWeight' /\
    length ptsWeight' = Z.to_nat 4 /\
    forall p x, ptsWeight' !! p = Some x ->
      (x == 5 * Qnat (incidence squareTets (Z.of_nat p)))%Q.
Proof.
  apply (weight_roundtrip_constant 4 squareTets [] [] []
           [5; 5; 5; 5]%Q [] 5%Q).
  - vm_compute. split; discriminate.
  - unfold cornersInRange. vm_compute. repeat constructor; discriminate.
  - repeat constructor.
Defined.

(** ** Adjacency *)

Lemma links_insert (adj : list (list Z)) a l x y :
  (a < length adj)%nat ->
  links (<[a := l]> adj) x y
  = if decide (x = a) then length (filter (fun z => z = y) l)
    else links adj x y.
Proof.
  intros Ha. unfold links. destruct (decide (x = a)) as [->|Hne].
  - now rewrite list_lookup_insert_eq.
  - now rewrite list_lookup_insert_ne.
Qed.

Lemma adjAppend_spec (adj : list (list Z)) a l :
  0 <= a < size adj ->
  exists adj',
    adjAppend adj a l = Ok adj' /\
    length adj' = length adj /\
    forall x y,
      links adj' x y
      = (links adj x y
         + (if decide (x = Z.to_nat a)
            then length (filter (fun z => z = y) l) else 0))%nat.
Proof.
  intros Ha. unfold adjAppend.
  destruct (vat_lt adj a Ha) as [l0 Hl0]. rewrite Hl0. cbn [bind].
  rewrite vset_lt by assumption.
  eexists; split; [reflexivity|]. split; [apply length_insert|].
  intros x y. rewrite links_insert by (unfold size in Ha; lia).
  apply vat_Ok in Hl0 as [_ Hl0].
  destruct (decide (x = Z.to_nat a)) as [->|Hne]; [|lia].
  unfold links. rewrite Hl0, filter_app, length_app. reflexivity.
Qed.

Lemma adjPush_spec (adj : list (list Z)) a b :
  0 <= a < size adj ->
  exists adj',
    adjPush adj a b = Ok adj' /\
    length adj' = length adj /\
    forall x y,
      links adj' x y
      = (links adj x y
         + (if decide (x = Z.to_nat a /\ y = b) then 1 else 0))%nat.
Proof.
  intros Ha.
  destruct (adjAppend_spec adj a [b] Ha) as (adj' & Hrun & Hlen & Hlinks).
  exists adj'. split; [exact Hrun|]. split; [assumption|].
  intros x y. rewrite Hlinks.
  rewrite filter_cons, filter_nil.
  destruct (decide (x = Z.to_nat a)), (decide (b = y)),
    (decide (x = Z.to_nat a /\ y = b)); cbn [length];
    try reflexivity; exfalso; intuition congruence.
Qed.

Lemma adjLink_spec (adj : list (list Z)) a b :
  0 <= a < size adj -> 0 <= b < size adj ->
  exists adj',
    adjLink adj a b = Ok adj' /\
    length adj' = length adj /\
    forall x y,
      links adj' x y
      = (links adj x y
         + (if decide (x = Z.to_nat a /\ y = b) then 1 else 0)
         + (if decide (x = Z.to_nat b /\ y = a) then 1 else 0))%nat.
Proof.
  intros Ha Hb. unfold adjLink.
  destruct (adjPush_spec adj a b Ha) as (adj1 & -> & Hlen1 & Hl1).
  cbn [bind].
  destruct (adjPush_spec adj1 b a) as (adj2 & -> & Hlen2 & Hl2).
  { unfold size in *. lia. }
  exists adj2. split; [reflexivity|]. split; [lia|].
  intros x y. now rewrite Hl2, Hl1.
Qed.

(** Linking two tetrahedra keeps the balance and removes no entry. *)
Lemma adjLink_balanced D (adj : list (list Z)) a b :
  0 <= a < size adj -> 0 <= b < size adj ->
  balanced D adj ->
  exists adj',
    adjLink adj a b = Ok adj' /\
    length adj' = length adj /\
    balanced D adj' /\
    forall x y, (links adj x y <= links adj' x y)%nat.
Proof.
  intros Ha Hb Hbal.
  destruct (adjLink_spec adj a b Ha Hb) as (adj' & Hrun & Hlen & Hl).
  exists adj'. split; [assumption|]. split; [assumption|]. split.
  - intros x y. rewrite !Hl. specialize (Hbal x y).
    destruct (decide (x = Z.to_nat a /\ Z.of_nat y = b)),
      (decide (x = Z.to_nat b /\ Z.of_nat y = a)),
      (decide (y = Z.to_nat a /\ Z.of_nat x = b)),
      (decide (y = Z.to_nat b /\ Z.of_nat x = a)); lia.
  - intros x y. rewrite Hl. lia.
Qed.

Lemma inRange_spec n x : inRange n x = true <-> 0 <= x < Z.of_nat n.
Proof.
  unfold inRange. rewrite andb_true_iff, Z.leb_le, Z.ltb_lt. reflexivity.
Qed.

Lemma links_empty n x y : links (resize n [] []) x y = 0%nat.
Proof.
  unfold links. rewrite resize_nil.
  destruct (replicate n [] !! x) as [l|] eqn:E; [|reflexivity].
  apply lookup_replicate in E as [-> _]. reflexivity.
Qed.

Lemma makeAdjacencyList_face tetList edgeList vertexList :
  adjacencyInput TM_FACE tetList edgeList vertexList = true ->
  exists adj,
    makeAdjacencyList TM_FACE tetList edgeList vertexList = Ok adj /\
    length adj = (length tetList / 4)%nat /\
    forall a b, links adj a b = edgesBetween edgeList (Z.of_nat a) b.
Proof.
  unfold adjacencyInput, makeAdjacencyList.
  simpl (TM_FACE =? TM_FACE). cbv iota zeta.
  set (n := (length tetList / 4)%nat). intros Hin.
  rewrite forallb_forall in Hin.
  match goal with
  | |- context [forLoop _ ?body ?s0] =>
      destruct (forLoop_total
        (fun i (adj : list (list Z)) =>
           length adj = n /\
           forall a b, links adj a b
                       = edgesBetween (take i edgeList) (Z.of_nat a) b)
        body (length edgeList) s0) as (adj & Hrun & Hlen & Hl)
  end.
  - split; [apply length_resize|]. intros a b. apply links_empty.
  - intros i adj Hi [Hlen Hl].
    destruct (lookup_lt_is_Some_2 edgeList i Hi) as [e He].
    rewrite (proj2 (vat_nat edgeList i e) He). cbn [bind].
    specialize (Hin e). rewrite <- list_elem_of_In in Hin.
    specialize (Hin (list_elem_of_lookup_2 _ _ _ He)).
    apply andb_prop in Hin as [H0 H1]. apply inRange_spec in H0, H1.
    destruct (adjLink_spec adj (fst (faces e)) (snd (faces e)))
      as (adj' & Hrun' & Hlen' & Hl'); [unfold size; lia ..|].
    exists adj'. split; [assumption|]. split; [lia|].
    intros a b. rewrite Hl', Hl, (take_S_r _ _ _ He).
    unfold edgesBetween. rewrite !filter_app, !length_app.
    rewrite !filter_cons, !filter_nil.
    destruct (faces e) as [f0 f1]. cbn [fst snd] in *.
    assert (E1: (a = Z.to_nat f0 /\ b = f1) <-> (f0, f1) = (Z.of_nat a, b)).
    { split; [intros [-> ->]; f_equal; lia | intros [= -> ->]; split; lia]. }
    assert (E2 : (a = Z.to_nat f1 /\ b = f0) <-> (f0, f1) = (b, Z.of_nat a)).
    { split; [intros [-> ->]; f_equal; lia | intros [= -> ->]; split; lia]. }
    destruct (decide (a = Z.to_nat f0 /\ b = f1)),
      (decide (a = Z.to_nat f1 /\ b = f0)),
      (decide ((f0, f1) = (Z.of_nat a, b))),
      (decide ((f0, f1) = (b, Z.of_nat a))); cbn [length];
      first [lia | exfalso; tauto].
  - exists adj. rewrite firstn_all in Hl. auto.
Qed.

Lemma balanced_symmetric adj : balanced (fun _ _ => 0%nat) adj <-> symmetric adj.
Proof.
  unfold balanced, symmetric. split; intros H x y; specialize (H x y); lia.
Qed.

Lemma adjPush_Forall (P : Z -> Prop) (adj : list (list Z)) a b :
  0 <= a < size adj ->
  Forall (Forall P) adj -> P b ->
  exists adj',
    adjPush adj a b = Ok adj' /\
    length adj' = length adj /\
    Forall (Forall P) adj'.
Proof.
  intros Ha Hall Hb. unfold adjPush.
  destruct (vat_lt adj a Ha) as [l Hl]. rewrite Hl. cbn [bind].
  rewrite vset_lt by assumption.
  eexists; split; [reflexivity|]. split; [apply length_insert|].
  apply Forall_insert; [assumption|].
  apply vat_Ok in Hl as [_ Hl].
  unfold push_back. apply Forall_app. split.
  - rewrite Forall_forall in Hall. apply Hall.
    eapply list_elem_of_lookup_2. eassumption.
  - now constructor.
Qed.

(** Linking a tetrahedron to every entry of a share list. *)
Lemma link_all D (adj : list (list Z)) (share : list Z) a :
  0 <= a < size adj ->
  Forall (fun x => 0 <= x < size adj) share ->
  balanced D adj ->
  exists adj',
    forLoop (length share)
      (fun j adjacencyList =>
         let* x := vat share (Z.of_nat j) in adjLink adjacencyList a x)
      adj = Ok adj' /\
    length adj' = length adj /\
    balanced D adj'.
Proof.
  intros Ha Hshare Hbal.
  apply (forLoop_total
           (fun _ (adj' : list (list Z)) =>
              length adj' = length adj /\ balanced D adj')).
  - auto.
  - intros j adj0 Hj [Hlen0 Hbal0].
    destruct (lookup_lt_is_Some_2 share j Hj) as [x Hx].
    rewrite (proj2 (vat_nat share j x) Hx). cbn [bind].
    rewrite Forall_forall in Hshare.
    specialize (Hshare x (list_elem_of_lookup_2 _ _ _ Hx)).
    destruct (adjLink_balanced D adj0 a x) as (adj1 & Hrun & Hlen1 & Hbal1 & _);
      [unfold size in *; lia .. | assumption |].
    exists adj1. split; [assumption|]. split; [lia | assumption].
Qed.

Lemma makeAdjacencyList_edge_mode tetList edgeList vertexList :
  adjacencyInput TM_EDGE tetList edgeList vertexList = true ->
  exists adj,
    makeAdjacencyList TM_EDGE tetList edgeList vertexList = Ok adj /\
    length adj = (length tetList / 4)%nat /\
    symmetric adj.
Proof.
  unfold adjacencyInput, makeAdjacencyList.
  simpl (TM_EDGE =? _). cbv iota zeta.
  set (numTet := (length tetList / 4)%nat).
  set (n := length edgeList).
  intros Hin. apply andb_prop in Hin as [Hn Hin].
  apply Nat.leb_le in Hn. rewrite forallb_forall in Hin.
  destruct (forLoop_total
    (fun i (st : list (list Z) * list (list Z)) =>
       length (snd st) = numTet /\ length (fst st) = (2 * n)%nat /\
       balanced (fun _ _ => 0%nat) (snd st) /\
       Forall (Forall (fun x => 0 <= x < 2 * Z.of_nat i)) (fst st))
    (makeAdjacencyList_edge edgeList) n
    (resize (2 * n) [] [], resize numTet [] []))
    as ([fs adj] & Hrun & Hlen & _ & Hbal & _).
  - cbn [fst snd]. rewrite !length_resize. repeat split.
    + intros x y. now rewrite !links_empty.
    + rewrite resize_nil. apply Forall_replicate. constructor.
  - intros i [fs adj] Hi (Hlen & Hlenfs & Hbal & Hfs). cbn [fst snd] in *.
    unfold makeAdjacencyList_edge.
    destruct (lookup_lt_is_Some_2 edgeList i Hi) as [e He].
    rewrite (proj2 (vat_nat edgeList i e) He). cbn [bind].
    specialize (Hin e). rewrite <- list_elem_of_In in Hin.
    specialize (Hin (list_elem_of_lookup_2 _ _ _ He)).
    apply andb_prop in Hin as [H0 H1]. apply inRange_spec in H0, H1.
    destruct (adjLink_balanced (fun _ _ => 0%nat) adj
                (2 * Z.of_nat i) (2 * Z.of_nat i + 1))
      as (adj1 & -> & Hlen1 & Hbal1 & _);
      [unfold size; lia .. | assumption |]. cbn [bind].
    destruct (vat_lt fs (fst (faces e))) as [share0 Hs0]; [unfold size; lia|].
    rewrite Hs0. cbn [bind].
    assert (Hshare : forall f share, vat fs f = Ok share ->
              Forall (fun x => 0 <= x < Z.of_nat numTet) share).
    { intros f share Hf. apply vat_Ok in Hf as [_ Hf].
      rewrite Forall_forall in Hfs.
      specialize (Hfs share (list_elem_of_lookup_2 _ _ _ Hf)).
      eapply Forall_impl; [exact Hfs|]. cbv beta. intros x Hx. lia. }
    destruct (link_all (fun _ _ => 0%nat) adj1 share0 (2 * Z.of_nat i))
      as (adj2 & -> & Hlen2 & Hbal2);
      [unfold size; lia | unfold size; rewrite Hlen1, Hlen; eauto
       | assumption |]. cbn [bind].
    destruct (vat_lt fs (snd (faces e))) as [share1 Hs1]; [unfold size; lia|].
    rewrite Hs1. cbn [bind].
    destruct (link_all (fun _ _ => 0%nat) adj2 share1 (2 * Z.of_nat i + 1))
      as (adj3 & -> & Hlen3 & Hbal3);
      [unfold size; lia | unfold size; rewrite Hlen2, Hlen1, Hlen; eauto
       | assumption |]. cbn [bind].
    assert (Hfs' : Forall (Forall (fun x => 0 <= x < 2 * Z.of_nat (S i))) fs).
    { eapply Forall_impl; [exact Hfs|]. cbv beta. intros l Hl.
      eapply Forall_impl; [exact Hl|]. cbv beta. intros x Hx. lia. }
    destruct (adjPush_Forall (fun x => 0 <= x < 2 * Z.of_nat (S i))
                fs (fst (faces e)) (2 * Z.of_nat i))
      as (fs1 & -> & Hlenfs1 & Hfs1);
      [unfold size; lia | exact Hfs' | lia |]. cbn [bind].
    destruct (adjPush_Forall (fun x => 0 <= x < 2 * Z.of_nat (S i))
                fs1 (snd (faces e)) (2 * Z.of_nat i + 1))
      as (fs2 & -> & Hlenfs2 & Hfs2);
      [unfold size; lia | exact Hfs1 | lia |]. cbn [bind].
    eexists; split; [reflexivity|]. cbn [fst snd].
    repeat split; [lia | lia | assumption | assumption].
  - cbn [fst snd] in *. exists adj. rewrite Hrun. cbn [bind].
    split; [reflexivity|]. split; [assumption|].
    now apply balanced_symmetric.
Qed.

Lemma fanTets_S cur n :
  fanTets cur (S n) = fanTets cur n ++ [cur + Z.of_nat n].
Proof. unfold fanTets. now rewrite (seq_S n 0), fmap_app. Qed.

(** A fan lists each of its wedges once. *)
Lemma fanTets_count m n y :
  length (filter (fun z => z = Z.of_nat y) (fanTets (Z.of_nat m) n))
  = if decide (m <= y < m + n)%nat then 1%nat else 0%nat.
Proof.
  induction n as [|n IH].
  - cbn. destruct (decide (m <= y < m + 0)%nat); [lia | reflexivity].
  - rewrite fanTets_S, filter_app, length_app, IH.
    rewrite filter_cons, filter_nil.
    destruct (decide (Z.of_nat m + Z.of_nat n = Z.of_nat y)),
      (decide (m <= y < m + n)%nat), (decide (m <= y < m + S n)%nat);
      cbn [length]; lia.
Qed.

(** The test of a shared pair keeps the balance, the bound on the
    recorded wedges, and every entry. *)
Lemma shareEdge_spec (D : nat -> nat -> nat) (pa : Z * Z) (cur : Z)
    (edges : gmap (Z * Z) Z) (adj : list (list Z)) :
  0 <= cur < size adj ->
  balanced D adj ->
  (forall pa c, edges !! pa = Some c -> 0 <= c < size adj) ->
  exists edges' adj',
    shareEdge pa cur (edges, adj) = Ok (edges', adj') /\
    length adj' = length adj /\
    balanced D adj' /\
    (forall pa c, edges' !! pa = Some c -> 0 <= c < size adj) /\
    forall x y, (links adj x y <= links adj' x y)%nat.
Proof.
  intros Hcur Hbal Hmap. unfold shareEdge.
  destruct (edges !! pa) as [c|] eqn:E.
  - destruct (adjLink_balanced D adj cur c Hcur (Hmap _ _ E) Hbal)
      as (adj' & -> & Hlen & Hbal' & Hmono). cbn [bind].
    exists edges, adj'. auto.
  - exists (<[pa := cur]> edges), adj.
    split; [reflexivity|]. split; [reflexivity|]. split; [assumption|].
    split; [|auto].
    intros pa' c. destruct (decide (pa = pa')) as [->|Hne].
    + rewrite lookup_insert_eq. intros [= <-]. assumption.
    + rewrite lookup_insert_ne by assumption. apply Hmap.
Qed.

(** One wedge of a fan of [n] wedges that starts at tetrahedron [m]. *)
Lemma makeAdjacencyList_wedge_spec (v : vertex) (m j : nat)
    (edges : gmap (Z * Z) Z) (adj : list (list Z)) :
  (j < wedges v)%nat ->
  (m + wedges v <= length adj)%nat ->
  balanced (fanRows m j (wedges v)) adj ->
  (forall pa c, edges !! pa = Some c -> 0 <= c < size adj) ->
  (forall c, (c < m + j)%nat -> (1 <= links adj c (Z.of_nat c))%nat) ->
  exists edges' adj',
    makeAdjacencyList_wedge v (fanTets (Z.of_nat m) (wedges v)) j
      (edges, Z.of_nat (m + j), adj)
    = Ok (edges', Z.of_nat (m + S j), adj') /\
    length adj' = length adj /\
    balanced (fanRows m (S j) (wedges v)) adj' /\
    (forall pa c, edges' !! pa = Some c -> 0 <= c < size adj) /\
    (forall c, (c < m + S j)%nat -> (1 <= links adj' c (Z.of_nat c))%nat).
Proof.
  intros Hj Hroom Hbal Hmap Hself. unfold makeAdjacencyList_wedge.
  set (n := wedges v) in *.
  assert (Hcur : 0 <= Z.of_nat (m + j) < size adj) by (unfold size; lia).
  destruct (adjAppend_spec adj (Z.of_nat (m + j)) (fanTets (Z.of_nat m) n) Hcur)
    as (adj1 & -> & Hlen1 & Hl1). cbn [bind].
  destruct (wedge_reads v j Hj) as (s & t & -> & ->). cbn [bind].
  assert (Hbal1 : balanced (fanRows m (S j) n) adj1).
  { intros x y. rewrite !Hl1, !fanTets_count, !Nat2Z.id.
    specialize (Hbal x y). unfold fanRows in *.
    repeat case_decide; lia. }
  assert (Hsize1 : size adj1 = size adj) by (unfold size; lia).
  destruct (shareEdge_spec (fanRows m (S j) n) (index v, s) (Z.of_nat (m + j))
              edges adj1)
    as (edges2 & adj2 & -> & Hlen2 & Hbal2 & Hmap2 & Hmono2);
    [lia | assumption | intros pa c Hc; rewrite Hsize1; eauto |].
  cbn [bind].
  assert (Hsize2 : size adj2 = size adj) by (unfold size; lia).
  destruct (shareEdge_spec (fanRows m (S j) n) (t, index v) (Z.of_nat (m + j))
              edges2 adj2)
    as (edges3 & adj3 & -> & Hlen3 & Hbal3 & Hmap3 & Hmono3);
    [lia | assumption | intros pa c Hc; rewrite Hsize2, <- Hsize1; eauto |].
  cbn [bind].
  exists edges3, adj3. split.
  { do 3 f_equal. lia. }
  split; [lia|]. split; [assumption|]. split.
  { intros pa c Hc. rewrite <- Hsize2. eauto. }
  intros c Hc.
  eapply Nat.le_trans; [|apply Hmono3].
  eapply Nat.le_trans; [|apply Hmono2].
  rewrite Hl1, fanTets_count, Nat2Z.id.
  destruct (Nat.eq_dec c (m + j)%nat) as [->|Hne].
  - destruct (decide (m + j = m + j)%nat); [|lia].
    destruct (decide (m <= m + j < m + n)%nat); lia.
  - specialize (Hself c). lia.
Qed.

Lemma makeAdjacencyList_fan_mode tetMode tetList edgeList vertexList :
  tetMode = TM_VERTEX \/ tetMode = TM_VFACE ->
  adjacencyInput tetMode tetList edgeList vertexList = true ->
  exists adj,
    makeAdjacencyList tetMode tetList edgeList vertexList = Ok adj /\
    length adj = (length tetList / 4)%nat /\
    symmetric adj /\
    forall c, (c < wedgeCount vertexList)%nat ->
              (1 <= links adj c (Z.of_nat c))%nat.
Proof.
  intros Hmode.
  assert (Hsel : makeAdjacencyList tetMode tetList edgeList vertexList
                 = makeAdjacencyList TM_VERTEX tetList edgeList vertexList /\
                 adjacencyInput tetMode tetList edgeList vertexList
                 = adjacencyInput TM_VERTEX tetList edgeList vertexList)
    by (destruct Hmode as [-> | ->]; split; reflexivity).
  destruct Hsel as [-> ->]. clear Hmode tetMode.
  unfold adjacencyInput, makeAdjacencyList.
  simpl (TM_VERTEX =? _). cbv iota zeta. simpl (false || true).
  cbv iota.
  set (numTet := (length tetList / 4)%nat).
  intros Hroom. apply Nat.leb_le in Hroom.
  pose (Inv := fun (D : nat -> nat -> nat) (k : nat)
                   (st : gmap (Z * Z) Z * Z * list (list Z)) =>
    snd (fst st) = Z.of_nat k /\
    length (snd st) = numTet /\
    balanced D (snd st) /\
    (forall pa c, fst (fst st) !! pa = Some c -> 0 <= c < Z.of_nat numTet) /\
    (forall c, (c < k)%nat -> (1 <= links (snd st) c (Z.of_nat c))%nat)).
  match goal with
  | |- context [forLoop _ ?body ?s0] =>
      destruct (forLoop_total
        (fun i => Inv (fun _ _ => 0%nat) (wedgeCount (take i vertexList)))
        body (length vertexList) s0)
        as ([[edges cur] adj] & Hrun & _ & Hlen & Hbal & _ & Hself)
  end.
  - unfold Inv. cbn [fst snd take]. rewrite length_resize.
    split; [reflexivity|]. split; [reflexivity|]. split; [|split].
    + intros x y. now rewrite !links_empty.
    + intros pa c Hc. now rewrite lookup_empty in Hc.
    + intros c Hc. rewrite ?take_0 in Hc. cbn in Hc. lia.
  - intros i [[edges cur] adj] Hi (Hcur & Hlen & Hbal & Hmap & Hself).
    cbn [fst snd] in *. subst cur.
    destruct (lookup_lt_is_Some_2 vertexList i Hi) as [v Hv].
    rewrite (proj2 (vat_nat vertexList i v) Hv). cbn [bind].
    rewrite (wedgeCount_take_S _ _ _ Hv).
    set (m := wedgeCount (take i vertexList)) in *.
    fold (wedges v).
    assert (Hm : (m + wedges v <= numTet)%nat).
    { rewrite <- (take_drop (S i) vertexList), wedgeCount_app in Hroom.
      rewrite (wedgeCount_take_S _ _ _ Hv) in Hroom. fold m in Hroom. lia. }
    destruct (forLoop_total
      (fun j => Inv (fanRows m j (wedges v)) (m + j)%nat)
      (makeAdjacencyList_wedge v (fanTets (Z.of_nat m) (wedges v)))
      (wedges v) (edges, Z.of_nat m, adj))
      as (st' & Hrun' & HI').
    + unfold Inv. cbn [fst snd]. rewrite Nat.add_0_r.
      split; [reflexivity|]. split; [assumption|].
      split; [|split; assumption].
      intros x y. specialize (Hbal x y). unfold fanRows.
      repeat case_decide; lia.
    + intros j [[edges0 cur0] adj0] Hj (Hcur0 & Hlen0 & Hbal0 & Hmap0 & Hself0).
      cbn [fst snd] in *. subst cur0.
      destruct (makeAdjacencyList_wedge_spec v m j edges0 adj0)
        as (edges1 & adj1 & Hstep & Hlen1 & Hbal1 & Hmap1 & Hself1);
        [assumption | lia | assumption
         | unfold size; rewrite Hlen0; assumption | assumption |].
      eexists; split; [exact Hstep|].
      unfold Inv. cbn [fst snd].
      split; [reflexivity|]. split; [lia|]. split; [assumption|].
      split; [|assumption].
      intros pa c Hc. specialize (Hmap1 pa c Hc). unfold size in Hmap1. lia.
    + exists st'. split; [assumption|].
      destruct HI' as (Hc' & Hl' & Hb' & Hm' & Hs').
      unfold Inv. split; [assumption|]. split; [assumption|].
      split; [|split; assumption].
      intros x y. specialize (Hb' x y). unfold fanRows in Hb'.
      repeat case_decide; lia.
  - cbn [fst snd] in *. exists adj. rewrite Hrun. cbn [bind].
    rewrite firstn_all in Hself.
    split; [reflexivity|]. split; [assumption|].
    split; [now apply balanced_symmetric | assumption].
Qed.

(** C10.  In the per-vertex and vface modes every wedge tetrahedron is
    listed in its own adjacency list: the fan of a vertex is appended to
    the list of each of its wedges, the wedge itself included. *)
Theorem makeAdjacencyList_self_loops tetMode tetList edgeList vertexList :
  tetMode = TM_VERTEX \/ tetMode = TM_VFACE ->
  adjacencyInput tetMode tetList edgeList vertexList = true ->
  exists adjacencyList,
    makeAdjacencyList tetMode tetList edgeList vertexList = Ok adjacencyList /\
    forall c, (c < wedgeCount vertexList)%nat ->
      exists l, adjacencyList !! c = Some l /\ Z.of_nat c ∈ l.
Proof.
  intros Hfan Hin.
  destruct (makeAdjacencyList_fan_mode tetMode tetList edgeList vertexList
              Hfan Hin) as (adj & Hrun & _ & _ & Hself).
  exists adj. split; [assumption|].
  intros c Hc. specialize (Hself c Hc). unfold links in Hself.
  destruct (adj !! c) as [l|]; [|lia].
  exists l. split; [reflexivity|].
  destruct (filter (fun x => x = Z.of_nat c) l) as [|x xs] eqn:E;
    [cbn in Hself; lia|].
  assert (Hx : x ∈ filter (fun x => x = Z.of_nat c) l) by (rewrite E; left).
  apply list_elem_of_filter in Hx as [-> Hx]. assumption.
Qed.

Lemma makeAdjacencyList_self_loops_witness :
  exists adjacencyList,
    makeAdjacencyList TM_VFACE squareTets []
      [Vertex 0 [1; 2; 2; 3]] = Ok adjacencyList /\
    forall c, (c < wedgeCount [Vertex 0%Z [1; 2; 2; 3]%Z])%nat ->
      exists l, adjacencyList !! c = Some l /\ Z.of_nat c ∈ l.
Proof.
  apply (makeAdjacencyList_self_loops TM_VFACE squareTets []
           [Vertex 0 [1; 2; 2; 3]]).
  - right. reflexivity.
  - reflexivity.
Defined.

(** ** Distance primitives *)

Lemma Qltb_lt x y : Qltb x y = true <-> (x < y)%Q.
Proof.
  unfold Qltb. rewrite negb_true_iff, <- not_true_iff_false, Qle_bool_iff.
  split; [apply Qnot_le_lt | apply Qlt_not_le].
Qed.

Lemma Qltb_ge x y : Qltb x y = false <-> ~ (x < y)%Q.
Proof. rewrite <- Qltb_lt. symmetry. apply not_true_iff_false. Qed.

Lemma fmin_Finite d x : exists d', fmin (Finite d) x = Finite d'.
Proof.
  destruct x as [e|]; cbn; [|eauto]. destruct (Qltb e d); eauto.
Qed.

Lemma squaredNorm_minus_self a : (squaredNorm (minus a a) == 0)%Q.
Proof. unfold squaredNorm, dot, minus. cbn. ring. Qed.

(** C5, on the code.  With coinciding end points the divisor
    [(a-b).squaredNorm()] is zero and [distPtLin] divides by it: no guard
    comes before the division, for any point and any end point. *)
Theorem distPtLin_coincident_end_points p a :
  distPtLin p a a = Undefined ZeroDivide.
Proof.
  unfold distPtLin, fdiv.
  rewrite (proj2 (Qeq_bool_iff _ _) (squaredNorm_minus_self a)).
  reflexivity.
Qed.

(** C3, on the code.  For the triangle a=(0,0,0), b=(1,0,0), c=(0,1,0)
    the point (0,0,-1) gets the finite value 1 and the point (0,0,1) gets
    [HUGE_VAL]: the other way round. *)
Lemma distPtTri_sides_swapped :
  distPtTri (V3 0 0 (-1)) tri_a tri_b tri_c = Ok (Finite 1) /\
  distPtTri (V3 0 0 1) tri_a tri_b tri_c = Ok HUGE_VAL /\
  distPtTri (V3 0 0 (-1)) tri_a tri_b tri_c <> Ok HUGE_VAL.
Proof. repeat split. discriminate. Qed.

(** C3, amended.  For the triangle a=(0,0,0), b=(1,0,0), c=(0,1,0),
    [distPtTri] returns [HUGE_VAL] for the point (0,0,1), on the side the
    normal n=(b-a)x(c-a) points to (the outer half-space), and the finite
    value 1 for the point (0,0,-1).  In general, on a triangle that is not
    degenerate, it returns [HUGE_VAL] exactly when n.(a-p) is negative. *)
Theorem distPtTri_outer_half_space :
  (distPtTri (V3 0 0 1) tri_a tri_b tri_c = Ok HUGE_VAL /\
   distPtTri (V3 0 0 (-1)) tri_a tri_b tri_c = Ok (Finite 1)) /\
  forall p a b c,
    let n := cross (minus b a) (minus c a) in
    ~ (squaredNorm n < EPSILON)%Q ->
    (distPtTri p a b c = Ok HUGE_VAL <-> (dot n (minus a p) < 0)%Q).
Proof.
  split; [split; reflexivity|].
  intros p a b c n Hn. unfold distPtTri. fold n.
  rewrite (proj2 (Qltb_ge _ _) Hn).
  destruct (Qltb (dot n (minus a p)) 0) eqn:Ek.
  - apply Qltb_lt in Ek. tauto.
  - apply Qltb_ge in Ek. split; [|tauto]. intros Hrun. exfalso.
    destruct (distPtLin p a b) as [s0|]; [|discriminate].
    destruct (distPtLin p b c) as [s1|]; [|discriminate].
    destruct (distPtLin p c a) as [s2|]; [|discriminate].
    cbn [bind] in Hrun.
    destruct (fmin_Finite s0 (Finite s1)) as [d1 E1].
    rewrite E1 in Hrun.
    destruct (fmin_Finite d1 (Finite s2)) as [d2 E2].
    rewrite E2 in Hrun.
    match type of Hrun with
    | context [fmin (Finite d2) ?s3] =>
        destruct (fmin_Finite d2 s3) as [d3 E3]; rewrite E3 in Hrun
    end.
    discriminate.
Qed.

Lemma distPtTri_outer_half_space_witness :
  distPtTri (V3 0 0 1) tri_a tri_b tri_c = Ok HUGE_VAL <->
  (dot (cross (minus tri_b tri_a) (minus tri_c tri_a))
       (minus tri_a (V3 0 0 1)) < 0)%Q.
Proof.
  apply (proj2 distPtTri_outer_half_space (V3 0 0 1) tri_a tri_b tri_c).
  intros H. vm_compute in H. discriminate.
Defined.

(** ** Frame construction *)

(** Case analysis on the first computation of a defined sequence. *)
Ltac step_bind H x E :=
  match type of H with
  | bind ?r _ = Ok _ =>
      destruct r as [x|] eqn:E; [cbn [bind] in H | discriminate H]
  end.

Lemma fdiv_Ok x y q : fdiv x y = Ok q -> ~ (y == 0)%Q /\ q = (x / y)%Q.
Proof.
  unfold fdiv. destruct (Qeq_bool y 0) eqn:E; [discriminate|].
  intros [= <-]. split; [|reflexivity].
  intros Hy. apply Qeq_bool_iff in Hy. congruence.
Qed.

Lemma squaredNorm_offset p u :
  (squaredNorm (minus (plus p u) p) == squaredNorm u)%Q.
Proof. unfold squaredNorm, dot, minus, plus. cbn [vx vy vz]. ring. Qed.

Lemma point_elem pts (v : list Z) i p : point pts v i = Ok p -> p ∈ pts.
Proof.
  unfold point. intros H. step_bind H k Ek.
  apply vat_Ok in H as [_ H]. eapply list_elem_of_lookup_2. eassumption.
Qed.

Lemma vat_elem {A} (v : list A) i x : vat v i = Ok x -> x ∈ v.
Proof.
  intros H. apply vat_Ok in H as [_ H].
  eapply list_elem_of_lookup_2. eassumption.
Qed.

(** ** Degeneracy filter *)

Lemma keptAt_elem {A} (keep : nat -> bool) (v : list A) x :
  x ∈ keptAt keep v <-> exists i, v !! i = Some x /\ keep i = true.
Proof.
  unfold keptAt. rewrite list_elem_of_omap. split.
  - intros (i & Hi & Hx). apply list_elem_of_filter in Hi as [Hk _]. eauto.
  - intros (i & Hx & Hk). exists i. split; [|assumption].
    apply list_elem_of_filter. split; [assumption|].
    apply elem_of_seq. apply lookup_lt_Some in Hx. lia.
Qed.

(** The copy loop after the selection: the entries at the good
    positions, in order. *)
Lemma keepGood_spec {A} (d : A) (G : list nat) (v : list A) :
  Forall (fun g => g < length v)%nat G ->
  keepGood d (Z.of_nat <$> G) v = Ok (omap (fun g => v !! g) G).
Proof.
  intros HG. unfold keepGood. rewrite length_fmap.
  destruct (forLoop_total
    (fun i (el : list A) =>
       length el = length G /\
       take i el = omap (fun g => v !! g) (take i G))
    (fun i el =>
       let* g := vat (Z.of_nat <$> G) (Z.of_nat i) in
       let* x := vat v g in
       vset el (Z.of_nat i) x)
    (length G) (resize (length G) d v))
    as (el & Hrun & Hlen & Htake).
  - split; [apply length_resize | reflexivity].
  - intros i el Hi [Hlen Htake].
    destruct (lookup_lt_is_Some_2 G i Hi) as [g Hg].
    assert (Hgz : vat (Z.of_nat <$> G) (Z.of_nat i) = Ok (Z.of_nat g)).
    { apply vat_nat. now rewrite list_lookup_fmap, Hg. }
    rewrite Hgz. cbn [bind].
    rewrite Forall_forall in HG.
    specialize (HG g (list_elem_of_lookup_2 _ _ _ Hg)).
    destruct (lookup_lt_is_Some_2 v g HG) as [x Hx].
    rewrite (proj2 (vat_nat v g x) Hx). cbn [bind].
    rewrite vset_lt by (unfold size; lia).
    eexists; split; [reflexivity|]. rewrite Nat2Z.id.
    split; [now rewrite length_insert|].
    rewrite (take_S_r (<[i:=x]> el) i x)
      by (apply list_lookup_insert_eq; lia).
    rewrite take_insert_ge, Htake by lia.
    rewrite (take_S_r G i g Hg), omap_app.
    change (omap (fun g => v !! g) [g])
      with (match v !! g with Some y => [y] | None => [] end).
    now rewrite Hx.
  - rewrite Hrun. f_equal.
    rewrite <- (firstn_all el), Hlen, Htake. now rewrite firstn_all.
Qed.

Lemma filter_seq_lt (keep : nat -> bool) n :
  Forall (fun g => g < n)%nat (filter (fun i => keep i = true) (seq 0 n)).
Proof.
  apply Forall_forall. intros g Hg.
  apply list_elem_of_filter in Hg as [_ Hg]. apply elem_of_seq in Hg. lia.
Qed.

Lemma filter_seq_S (keep : nat -> bool) n :
  filter (fun i => keep i = true) (seq 0 (S n))
  = filter (fun i => keep i = true) (seq 0 n)
    ++ (if keep n then [n] else []).
Proof.
  rewrite (seq_S n 0), filter_app. f_equal.
  rewrite filter_cons, filter_nil. cbn [Nat.add].
  destruct (keep n); reflexivity.
Qed.

(** The selection loop of the per-edge branch. *)
Lemma goodEdges_spec (P : list Matrix4d) (n : nat) :
  (2 * n <= length P)%nat ->
  forLoop n
    (fun i goodList =>
       let* M0 := vat P (2 * Z.of_nat i) in
       if nonDegenerate M0 then
         let* M1 := vat P (2 * Z.of_nat i + 1) in
         if nonDegenerate M1 then Ok (push_back goodList (Z.of_nat i))
         else Ok goodList
       else Ok goodList)
    []
  = Ok (Z.of_nat <$> filter (fun i => bothGood P i = true) (seq 0 n)).
Proof.
  intros HP.
  match goal with
  | |- forLoop n ?body ?s0 = _ =>
      destruct (forLoop_total
        (fun i (goodList : list Z) =>
           goodList
           = Z.of_nat <$> filter (fun i => bothGood P i = true) (seq 0 i))
        body n s0) as (G & Hrun & HG)
  end.
  - reflexivity.
  - intros i G Hi ->.
    destruct (lookup_lt_is_Some_2 P (2 * i)) as [M0 H0]; [lia|].
    destruct (lookup_lt_is_Some_2 P (2 * i + 1)) as [M1 H1]; [lia|].
    assert (R0 : vat P (2 * Z.of_nat i) = Ok M0).
    { apply vat_Ok. split; [lia|].
      now replace (Z.to_nat (2 * Z.of_nat i)) with (2 * i)%nat by lia. }
    assert (R1 : vat P (2 * Z.of_nat i + 1) = Ok M1).
    { apply vat_Ok. split; [lia|].
      now replace (Z.to_nat (2 * Z.of_nat i + 1)) with (2 * i + 1)%nat by lia. }
    rewrite R0. cbn [bind]. rewrite filter_seq_S, fmap_app.
    assert (Hb : bothGood P i = nonDegenerate M0 && nonDegenerate M1)
      by (unfold bothGood, good; now rewrite H0, H1).
    rewrite Hb.
    destruct (nonDegenerate M0); cbn [andb].
    + rewrite R1. cbn [bind].
      destruct (nonDegenerate M1); eexists; (split; [reflexivity|]);
        [reflexivity | now rewrite app_nil_r].
    + eexists; split; [reflexivity|]. now rewrite app_nil_r.
  - now rewrite Hrun, HG.
Qed.

(** The loop over the wedges of one vertex, from tetrahedron [m] on. *)
Lemma wedgesGood_spec (P : list Matrix4d) (m n : nat) :
  (m + n <= length P)%nat ->
  forLoop n (wedgesGood P) (true, Z.of_nat m)
  = Ok (forallb (fun k => good P (m + k)) (seq 0 n), Z.of_nat (m + n)).
Proof.
  intros HP.
  destruct (forLoop_total
    (fun j (st : bool * Z) =>
       st = (forallb (fun k => good P (m + k)) (seq 0 j), Z.of_nat (m + j)))
    (wedgesGood P) n (true, Z.of_nat m)) as (st & Hrun & Hst).
  - cbn [seq forallb]. now rewrite Nat.add_0_r.
  - intros j st Hj ->. unfold wedgesGood.
    rewrite (seq_S j 0), forallb_app. cbn [forallb Nat.add].
    rewrite andb_true_r.
    destruct (forallb (fun k => good P (m + k)) (seq 0 j)); cbn [andb].
    + destruct (lookup_lt_is_Some_2 P (m + j)) as [M HM]; [lia|].
      rewrite (proj2 (vat_nat P (m + j) M) HM). cbn [bind].
      eexists; split; [reflexivity|]. unfold good. rewrite HM.
      do 2 f_equal. lia.
    + cbn [bind]. eexists; split; [reflexivity|]. do 2 f_equal. lia.
  - now rewrite Hrun, Hst.
Qed.

(** The selection loop of the per-vertex branch. *)
Lemma goodVertices_spec (P : list Matrix4d) (vertexList : list vertex) :
  (wedgeCount vertexList <= length P)%nat ->
  forLoop (length vertexList)
    (fun i '(goodList, cur) =>
       let* v := vat vertexList (Z.of_nat i) in
       let* '(isGood, cur) :=
         forLoop (length (connectedTriangles v) / 2) (wedgesGood P)
           (true, cur) in
       Ok (if isGood : bool then push_back goodList (Z.of_nat i)
           else goodList, cur))
    ([], 0)
  = Ok (Z.of_nat <$> filter (fun i => allGood P vertexList i = true)
                            (seq 0 (length vertexList)),
        Z.of_nat (wedgeCount vertexList)).
Proof.
  intros HP.
  match goal with
  | |- forLoop _ ?body ?s0 = _ =>
      destruct (forLoop_total
        (fun i (st : list Z * Z) =>
           st = (Z.of_nat <$> filter (fun i => allGood P vertexList i = true)
                                     (seq 0 i),
                 Z.of_nat (wedgeCount (take i vertexList))))
        body (length vertexList) s0) as (st & Hrun & Hst)
  end.
  - reflexivity.
  - intros i st Hi ->.
    destruct (lookup_lt_is_Some_2 vertexList i Hi) as [v Hv].
    rewrite (proj2 (vat_nat vertexList i v) Hv). cbn [bind].
    fold (wedges v).
    assert (Hm : (wedgeCount (take i vertexList) + wedges v <= length P)%nat).
    { rewrite <- (take_drop (S i) vertexList), wedgeCount_app in HP.
      rewrite (wedgeCount_take_S _ _ _ Hv) in HP. lia. }
    rewrite (wedgesGood_spec P _ _ Hm). cbn [bind].
    eexists; split; [reflexivity|].
    rewrite filter_seq_S, fmap_app, (wedgeCount_take_S _ _ _ Hv).
    assert (Ha : allGood P vertexList i
                 = forallb (fun k => good P (wedgeCount (take i vertexList) + k))
                           (seq 0 (wedges v)))
      by (unfold allGood; now rewrite Hv).
    rewrite Ha.
    destruct (forallb _ (seq 0 (wedges v))); [reflexivity|].
    now rewrite app_nil_r.
  - rewrite Hrun, Hst. now rewrite firstn_all.
Qed.

Lemma wellFormed_keptAt keep faceList edgeList :
  wellFormed TM_EDGE faceList edgeList = true ->
  wellFormed TM_EDGE faceList (keptAt keep edgeList) = true.
Proof.
  unfold wellFormed. simpl (TM_EDGE =? TM_EDGE). cbv iota.
  rewrite !forallb_forall. intros Hall e He. apply Hall.
  rewrite <- list_elem_of_In in *.
  apply keptAt_elem in He as (i & He & _).
  eapply list_elem_of_lookup_2. eassumption.
Qed.

(** C2, on the code.  An edge whose first tetrahedron is not degenerate
    and whose second is degenerate is dropped, and a vertex with one good
    and one degenerate wedge is dropped, in both per-vertex modes. *)
Lemma removeDegenerate_drops_partly_degenerate :
  nonDegenerate frame_unit = true /\
  nonDegenerate frame_flat = false /\
  removeDegenerate TM_EDGE 4 squareEdgeTets unitSquare [squareEdge] []
                   [frame_unit; frame_flat]
  = Ok (4%Z, Lists [] unitSquare [] []) /\
  removeDegenerate TM_VERTEX 4 fanTetList [] [] [fanVertex]
                   [frame_unit; frame_flat]
  = Ok (4%Z, Lists [] [] [] []) /\
  removeDegenerate TM_VFACE 4 fanTetList [] [] [fanVertex]
                   [frame_unit; frame_flat]
  = Ok (4%Z, Lists [] [] [] []).
Proof. repeat split; vm_compute; reflexivity. Qed.

(** C2, amended.  The filter keeps an element only when it is fully
    good.  In per-edge mode the new edge list is, in order, the edges both
    of whose tetrahedra have a frame determinant of absolute value above
    the threshold: an edge with a degenerate tetrahedron is dropped.  In
    the per-vertex and vface modes the new vertex list is, in order, the
    vertices all of whose wedges are good: a vertex with a degenerate
    wedge is dropped with all its wedges.  The tetrahedra are rebuilt from
    the lists that remain. *)
Theorem removeDegenerate_keeps_fully_good
    numPts tetList faceList edgeList vertexList P :
  (wellFormed TM_EDGE faceList edgeList = true ->
   (2 * length edgeList <= length P)%nat ->
   exists dim tetList',
     removeDegenerate TM_EDGE numPts tetList faceList edgeList vertexList P
     = Ok (dim, Lists tetList' faceList
                      (keptAt (bothGood P) edgeList) vertexList) /\
     makeTetList TM_EDGE numPts faceList (keptAt (bothGood P) edgeList)
                 vertexList = Ok (tetList', dim)) /\
  (forall tetMode,
      tetMode = TM_VERTEX \/ tetMode = TM_VFACE ->
      (wedgeCount vertexList <= length P)%nat ->
      exists dim tetList',
        removeDegenerate tetMode numPts tetList faceList edgeList vertexList P
        = Ok (dim, Lists tetList' faceList edgeList
                         (keptAt (allGood P vertexList) vertexList)) /\
        makeTetList tetMode numPts faceList edgeList
                    (keptAt (allGood P vertexList) vertexList)
        = Ok (tetList', dim)).
Proof.
  split.
  - intros Hwf HP. unfold removeDegenerate.
    simpl (TM_EDGE =? _). cbv iota.
    rewrite (goodEdges_spec P (length edgeList) HP). cbn [bind].
    rewrite keepGood_spec by apply filter_seq_lt. cbn [bind].
    fold (keptAt (bothGood P) edgeList).
    destruct (makeTetList_edge_mode numPts faceList
                (keptAt (bothGood P) edgeList) vertexList
                (wellFormed_keptAt _ _ _ Hwf)) as (tl & Hrun & _).
    rewrite Hrun. cbn [bind]. eauto.
  - intros tetMode Hmode HP.
    destruct (makeTetList_fan_length tetMode numPts faceList edgeList
                (keptAt (allGood P vertexList) vertexList) Hmode)
      as (tl & dim & Hrun & _).
    exists dim, tl. split; [|assumption].
    unfold removeDegenerate.
    assert (Hsel : (tetMode =? TM_FACE) = false /\
                   (tetMode =? TM_EDGE) = false /\
                   ((tetMode =? TM_VERTEX) || (tetMode =? TM_VFACE)) = true)
      by (destruct Hmode as [-> | ->]; repeat split).
    destruct Hsel as (-> & -> & ->).
    rewrite (goodVertices_spec P vertexList HP). cbn [bind].
    rewrite keepGood_spec by apply filter_seq_lt. cbn [bind].
    fold (keptAt (allGood P vertexList) vertexList).
    rewrite Hrun. reflexivity.
Qed.

Lemma removeDegenerate_keeps_fully_good_witness :
  (exists dim tetList',
     removeDegenerate TM_EDGE 4 squareEdgeTets unitSquare [squareEdge] []
                      [frame_unit; frame_unit]
     = Ok (dim, Lists tetList' unitSquare
                      (keptAt (bothGood [frame_unit; frame_unit]) [squareEdge])
                      []) /\
     makeTetList TM_EDGE 4 unitSquare
                 (keptAt (bothGood [frame_unit; frame_unit]) [squareEdge]) []
     = Ok (tetList', dim)) /\
  (exists dim tetList',
     removeDegenerate TM_VFACE 4 fanTetList [] [] [fanVertex]
                      [frame_unit; frame_flat]
     = Ok (dim, Lists tetList' [] []
                      (keptAt (allGood [frame_unit; frame_flat] [fanVertex])
                              [fanVertex])) /\
     makeTetList TM_VFACE 4 [] []
                 (keptAt (allGood [frame_unit; frame_flat] [fanVertex])
                         [fanVertex])
     = Ok (tetList', dim)).
Proof.
  split.
  - apply (proj1 (removeDegenerate_keeps_fully_good
                    4 squareEdgeTets unitSquare [squareEdge] []
                    [frame_unit; frame_unit])).
    + reflexivity.
    + cbn. lia.
  - apply (proj2 (removeDegenerate_keeps_fully_good
                    4 fanTetList [] [] [fanVertex] [frame_unit; frame_flat])
                 TM_VFACE).
    + right. reflexivity.
    + cbn. lia.
Defined.

(** ** Keys of the edge map *)

(** X1.  [couple::operator<] is a strict total order on pairs: it is
    irreflexive and transitive, and two pairs neither of which is less
    than the other are the same pair, which is also what [operator==]
    tests.  So the map [edges] has one entry per pair of indices. *)
Theorem couple_lt_strict_total_order (a b c : Z * Z) :
  couple_lt a a = false /\
  (couple_lt a b = true -> couple_lt b c = true -> couple_lt a c = true) /\
  (couple_lt a b = false /\ couple_lt b a = false <-> a = b) /\
  (couple_eq a b = true <-> a = b).
Proof.
  destruct a as [a1 a2], b as [b1 b2], c as [c1 c2].
  unfold couple_lt, couple_eq. cbn [fst snd].
  split; [|split; [|split; [split|split]]].
  - destruct (Z.ltb_spec a1 a1), (Z.eqb_spec a1 a1), (Z.ltb_spec a2 a2);
      cbn; try reflexivity; lia.
  - destruct (Z.ltb_spec a1 b1), (Z.eqb_spec a1 b1), (Z.ltb_spec a2 b2),
      (Z.ltb_spec b1 c1), (Z.eqb_spec b1 c1), (Z.ltb_spec b2 c2),
      (Z.ltb_spec a1 c1), (Z.eqb_spec a1 c1), (Z.ltb_spec a2 c2);
      cbn; intros; try reflexivity; try discriminate; lia.
  - intros [H1 H2]. f_equal;
      destruct (Z.ltb_spec a1 b1), (Z.eqb_spec a1 b1), (Z.ltb_spec a2 b2),
        (Z.ltb_spec b1 a1), (Z.eqb_spec b1 a1), (Z.ltb_spec b2 a2);
      cbn in H1, H2; try discriminate; lia.
  - intros [= -> ->].
    destruct (Z.ltb_spec b1 b1), (Z.eqb_spec b1 b1), (Z.ltb_spec b2 b2);
      cbn; try (split; reflexivity); lia.
  - intros H. apply andb_prop in H as [H1 H2].
    apply Z.eqb_eq in H1, H2. now subst.
  - intros [= -> ->]. now rewrite !Z.eqb_refl.
Qed.

(** ** Topology extraction, on any triangle list *)

Lemma sightings_seen faceList pa :
  sightings faceList pa
  = seen pa (sidesBefore faceList (length faceList / 3) 0).
Proof.
  unfold seen, sightings, allSides, sidesBefore.
  simpl (flat_map _ (seq 0 0)). now rewrite app_nil_r.
Qed.

(** A sighting of a pair is a face that has the pair as a side. *)
Lemma sightings_side faceList pa f :
  f ∈ sightings faceList pa -> sideOfFace faceList pa f.
Proof.
  intros Hin. unfold sightings in Hin. apply list_elem_of_fmap in Hin.
  destruct Hin as ([pa' f'] & ? & Hin). cbn [snd] in *. subst f'.
  apply list_elem_of_filter in Hin as [Hpa Hin]. cbn [fst] in Hpa. subst pa'.
  unfold allSides in Hin. rewrite list_elem_of_In in Hin.
  apply in_flat_map in Hin as (i & Hi & Hin).
  apply in_flat_map in Hin as (j & Hj & Hin).
  apply in_seq in Hi, Hj.
  destruct (sideOf faceList i j) as [pa'|] eqn:E; [|destruct Hin].
  destruct Hin as [[= -> <-]|[]].
  split.
  - assert (Hn : size faceList / 3 = Z.of_nat (length faceList / 3))
      by (unfold size; now rewrite Nat2Z.inj_div).
    rewrite Hn. lia.
  - exists j. rewrite Nat2Z.id. split; [lia | assumption].
Qed.

(** The sightings of a pair are in visiting order: none comes before the
    first. *)
Lemma seen_head_le faceList pa n f rest :
  seen pa (sidesBefore faceList n 0) = f :: rest ->
  forall g, g ∈ rest -> f <= g.
Proof.
  revert f rest. induction n as [|n IH]; intros f rest.
  - unfold sidesBefore, seen. cbn. discriminate.
  - rewrite sidesBefore_face, seen_app.
    destruct (seen pa (sidesBefore faceList n 0)) as [|f0 rest0] eqn:E.
    + cbn [app]. rewrite !seen_app, !seen_sideOn.
      intros Hnew g Hg.
      assert (Hall : forall x, x ∈ f :: rest -> x = Z.of_nat n).
      { intros x Hx. rewrite <- Hnew in Hx.
        repeat case_decide; cbn [app] in Hx;
          repeat match goal with
                 | H : _ ∈ _ :: _ |- _ => apply elem_of_cons in H as [H|H]
                 | H : _ ∈ [] |- _ => apply not_elem_of_nil in H; destruct H
                 end; assumption. }
      rewrite (Hall f), (Hall g); [lia | now right | now left].
    + cbn [app]. intros [= <- <-] g Hg.
      apply elem_of_app in Hg as [Hg | Hg].
      * now apply (IH f0 rest0).
      * assert (Hf : f0 ∈ seen pa (sidesBefore faceList n 0))
          by (rewrite E; left).
        apply seen_before in Hf.
        rewrite !seen_app, !seen_sideOn in Hg.
        repeat case_decide; cbn [app] in Hg;
          repeat match goal with
                 | H : _ ∈ _ :: _ |- _ => apply elem_of_cons in H as [H|H]
                 | H : _ ∈ [] |- _ => apply not_elem_of_nil in H; destruct H
                 end; lia.
Qed.

(** What an emitted edge records: the first sighting of its pair and a
    later one. *)
Lemma emitted_edge faceList edgeList e :
  (forall pa, edgesOf pa edgeList = emitted pa (sightings faceList pa)) ->
  e ∈ edgeList ->
  exists f rest,
    sightings faceList (vertices e) = f :: rest /\
    fst (faces e) = f /\ snd (faces e) ∈ rest.
Proof.
  intros Hout He.
  assert (Hin : e ∈ edgesOf (vertices e) edgeList)
    by (apply list_elem_of_filter; auto).
  rewrite Hout in Hin.
  destruct (sightings faceList (vertices e)) as [|f rest];
    [now apply not_elem_of_nil in Hin|].
  exists f, rest. split; [reflexivity|].
  cbn [emitted] in Hin.
  apply list_elem_of_In, in_map_iff in Hin as (g & <- & Hg).
  cbn [newEdge faces fst snd]. split; [reflexivity|].
  now apply list_elem_of_In.
Qed.

Lemma emitted_edge_faces faceList edgeList e :
  (forall pa, edgesOf pa edgeList = emitted pa (sightings faceList pa)) ->
  e ∈ edgeList ->
  fst (faces e) <= snd (faces e) /\
  sideOfFace faceList (vertices e) (fst (faces e)) /\
  sideOfFace faceList (vertices e) (snd (faces e)).
Proof.
  intros Hout He.
  destruct (emitted_edge faceList edgeList e Hout He)
    as (f & rest & Hs & Hf & Hg).
  split; [|split].
  - rewrite Hf. rewrite sightings_seen in Hs.
    now apply (seen_head_le _ _ _ _ _ Hs).
  - apply sightings_side. rewrite Hs, Hf. left.
  - apply sightings_side. rewrite Hs. now right.
Qed.

(** X2.  On every triangle list [makeEdgeList] is defined and returns
    the number of edges it emitted.  The map entry of a pair is written
    at its first sighting and never again: a pair sighted [k] times, with
    [k >= 1], yields [k-1] edges, one for each later sighting in visiting
    order, and each of them records the face of the first sighting as
    [faces[0]]. *)
Theorem makeEdgeList_first_face_kept faceList :
  exists edgeList,
    makeEdgeList faceList = Ok (edgeList, size edgeList) /\
    forall pa,
      length (edgesOf pa edgeList) = (length (sightings faceList pa) - 1)%nat /\
      (forall e, e ∈ edgesOf pa edgeList ->
                 head (sightings faceList pa) = Some (fst (faces e))) /\
      (fun e => snd (faces e)) <$> edgesOf pa edgeList
      = tail (sightings faceList pa).
Proof.
  destruct (makeEdgeList_run faceList) as (edgeList & Hrun & Hout).
  exists edgeList. split; [assumption|]. intros pa. rewrite Hout.
  destruct (sightings faceList pa) as [|f rest]; cbn [emitted].
  - repeat split. intros e He. now apply not_elem_of_nil in He.
  - split; [|split].
    + rewrite length_map. cbn [length]. lia.
    + intros e He. apply list_elem_of_In, in_map_iff in He as (g & <- & _).
      reflexivity.
    + cbn [tail]. induction rest as [|g rest IH]; [reflexivity|].
      cbn [map fmap list_fmap]. cbn [newEdge faces snd]. f_equal. exact IH.
Qed.

(** X3.  Every edge that [makeEdgeList] emits is well formed: its two
    point indices are stored smaller first, its two faces are faces of
    the triangle list, the first not after the second, and the pair is a
    side of both faces. *)
Theorem makeEdgeList_edges_well_formed faceList :
  exists edgeList,
    makeEdgeList faceList = Ok (edgeList, size edgeList) /\
    forall e, e ∈ edgeList ->
      fst (vertices e) <= snd (vertices e) /\
      fst (faces e) <= snd (faces e) /\
      sideOfFace faceList (vertices e) (fst (faces e)) /\
      sideOfFace faceList (vertices e) (snd (faces e)).
Proof.
  destruct (makeEdgeList_run faceList) as (edgeList & Hrun & Hout).
  exists edgeList. split; [assumption|]. intros e He.
  split; [now apply (emitted_ordered faceList edgeList)|].
  now apply (emitted_edge_faces faceList edgeList).
Qed.

(** ** Entries of the tetrahedron list *)

Lemma tetAt_four (tl : list Z) t a b c x :
  tl !! (4 * t)%nat = Some a -> tl !! (4 * t + 1)%nat = Some b ->
  tl !! (4 * t + 2)%nat = Some c -> tl !! (4 * t + 3)%nat = Some x ->
  tetAt tl t = [a; b; c; x].
Proof.
  intros Ha Hb Hc Hx. unfold tetAt. apply list_eq. intros k.
  rewrite lookup_take, lookup_drop. case_decide as Hk.
  - destruct k as [|[|[|[|k]]]]; [ | | | | lia]; cbn [lookup list_lookup].
    + now rewrite Nat.add_0_r.
    + assumption.
    + assumption.
    + assumption.
  - destruct k as [|[|[|[|k]]]]; try lia. reflexivity.
Qed.

Lemma tetAt_ext (tl tl' : list Z) t :
  (forall k, (k < 4)%nat -> tl' !! (4 * t + k)%nat = tl !! (4 * t + k)%nat) ->
  tetAt tl' t = tetAt tl t.
Proof.
  intros H. unfold tetAt. apply list_eq. intros k.
  rewrite !lookup_take, !lookup_drop. case_decide; [auto | reflexivity].
Qed.

Lemma faceAt_three (fl : list Z) f a b c :
  fl !! (3 * f)%nat = Some a -> fl !! (3 * f + 1)%nat = Some b ->
  fl !! (3 * f + 2)%nat = Some c ->
  faceAt fl f = [a; b; c].
Proof.
  intros Ha Hb Hc. unfold faceAt. apply list_eq. intros k.
  rewrite lookup_take, lookup_drop. case_decide as Hk.
  - destruct k as [|[|[|k]]]; [ | | | lia]; cbn [lookup list_lookup].
    + now rewrite Nat.add_0_r.
    + assumption.
    + assumption.
  - destruct k as [|[|[|k]]]; try lia. reflexivity.
Qed.

(** Writing the four entries of tetrahedron [t] leaves the other
    tetrahedra alone. *)
Lemma write_tet_slots (tl : list Z) (t : nat) a b c x :
  (4 * t + 3 < length tl)%nat ->
  let tl' := <[(4 * t + 3)%nat := x]>
               (<[(4 * t + 2)%nat := c]>
                  (<[(4 * t + 1)%nat := b]> (<[(4 * t)%nat := a]> tl))) in
  tetAt tl' t = [a; b; c; x] /\
  forall t', t' <> t -> tetAt tl' t' = tetAt tl t'.
Proof.
  intros Hlen tl'. subst tl'. split.
  - apply tetAt_four.
    + rewrite !list_lookup_insert_ne by lia.
      apply list_lookup_insert_eq. lia.
    + rewrite !list_lookup_insert_ne by lia.
      apply list_lookup_insert_eq. rewrite !length_insert. lia.
    + rewrite !list_lookup_insert_ne by lia.
      apply list_lookup_insert_eq. rewrite !length_insert. lia.
    + apply list_lookup_insert_eq. rewrite !length_insert. lia.
  - intros t' Ht. apply tetAt_ext. intros k Hk.
    rewrite !list_lookup_insert_ne by lia. reflexivity.
Qed.

(** X4.  In per-face mode [makeTetList] is defined on every triangle
    list; tetrahedron [i] is the three corners of triangle [i], in the
    order of the triangle, followed by the ghost point [numPts + i].
    Entries of [faceList] beyond the last complete triple are ignored. *)
Theorem makeTetList_face_copies_corners numPts faceList edgeList vertexList :
  exists tetList,
    makeTetList TM_FACE numPts faceList edgeList vertexList
      = Ok (tetList, numPts + Z.of_nat (length faceList / 3)) /\
    length tetList = (4 * (length faceList / 3))%nat /\
    forall i, (i < length faceList / 3)%nat ->
      tetAt tetList i = faceAt faceList i ++ [numPts + Z.of_nat i].
Proof.
  unfold makeTetList. simpl (TM_FACE =? TM_FACE). cbv iota.
  set (n := (length faceList / 3)%nat).
  assert (Hn : size faceList / 3 = Z.of_nat n).
  { unfold size, n. now rewrite Nat2Z.inj_div. }
  assert (Hn3 : (3 * n <= length faceList)%nat).
  { unfold n. apply Nat.Div0.mul_div_le. }
  rewrite Hn, Nat2Z.id.
  match goal with
  | |- context [forLoop n ?body ?s0] =>
      destruct (forLoop_total
        (fun i tl => length tl = (4 * n)%nat /\
           forall t, (t < i)%nat ->
             tetAt tl t = faceAt faceList t ++ [numPts + Z.of_nat t])
        body n s0) as (tl & Hrun & Hlen & Htets)
  end.
  - split; [rewrite length_resize; lia | intros; lia].
  - intros i tl Hi [Hlen Htets].
    destruct (lookup_lt_is_Some_2 faceList (3 * i)) as [a Ha]; [lia|].
    destruct (lookup_lt_is_Some_2 faceList (3 * i + 1)) as [b Hb]; [lia|].
    destruct (lookup_lt_is_Some_2 faceList (3 * i + 2)) as [c Hc]; [lia|].
    assert (Ra : vat faceList (3 * Z.of_nat i) = Ok a).
    { apply vat_Ok. split; [lia|].
      now replace (Z.to_nat (3 * Z.of_nat i)) with (3 * i)%nat by lia. }
    assert (Rb : vat faceList (3 * Z.of_nat i + 1) = Ok b).
    { apply vat_Ok. split; [lia|].
      now replace (Z.to_nat (3 * Z.of_nat i + 1)) with (3 * i + 1)%nat by lia. }
    assert (Rc : vat faceList (3 * Z.of_nat i + 2) = Ok c).
    { apply vat_Ok. split; [lia|].
      now replace (Z.to_nat (3 * Z.of_nat i + 2)) with (3 * i + 2)%nat by lia. }
    rewrite Ra, Rb, Rc. cbn [bind].
    rewrite vset_lt by (unfold size; lia). cbn [bind].
    rewrite vset_lt by (rewrite size_insert; unfold size; lia). cbn [bind].
    rewrite vset_lt by (rewrite !size_insert; unfold size; lia). cbn [bind].
    rewrite vset_lt by (rewrite !size_insert; unfold size; lia).
    eexists; split; [reflexivity|].
    replace (Z.to_nat (4 * Z.of_nat i)) with (4 * i)%nat by lia.
    replace (Z.to_nat (4 * Z.of_nat i + 1)) with (4 * i + 1)%nat by lia.
    replace (Z.to_nat (4 * Z.of_nat i + 2)) with (4 * i + 2)%nat by lia.
    replace (Z.to_nat (4 * Z.of_nat i + 3)) with (4 * i + 3)%nat by lia.
    destruct (write_tet_slots tl i a b c (Z.of_nat i + numPts)) as (Hi' & Hother);
      [lia|].
    split; [rewrite !length_insert; lia|].
    intros t Ht. destruct (Nat.eq_dec t i) as [->|Hne].
    + rewrite Hi', (faceAt_three faceList i a b c Ha Hb Hc). cbn [app].
      do 4 f_equal. lia.
    + rewrite Hother by assumption. apply Htets. lia.
  - exists tl. rewrite Hrun. cbn [bind].
    split; [f_equal; f_equal; lia | auto].
Qed.

(** ** The per-face pipeline *)

Lemma edgesBetween_pos edgeList a b :
  (0 < edgesBetween edgeList a b)%nat ->
  exists e, e ∈ edgeList /\ (faces e = (a, b) \/ faces e = (b, a)).
Proof.
  unfold edgesBetween. intros H.
  destruct (filter (fun e => faces e = (a, b)) edgeList) as [|e r] eqn:E1.
  - destruct (filter (fun e => faces e = (b, a)) edgeList) as [|e r] eqn:E2;
      [cbn in H; lia|].
    assert (He : e ∈ filter (fun e => faces e = (b, a)) edgeList)
      by (rewrite E2; left).
    apply list_elem_of_filter in He as [He1 He2]. eauto.
  - assert (He : e ∈ filter (fun e => faces e = (a, b)) edgeList)
      by (rewrite E1; left).
    apply list_elem_of_filter in He as [He1 He2]. eauto.
Qed.

(** X5.  The per-face pipeline is defined on every triangle list: the
    edges of [makeEdgeList] and the tetrahedra of [makeTetList] are input
    on which [makeAdjacencyList] stays in range.  The adjacency has one
    row per face, and a face listed in the row of another face has a
    side in common with it. *)
Theorem face_adjacency_shares_a_side numPts faceList vertexList :
  exists edgeList tetList adj,
    makeEdgeList faceList = Ok (edgeList, size edgeList) /\
    makeTetList TM_FACE numPts faceList edgeList vertexList
      = Ok (tetList, numPts + Z.of_nat (length faceList / 3)) /\
    makeAdjacencyList TM_FACE tetList edgeList vertexList = Ok adj /\
    length adj = (length faceList / 3)%nat /\
    forall (a : nat) (b : Z),
      (0 < links adj a b)%nat ->
      exists pa, sideOfFace faceList pa (Z.of_nat a) /\
                 sideOfFace faceList pa b.
Proof.
  destruct (makeEdgeList_run faceList) as (edgeList & Hrun & Hout).
  destruct (makeTetList_face numPts faceList edgeList vertexList)
    as (tetList & Htet & Hlen & _).
  assert (Hnum : (length tetList / 4 = length faceList / 3)%nat).
  { rewrite Hlen, Nat.mul_comm. apply Nat.div_mul. lia. }
  assert (Hsize : size faceList / 3 = Z.of_nat (length faceList / 3))
    by (unfold size; now rewrite Nat2Z.inj_div).
  destruct (makeAdjacencyList_face tetList edgeList vertexList)
    as (adj & Hadj & Hlen' & Hlinks).
  { unfold adjacencyInput. simpl (TM_FACE =? TM_FACE). cbv iota zeta.
    apply forallb_forall. intros e He. apply list_elem_of_In in He.
    destruct (emitted_edge_faces faceList edgeList e Hout He)
      as (_ & [H0 _] & [H1 _]).
    rewrite Hnum. apply andb_true_intro.
    split; apply inRange_spec; lia. }
  exists edgeList, tetList, adj.
  split; [assumption|]. split; [assumption|]. split; [assumption|].
  split; [lia|].
  intros a b Hpos. rewrite Hlinks in Hpos.
  apply edgesBetween_pos in Hpos as (e & He & Hf).
  destruct (emitted_edge_faces faceList edgeList e Hout He)
    as (_ & H0 & H1).
  exists (vertices e).
  destruct Hf as [Hf | Hf]; rewrite Hf in H0, H1; cbn [fst snd] in H0, H1;
    auto.
Qed.

(** ** Tetrahedra of the per-edge mode *)

Lemma skipEdgeEnds_first_off e l n k0 :
  existsb (fun x => negb (onEdge e x)) (take n l) = true ->
  exists k z,
    (k < n)%nat /\ skipEdgeEnds e l k0 = Ok (k0 + k)%nat /\
    l !! k = Some z /\ onEdge e z = false /\
    forall k' w, (k' < k)%nat -> l !! k' = Some w -> onEdge e w = true.
Proof.
  revert n k0. induction l as [|x l IH]; intros n k0.
  - rewrite take_nil. discriminate.
  - destruct n as [|n]; [discriminate|].
    cbn [take existsb skipEdgeEnds]. fold (onEdge e x).
    destruct (onEdge e x) eqn:Ex; cbn [negb orb].
    + intros H. destruct (IH n (S k0) H) as (k & z & Hk & Hrun & Hz & Hoff & Hon).
      exists (S k), z. split; [lia|]. split.
      { rewrite Hrun. f_equal. lia. }
      split; [assumption|]. split; [assumption|].
      intros [|k'] w Hk' Hw.
      * injection Hw as <-. assumption.
      * apply (Hon k' w); [lia | assumption].
    + intros _. exists 0%nat, x. split; [lia|]. split.
      { f_equal. lia. }
      split; [reflexivity|]. split; [assumption|].
      intros k' w Hk'. lia.
Qed.

Lemma makeTetList_edge_step_corners numPts faceList edgeList i j e tl :
  edgeList !! i = Some e ->
  (j < 2)%nat ->
  faceOfEdge faceList e (sel (faces e) j) = true ->
  (4 * (2 * i + j) + 3 < length tl)%nat ->
  exists tl',
    makeTetList_edge numPts faceList edgeList i j tl = Ok tl' /\
    length tl' = length tl /\
    rotatesFace numPts faceList e i (Z.to_nat (sel (faces e) j))
                (tetAt tl' (2 * i + j)) /\
    forall t', t' <> (2 * i + j)%nat -> tetAt tl' t' = tetAt tl t'.
Proof.
  intros He Hj Hwf Hlen. unfold makeTetList_edge.
  apply vat_nat in He. rewrite He. cbn [bind].
  set (f := sel (faces e) j) in *.
  unfold faceOfEdge in Hwf.
  apply andb_prop in Hwf as [Hwf Hex]. apply andb_prop in Hwf as [Hf0 Hf3].
  apply Z.leb_le in Hf0, Hf3.
  destruct (Z.ltb_spec (3 * f) 0) as [|_]; [lia|].
  destruct (skipEdgeEnds_first_off e _ 3 0%nat Hex)
    as (k & z & Hk & -> & Hz & Hoff & Hon).
  cbn [bind]. simpl (0 + k)%nat.
  destruct (Z.ltb_spec (Z.of_nat k) 3) as [_|]; [|lia]. cbn [negb].
  assert (E1 : (Z.of_nat k + 1) mod 3 = Z.of_nat ((k + 1) mod 3))
    by (rewrite Nat2Z.inj_mod, Nat2Z.inj_add; reflexivity).
  assert (E2 : (Z.of_nat k + 2) mod 3 = Z.of_nat ((k + 2) mod 3))
    by (rewrite Nat2Z.inj_mod, Nat2Z.inj_add; reflexivity).
  pose proof (Nat.mod_upper_bound (k + 1) 3) as Hm1.
  pose proof (Nat.mod_upper_bound (k + 2) 3) as Hm2.
  rewrite E1, E2.
  unfold size in Hf3.
  set (F := Z.to_nat f).
  destruct (lookup_lt_is_Some_2 faceList (3 * F + (k + 1) mod 3))
    as [x Hx]; [lia|].
  destruct (lookup_lt_is_Some_2 faceList (3 * F + (k + 2) mod 3))
    as [y Hy]; [lia|].
  rewrite lookup_drop in Hz.
  replace (Z.to_nat (3 * f) + k)%nat with (3 * F + k)%nat in Hz by lia.
  assert (Rx : vat faceList (3 * f + Z.of_nat ((k + 1) mod 3)) = Ok x).
  { apply vat_Ok. split; [lia|].
    now replace (Z.to_nat (3 * f + Z.of_nat ((k + 1) mod 3)))
      with (3 * F + (k + 1) mod 3)%nat by lia. }
  assert (Ry : vat faceList (3 * f + Z.of_nat ((k + 2) mod 3)) = Ok y).
  { apply vat_Ok. split; [lia|].
    now replace (Z.to_nat (3 * f + Z.of_nat ((k + 2) mod 3)))
      with (3 * F + (k + 2) mod 3)%nat by lia. }
  assert (Rz : vat faceList (3 * f + Z.of_nat k) = Ok z).
  { apply vat_Ok. split; [lia|].
    now replace (Z.to_nat (3 * f + Z.of_nat k)) with (3 * F + k)%nat by lia. }
  rewrite Rx, Ry, Rz. cbn [bind].
  rewrite vset_lt by (unfold size; lia). cbn [bind].
  rewrite vset_lt by (rewrite size_insert; unfold size; lia). cbn [bind].
  rewrite vset_lt by (rewrite !size_insert; unfold size; lia). cbn [bind].
  rewrite vset_lt by (rewrite !size_insert; unfold size; lia).
  eexists; split; [reflexivity|].
  replace (Z.to_nat (8 * Z.of_nat i + 4 * Z.of_nat j))
    with (4 * (2 * i + j))%nat by lia.
  replace (Z.to_nat (8 * Z.of_nat i + 4 * Z.of_nat j + 1))
    with (4 * (2 * i + j) + 1)%nat by lia.
  replace (Z.to_nat (8 * Z.of_nat i + 4 * Z.of_nat j + 2))
    with (4 * (2 * i + j) + 2)%nat by lia.
  replace (Z.to_nat (8 * Z.of_nat i + 4 * Z.of_nat j + 3))
    with (4 * (2 * i + j) + 3)%nat by lia.
  destruct (write_tet_slots tl (2 * i + j) x y z (Z.of_nat i + numPts) Hlen)
    as (Hnew & Hold).
  split; [now rewrite !length_insert|]. split; [|exact Hold].
  exists k, x, y, z.
  split; [assumption|]. split; [assumption|]. split; [assumption|].
  split; [assumption|]. split; [assumption|]. split.
  - intros k' w Hk' Hw. apply (Hon k' w Hk').
    rewrite lookup_drop.
    now replace (Z.to_nat (3 * f) + k')%nat with (3 * F + k')%nat by lia.
  - rewrite Hnew. do 4 f_equal. lia.
Qed.

Lemma makeTetList_edge_mode_corners numPts faceList edgeList vertexList :
  wellFormed TM_EDGE faceList edgeList = true ->
  exists tetList,
    makeTetList TM_EDGE numPts faceList edgeList vertexList
      = Ok (tetList, numPts + size edgeList) /\
    length tetList = (4 * (2 * length edgeList))%nat /\
    forall i j e,
      edgeList !! i = Some e -> (j < 2)%nat ->
      rotatesFace numPts faceList e i (Z.to_nat (sel (faces e) j))
                  (tetAt tetList (2 * i + j)).
Proof.
  intros Hwf. unfold makeTetList.
  simpl (TM_EDGE =? TM_FACE). simpl (TM_EDGE =? TM_EDGE). cbv iota.
  set (n := length edgeList).
  pose (Inv := fun (m : nat) (tl : list Z) =>
    length tl = (4 * (2 * n))%nat /\
    forall i j e,
      (2 * i + j < m)%nat -> (j < 2)%nat -> edgeList !! i = Some e ->
      rotatesFace numPts faceList e i (Z.to_nat (sel (faces e) j))
                  (tetAt tl (2 * i + j))).
  match goal with
  | |- context [forLoop n ?body ?s0] =>
      destruct (forLoop_total (fun i => Inv (2 * i)%nat) body n s0)
        as (tl & Hrun & Hlen & Htets)
  end.
  - split; [rewrite length_resize; unfold size; fold n; lia | intros; lia].
  - intros i tl Hi HI.
    destruct (lookup_lt_is_Some_2 edgeList i) as [e He]; [assumption|].
    destruct (forLoop_total (fun j => Inv (2 * i + j)%nat)
                (makeTetList_edge numPts faceList edgeList i) 2 tl)
      as (tl' & Hrun' & HI').
    + now rewrite Nat.add_0_r.
    + intros j tl0 Hj [Hlen0 Htets0].
      destruct (makeTetList_edge_step_corners numPts faceList edgeList i j e tl0)
        as (tl1 & Hstep & Hlen1 & Hnew & Hold); auto.
      * eapply wellFormed_edge; eauto.
      * lia.
      * exists tl1. split; [assumption|]. split; [lia|].
        intros i' j' e' Ht Hj' He'.
        destruct (Nat.eq_dec (2 * i' + j')%nat (2 * i + j)%nat) as [Heq|Hne].
        -- assert (i' = i) by lia. assert (j' = j) by lia. subst i' j'.
           rewrite He in He'. injection He' as <-. exact Hnew.
        -- rewrite Hold by assumption. apply Htets0; [lia | assumption..].
    + exists tl'. split; [assumption|].
      replace (2 * S i)%nat with (2 * i + 2)%nat by lia. assumption.
  - exists tl. rewrite Hrun. cbn [bind].
    split; [reflexivity|]. split; [assumption|].
    intros i j e He Hj. apply Htets; [|assumption..].
    apply lookup_lt_Some in He. fold n in He. lia.
Qed.

(** X6.  In per-edge mode, on well-formed input, the tetrahedron that
    edge [i] builds on its face number [j] is that face with its corners
    in their cyclic order, rotated so that the first corner of the face
    that is not an end of the edge comes third, followed by the ghost
    point [numPts + i]: the orientation of the face is kept. *)
Theorem makeTetList_edge_rotates_faces numPts faceList edgeList vertexList :
  wellFormed TM_EDGE faceList edgeList = true ->
  exists tetList,
    makeTetList TM_EDGE numPts faceList edgeList vertexList
      = Ok (tetList, numPts + size edgeList) /\
    forall i j e,
      edgeList !! i = Some e -> (j < 2)%nat ->
      rotatesFace numPts faceList e i (Z.to_nat (sel (faces e) j))
                  (tetAt tetList (2 * i + j)).
Proof.
  intros Hwf.
  destruct (makeTetList_edge_mode_corners numPts faceList edgeList vertexList
              Hwf) as (tetList & Hrun & _ & Htets).
  exists tetList. split; assumption.
Qed.

Lemma makeTetList_edge_rotates_faces_witness :
  exists tetList,
    makeTetList TM_EDGE 4 unitSquare [squareEdge] []
      = Ok (tetList, 4 + size [squareEdge]) /\
    forall (i j : nat) (e : edge),
      ([squareEdge] : list edge) !! i = Some e -> (j < 2)%nat ->
      rotatesFace 4 unitSquare e i (Z.to_nat (sel (faces e) j))
                  (tetAt tetList (2 * i + j)).
Proof.
  apply (makeTetList_edge_rotates_faces 4 unitSquare [squareEdge] []).
  reflexivity.
Defined.

(** ** The per-edge pipeline on proper triangles *)

Lemma face_corners (faceList : list Z) f :
  0 <= f < size faceList / 3 ->
  exists a b c,
    faceList !! (3 * Z.to_nat f)%nat = Some a /\
    faceList !! (3 * Z.to_nat f + 1)%nat = Some b /\
    faceList !! (3 * Z.to_nat f + 2)%nat = Some c.
Proof.
  intros Hf.
  assert (Hn : size faceList / 3 = Z.of_nat (length faceList / 3))
    by (unfold size; now rewrite Nat2Z.inj_div).
  pose proof (Nat.Div0.mul_div_le (length faceList) 3) as Hn3.
  destruct (lookup_lt_is_Some_2 faceList (3 * Z.to_nat f)) as [a Ha]; [lia|].
  destruct (lookup_lt_is_Some_2 faceList (3 * Z.to_nat f + 1)) as [b Hb]; [lia|].
  destruct (lookup_lt_is_Some_2 faceList (3 * Z.to_nat f + 2)) as [c Hc]; [lia|].
  exists a, b, c. auto.
Qed.

Lemma onEdge_false e z :
  onEdge e z = false <-> z <> fst (vertices e) /\ z <> snd (vertices e).
Proof.
  unfold onEdge. rewrite orb_false_iff, !Z.eqb_neq. reflexivity.
Qed.

(** On proper triangles, a face that has the pair of an edge as a side
    has a corner off the edge. *)
Lemma proper_side_faceOfEdge faceList e f :
  properTriangles faceList ->
  sideOfFace faceList (vertices e) f ->
  faceOfEdge faceList e f = true.
Proof.
  intros Hproper [Hf (j & Hj & Hside)].
  destruct (face_corners faceList f Hf) as (a & b & c & Ha & Hb & Hc).
  destruct (Hproper _ a b c Ha Hb Hc) as (Hab & Hbc & Hca).
  assert (Hn : size faceList / 3 = Z.of_nat (length faceList / 3))
    by (unfold size; now rewrite Nat2Z.inj_div).
  pose proof (Nat.Div0.mul_div_le (length faceList) 3) as Hn3.
  unfold faceOfEdge. apply andb_true_intro. split.
  { apply andb_true_intro. split; [apply Z.leb_le; lia|].
    apply Z.leb_le. unfold size. lia. }
  replace (Z.to_nat (3 * f)) with (3 * Z.to_nat f)%nat by lia.
  fold (faceAt faceList (Z.to_nat f)).
  rewrite (faceAt_three _ _ a b c Ha Hb Hc).
  cbn [existsb]. fold (onEdge e a) (onEdge e b) (onEdge e c).
  unfold sideOf in Hside.
  destruct j as [|[|[|j]]]; [ | | | lia].
  - change ((0 + 1) mod 3)%nat with 1%nat in Hside.
    rewrite Nat.add_0_r, Ha, Hb in Hside. injection Hside as Hside.
    assert (Hoff : onEdge e c = false).
    { apply onEdge_false. rewrite <- Hside. unfold couple_of.
      destruct (a >? b); cbn [fst snd]; lia. }
    rewrite Hoff. cbn [negb]. now rewrite !orb_true_r.
  - change ((1 + 1) mod 3)%nat with 2%nat in Hside.
    rewrite Hb, Hc in Hside. injection Hside as Hside.
    assert (Hoff : onEdge e a = false).
    { apply onEdge_false. rewrite <- Hside. unfold couple_of.
      destruct (b >? c); cbn [fst snd]; lia. }
    rewrite Hoff. reflexivity.
  - change ((2 + 1) mod 3)%nat with 0%nat in Hside.
    rewrite Nat.add_0_r, Hc, Ha in Hside. injection Hside as Hside.
    assert (Hoff : onEdge e b = false).
    { apply onEdge_false. rewrite <- Hside. unfold couple_of.
      destruct (c >? a); cbn [fst snd]; lia. }
    rewrite Hoff. cbn [negb]. now rewrite orb_true_r.
Qed.

(** On a proper triangle that has the pair of the edge as a side, the
    rotation puts the two ends of the edge first, in the orientation of
    the face. *)
Lemma rotatesFace_proper numPts faceList e i f tet :
  properTriangles faceList ->
  sideOfFace faceList (vertices e) f ->
  rotatesFace numPts faceList e i (Z.to_nat f) tet ->
  exists x y z,
    tet = [x; y; z; numPts + Z.of_nat i] /\
    couple_of x y = vertices e /\ z <> x /\ z <> y /\
    z ∈ faceAt faceList (Z.to_nat f).
Proof.
  intros Hproper [Hf (j & Hj & Hside)]
    (k & x & y & z & Hk & Hz & Hx & Hy & Hoff & _ & ->).
  destruct (face_corners faceList f Hf) as (a & b & c & Ha & Hb & Hc).
  destruct (Hproper _ a b c Ha Hb Hc) as (Hab & Hbc & Hca).
  apply onEdge_false in Hoff as [Hz0 Hz1].
  exists x, y, z. split; [reflexivity|].
  rewrite (faceAt_three _ _ a b c Ha Hb Hc).
  unfold sideOf in Hside.
  destruct j as [|[|[|j]]]; [ | | | lia];
    destruct k as [|[|[|k]]]; try lia;
    repeat match goal with
           | H : context [((?n + ?m) mod 3)%nat] |- _ =>
               let r := eval vm_compute in ((n + m) mod 3)%nat in
               change ((n + m) mod 3)%nat with r in H
           end;
    rewrite ?Nat.add_0_r in *;
    rewrite ?Ha, ?Hb, ?Hc in *;
    repeat match goal with
           | H : Some _ = Some _ |- _ => injection H as H
           end;
    subst;
    try (exfalso;
         match goal with
         | H : couple_of _ _ = vertices e |- _ =>
             rewrite <- H in Hz0, Hz1; unfold couple_of in Hz0, Hz1;
             destruct (_ >? _) in Hz0, Hz1; cbn [fst snd] in Hz0, Hz1; lia
         end);
    (split; [assumption|]; split; [lia|]; split; [lia|];
     repeat first [left; reflexivity | right]; left).
Qed.

Lemma unitSquare_proper : properTriangles unitSquare.
Proof.
  intros i a b c Ha Hb Hc.
  destruct i as [|[|i]].
  - injection Ha as <-. injection Hb as <-. injection Hc as <-. lia.
  - injection Ha as <-. injection Hb as <-. injection Hc as <-. lia.
  - apply lookup_lt_Some in Ha. cbn [length unitSquare] in Ha. lia.
Qed.

(** X7.  On triangles with three different corners the per-edge
    pipeline is defined: every edge that [makeEdgeList] emits is
    well-formed input of [makeTetList].  The tetrahedron of edge [i] on
    its face number [j] starts with the two ends of the edge, in the
    orientation of the face, and its third entry is the corner of the
    face opposite the edge. *)
Theorem edge_tetrahedra_start_with_the_edge numPts faceList vertexList :
  properTriangles faceList ->
  exists edgeList tetList,
    makeEdgeList faceList = Ok (edgeList, size edgeList) /\
    makeTetList TM_EDGE numPts faceList edgeList vertexList
      = Ok (tetList, numPts + size edgeList) /\
    forall i j e,
      edgeList !! i = Some e -> (j < 2)%nat ->
      exists x y z,
        tetAt tetList (2 * i + j) = [x; y; z; numPts + Z.of_nat i] /\
        couple_of x y = vertices e /\ z <> x /\ z <> y /\
        z ∈ faceAt faceList (Z.to_nat (sel (faces e) j)).
Proof.
  intros Hproper.
  destruct (makeEdgeList_run faceList) as (edgeList & Hrun & Hout).
  assert (Hsides : forall e j, e ∈ edgeList -> (j < 2)%nat ->
            sideOfFace faceList (vertices e) (sel (faces e) j)).
  { intros e j He Hj.
    destruct (emitted_edge_faces faceList edgeList e Hout He)
      as (_ & H0 & H1).
    destruct j as [|[|j]]; [exact H0 | exact H1 | lia]. }
  assert (Hwf : wellFormed TM_EDGE faceList edgeList = true).
  { unfold wellFormed. simpl (TM_EDGE =? TM_EDGE). cbv iota.
    apply forallb_forall. intros e He. apply list_elem_of_In in He.
    apply andb_true_intro. split.
    - apply proper_side_faceOfEdge; [assumption|].
      apply (Hsides e 0%nat He). lia.
    - apply proper_side_faceOfEdge; [assumption|].
      apply (Hsides e 1%nat He). lia. }
  destruct (makeTetList_edge_mode_corners numPts faceList edgeList vertexList
              Hwf) as (tetList & Htet & _ & Htets).
  exists edgeList, tetList. split; [assumption|]. split; [assumption|].
  intros i j e He Hj.
  apply (rotatesFace_proper numPts faceList e i (sel (faces e) j));
    [assumption | | now apply Htets].
  apply Hsides; [|assumption]. eapply list_elem_of_lookup_2. eassumption.
Qed.

Lemma edge_tetrahedra_start_with_the_edge_witness :
  exists edgeList tetList,
    makeEdgeList unitSquare = Ok (edgeList, size edgeList) /\
    makeTetList TM_EDGE 4 unitSquare edgeList []
      = Ok (tetList, 4 + size edgeList) /\
    forall i j e,
      edgeList !! i = Some e -> (j < 2)%nat ->
      exists x y z,
        tetAt tetList (2 * i + j) = [x; y; z; 4 + Z.of_nat i] /\
        couple_of x y = vertices e /\ z <> x /\ z <> y /\
        z ∈ faceAt unitSquare (Z.to_nat (sel (faces e) j)).
Proof.
  apply (edge_tetrahedra_start_with_the_edge 4 unitSquare []).
  exact unitSquare_proper.
Defined.

(** ** Totals and bounds of the weight transfer *)

Lemma Qsum_app v w : (Qsum (v ++ w) == Qsum v + Qsum w)%Q.
Proof.
  unfold Qsum. induction v as [|x v IH]; cbn [app foldr].
  - ring.
  - rewrite IH. ring.
Qed.

Lemma Qsum_cons x v : Qsum (x :: v) = (x + Qsum v)%Q.
Proof. reflexivity. Qed.

Lemma Qsum_take_S (v : list Q) i x :
  v !! i = Some x -> (Qsum (take (S i) v) == Qsum (take i v) + x)%Q.
Proof.
  intros H. rewrite (take_S_r v i x H), Qsum_app, Qsum_cons.
  change (Qsum []) with 0%Q. ring.
Qed.

Lemma Qsum_insert (v : list Q) p x w :
  v !! p = Some x -> (Qsum (<[p := (x + w)%Q]> v) == Qsum v + w)%Q.
Proof.
  revert p. induction v as [|y v IH]; intros p H; [discriminate|].
  destruct p as [|p].
  - injection H as ->. cbn [insert list_insert]. rewrite !Qsum_cons. ring.
  - cbn [insert list_insert]. rewrite !Qsum_cons.
    rewrite (IH p H). ring.
Qed.

Lemma Qsum_zeros n : (Qsum (replicate n 0%Q) == 0)%Q.
Proof.
  induction n as [|n IH]; cbn [replicate]; [reflexivity|].
  rewrite Qsum_cons, IH. ring.
Qed.

Lemma vadd_total (pw : list Q) p w :
  0 <= p < size pw ->
  exists pw',
    vadd pw p w = Ok pw' /\ length pw' = length pw /\
    (Qsum pw' == Qsum pw + w)%Q.
Proof.
  intros Hp. unfold vadd.
  destruct (vat_lt pw p Hp) as [x Hx]. rewrite Hx. cbn [bind].
  rewrite vset_lt by assumption.
  eexists; split; [reflexivity|]. split; [apply length_insert|].
  apply Qsum_insert. now apply vat_Ok in Hx.
Qed.

(** A corner slot of a tetrahedron list with valid corners. *)
Lemma corner_in_range numPts (tetList : list Z) i j :
  cornersInRange numPts tetList ->
  (i < length tetList / 4)%nat -> (j < 3)%nat ->
  exists c, vat tetList (4 * Z.of_nat i + Z.of_nat j) = Ok c /\
            0 <= c < numPts.
Proof.
  intros Hrange Hi Hj.
  destruct (corner_slot tetList i j Hi Hj) as (c & Hc & Htake).
  assert (Hin : c ∈ corners tetList).
  { apply (cornersBefore_corners tetList i (S j)); [assumption | lia |].
    unfold cornersBefore. rewrite Htake, app_assoc.
    apply elem_of_app. right. left. }
  unfold cornersInRange in Hrange. rewrite Forall_forall in Hrange.
  exists c. split; [|now apply Hrange].
  apply vat_Ok. split; [lia|].
  replace (Z.to_nat (4 * Z.of_nat i + Z.of_nat j)) with (4 * i + j)%nat
    by lia. assumption.
Qed.

Lemma vat_lookup {A} (v : list A) (n : nat) z x :
  z = Z.of_nat n -> v !! n = Some x -> vat v z = Ok x.
Proof. intros -> H. now apply vat_nat. Qed.

(** The scatter of the per-face branch. *)
Lemma makePtsWeightList_face_total
    numPts tetList faceList edgeList vertexList tetWeight :
  0 <= numPts ->
  cornersInRange numPts tetList ->
  (length tetList / 4 <= length tetWeight)%nat ->
  exists ptsWeight,
    makePtsWeightList TM_FACE numPts tetList faceList edgeList vertexList
                      tetWeight = Ok ptsWeight /\
    length ptsWeight = Z.to_nat numPts /\
    (Qsum ptsWeight == 3 * Qsum (take (length tetList / 4) tetWeight))%Q.
Proof.
  intros Hpos Hrange Hlen. unfold makePtsWeightList.
  destruct (Z.ltb_spec numPts 0) as [|_]; [lia|].
  simpl (TM_FACE =? TM_FACE). cbv iota zeta.
  set (n := (length tetList / 4)%nat) in *.
  assert (Hn : size tetList / 4 = Z.of_nat n).
  { unfold size, n. now rewrite Nat2Z.inj_div. }
  rewrite Hn, Nat2Z.id.
  match goal with
  | |- context [forLoop n ?body ?s0] =>
      destruct (forLoop_total
        (fun i (pw : list Q) =>
           length pw = Z.to_nat numPts /\
           (Qsum pw == 3 * Qsum (take i tetWeight))%Q)
        body n s0) as (pw & Hrun & Hlen' & Hsum)
  end.
  - split; [apply length_resize|].
    rewrite resize_nil, Qsum_zeros.
    change (Qsum (take _ tetWeight)) with 0%Q. ring.
  - intros i pw0 Hi [Hlen0 Hsum0].
    destruct (lookup_lt_is_Some_2 tetWeight i) as [wi Hwi]; [lia|].
    destruct (forLoop_total
      (fun j (pw : list Q) =>
         length pw = Z.to_nat numPts /\
         (Qsum pw == 3 * Qsum (take i tetWeight) + Qnat j * wi)%Q)
      (fun j ptsWeight =>
         let* p := vat tetList (4 * Z.of_nat i + Z.of_nat j) in
         let* w := vat tetWeight (Z.of_nat i) in
         vadd ptsWeight p w) 3 pw0) as (pw1 & Hrun1 & Hlen1 & Hsum1).
    + split; [assumption|]. rewrite Hsum0. unfold Qnat. cbn. ring.
    + intros j pw Hj [Hlenj Hsumj].
      destruct (corner_in_range numPts tetList i j Hrange Hi Hj)
        as (c & Hc & Hcr).
      rewrite Hc. cbn [bind].
      rewrite (proj2 (vat_nat tetWeight i wi) Hwi). cbn [bind].
      destruct (vadd_total pw c wi) as (pw' & -> & Hlen' & Hsum');
        [unfold size; lia|].
      eexists; split; [reflexivity|]. split; [lia|].
      rewrite Hsum', Hsumj, Qnat_S. ring.
    + exists pw1. split; [assumption|]. split; [assumption|].
      rewrite Hsum1, (Qsum_take_S tetWeight i wi Hwi).
      change (Qnat 3) with 3%Q. ring.
  - exists pw. auto.
Qed.

(** The scatter of the per-edge branch. *)
Lemma makePtsWeightList_edge_total
    numPts tetList faceList edgeList vertexList tetWeight :
  0 <= numPts ->
  edgeEndsInRange numPts edgeList ->
  (2 * length edgeList <= length tetWeight)%nat ->
  exists ptsWeight,
    makePtsWeightList TM_EDGE numPts tetList faceList edgeList vertexList
                      tetWeight = Ok ptsWeight /\
    length ptsWeight = Z.to_nat numPts /\
    (Qsum ptsWeight == 2 * Qsum (take (2 * length edgeList) tetWeight))%Q.
Proof.
  intros Hpos Hrange Hlen. unfold makePtsWeightList.
  destruct (Z.ltb_spec numPts 0) as [|_]; [lia|].
  simpl (TM_EDGE =? _). cbv iota zeta.
  set (n := length edgeList) in *.
  unfold edgeEndsInRange in Hrange. rewrite Forall_forall in Hrange.
  match goal with
  | |- context [forLoop n ?body ?s0] =>
      destruct (forLoop_total
        (fun i (pw : list Q) =>
           length pw = Z.to_nat numPts /\
           (Qsum pw == 2 * Qsum (take (2 * i) tetWeight))%Q)
        body n s0) as (pw & Hrun & Hlen' & Hsum)
  end.
  - split; [apply length_resize|].
    rewrite resize_nil, Qsum_zeros.
    change (Qsum (take _ tetWeight)) with 0%Q. ring.
  - intros i pw0 Hi [Hlen0 Hsum0].
    destruct (lookup_lt_is_Some_2 edgeList i Hi) as [e He].
    destruct (Hrange e (list_elem_of_lookup_2 _ _ _ He)) as [Hv0 Hv1].
    destruct (lookup_lt_is_Some_2 tetWeight (2 * i)) as [t0 Ht0]; [lia|].
    destruct (lookup_lt_is_Some_2 tetWeight (2 * i + 1)) as [t1 Ht1]; [lia|].
    cbv zeta.
    rewrite (proj2 (vat_nat edgeList i e) He). cbn [bind].
    rewrite (vat_lookup tetWeight (2 * i) _ t0) by (lia || assumption).
    rewrite (vat_lookup tetWeight (2 * i + 1) _ t1) by (lia || assumption).
    cbn [bind].
    destruct (vadd_total pw0 (fst (vertices e)) (t0 + t1)%Q)
      as (pw1 & -> & Hlen1 & Hsum1); [unfold size; lia|].
    cbn [bind].
    destruct (vadd_total pw1 (snd (vertices e)) (t0 + t1)%Q)
      as (pw2 & -> & Hlen2 & Hsum2); [unfold size; lia|].
    eexists; split; [reflexivity|]. split; [lia|].
    replace (2 * S i)%nat with (S (S (2 * i))) by lia.
    rewrite (Qsum_take_S tetWeight (S (2 * i)) t1)
      by (now replace (S (2 * i)) with (2 * i + 1)%nat by lia).
    rewrite (Qsum_take_S tetWeight (2 * i) t0 Ht0).
    rewrite Hsum2, Hsum1, Hsum0. ring.
  - exists pw. auto.
Qed.

(** The scatter of the per-vertex and vface branch. *)
Lemma makePtsWeightList_fan_total
    tetMode numPts tetList faceList edgeList vertexList tetWeight :
  tetMode = TM_VERTEX \/ tetMode = TM_VFACE ->
  0 <= numPts ->
  cornersInRange numPts tetList ->
  (length tetList / 4 <= length tetWeight)%nat ->
  exists ptsWeight,
    makePtsWeightList tetMode numPts tetList faceList edgeList vertexList
                      tetWeight = Ok ptsWeight /\
    length ptsWeight = Z.to_nat numPts /\
    (Qsum ptsWeight == 1 * Qsum (take (length tetList / 4) tetWeight))%Q.
Proof.
  intros Hmode Hpos Hrange Hlen. unfold makePtsWeightList.
  destruct (Z.ltb_spec numPts 0) as [|_]; [lia|].
  assert (Hsel : (tetMode =? TM_FACE) = false /\
                 (tetMode =? TM_EDGE) = false /\
                 ((tetMode =? TM_VERTEX) || (tetMode =? TM_VFACE)) = true)
    by (destruct Hmode as [-> | ->]; repeat split).
  destruct Hsel as (-> & -> & ->). cbv iota zeta.
  set (n := (length tetList / 4)%nat) in *.
  assert (Hn : size tetList / 4 = Z.of_nat n).
  { unfold size, n. now rewrite Nat2Z.inj_div. }
  rewrite Hn, Nat2Z.id.
  match goal with
  | |- context [forLoop n ?body ?s0] =>
      destruct (forLoop_total
        (fun i (pw : list Q) =>
           length pw = Z.to_nat numPts /\
           (Qsum pw == 1 * Qsum (take i tetWeight))%Q)
        body n s0) as (pw & Hrun & Hlen' & Hsum)
  end.
  - split; [apply length_resize|].
    rewrite resize_nil, Qsum_zeros.
    change (Qsum (take _ tetWeight)) with 0%Q. ring.
  - intros i pw0 Hi [Hlen0 Hsum0].
    destruct (lookup_lt_is_Some_2 tetWeight i) as [wi Hwi]; [lia|].
    destruct (corner_in_range numPts tetList i 0 Hrange Hi)
      as (c & Hc & Hcr); [lia|].
    rewrite Z.add_0_r in Hc. rewrite Hc. cbn [bind].
    rewrite (proj2 (vat_nat tetWeight i wi) Hwi). cbn [bind].
    destruct (vadd_total pw0 c wi) as (pw' & -> & Hlen' & Hsum');
      [unfold size; lia|].
    eexists; split; [reflexivity|]. split; [lia|].
    rewrite Hsum', Hsum0, (Qsum_take_S tetWeight i wi Hwi). ring.
  - exists pw. auto.
Qed.

(** X8.  On input that it reads and writes in range,
    [makePtsWeightList] is defined and returns one weight per point, and
    the scatter multiplies the total weight by the number of points of a
    tetrahedron: the point weights add up to three times the sum of the
    tetrahedron weights in per-face mode, to twice the sum over the two
    tetrahedra of every edge in per-edge mode, and to the sum itself in
    the per-vertex and vface modes; in any other mode every point weight
    is zero. *)
Theorem makePtsWeightList_total_weight
    tetMode numPts tetList faceList edgeList vertexList tetWeight :
  0 <= numPts ->
  weightInput tetMode numPts tetList edgeList (length tetWeight) ->
  exists ptsWeight,
    makePtsWeightList tetMode numPts tetList faceList edgeList vertexList
                      tetWeight = Ok ptsWeight /\
    length ptsWeight = Z.to_nat numPts /\
    (Qsum ptsWeight
     == fanout tetMode
        * Qsum (take (visitedTets tetMode tetList edgeList) tetWeight))%Q.
Proof.
  intros Hpos Hin. unfold weightInput, fanout, visitedTets in *.
  destruct (Z.eqb_spec tetMode TM_FACE) as [->|Hf].
  { simpl (TM_FACE =? TM_EDGE) in Hin. cbv iota in Hin.
    destruct Hin as [Hr Hl]. now apply makePtsWeightList_face_total. }
  destruct (Z.eqb_spec tetMode TM_EDGE) as [->|He].
  { destruct Hin as [Hr Hl]. now apply makePtsWeightList_edge_total. }
  destruct Hin as [Hr Hl].
  destruct ((tetMode =? TM_VERTEX) || (tetMode =? TM_VFACE)) eqn:Hv.
  - apply makePtsWeightList_fan_total; try assumption.
    apply orb_prop in Hv as [Hv | Hv]; apply Z.eqb_eq in Hv; auto.
  - unfold makePtsWeightList.
    destruct (Z.ltb_spec numPts 0) as [|_]; [lia|].
    destruct (Z.eqb_spec tetMode TM_FACE) as [|_]; [contradiction|].
    destruct (Z.eqb_spec tetMode TM_EDGE) as [|_]; [contradiction|].
    rewrite Hv. eexists; split; [reflexivity|].
    split; [apply length_resize|].
    rewrite resize_nil, Qsum_zeros.
    change (Qsum (take _ tetWeight)) with 0%Q. ring.
Qed.

Lemma squareTets_in_range : cornersInRange 4 squareTets.
Proof.
  unfold cornersInRange. cbn. repeat constructor; lia.
Qed.

Lemma makePtsWeightList_total_weight_witness :
  exists ptsWeight,
    makePtsWeightList TM_FACE 4 squareTets unitSquare [] [] squareTetWeights
    = Ok ptsWeight /\
    length ptsWeight = Z.to_nat 4 /\
    (Qsum ptsWeight
     == fanout TM_FACE
        * Qsum (take (visitedTets TM_FACE squareTets []) squareTetWeights))%Q.
Proof.
  apply (makePtsWeightList_total_weight TM_FACE 4 squareTets unitSquare [] []
           squareTetWeights).
  - lia.
  - split; [exact squareTets_in_range | cbn; lia].
Defined.

(** The averages stay between the bounds of the point weights. *)

Lemma between_third (lo hi w0 w1 w2 : Q) :
  (lo <= w0 <= hi -> lo <= w1 <= hi -> lo <= w2 <= hi ->
   lo <= (w0 + w1 + w2) / 3 <= hi)%Q.
Proof.
  intros H0 H1 H2.
  assert (E : ((w0 + w1 + w2) / 3 == (1 # 3) * (w0 + w1 + w2))%Q) by field.
  rewrite E. lra.
Qed.

Lemma between_half (lo hi w0 w1 : Q) :
  (lo <= w0 <= hi -> lo <= w1 <= hi -> lo <= (w0 + w1) / 2 <= hi)%Q.
Proof.
  intros H0 H1.
  assert (E : ((w0 + w1) / 2 == (1 # 2) * (w0 + w1))%Q) by field.
  rewrite E. lra.
Qed.

Lemma weight_in_range (ptsWeight : list Q) (lo hi : Q) c :
  Forall (fun w => lo <= w <= hi)%Q ptsWeight ->
  0 <= c < size ptsWeight ->
  exists w, vat ptsWeight c = Ok w /\ (lo <= w <= hi)%Q.
Proof.
  intros Hall Hc. destruct (vat_lt ptsWeight c Hc) as [w Hw].
  exists w. split; [assumption|].
  rewrite Forall_forall in Hall. apply Hall. eapply vat_elem. eassumption.
Qed.

Lemma makeWeightList_face_bounds
    tetList faceList edgeList vertexList ptsWeight tetWeight0 (lo hi : Q) :
  cornersInRange (size ptsWeight) tetList ->
  Forall (fun w => lo <= w <= hi)%Q ptsWeight ->
  exists tetWeight,
    makeWeightList TM_FACE tetList faceList edgeList vertexList
                   ptsWeight tetWeight0 = Ok tetWeight /\
    length tetWeight = (length tetList / 4)%nat /\
    forall k x, (k < length tetList / 4)%nat ->
                tetWeight !! k = Some x -> (lo <= x <= hi)%Q.
Proof.
  intros Hrange Hall. unfold makeWeightList.
  simpl (TM_FACE =? TM_FACE). cbv iota zeta.
  set (n := (length tetList / 4)%nat).
  assert (Hn : size tetList / 4 = Z.of_nat n).
  { unfold size, n. now rewrite Nat2Z.inj_div. }
  rewrite Hn, Nat2Z.id.
  match goal with
  | |- context [forLoop n ?body ?s0] =>
      destruct (forLoop_total
        (fun i (tw : list Q) => length tw = n /\
           forall k x, (k < i)%nat -> tw !! k = Some x -> (lo <= x <= hi)%Q)
        body n s0) as (tw & Hrun & Hlen & Hval)
  end.
  - split; [apply length_resize | intros; lia].
  - intros i tw Hi [Hlen Hval].
    destruct (corner_in_range _ tetList i 0 Hrange Hi) as (p0 & H0 & R0); [lia|].
    destruct (corner_in_range _ tetList i 1 Hrange Hi) as (p1 & H1 & R1); [lia|].
    destruct (corner_in_range _ tetList i 2 Hrange Hi) as (p2 & H2 & R2); [lia|].
    destruct (weight_in_range ptsWeight lo hi p0 Hall R0) as (w0 & Hw0 & B0).
    destruct (weight_in_range ptsWeight lo hi p1 Hall R1) as (w1 & Hw1 & B1).
    destruct (weight_in_range ptsWeight lo hi p2 Hall R2) as (w2 & Hw2 & B2).
    rewrite Z.add_0_r in H0. change (Z.of_nat 1) with 1 in H1.
    change (Z.of_nat 2) with 2 in H2.
    rewrite H0, H1, H2. cbn [bind]. rewrite Hw0, Hw1, Hw2. cbn [bind].
    rewrite vset_lt by (unfold size; lia).
    eexists; split; [reflexivity|]. rewrite Nat2Z.id.
    split; [now rewrite length_insert|].
    intros k x Hk Hx. destruct (Nat.eq_dec k i) as [->|Hne].
    + rewrite list_lookup_insert_eq in Hx by lia. injection Hx as <-.
      now apply between_third.
    + rewrite list_lookup_insert_ne in Hx by lia. apply (Hval k); [lia|auto].
  - exists tw. auto.
Qed.

Lemma makeWeightList_edge_bounds
    tetList faceList edgeList vertexList ptsWeight tetWeight0 (lo hi : Q) :
  edgeEndsInRange (size ptsWeight) edgeList ->
  (2 * length edgeList <= length tetList / 4)%nat ->
  Forall (fun w => lo <= w <= hi)%Q ptsWeight ->
  exists tetWeight,
    makeWeightList TM_EDGE tetList faceList edgeList vertexList
                   ptsWeight tetWeight0 = Ok tetWeight /\
    length tetWeight = (length tetList / 4)%nat /\
    (forall k x, (k < 2 * length edgeList)%nat ->
                 tetWeight !! k = Some x -> (lo <= x <= hi)%Q) /\
    forall i, (i < length edgeList)%nat ->
              tetWeight !! (2 * i)%nat = tetWeight !! (2 * i + 1)%nat.
Proof.
  intros Hrange Hlen Hall. unfold makeWeightList.
  simpl (TM_EDGE =? _). cbv iota zeta.
  set (n := (length tetList / 4)%nat) in *.
  assert (Hn : size tetList / 4 = Z.of_nat n).
  { unfold size, n. now rewrite Nat2Z.inj_div. }
  rewrite Hn, Nat2Z.id.
  unfold edgeEndsInRange in Hrange. rewrite Forall_forall in Hrange.
  match goal with
  | |- context [forLoop _ ?body ?s0] =>
      destruct (forLoop_total
        (fun i (tw : list Q) => length tw = n /\
           (forall k x, (k < 2 * i)%nat -> tw !! k = Some x ->
                        (lo <= x <= hi)%Q) /\
           forall i', (i' < i)%nat ->
                      tw !! (2 * i')%nat = tw !! (2 * i' + 1)%nat)
        body (length edgeList) s0) as (tw & Hrun & Hlen' & Hval & Hpair)
  end.
  - split; [apply length_resize|]. split; intros; lia.
  - intros i tw Hi (Hlen0 & Hval & Hpair).
    destruct (lookup_lt_is_Some_2 edgeList i Hi) as [e He].
    destruct (Hrange e (list_elem_of_lookup_2 _ _ _ He)) as [Hv0 Hv1].
    destruct (weight_in_range ptsWeight lo hi _ Hall Hv0) as (w0 & Hw0 & B0).
    destruct (weight_in_range ptsWeight lo hi _ Hall Hv1) as (w1 & Hw1 & B1).
    cbv zeta.
    rewrite (proj2 (vat_nat edgeList i e) He). cbn [bind].
    rewrite Hw0, Hw1. cbn [bind].
    rewrite vset_lt by (unfold size; lia). cbn [bind].
    rewrite vset_lt by (rewrite size_insert; unfold size; lia).
    eexists; split; [reflexivity|].
    replace (Z.to_nat (2 * Z.of_nat i + 1)) with (2 * i + 1)%nat by lia.
    replace (Z.to_nat (2 * Z.of_nat i)) with (2 * i)%nat by lia.
    split; [now rewrite !length_insert|]. split.
    + intros k x Hk Hx.
      destruct (Nat.eq_dec k (2 * i)%nat) as [->|Hne0].
      { rewrite list_lookup_insert_eq in Hx by (rewrite length_insert; lia).
        injection Hx as <-. now apply between_half. }
      rewrite list_lookup_insert_ne in Hx by lia.
      destruct (Nat.eq_dec k (2 * i + 1)%nat) as [->|Hne1].
      { rewrite list_lookup_insert_eq in Hx by lia.
        injection Hx as <-. now apply between_half. }
      rewrite list_lookup_insert_ne in Hx by lia.
      apply (Hval k); [lia | assumption].
    + intros i' Hi'. destruct (Nat.eq_dec i' i) as [->|Hne].
      * rewrite list_lookup_insert_eq by (rewrite length_insert; lia).
        rewrite list_lookup_insert_ne by lia.
        rewrite list_lookup_insert_eq by lia. reflexivity.
      * rewrite !list_lookup_insert_ne by lia. apply Hpair. lia.
  - exists tw. auto.
Qed.

Lemma makeWeightList_fan_bounds
    tetMode tetList faceList edgeList vertexList ptsWeight tetWeight0
    (lo hi : Q) :
  tetMode = TM_VERTEX \/ tetMode = TM_VFACE ->
  cornersInRange (size ptsWeight) tetList ->
  Forall (fun w => lo <= w <= hi)%Q ptsWeight ->
  exists tetWeight,
    makeWeightList tetMode tetList faceList edgeList vertexList
                   ptsWeight tetWeight0 = Ok tetWeight /\
    length tetWeight = (length tetList / 4)%nat /\
    forall k x, (k < length tetList / 4)%nat ->
                tetWeight !! k = Some x -> (lo <= x <= hi)%Q.
Proof.
  intros Hmode Hrange Hall. unfold makeWeightList.
  assert (Hsel : (tetMode =? TM_FACE) = false /\
                 (tetMode =? TM_EDGE) = false /\
                 ((tetMode =? TM_VERTEX) || (tetMode =? TM_VFACE)) = true)
    by (destruct Hmode as [-> | ->]; repeat split).
  destruct Hsel as (-> & -> & ->). cbv iota zeta.
  set (n := (length tetList / 4)%nat).
  assert (Hn : size tetList / 4 = Z.of_nat n).
  { unfold size, n. now rewrite Nat2Z.inj_div. }
  rewrite Hn, Nat2Z.id.
  match goal with
  | |- context [forLoop n ?body ?s0] =>
      destruct (forLoop_total
        (fun i (tw : list Q) => length tw = n /\
           forall k x, (k < i)%nat -> tw !! k = Some x -> (lo <= x <= hi)%Q)
        body n s0) as (tw & Hrun & Hlen & Hval)
  end.
  - split; [apply length_resize | intros; lia].
  - intros i tw Hi [Hlen Hval].
    destruct (corner_in_range _ tetList i 0 Hrange Hi) as (p0 & H0 & R0); [lia|].
    destruct (weight_in_range ptsWeight lo hi p0 Hall R0) as (w0 & Hw0 & B0).
    rewrite Z.add_0_r in H0.
    rewrite H0. cbn [bind]. rewrite Hw0. cbn [bind].
    rewrite vset_lt by (unfold size; lia).
    eexists; split; [reflexivity|]. rewrite Nat2Z.id.
    split; [now rewrite length_insert|].
    intros k x Hk Hx. destruct (Nat.eq_dec k i) as [->|Hne].
    + rewrite list_lookup_insert_eq in Hx by lia. now injection Hx as <-.
    + rewrite list_lookup_insert_ne in Hx by lia. apply (Hval k); [lia|auto].
  - exists tw. auto.
Qed.

(** X9.  On input that it reads and writes in range, [makeWeightList]
    is defined and returns one weight per tetrahedron, and every weight
    that it writes is an average of point weights: it lies between any
    two bounds of the point weights.  In per-edge mode the two
    tetrahedra of an edge get the same weight. *)
Theorem makeWeightList_within_bounds
    tetMode tetList faceList edgeList vertexList ptsWeight tetWeight0
    (lo hi : Q) :
  weightInput tetMode (size ptsWeight) tetList edgeList
              (length tetList / 4) ->
  Forall (fun w => lo <= w <= hi)%Q ptsWeight ->
  exists tetWeight,
    makeWeightList tetMode tetList faceList edgeList vertexList
                   ptsWeight tetWeight0 = Ok tetWeight /\
    length tetWeight = (length tetList / 4)%nat /\
    (forall k x, (k < visitedTets tetMode tetList edgeList)%nat ->
                 tetWeight !! k = Some x -> (lo <= x <= hi)%Q) /\
    (tetMode = TM_EDGE ->
     forall i, (i < length edgeList)%nat ->
               tetWeight !! (2 * i)%nat = tetWeight !! (2 * i + 1)%nat).
Proof.
  intros Hin Hall. unfold weightInput, visitedTets in *.
  destruct (Z.eqb_spec tetMode TM_FACE) as [->|Hf].
  { simpl (TM_FACE =? TM_EDGE) in Hin. cbv iota in Hin.
    destruct Hin as [Hr _].
    destruct (makeWeightList_face_bounds tetList faceList edgeList vertexList
                ptsWeight tetWeight0 lo hi Hr Hall) as (tw & H1 & H2 & H3).
    exists tw. split; [assumption|]. split; [assumption|].
    split; [assumption | discriminate]. }
  destruct (Z.eqb_spec tetMode TM_EDGE) as [->|He].
  { destruct Hin as [Hr Hl].
    destruct (makeWeightList_edge_bounds tetList faceList edgeList vertexList
                ptsWeight tetWeight0 lo hi Hr Hl Hall)
      as (tw & H1 & H2 & H3 & H4).
    exists tw. auto. }
  destruct Hin as [Hr _].
  destruct ((tetMode =? TM_VERTEX) || (tetMode =? TM_VFACE)) eqn:Hv.
  - destruct (makeWeightList_fan_bounds tetMode tetList faceList edgeList
                vertexList ptsWeight tetWeight0 lo hi) as (tw & H1 & H2 & H3);
      try assumption.
    { apply orb_prop in Hv as [Hv | Hv]; apply Z.eqb_eq in Hv; auto. }
    exists tw. split; [assumption|]. split; [assumption|].
    split; [assumption | contradiction].
  - unfold makeWeightList.
    destruct (Z.eqb_spec tetMode TM_FACE) as [|_]; [contradiction|].
    destruct (Z.eqb_spec tetMode TM_EDGE) as [|_]; [contradiction|].
    rewrite Hv. eexists; split; [reflexivity|].
    split.
    { rewrite length_resize.
      assert (Hn : size tetList / 4 = Z.of_nat (length tetList / 4))
        by (unfold size; now rewrite Nat2Z.inj_div).
      rewrite Hn. apply Nat2Z.id. }
    split; [intros; lia | contradiction].
Qed.

Lemma makeWeightList_within_bounds_witness :
  exists tetWeight,
    makeWeightList TM_FACE squareTets unitSquare [] [] squareWeights []
    = Ok tetWeight /\
    length tetWeight = (length squareTets / 4)%nat /\
    (forall k x, (k < visitedTets TM_FACE squareTets [])%nat ->
                 tetWeight !! k = Some x -> (1 <= x <= 4)%Q) /\
    (TM_FACE = TM_EDGE ->
     forall i, (i < length ([] : list edge))%nat ->
               tetWeight !! (2 * i)%nat = tetWeight !! (2 * i + 1)%nat).
Proof.
  apply (makeWeightList_within_bounds TM_FACE squareTets unitSquare [] []
           squareWeights [] 1%Q 4%Q).
  - split; [exact squareTets_in_range | cbn; lia].
  - unfold squareWeights.
    repeat constructor; cbn; discriminate.
Defined.

(** ** What the degeneracy filter keeps *)

Lemma omap_agree {A B} (f g : A -> option B) (l : list A) :
  (forall x, x ∈ l -> f x = g x) -> omap f l = omap g l.
Proof.
  induction l as [|x l IH]; intros H; [reflexivity|].
  change (omap f (x :: l))
    with (match f x with Some y => y :: omap f l | None => omap f l end).
  change (omap g (x :: l))
    with (match g x with Some y => y :: omap g l | None => omap g l end).
  rewrite (H x) by left. rewrite IH; [reflexivity|].
  intros y Hy. apply H. now right.
Qed.

Lemma keptAt_snoc {A} (keep : nat -> bool) (v : list A) x :
  keptAt keep (v ++ [x])
  = keptAt keep v ++ (if keep (length v) then [x] else []).
Proof.
  unfold keptAt. rewrite length_app. cbn [length].
  replace (length v + 1)%nat with (S (length v)) by lia.
  rewrite filter_seq_S, omap_app. f_equal.
  - apply omap_agree. intros i Hi.
    apply list_elem_of_filter in Hi as [_ Hi]. apply elem_of_seq in Hi.
    apply lookup_app_l. lia.
  - destruct (keep (length v)); [|reflexivity].
    simpl. rewrite lookup_app_r by lia. now rewrite Nat.sub_diag.
Qed.

(** The kept entries are a sublist: nothing is added or reordered. *)
Lemma keptAt_sublist {A} (keep : nat -> bool) (v : list A) :
  keptAt keep v `sublist_of` v.
Proof.
  induction v as [|x v IH] using rev_ind; [constructor|].
  rewrite keptAt_snoc. apply sublist_app; [assumption|].
  destruct (keep (length v)); [reflexivity | apply sublist_nil_l].
Qed.

Lemma keptAt_all {A} (keep : nat -> bool) (v : list A) :
  (forall i, (i < length v)%nat -> keep i = true) -> keptAt keep v = v.
Proof.
  induction v as [|x v IH] using rev_ind; intros H; [reflexivity|].
  rewrite keptAt_snoc, IH.
  - rewrite H; [reflexivity|]. rewrite length_app. cbn [length]. lia.
  - intros i Hi. apply H. rewrite length_app. lia.
Qed.

Lemma good_all (P : list Matrix4d) t :
  Forall (fun M => nonDegenerate M = true) P ->
  (t < length P)%nat -> good P t = true.
Proof.
  intros Hall Ht. unfold good.
  destruct (lookup_lt_is_Some_2 P t Ht) as [M HM]. rewrite HM.
  rewrite Forall_forall in Hall. apply Hall.
  eapply list_elem_of_lookup_2. eassumption.
Qed.

Lemma removeDegenerate_edge_kept
    numPts tetList faceList edgeList vertexList P :
  wellFormed TM_EDGE faceList edgeList = true ->
  (2 * length edgeList <= length P)%nat ->
  exists dim tetList',
    removeDegenerate TM_EDGE numPts tetList faceList edgeList vertexList P
    = Ok (dim, Lists tetList' faceList
                     (keptAt (bothGood P) edgeList) vertexList) /\
    makeTetList TM_EDGE numPts faceList (keptAt (bothGood P) edgeList)
                vertexList = Ok (tetList', dim).
Proof.
  intros Hwf HP. unfold removeDegenerate.
  simpl (TM_EDGE =? _). cbv iota.
  rewrite (goodEdges_spec P (length edgeList) HP). cbn [bind].
  rewrite keepGood_spec by apply filter_seq_lt. cbn [bind].
  fold (keptAt (bothGood P) edgeList).
  destruct (makeTetList_edge_mode numPts faceList
              (keptAt (bothGood P) edgeList) vertexList
              (wellFormed_keptAt _ _ _ Hwf)) as (tl & Hrun & _).
  rewrite Hrun. cbn [bind]. eauto.
Qed.

Lemma removeDegenerate_fan_kept
    tetMode numPts tetList faceList edgeList vertexList P :
  tetMode = TM_VERTEX \/ tetMode = TM_VFACE ->
  (wedgeCount vertexList <= length P)%nat ->
  exists dim tetList',
    removeDegenerate tetMode numPts tetList faceList edgeList vertexList P
    = Ok (dim, Lists tetList' faceList edgeList
                     (keptAt (allGood P vertexList) vertexList)) /\
    makeTetList tetMode numPts faceList edgeList
                (keptAt (allGood P vertexList) vertexList)
    = Ok (tetList', dim).
Proof.
  intros Hmode HP.
  destruct (makeTetList_fan_length tetMode numPts faceList edgeList
              (keptAt (allGood P vertexList) vertexList) Hmode)
    as (tl & dim & Hrun & _).
  exists dim, tl. split; [|assumption].
  unfold removeDegenerate.
  assert (Hsel : (tetMode =? TM_FACE) = false /\
                 (tetMode =? TM_EDGE) = false /\
                 ((tetMode =? TM_VERTEX) || (tetMode =? TM_VFACE)) = true)
    by (destruct Hmode as [-> | ->]; repeat split).
  destruct Hsel as (-> & -> & ->).
  rewrite (goodVertices_spec P vertexList HP). cbn [bind].
  rewrite keepGood_spec by apply filter_seq_lt. cbn [bind].
  fold (keptAt (allGood P vertexList) vertexList).
  rewrite Hrun. reflexivity.
Qed.

Lemma allGood_all (P : list Matrix4d) (vertexList : list vertex) i :
  Forall (fun M => nonDegenerate M = true) P ->
  (wedgeCount vertexList <= length P)%nat ->
  (i < length vertexList)%nat ->
  allGood P vertexList i = true.
Proof.
  intros Hall HP Hi. unfold allGood.
  destruct (lookup_lt_is_Some_2 vertexList i Hi) as [v Hv]. rewrite Hv.
  apply forallb_forall. intros k Hk. apply in_seq in Hk.
  apply good_all; [assumption|].
  rewrite <- (take_drop (S i) vertexList), wedgeCount_app in HP.
  rewrite (wedgeCount_take_S _ _ _ Hv) in HP. lia.
Qed.

(** X10.  In the per-edge, per-vertex and vface modes, on input with a
    frame for every tetrahedron, [removeDegenerate] is defined and only
    removes: the face list is returned as it was, the new edge list and
    the new vertex list are sublists of the old ones (nothing is added or
    reordered), and the tetrahedra and the returned count are those that
    [makeTetList] builds from the new lists.  When no frame is
    degenerate, the edge list and the vertex list are returned as they
    were. *)
Theorem removeDegenerate_only_removes
    tetMode numPts tetList faceList edgeList vertexList P :
  tetMode = TM_EDGE \/ tetMode = TM_VERTEX \/ tetMode = TM_VFACE ->
  wellFormed tetMode faceList edgeList = true ->
  framesCover tetMode edgeList vertexList P ->
  exists dim L,
    removeDegenerate tetMode numPts tetList faceList edgeList vertexList P
    = Ok (dim, L) /\
    l_faceList L = faceList /\
    l_edgeList L `sublist_of` edgeList /\
    l_vertexList L `sublist_of` vertexList /\
    makeTetList tetMode numPts faceList (l_edgeList L) (l_vertexList L)
    = Ok (l_tetList L, dim) /\
    (Forall (fun M => nonDegenerate M = true) P ->
     l_edgeList L = edgeList /\ l_vertexList L = vertexList).
Proof.
  intros [-> | Hmode] Hwf Hcover; unfold framesCover in Hcover.
  - simpl (TM_EDGE =? TM_EDGE) in Hcover. cbv iota in Hcover.
    destruct (removeDegenerate_edge_kept numPts tetList faceList edgeList
                vertexList P Hwf Hcover) as (dim & tl & Hrun & Htet).
    eexists dim, _. split; [exact Hrun|]. cbn [l_faceList l_edgeList
      l_vertexList l_tetList].
    split; [reflexivity|]. split; [apply keptAt_sublist|].
    split; [reflexivity|]. split; [assumption|].
    intros Hall. split; [|reflexivity].
    apply keptAt_all. intros i Hi. unfold bothGood.
    rewrite !good_all by (assumption || lia). reflexivity.
  - assert (He : (tetMode =? TM_EDGE) = false)
      by (destruct Hmode as [-> | ->]; reflexivity).
    rewrite He in Hcover.
    destruct (removeDegenerate_fan_kept tetMode numPts tetList faceList
                edgeList vertexList P Hmode Hcover)
      as (dim & tl & Hrun & Htet).
    eexists dim, _. split; [exact Hrun|]. cbn [l_faceList l_edgeList
      l_vertexList l_tetList].
    split; [reflexivity|]. split; [reflexivity|].
    split; [apply keptAt_sublist|]. split; [assumption|].
    intros Hall. split; [reflexivity|].
    apply keptAt_all. intros i Hi. now apply allGood_all.
Qed.

Lemma removeDegenerate_only_removes_witness :
  exists dim L,
    removeDegenerate TM_EDGE 4 squareEdgeTets unitSquare [squareEdge] []
                     [frame_unit; frame_flat]
    = Ok (dim, L) /\
    l_faceList L = unitSquare /\
    l_edgeList L `sublist_of` [squareEdge] /\
    l_vertexList L `sublist_of` [] /\
    makeTetList TM_EDGE 4 unitSquare (l_edgeList L) (l_vertexList L)
    = Ok (l_tetList L, dim) /\
    (Forall (fun M => nonDegenerate M = true) [frame_unit; frame_flat] ->
     l_edgeList L = [squareEdge] /\ l_vertexList L = []).
Proof.
  apply (removeDegenerate_only_removes TM_EDGE 4 squareEdgeTets unitSquare
           [squareEdge] [] [frame_unit; frame_flat]).
  - left. reflexivity.
  - reflexivity.
  - unfold framesCover. cbn. lia.
Defined.

(** The per-face branch. *)

Lemma take_three_inserts (fl : list Z) i a b c :
  (3 * i + 3 <= length fl)%nat ->
  take (3 * S i)
       (<[(3 * i + 2)%nat := c]>
          (<[(3 * i + 1)%nat := b]> (<[(3 * i)%nat := a]> fl)))
  = take (3 * i) fl ++ [a; b; c].
Proof.
  intros Hlen.
  replace (3 * S i)%nat with (S (S (S (3 * i)))) by lia.
  rewrite (take_S_r _ (S (S (3 * i))) c).
  2:{ replace (S (S (3 * i))) with (3 * i + 2)%nat by lia.
      apply list_lookup_insert_eq. rewrite !length_insert. lia. }
  rewrite take_insert_ge by lia.
  rewrite (take_S_r _ (S (3 * i)) b).
  2:{ replace (S (3 * i)) with (3 * i + 1)%nat by lia.
      apply list_lookup_insert_eq. rewrite !length_insert. lia. }
  rewrite take_insert_ge by lia.
  rewrite (take_S_r _ (3 * i) a).
  2:{ apply list_lookup_insert_eq. lia. }
  rewrite take_insert_ge by lia.
  now rewrite <- !app_assoc.
Qed.

(** X11.  In per-face mode, on input with a frame for every
    tetrahedron and a triangle for every tetrahedron,
    [removeDegenerate] is defined; the new face list is made of the
    triangles whose tetrahedron is not degenerate, in their order; the
    edge list is built anew from it by [makeEdgeList], the vertex list is
    returned as it was, and the tetrahedra and the returned count are
    those that [makeTetList] builds from the new face list. *)
Theorem removeDegenerate_face_keeps_good_faces
    numPts tetList faceList edgeList vertexList P :
  (length tetList / 4 <= length P)%nat ->
  (3 * (length tetList / 4) <= length faceList)%nat ->
  exists G tetList' edgeList',
    G = goodFaces P (length tetList / 4) /\
    removeDegenerate TM_FACE numPts tetList faceList edgeList vertexList P
    = Ok (numPts + Z.of_nat (length G),
          Lists tetList' (facesAt faceList G) edgeList' vertexList) /\
    makeEdgeList (facesAt faceList G) = Ok (edgeList', size edgeList') /\
    makeTetList TM_FACE numPts (facesAt faceList G) edgeList' vertexList
    = Ok (tetList', numPts + Z.of_nat (length G)).
Proof.
  intros HP Hfaces. exists (goodFaces P (length tetList / 4)).
  set (G := goodFaces P (length tetList / 4)).
  cut (exists tetList' edgeList',
    removeDegenerate TM_FACE numPts tetList faceList edgeList vertexList P
    = Ok (numPts + Z.of_nat (length G),
          Lists tetList' (facesAt faceList G) edgeList' vertexList) /\
    makeEdgeList (facesAt faceList G) = Ok (edgeList', size edgeList') /\
    makeTetList TM_FACE numPts (facesAt faceList G) edgeList' vertexList
    = Ok (tetList', numPts + Z.of_nat (length G))).
  { intros (tl & el & H). exists tl, el. split; [reflexivity | exact H]. }
  unfold removeDegenerate.
  simpl (TM_FACE =? TM_FACE). cbv iota zeta.
  set (n := (length tetList / 4)%nat) in *.
  assert (Hn : size tetList / 4 = Z.of_nat n).
  { unfold size, n. now rewrite Nat2Z.inj_div. }
  rewrite Hn, Nat2Z.id.
  (* the selection loop *)
  match goal with
  | |- context [forLoop n ?body ?s0] =>
      destruct (forLoop_total
        (fun i (goodList : list Z) =>
           goodList = Z.of_nat <$> goodFaces P i)
        body n s0) as (gl & Hrun & Hgl)
  end.
  { reflexivity. }
  { intros i gl Hi ->.
    destruct (lookup_lt_is_Some_2 P i) as [M HM]; [lia|].
    rewrite (proj2 (vat_nat P i M) HM). cbn [bind].
    unfold goodFaces. rewrite filter_seq_S, fmap_app.
    assert (Hg : good P i = nonDegenerate M) by (unfold good; now rewrite HM).
    rewrite Hg.
    destruct (nonDegenerate M); eexists; (split; [reflexivity|]);
      [reflexivity | now rewrite app_nil_r]. }
  rewrite Hrun. cbn [bind]. subst gl. fold G.
  rewrite length_fmap.
  assert (HG : Forall (fun g => 3 * g + 3 <= length faceList)%nat G).
  { apply Forall_forall. intros g Hg.
    apply list_elem_of_filter in Hg as [_ Hg]. apply elem_of_seq in Hg.
    lia. }
  (* the copy loop *)
  match goal with
  | |- context [forLoop (length G) ?body ?s0] =>
      destruct (forLoop_total
        (fun i (fl : list Z) =>
           length fl = (3 * length G)%nat /\
           take (3 * i) fl = facesAt faceList (take i G))
        body (length G) s0) as (fl & Hrun2 & Hlen2 & Htake2)
  end.
  { split; [apply length_resize | reflexivity]. }
  { intros i fl Hi [Hlen Htake].
    destruct (lookup_lt_is_Some_2 G i Hi) as [g Hg].
    assert (Hgz : vat (Z.of_nat <$> G) (Z.of_nat i) = Ok (Z.of_nat g)).
    { apply vat_nat. now rewrite list_lookup_fmap, Hg. }
    rewrite Forall_forall in HG.
    specialize (HG g (list_elem_of_lookup_2 _ _ _ Hg)).
    destruct (lookup_lt_is_Some_2 faceList (3 * g)) as [a Ha]; [lia|].
    destruct (lookup_lt_is_Some_2 faceList (3 * g + 1)) as [b Hb]; [lia|].
    destruct (lookup_lt_is_Some_2 faceList (3 * g + 2)) as [c Hc]; [lia|].
    rewrite Hgz. cbn [bind].
    rewrite (vat_lookup faceList (3 * g) _ a) by (lia || assumption).
    cbn [bind].
    rewrite vset_lt by (unfold size; lia). cbn [bind].
    rewrite (vat_lookup faceList (3 * g + 1) _ b) by (lia || assumption).
    cbn [bind].
    rewrite vset_lt by (rewrite size_insert; unfold size; lia). cbn [bind].
    rewrite (vat_lookup faceList (3 * g + 2) _ c) by (lia || assumption).
    cbn [bind].
    rewrite vset_lt by (rewrite !size_insert; unfold size; lia).
    eexists; split; [reflexivity|].
    replace (Z.to_nat (3 * Z.of_nat i)) with (3 * i)%nat by lia.
    replace (Z.to_nat (3 * Z.of_nat i + 1)) with (3 * i + 1)%nat by lia.
    replace (Z.to_nat (3 * Z.of_nat i + 2)) with (3 * i + 2)%nat by lia.
    split; [now rewrite !length_insert|].
    rewrite take_three_inserts by lia.
    rewrite Htake, (take_S_r G i g Hg). unfold facesAt.
    rewrite flat_map_app. cbn [flat_map]. rewrite app_nil_r.
    now rewrite (faceAt_three faceList g a b c Ha Hb Hc). }
  rewrite Hrun2. cbn [bind].
  assert (Hfl : fl = facesAt faceList G).
  { rewrite <- (firstn_all fl), Hlen2, Htake2. now rewrite firstn_all. }
  subst fl.
  destruct (makeEdgeList_run (facesAt faceList G)) as (el & Hel & _).
  rewrite Hel. cbn [bind].
  destruct (makeTetList_face numPts (facesAt faceList G) el vertexList)
    as (tl & Htl & _).
  assert (Hcount : (length (facesAt faceList G) / 3 = length G)%nat).
  { rewrite Hlen2, Nat.mul_comm. apply Nat.div_mul. lia. }
  rewrite Hcount in Htl. rewrite Htl. cbn [bind].
  exists tl, el. auto.
Qed.

Lemma removeDegenerate_face_keeps_good_faces_witness :
  exists G tetList' edgeList',
    G = goodFaces [frame_flat; frame_unit] (length squareTets / 4) /\
    removeDegenerate TM_FACE 4 squareTets unitSquare [] []
                     [frame_flat; frame_unit]
    = Ok (4 + Z.of_nat (length G),
          Lists tetList' (facesAt unitSquare G) edgeList' []) /\
    makeEdgeList (facesAt unitSquare G) = Ok (edgeList', size edgeList') /\
    makeTetList TM_FACE 4 (facesAt unitSquare G) edgeList' []
    = Ok (tetList', 4 + Z.of_nat (length G)).
Proof.
  apply (removeDegenerate_face_keeps_good_faces 4 squareTets unitSquare [] []
           [frame_flat; frame_unit]).
  - cbn. lia.
  - cbn. lia.
Defined.

(** ** Distance primitives, on any segment and triangle *)

Open Scope Q_scope.

Lemma sq_nonneg (x : Q) : 0 <= x * x.
Proof. nra. Qed.

Lemma squaredNorm_nonneg a : 0 <= squaredNorm a.
Proof.
  unfold squaredNorm, dot.
  pose proof (sq_nonneg (vx a)). pose proof (sq_nonneg (vy a)).
  pose proof (sq_nonneg (vz a)). lra.
Qed.

Lemma squaredNorm_zero a :
  squaredNorm a == 0 -> vx a == 0 /\ vy a == 0 /\ vz a == 0.
Proof.
  unfold squaredNorm, dot. intros H.
  pose proof (sq_nonneg (vx a)). pose proof (sq_nonneg (vy a)).
  pose proof (sq_nonneg (vz a)).
  assert (Ex : vx a * vx a == 0) by lra.
  assert (Ey : vy a * vy a == 0) by lra.
  assert (Ez : vz a * vz a == 0) by lra.
  apply Qmult_integral in Ex, Ey, Ez. tauto.
Qed.

Lemma squaredNorm_pos a : ~ squaredNorm a == 0 -> 0 < squaredNorm a.
Proof.
  intros H. pose proof (squaredNorm_nonneg a) as Hn.
  apply Qle_lt_or_eq in Hn as [Hn | Hn]; [assumption|].
  exfalso. apply H. now symmetry.
Qed.

(** The three cases of [distPtLin] on a segment with different end
    points. *)
Lemma distPtLin_defined p a b :
  ~ squaredNorm (minus a b) == 0 ->
  exists d,
    distPtLin p a b = Ok d /\
    0 <= d /\ d <= squaredNorm (minus a p) /\ d <= squaredNorm (minus b p).
Proof.
  intros HN. unfold distPtLin, fdiv.
  destruct (Qeq_bool (squaredNorm (minus a b)) 0) eqn:E.
  { apply Qeq_bool_iff in E. contradiction. }
  cbn [bind].
  pose proof (squaredNorm_pos _ HN) as HNpos.
  set (N := squaredNorm (minus a b)) in *.
  set (D := dot (minus a b) (minus p b)).
  set (t := D / N).
  assert (HtN : t * N == D) by (unfold t; field; assumption).
  assert (I1 : squaredNorm (minus a p)
               == N - 2 * D + squaredNorm (minus b p)).
  { unfold N, D, squaredNorm, dot, minus. cbn [vx vy vz]. ring. }
  pose proof (squaredNorm_nonneg (minus b p)) as HW.
  destruct (Qltb 1 t) eqn:E1.
  - apply Qltb_lt in E1. eexists; split; [reflexivity|].
    split; [apply squaredNorm_nonneg|]. split; [apply Qle_refl|].
    rewrite I1.
    assert (Hp : 0 < (t - 1) * N) by (apply Qmult_lt_0_compat; lra).
    assert (Ep : (t - 1) * N == D - N) by (rewrite <- HtN; ring).
    rewrite Ep in Hp. lra.
  - apply Qltb_ge in E1. destruct (Qltb t 0) eqn:E0.
    + apply Qltb_lt in E0. eexists; split; [reflexivity|].
      split; [assumption|]. split; [|apply Qle_refl].
      rewrite I1.
      assert (Hp : 0 < (0 - t) * N) by (apply Qmult_lt_0_compat; lra).
      assert (Ep : (0 - t) * N == - D) by (rewrite <- HtN; ring).
      rewrite Ep in Hp. lra.
    + apply Qltb_ge in E0. eexists; split; [reflexivity|].
      assert (I3 : squaredNorm (minus (scale t (minus a b)) (minus p b))
                   == t * (t * N) - 2 * t * D + squaredNorm (minus b p)).
      { unfold N, D, squaredNorm, dot, minus, scale. cbn [vx vy vz]. ring. }
      rewrite HtN in I3.
      split; [apply squaredNorm_nonneg|].
      assert (Ht0 : 0 <= t) by (apply Qnot_lt_le; assumption).
      assert (Ht1 : t <= 1) by (apply Qnot_lt_le; assumption).
      assert (HtD : 0 <= t * D).
      { rewrite <- HtN.
        assert (Et : t * (t * N) == (t * t) * N) by ring.
        rewrite Et. apply Qmult_le_0_compat; [apply sq_nonneg | lra]. }
      split.
      * rewrite I3, I1.
        assert (Hq : 0 <= ((1 - t) * (1 - t)) * N)
          by (apply Qmult_le_0_compat; [apply sq_nonneg | lra]).
        assert (Eq' : ((1 - t) * (1 - t)) * N == N - 2 * D + t * D)
          by (rewrite <- HtN; ring).
        rewrite Eq' in Hq. lra.
      * rewrite I3. lra.
Qed.

Lemma distPtLin_Ok p a b d :
  distPtLin p a b = Ok d ->
  0 <= d /\ d <= squaredNorm (minus a p) /\ d <= squaredNorm (minus b p).
Proof.
  intros H.
  assert (HN : ~ squaredNorm (minus a b) == 0).
  { unfold distPtLin in H. step_bind H t Et. now apply fdiv_Ok in Et as [? _]. }
  destruct (distPtLin_defined p a b HN) as (d' & Hd' & Hb).
  rewrite H in Hd'. injection Hd' as <-. exact Hb.
Qed.

(** X12.  On a segment whose end points differ, [distPtLin] is defined,
    and its value is not negative and not greater than the squared
    distance from the point to either end point. *)
Theorem distPtLin_between_zero_and_end_points p a b :
  ~ squaredNorm (minus a b) == 0 ->
  exists d,
    distPtLin p a b = Ok d /\
    0 <= d /\ d <= squaredNorm (minus a p) /\ d <= squaredNorm (minus b p).
Proof. apply distPtLin_defined. Qed.

Lemma distPtLin_between_zero_and_end_points_witness :
  exists d,
    distPtLin (V3 0 0 1) tri_a tri_b = Ok d /\
    0 <= d /\ d <= squaredNorm (minus tri_a (V3 0 0 1)) /\
    d <= squaredNorm (minus tri_b (V3 0 0 1)).
Proof.
  apply (distPtLin_between_zero_and_end_points (V3 0 0 1) tri_a tri_b).
  vm_compute. discriminate.
Defined.

(** X13.  On a segment whose end points differ, [distPtLin] is zero at
    every point [b + s (a - b)] of the segment, [0 <= s <= 1]; the end
    points are the cases [s = 0] and [s = 1]. *)
Theorem distPtLin_zero_on_the_segment a b s :
  ~ squaredNorm (minus a b) == 0 ->
  0 <= s <= 1 ->
  exists d,
    distPtLin (plus b (scale s (minus a b))) a b = Ok d /\ d == 0.
Proof.
  intros HN [Hs0 Hs1]. unfold distPtLin, fdiv.
  destruct (Qeq_bool (squaredNorm (minus a b)) 0) eqn:E.
  { apply Qeq_bool_iff in E. contradiction. }
  cbn [bind].
  set (p := plus b (scale s (minus a b))).
  set (N := squaredNorm (minus a b)) in *.
  set (D := dot (minus a b) (minus p b)).
  set (t := D / N).
  assert (HD : D == s * N).
  { unfold N, D, p, squaredNorm, dot, minus, plus, scale. cbn [vx vy vz].
    ring. }
  assert (Ht : t == s) by (unfold t; rewrite HD; field; assumption).
  destruct (Qltb 1 t) eqn:E1.
  { apply Qltb_lt in E1. rewrite Ht in E1. lra. }
  destruct (Qltb t 0) eqn:E0.
  { apply Qltb_lt in E0. rewrite Ht in E0. lra. }
  eexists; split; [reflexivity|].
  assert (I : squaredNorm (minus (scale t (minus a b)) (minus p b))
              == (t - s) * (t - s) * N).
  { unfold N, p, squaredNorm, dot, minus, plus, scale. cbn [vx vy vz].
    ring. }
  rewrite I, Ht. ring.
Qed.

Lemma distPtLin_zero_on_the_segment_witness :
  exists d,
    distPtLin (plus tri_a (scale (1 # 2) (minus tri_b tri_a))) tri_b tri_a
    = Ok d /\ d == 0.
Proof.
  apply (distPtLin_zero_on_the_segment tri_b tri_a (1 # 2)).
  - vm_compute. discriminate.
  - split; vm_compute; discriminate.
Defined.

(** The guard of [distPtTri] protects its three calls of [distPtLin]: a
    triangle with two equal corners has a zero normal. *)
Lemma triNormal_sides a b c :
  ~ squaredNorm (triNormal a b c) < EPSILON ->
  ~ squaredNorm (minus a b) == 0 /\
  ~ squaredNorm (minus b c) == 0 /\
  ~ squaredNorm (minus c a) == 0.
Proof.
  intros Hn.
  assert (Hz : forall x y z : Q,
             x == 0 -> y == 0 -> z == 0 ->
             squaredNorm (triNormal a b c) == x * x + y * y + z * z ->
             False).
  { intros x y z Hx Hy Hz E. apply Hn. rewrite E, Hx, Hy, Hz.
    reflexivity. }
  split; [|split]; intros H; apply squaredNorm_zero in H;
    cbn [minus vx vy vz] in H; destruct H as (Hx & Hy & Hz').
  - apply (Hz ((vy b - vy a) * (vz c - vz a) - (vz b - vz a) * (vy c - vy a))
              ((vz b - vz a) * (vx c - vx a) - (vx b - vx a) * (vz c - vz a))
              ((vx b - vx a) * (vy c - vy a) - (vy b - vy a) * (vx c - vx a)));
      [| | |reflexivity].
    + assert (E1 : vy b - vy a == 0) by lra.
      assert (E2 : vz b - vz a == 0) by lra. rewrite E1, E2. ring.
    + assert (E1 : vx b - vx a == 0) by lra.
      assert (E2 : vz b - vz a == 0) by lra. rewrite E1, E2. ring.
    + assert (E1 : vx b - vx a == 0) by lra.
      assert (E2 : vy b - vy a == 0) by lra. rewrite E1, E2. ring.
  - apply (Hz ((vy b - vy a) * (vz c - vz a) - (vz b - vz a) * (vy c - vy a))
              ((vz b - vz a) * (vx c - vx a) - (vx b - vx a) * (vz c - vz a))
              ((vx b - vx a) * (vy c - vy a) - (vy b - vy a) * (vx c - vx a)));
      [| | |reflexivity].
    + assert (E1 : vy c == vy b) by lra.
      assert (E2 : vz c == vz b) by lra. rewrite E1, E2. ring.
    + assert (E1 : vx c == vx b) by lra.
      assert (E2 : vz c == vz b) by lra. rewrite E1, E2. ring.
    + assert (E1 : vx c == vx b) by lra.
      assert (E2 : vy c == vy b) by lra. rewrite E1, E2. ring.
  - apply (Hz ((vy b - vy a) * (vz c - vz a) - (vz b - vz a) * (vy c - vy a))
              ((vz b - vz a) * (vx c - vx a) - (vx b - vx a) * (vz c - vz a))
              ((vx b - vx a) * (vy c - vy a) - (vy b - vy a) * (vx c - vx a)));
      [| | |reflexivity].
    + rewrite Hy, Hz'. ring.
    + rewrite Hx, Hz'. ring.
    + rewrite Hx, Hy. ring.
Qed.

(** The determinant of the matrix that [distPtTri] inverts; its third
    column is [n - a]. *)
Lemma distPtTri_determinant a b c :
  let n := triNormal a b c in
  determinant3
    (M3 (vx b - vx a) (vx c - vx a) (vx n - vx a)
        (vy b - vy a) (vy c - vy a) (vy n - vy a)
        (vz b - vz a) (vz c - vz a) (vz n - vz a))
  == squaredNorm n - dot n a.
Proof.
  unfold triNormal, determinant3, squaredNorm, dot, cross, minus.
  cbn [vx vy vz m00 m01 m02 m10 m11 m12 m20 m21 m22]. ring.
Qed.

(** X14.  [distPtTri] is defined for every point and every triangle: a
    triangle that passes the degeneracy guard has three different
    corners, so none of the three calls of [distPtLin] divides by zero.
    The matrix that [distPtTri] inverts has the third column [n - a] and
    the determinant [n.n - n.a]; where [n.a] equals [n.n] the matrix is
    singular, the barycentric test fails, and the value is the least of
    the three side distances. *)
Theorem distPtTri_total p a b c :
  exists d,
    distPtTri p a b c = Ok d /\
    (~ squaredNorm (triNormal a b c) < EPSILON ->
     ~ dot (triNormal a b c) (minus a p) < 0 ->
     exists s0 s1 s2,
       distPtLin p a b = Ok s0 /\
       distPtLin p b c = Ok s1 /\
       distPtLin p c a = Ok s2 /\
       (dot (triNormal a b c) a == squaredNorm (triNormal a b c) ->
        d = fmin (fmin (Finite s0) (Finite s1)) (Finite s2))).
Proof.
  unfold distPtTri. cbv zeta. fold (triNormal a b c).
  destruct (Qltb (squaredNorm (triNormal a b c)) EPSILON) eqn:En.
  { eexists. split; [reflexivity|]. intros Hn. apply Qltb_lt in En. tauto. }
  destruct (Qltb (dot (triNormal a b c) (minus a p)) 0) eqn:Ek.
  { eexists. split; [reflexivity|]. intros _ Hk. apply Qltb_lt in Ek. tauto. }
  apply Qltb_ge in En.
  destruct (triNormal_sides a b c En) as (Hab & Hbc & Hca).
  pose proof (distPtTri_determinant a b c) as Hdet. cbv zeta in Hdet.
  destruct (distPtLin_defined p a b Hab) as (s0 & E0 & _).
  destruct (distPtLin_defined p b c Hbc) as (s1 & E1 & _).
  destruct (distPtLin_defined p c a Hca) as (s2 & E2 & _).
  rewrite E0, E1, E2. cbn [bind].
  eexists. split; [reflexivity|]. intros _ _.
  exists s0, s1, s2. repeat split. intros Hsing.
  unfold inverse.
  match goal with
  | |- context [Qeq_bool ?d 0] => destruct (Qeq_bool d 0) eqn:E
  end.
  - destruct (fmin_Finite s0 (Finite s1)) as [d1 ->].
    destruct (fmin_Finite d1 (Finite s2)) as [d2 ->]. reflexivity.
  - apply Qeq_bool_neq in E. rewrite Hdet in E. exfalso. apply E. lra.
Qed.

(** A triangle in the plane z = 1 with a corner on the z axis: the
    matrix is singular, and the value is the squared distance to the
    side [ab]. *)
Lemma distPtTri_singular_example :
  dot (triNormal (V3 0 0 1) (V3 1 0 1) (V3 0 1 1)) (V3 0 0 1)
  == squaredNorm (triNormal (V3 0 0 1) (V3 1 0 1) (V3 0 1 1)) /\
  exists d,
    distPtTri (V3 (1 # 4) (1 # 4) 0) (V3 0 0 1) (V3 1 0 1) (V3 0 1 1)
    = Ok (Finite d) /\ d == 17 # 16.
Proof.
  split; [reflexivity|]. eexists. split; [vm_compute; reflexivity|].
  reflexivity.
Qed.

Lemma Ok_inj {A} (x y : A) : Ok x = Ok y -> x = y.
Proof. now intros [= ->]. Qed.

Lemma fmin_le_l x r d :
  0 <= x ->
  (match r with Finite y => 0 <= y | HUGE_VAL => True end) ->
  fmin (Finite x) r = Finite d -> 0 <= d /\ d <= x.
Proof.
  intros Hx Hr. destruct r as [y|]; cbn [fmin].
  - destruct (Qltb y x) eqn:E; intros [= <-].
    + apply Qltb_lt in E. split; [assumption | lra].
    + split; [assumption | apply Qle_refl].
  - intros [= <-]. split; [assumption | apply Qle_refl].
Qed.

(** X15.  A finite value of [distPtTri] is not negative and not greater
    than the squared distance from the point to the corner [a]. *)
Theorem distPtTri_between_zero_and_corner p a b c d :
  distPtTri p a b c = Ok (Finite d) ->
  0 <= d /\ d <= squaredNorm (minus p a).
Proof.
  unfold distPtTri. cbv zeta.
  destruct (Qltb (squaredNorm (cross (minus b a) (minus c a))) EPSILON).
  { intros [= <-]. split; [apply squaredNorm_nonneg | apply Qle_refl]. }
  destruct (Qltb (dot (cross (minus b a) (minus c a)) (minus a p)) 0);
    [discriminate|].
  intros H. step_bind H s0 E0. step_bind H s1 E1. step_bind H s2 E2.
  apply distPtLin_Ok in E0 as (H0 & H0a & _).
  apply distPtLin_Ok in E1 as (H1 & _).
  apply distPtLin_Ok in E2 as (H2 & _).
  apply Ok_inj in H.
  assert (Ea : squaredNorm (minus a p) == squaredNorm (minus p a)).
  { unfold squaredNorm, dot, minus. cbn [vx vy vz]. ring. }
  destruct (fmin_Finite s0 (Finite s1)) as [d1 E1].
  destruct (fmin_le_l s0 (Finite s1) d1 H0 H1 E1) as [Hd1 Hd1'].
  rewrite E1 in H.
  destruct (fmin_Finite d1 (Finite s2)) as [d2 E2].
  destruct (fmin_le_l d1 (Finite s2) d2 Hd1 H2 E2) as [Hd2 Hd2'].
  rewrite E2 in H.
  match type of H with
  | fmin (Finite d2) ?s3 = _ =>
      assert (H3 : match s3 with Finite y => 0 <= y | HUGE_VAL => True end)
  end.
  { destruct (inverse _); [|exact I].
    match goal with
    | |- context [if ?c then _ else _] => destruct c
    end; [apply sq_nonneg | exact I]. }
  destruct (fmin_le_l d2 _ d Hd2 H3 H) as [Hd Hd'].
  split; [assumption | lra].
Qed.

Lemma distPtTri_between_zero_and_corner_witness :
  0 <= 1 /\ 1 <= squaredNorm (minus (V3 0 0 (-1)) tri_a).
Proof.
  apply (distPtTri_between_zero_and_corner (V3 0 0 (-1)) tri_a tri_b tri_c 1).
  reflexivity.
Defined.

Close Scope Q_scope.

(** ** The determinant of a frame *)

Open Scope Q_scope.

Lemma squaredNorm_offset_l p u :
  squaredNorm (minus (plus u p) p) == squaredNorm u.
Proof. unfold squaredNorm, dot, minus, plus. cbn [vx vy vz]. ring. Qed.

(** The determinant of a frame: minus the triple product of its three
    edge vectors at the first corner. *)
Lemma determinant_mat p0 p1 p2 c :
  determinant (mat p0 p1 p2 c)
  == - dot (cross (minus p1 p0) (minus p2 p0)) (minus c p0).
Proof.
  unfold determinant, mat, rows3, determinant3, dot, cross, minus.
  cbn [row0 row1 row2 row3 fst snd vx vy vz
       m00 m01 m02 m10 m11 m12 m20 m21 m22].
  ring.
Qed.

Lemma nonDegenerate_neg M r :
  0 < r -> determinant M == - r ->
  (nonDegenerate M = true <-> EPSILON < r).
Proof.
  intros Hr Hdet. unfold nonDegenerate. rewrite Qltb_lt, Hdet, Qabs_opp.
  rewrite Qabs_pos by lra. reflexivity.
Qed.

Close Scope Q_scope.

(** ** Tetrahedron centres *)

Lemma corner_point (pts : list Vector3d) (tetList : list Z) i j :
  cornersInRange (size pts) tetList ->
  (i < length tetList / 4)%nat -> (j < 3)%nat ->
  exists p, point pts tetList (4 * Z.of_nat i + Z.of_nat j) = Ok p.
Proof.
  intros Hrange Hi Hj.
  destruct (corner_in_range _ tetList i j Hrange Hi Hj) as (c & Hc & Hcr).
  destruct (vat_lt pts c Hcr) as [p Hp].
  exists p. unfold point. rewrite Hc. cbn [bind]. exact Hp.
Qed.

Lemma third_centroid p0 p1 p2 :
  veq (scale 3 (third (plus (plus p0 p1) p2))) (plus (plus p0 p1) p2).
Proof.
  unfold veq, scale, third, plus. cbn [vx vy vz].
  repeat split; field.
Qed.

Lemma half_midpoint p0 p1 :
  veq (scale 2 (half (plus p0 p1))) (plus p0 p1) /\
  (squaredNorm (minus (half (plus p0 p1)) p0)
   == squaredNorm (minus (half (plus p0 p1)) p1))%Q.
Proof.
  unfold veq, scale, half, plus, squaredNorm, dot, minus. cbn [vx vy vz].
  repeat split; field.
Qed.

Lemma makeTetCenterList_face pts tetList tetCenter0 :
  cornersInRange (size pts) tetList ->
  exists tetCenter,
    makeTetCenterList TM_FACE pts tetList tetCenter0 = Ok tetCenter /\
    length tetCenter = (length tetList / 4)%nat /\
    forall i, (i < length tetList / 4)%nat ->
      exists p0 p1 p2 c,
        point pts tetList (4 * Z.of_nat i) = Ok p0 /\
        point pts tetList (4 * Z.of_nat i + 1) = Ok p1 /\
        point pts tetList (4 * Z.of_nat i + 2) = Ok p2 /\
        tetCenter !! i = Some c /\ centreOf TM_FACE p0 p1 p2 c.
Proof.
  intros Hrange. unfold makeTetCenterList.
  simpl (TM_FACE =? TM_FACE). cbv iota zeta.
  set (n := (length tetList / 4)%nat).
  assert (Hn : size tetList / 4 = Z.of_nat n).
  { unfold size, n. now rewrite Nat2Z.inj_div. }
  rewrite Hn, Nat2Z.id.
  match goal with
  | |- context [forLoop n ?body ?s0] =>
      destruct (forLoop_total
        (fun i (tc : list Vector3d) => length tc = n /\
           forall k, (k < i)%nat ->
             exists p0 p1 p2 c,
               point pts tetList (4 * Z.of_nat k) = Ok p0 /\
               point pts tetList (4 * Z.of_nat k + 1) = Ok p1 /\
               point pts tetList (4 * Z.of_nat k + 2) = Ok p2 /\
               tc !! k = Some c /\ centreOf TM_FACE p0 p1 p2 c)
        body n s0) as (tc & Hrun & Hlen & Hval)
  end.
  - split; [apply length_resize | intros; lia].
  - intros i tc Hi [Hlen Hval].
    destruct (corner_point pts tetList i 0 Hrange Hi) as (p0 & H0); [lia|].
    destruct (corner_point pts tetList i 1 Hrange Hi) as (p1 & H1); [lia|].
    destruct (corner_point pts tetList i 2 Hrange Hi) as (p2 & H2); [lia|].
    rewrite Z.add_0_r in H0. change (Z.of_nat 1) with 1 in H1.
    change (Z.of_nat 2) with 2 in H2.
    rewrite H0, H1, H2. cbn [bind].
    rewrite vset_lt by (unfold size; lia).
    eexists; split; [reflexivity|]. rewrite Nat2Z.id.
    split; [now rewrite length_insert|].
    intros k Hk. destruct (Nat.eq_dec k i) as [->|Hne].
    + exists p0, p1, p2. eexists.
      split; [assumption|]. split; [assumption|]. split; [assumption|].
      split; [apply list_lookup_insert_eq; lia|].
      apply third_centroid.
    + destruct (Hval k) as (q0 & q1 & q2 & c & ? & ? & ? & Hc & ?); [lia|].
      exists q0, q1, q2, c. rewrite list_lookup_insert_ne by lia. auto.
  - exists tc. auto.
Qed.

Lemma makeTetCenterList_edge pts tetList tetCenter0 :
  cornersInRange (size pts) tetList ->
  exists tetCenter,
    makeTetCenterList TM_EDGE pts tetList tetCenter0 = Ok tetCenter /\
    length tetCenter = (length tetList / 4)%nat /\
    forall i, (i < length tetList / 4)%nat ->
      exists p0 p1 p2 c,
        point pts tetList (4 * Z.of_nat i) = Ok p0 /\
        point pts tetList (4 * Z.of_nat i + 1) = Ok p1 /\
        point pts tetList (4 * Z.of_nat i + 2) = Ok p2 /\
        tetCenter !! i = Some c /\ centreOf TM_EDGE p0 p1 p2 c.
Proof.
  intros Hrange. unfold makeTetCenterList.
  simpl (TM_EDGE =? _). cbv iota zeta.
  set (n := (length tetList / 4)%nat).
  assert (Hn : size tetList / 4 = Z.of_nat n).
  { unfold size, n. now rewrite Nat2Z.inj_div. }
  rewrite Hn, Nat2Z.id.
  match goal with
  | |- context [forLoop n ?body ?s0] =>
      destruct (forLoop_total
        (fun i (tc : list Vector3d) => length tc = n /\
           forall k, (k < i)%nat ->
             exists p0 p1 p2 c,
               point pts tetList (4 * Z.of_nat k) = Ok p0 /\
               point pts tetList (4 * Z.of_nat k + 1) = Ok p1 /\
               point pts tetList (4 * Z.of_nat k + 2) = Ok p2 /\
               tc !! k = Some c /\ centreOf TM_EDGE p0 p1 p2 c)
        body n s0) as (tc & Hrun & Hlen & Hval)
  end.
  - split; [apply length_resize | intros; lia].
  - intros i tc Hi [Hlen Hval].
    destruct (corner_point pts tetList i 0 Hrange Hi) as (p0 & H0); [lia|].
    destruct (corner_point pts tetList i 1 Hrange Hi) as (p1 & H1); [lia|].
    destruct (corner_point pts tetList i 2 Hrange Hi) as (p2 & H2); [lia|].
    rewrite Z.add_0_r in H0. change (Z.of_nat 1) with 1 in H1.
    change (Z.of_nat 2) with 2 in H2.
    rewrite H0, H1. cbn [bind].
    rewrite vset_lt by (unfold size; lia).
    eexists; split; [reflexivity|]. rewrite Nat2Z.id.
    split; [now rewrite length_insert|].
    intros k Hk. destruct (Nat.eq_dec k i) as [->|Hne].
    + exists p0, p1, p2. eexists.
      split; [assumption|]. split; [assumption|]. split; [assumption|].
      split; [apply list_lookup_insert_eq; lia|].
      apply half_midpoint.
    + destruct (Hval k) as (q0 & q1 & q2 & c & ? & ? & ? & Hc & ?); [lia|].
      exists q0, q1, q2, c. rewrite list_lookup_insert_ne by lia. auto.
  - exists tc. auto.
Qed.

Lemma makeTetCenterList_fan tetMode pts tetList tetCenter0 :
  tetMode = TM_VERTEX \/ tetMode = TM_VFACE ->
  cornersInRange (size pts) tetList ->
  exists tetCenter,
    makeTetCenterList tetMode pts tetList tetCenter0 = Ok tetCenter /\
    length tetCenter = (length tetList / 4)%nat /\
    forall i, (i < length tetList / 4)%nat ->
      exists p0 p1 p2 c,
        point pts tetList (4 * Z.of_nat i) = Ok p0 /\
        point pts tetList (4 * Z.of_nat i + 1) = Ok p1 /\
        point pts tetList (4 * Z.of_nat i + 2) = Ok p2 /\
        tetCenter !! i = Some c /\ centreOf tetMode p0 p1 p2 c.
Proof.
  intros Hmode Hrange. unfold makeTetCenterList, centreOf.
  assert (Hsel : (tetMode =? TM_FACE) = false /\
                 (tetMode =? TM_EDGE) = false /\
                 ((tetMode =? TM_VERTEX) || (tetMode =? TM_VFACE)) = true)
    by (destruct Hmode as [-> | ->]; repeat split).
  destruct Hsel as (-> & -> & ->). cbv iota zeta.
  set (n := (length tetList / 4)%nat).
  assert (Hn : size tetList / 4 = Z.of_nat n).
  { unfold size, n. now rewrite Nat2Z.inj_div. }
  rewrite Hn, Nat2Z.id.
  match goal with
  | |- context [forLoop n ?body ?s0] =>
      destruct (forLoop_total
        (fun i (tc : list Vector3d) => length tc = n /\
           forall k, (k < i)%nat ->
             exists p0 p1 p2 c,
               point pts tetList (4 * Z.of_nat k) = Ok p0 /\
               point pts tetList (4 * Z.of_nat k + 1) = Ok p1 /\
               point pts tetList (4 * Z.of_nat k + 2) = Ok p2 /\
               tc !! k = Some c /\ c = p0)
        body n s0) as (tc & Hrun & Hlen & Hval)
  end.
  - split; [apply length_resize | intros; lia].
  - intros i tc Hi [Hlen Hval].
    destruct (corner_point pts tetList i 0 Hrange Hi) as (p0 & H0); [lia|].
    destruct (corner_point pts tetList i 1 Hrange Hi) as (p1 & H1); [lia|].
    destruct (corner_point pts tetList i 2 Hrange Hi) as (p2 & H2); [lia|].
    rewrite Z.add_0_r in H0. change (Z.of_nat 1) with 1 in H1.
    change (Z.of_nat 2) with 2 in H2.
    rewrite H0. cbn [bind].
    rewrite vset_lt by (unfold size; lia).
    eexists; split; [reflexivity|]. rewrite Nat2Z.id.
    split; [now rewrite length_insert|].
    intros k Hk. destruct (Nat.eq_dec k i) as [->|Hne].
    + exists p0, p1, p2. eexists.
      split; [assumption|]. split; [assumption|]. split; [assumption|].
      split; [apply list_lookup_insert_eq; lia | reflexivity].
    + destruct (Hval k) as (q0 & q1 & q2 & c & ? & ? & ? & Hc & ?); [lia|].
      exists q0, q1, q2, c. rewrite list_lookup_insert_ne by lia. auto.
  - exists tc. auto.
Qed.

(** X19.  On a tetrahedron list whose corners are valid points
    [makeTetCenterList] is defined in every mode, whatever the apex
    entries are, and returns one centre per tetrahedron.  The centre is
    the centroid of the three corners in per-face mode, the midpoint of
    the first two corners (at the same distance from both) in per-edge
    mode, and the first corner in the per-vertex and vface modes; in any
    other mode nothing is written. *)
Theorem makeTetCenterList_centres tetMode pts tetList tetCenter0 :
  cornersInRange (size pts) tetList ->
  exists tetCenter,
    makeTetCenterList tetMode pts tetList tetCenter0 = Ok tetCenter /\
    length tetCenter = (length tetList / 4)%nat /\
    forall i, (i < writtenCentres tetMode tetList)%nat ->
      exists p0 p1 p2 c,
        point pts tetList (4 * Z.of_nat i) = Ok p0 /\
        point pts tetList (4 * Z.of_nat i + 1) = Ok p1 /\
        point pts tetList (4 * Z.of_nat i + 2) = Ok p2 /\
        tetCenter !! i = Some c /\ centreOf tetMode p0 p1 p2 c.
Proof.
  intros Hrange. unfold writtenCentres.
  destruct (Z.eqb_spec tetMode TM_FACE) as [->|Hf].
  { apply makeTetCenterList_face. assumption. }
  destruct (Z.eqb_spec tetMode TM_EDGE) as [->|He].
  { apply makeTetCenterList_edge. assumption. }
  cbn [orb].
  destruct ((tetMode =? TM_VERTEX) || (tetMode =? TM_VFACE)) eqn:Hv.
  - apply makeTetCenterList_fan; [|assumption].
    apply orb_prop in Hv as [Hv | Hv]; apply Z.eqb_eq in Hv; auto.
  - unfold makeTetCenterList.
    destruct (Z.eqb_spec tetMode TM_FACE) as [|_]; [contradiction|].
    destruct (Z.eqb_spec tetMode TM_EDGE) as [|_]; [contradiction|].
    rewrite Hv. eexists; split; [reflexivity|]. split.
    { rewrite length_resize.
      assert (Hn : size tetList / 4 = Z.of_nat (length tetList / 4))
        by (unfold size; now rewrite Nat2Z.inj_div).
      rewrite Hn. apply Nat2Z.id. }
    intros i Hi. lia.
Qed.

Lemma makeTetCenterList_centres_witness :
  exists tetCenter,
    makeTetCenterList TM_FACE squarePts squareTets [] = Ok tetCenter /\
    length tetCenter = (length squareTets / 4)%nat /\
    forall i, (i < writtenCentres TM_FACE squareTets)%nat ->
      exists p0 p1 p2 c,
        point squarePts squareTets (4 * Z.of_nat i) = Ok p0 /\
        point squarePts squareTets (4 * Z.of_nat i + 1) = Ok p1 /\
        point squarePts squareTets (4 * Z.of_nat i + 2) = Ok p2 /\
        tetCenter !! i = Some c /\ centreOf TM_FACE p0 p1 p2 c.
Proof.
  apply (makeTetCenterList_centres TM_FACE squarePts squareTets []).
  exact squareTets_in_range.
Defined.

(** ** Tetrahedra of the wedges *)

Lemma tetAt_push (tl : list Z) (m : nat) a b c x :
  length tl = (4 * m)%nat ->
  let tl' := push_back (push_back (push_back (push_back tl a) b) c) x in
  length tl' = (4 * S m)%nat /\
  tetAt tl' m = [a; b; c; x] /\
  forall t, (t < m)%nat -> tetAt tl' t = tetAt tl t.
Proof.
  intros Hlen tl'. subst tl'. unfold push_back.
  rewrite <- !app_assoc. cbn [app]. split; [|split].
  - rewrite length_app. cbn [length]. lia.
  - unfold tetAt. rewrite <- Hlen, drop_app_length. reflexivity.
  - intros t Ht. apply tetAt_ext. intros k Hk. apply lookup_app_l. lia.
Qed.

Lemma wedge_lookups (v : vertex) j :
  (j < wedges v)%nat ->
  exists a b,
    connectedTriangles v !! (2 * j)%nat = Some a /\
    connectedTriangles v !! (2 * j + 1)%nat = Some b /\
    vat (connectedTriangles v) (2 * Z.of_nat j) = Ok a /\
    vat (connectedTriangles v) (2 * Z.of_nat j + 1) = Ok b.
Proof.
  unfold wedges. intros Hj.
  pose proof (Nat.Div0.mul_div_le (length (connectedTriangles v)) 2).
  destruct (lookup_lt_is_Some_2 (connectedTriangles v) (2 * j)) as [a Ha];
    [lia|].
  destruct (lookup_lt_is_Some_2 (connectedTriangles v) (2 * j + 1))
    as [b Hb]; [lia|].
  exists a, b. split; [assumption|]. split; [assumption|].
  split; eapply vat_lookup; try eassumption; lia.
Qed.

Lemma makeTetList_vertex_tets numPts faceList edgeList vertexList :
  exists tetList,
    makeTetList TM_VERTEX numPts faceList edgeList vertexList
      = Ok (tetList, numPts + Z.of_nat (length vertexList)) /\
    length tetList = (4 * wedgeCount vertexList)%nat /\
    forall i v j,
      vertexList !! i = Some v -> (j < wedges v)%nat ->
      wedgeTet v j (numPts + Z.of_nat i)
               (tetAt tetList (wedgeCount (take i vertexList) + j)).
Proof.
  unfold makeTetList.
  simpl (TM_VERTEX =? _). cbv iota.
  set (n := length vertexList).
  pose (Inv := fun (done : nat) (extra : nat) (m : nat) (tl : list Z) =>
    length tl = (4 * m)%nat /\
    forall i v j,
      vertexList !! i = Some v -> (j < wedges v)%nat ->
      (i < done \/ (i = done /\ j < extra))%nat ->
      wedgeTet v j (numPts + Z.of_nat i)
               (tetAt tl (wedgeCount (take i vertexList) + j))).
  match goal with
  | |- context [forLoop n ?body ?s0] =>
      destruct (forLoop_total
                  (fun i => Inv i 0%nat (wedgeCount (take i vertexList)))
                  body n s0)
        as (tl & Hrun & Hlen & Htets)
  end.
  - split; [reflexivity | intros; lia].
  - intros i tl Hi [Hlen Htets].
    destruct (lookup_lt_is_Some_2 vertexList i) as [v Hv]; [assumption|].
    rewrite (proj2 (vat_nat vertexList i v) Hv). cbn [bind].
    rewrite (wedgeCount_take_S _ _ _ Hv).
    set (m0 := wedgeCount (take i vertexList)) in *.
    destruct (forLoop_total (fun j => Inv i j (m0 + j)%nat)
                (makeTetList_vertex numPts v i) (wedges v) tl)
      as (tl' & Hrun' & Hlen' & Htets').
    + rewrite Nat.add_0_r. split; assumption.
    + intros j tl0 Hj [Hlen0 Htets0]. unfold makeTetList_vertex.
      destruct (wedge_lookups v j Hj) as (a & b & La & Lb & -> & ->).
      cbn [bind]. eexists; split; [reflexivity|].
      destruct (tetAt_push tl0 (m0 + j) (index v) a b (numPts + Z.of_nat i)
                  Hlen0) as (L & Hnew & Hold).
      split; [rewrite L; lia|].
      intros i' v' j' Hv' Hj' Hcase.
      destruct (decide (i' = i /\ j' = j)) as [[-> ->]|Hne].
      * rewrite Hv in Hv'. injection Hv' as <-. fold m0. rewrite Hnew.
        exists a, b. auto.
      * assert (Hlt : (wedgeCount (take i' vertexList) + j' < m0 + j)%nat).
        { destruct Hcase as [Hlt | [-> Hlt]]; [|fold m0; lia].
          assert (Hle : (wedgeCount (take (S i') vertexList) <= m0)%nat).
          { unfold m0.
            rewrite <- (take_drop (S i') (take i vertexList)).
            rewrite take_take, wedgeCount_app.
            replace (S i' `min` i)%nat with (S i') by lia. lia. }
          rewrite (wedgeCount_take_S _ _ _ Hv') in Hle. lia. }
        rewrite Hold by assumption. apply Htets0; try assumption.
        destruct Hcase as [Hc | [-> Hc]]; [now left | right; split; lia].
    + exists tl'. split; [assumption|]. split; [assumption|].
      intros i' v' j' Hv' Hj' Hcase. apply Htets'; try assumption.
      destruct Hcase as [Hc | [-> Hc]]; [|lia].
      destruct (decide (i' = i)) as [->|Hne].
      * right. split; [reflexivity|].
        rewrite Hv in Hv'. now injection Hv' as <-.
      * left. lia.
  - exists tl. rewrite Hrun. cbn [bind]. unfold size. subst n.
    rewrite firstn_all in Hlen.
    split; [reflexivity|]. split; [assumption|].
    intros i v j Hv Hj. apply Htets; try assumption.
    left. eapply lookup_lt_Some. eassumption.
Qed.

Lemma makeTetList_vface_tets numPts faceList edgeList vertexList :
  exists tetList,
    makeTetList TM_VFACE numPts faceList edgeList vertexList
      = Ok (tetList, numPts + Z.of_nat (wedgeCount vertexList)) /\
    length tetList = (4 * wedgeCount vertexList)%nat /\
    forall i v j,
      vertexList !! i = Some v -> (j < wedges v)%nat ->
      wedgeTet v j
               (numPts + Z.of_nat (wedgeCount (take i vertexList) + j))
               (tetAt tetList (wedgeCount (take i vertexList) + j)).
Proof.
  unfold makeTetList.
  simpl (TM_VFACE =? _). cbv iota.
  set (n := length vertexList).
  pose (Inv := fun (done : nat) (extra : nat) (m : nat) (st : list Z * Z) =>
    length (fst st) = (4 * m)%nat /\ snd st = Z.of_nat m /\
    forall i v j,
      vertexList !! i = Some v -> (j < wedges v)%nat ->
      (i < done \/ (i = done /\ j < extra))%nat ->
      wedgeTet v j
               (numPts + Z.of_nat (wedgeCount (take i vertexList) + j))
               (tetAt (fst st) (wedgeCount (take i vertexList) + j))).
  match goal with
  | |- context [forLoop n ?body ?s0] =>
      destruct (forLoop_total
                  (fun i => Inv i 0%nat (wedgeCount (take i vertexList)))
                  body n s0)
        as ([tl cur] & Hrun & Hlen & Hcur & Htets)
  end.
  - split; [reflexivity|]. split; [reflexivity | intros; lia].
  - intros i st Hi HI.
    destruct (lookup_lt_is_Some_2 vertexList i) as [v Hv]; [assumption|].
    rewrite (proj2 (vat_nat vertexList i v) Hv). cbn [bind].
    rewrite (wedgeCount_take_S _ _ _ Hv).
    set (m0 := wedgeCount (take i vertexList)) in *.
    destruct (forLoop_total (fun j => Inv i j (m0 + j)%nat)
                (makeTetList_vface numPts v) (wedges v) st)
      as (st' & Hrun' & Hlen' & Hcur' & Htets').
    + now rewrite Nat.add_0_r.
    + intros j [tl0 cur0] Hj (Hlen0 & Hcur0 & Htets0). cbn [fst snd] in *.
      unfold makeTetList_vface.
      destruct (wedge_lookups v j Hj) as (a & b & La & Lb & -> & ->).
      cbn [bind]. eexists; split; [reflexivity|]. unfold Inv. cbn [fst snd].
      destruct (tetAt_push tl0 (m0 + j) (index v) a b (numPts + cur0) Hlen0)
        as (L & Hnew & Hold).
      split; [rewrite L; lia|]. split; [lia|].
      intros i' v' j' Hv' Hj' Hcase.
      destruct (decide (i' = i /\ j' = j)) as [[-> ->]|Hne].
      * rewrite Hv in Hv'. injection Hv' as <-. fold m0. rewrite Hnew, Hcur0.
        exists a, b. auto.
      * assert (Hlt : (wedgeCount (take i' vertexList) + j' < m0 + j)%nat).
        { destruct Hcase as [Hlt | [-> Hlt]]; [|fold m0; lia].
          assert (Hle : (wedgeCount (take (S i') vertexList) <= m0)%nat).
          { unfold m0.
            rewrite <- (take_drop (S i') (take i vertexList)).
            rewrite take_take, wedgeCount_app.
            replace (S i' `min` i)%nat with (S i') by lia. lia. }
          rewrite (wedgeCount_take_S _ _ _ Hv') in Hle. lia. }
        rewrite Hold by assumption. apply Htets0; try assumption.
        destruct Hcase as [Hc | [-> Hc]]; [now left | right; split; lia].
    + exists st'. split; [assumption|]. split; [assumption|].
      split; [assumption|].
      intros i' v' j' Hv' Hj' Hcase. apply Htets'; try assumption.
      destruct Hcase as [Hc | [-> Hc]]; [|lia].
      destruct (decide (i' = i)) as [->|Hne].
      * right. split; [reflexivity|].
        rewrite Hv in Hv'. now injection Hv' as <-.
      * left. lia.
  - cbn [fst snd] in *. exists tl. rewrite Hrun. cbn [bind]. subst n.
    rewrite firstn_all in Hlen.
    split.
    { replace (size tl / 4) with (Z.of_nat (wedgeCount vertexList));
        [reflexivity|].
      unfold size. rewrite Hlen. apply (Z.div_unique _ _ _ 0); lia. }
    split; [assumption|].
    intros i v j Hv Hj. apply Htets; try assumption.
    left. eapply lookup_lt_Some. eassumption.
Qed.

(** X20.  In the per-vertex and vface modes [makeTetList] is defined on
    every vertex list.  The tetrahedra come vertex after vertex and,
    for a vertex, wedge after wedge; the tetrahedron of wedge [j] of
    vertex number [i] is the index of the vertex, the two neighbours
    [connectedTriangles[2j]] and [connectedTriangles[2j+1]] of the wedge,
    and the ghost point, which is [numPts + i] in per-vertex mode (one
    per vertex) and [numPts] plus the number of the tetrahedron in vface
    mode (one per wedge). *)
Theorem makeTetList_wedge_tetrahedra numPts faceList edgeList vertexList :
  (exists tetList,
     makeTetList TM_VERTEX numPts faceList edgeList vertexList
       = Ok (tetList, numPts + Z.of_nat (length vertexList)) /\
     forall i v j,
       vertexList !! i = Some v -> (j < wedges v)%nat ->
       wedgeTet v j (numPts + Z.of_nat i)
                (tetAt tetList (wedgeCount (take i vertexList) + j))) /\
  (exists tetList,
     makeTetList TM_VFACE numPts faceList edgeList vertexList
       = Ok (tetList, numPts + Z.of_nat (wedgeCount vertexList)) /\
     forall i v j,
       vertexList !! i = Some v -> (j < wedges v)%nat ->
       wedgeTet v j
                (numPts + Z.of_nat (wedgeCount (take i vertexList) + j))
                (tetAt tetList (wedgeCount (take i vertexList) + j))).
Proof.
  split.
  - destruct (makeTetList_vertex_tets numPts faceList edgeList vertexList)
      as (tl & Hrun & _ & Htets). eauto.
  - destruct (makeTetList_vface_tets numPts faceList edgeList vertexList)
      as (tl & Hrun & _ & Htets). eauto.
Qed.

(** ** Centres of the per-edge tetrahedra *)

Lemma tetAt_lookup (tl : list Z) t k :
  (k < 4)%nat -> tetAt tl t !! k = tl !! (4 * t + k)%nat.
Proof.
  intros Hk. unfold tetAt. rewrite lookup_take, lookup_drop.
  case_decide; [reflexivity | lia].
Qed.

Lemma corners_tetAt (tl : list Z) c :
  c ∈ corners tl ->
  exists t, (t < length tl / 4)%nat /\ c ∈ take 3 (tetAt tl t).
Proof.
  unfold corners. rewrite list_elem_of_In, in_flat_map.
  intros (t & Ht & Hc). apply in_seq in Ht. exists t. split; [lia|].
  apply list_elem_of_In. unfold tetAt.
  rewrite take_take. exact Hc.
Qed.

Lemma couple_of_ends x y v0 v1 :
  couple_of x y = (v0, v1) -> (x = v0 /\ y = v1) \/ (x = v1 /\ y = v0).
Proof.
  unfold couple_of. destruct (x >? y); intros [= <- <-]; auto.
Qed.

(** X21.  On triangles with three different corners, all of them valid
    points, the per-edge pipeline [makeEdgeList], [makeTetList],
    [makeTetCenterList] is defined, and the centre of each of the two
    tetrahedra of an edge is the midpoint of the edge. *)
Theorem edge_centres_are_edge_midpoints
    numPts pts faceList vertexList tetCenter0 :
  properTriangles faceList ->
  Forall (fun c => 0 <= c < size pts) faceList ->
  exists edgeList tetList tetCenter,
    makeEdgeList faceList = Ok (edgeList, size edgeList) /\
    makeTetList TM_EDGE numPts faceList edgeList vertexList
      = Ok (tetList, numPts + size edgeList) /\
    makeTetCenterList TM_EDGE pts tetList tetCenter0 = Ok tetCenter /\
    forall i j e,
      edgeList !! i = Some e -> (j < 2)%nat ->
      exists y0 y1 c,
        vat pts (fst (vertices e)) = Ok y0 /\
        vat pts (snd (vertices e)) = Ok y1 /\
        tetCenter !! (2 * i + j)%nat = Some c /\
        veq (scale 2 c) (plus y0 y1).
Proof.
  intros Hproper Hpts.
  destruct (makeEdgeList_run faceList) as (edgeList & Hrun & Hout).
  assert (Hsides : forall e j, e ∈ edgeList -> (j < 2)%nat ->
            sideOfFace faceList (vertices e) (sel (faces e) j)).
  { intros e j He Hj.
    destruct (emitted_edge_faces faceList edgeList e Hout He)
      as (_ & H0 & H1).
    destruct j as [|[|j]]; [exact H0 | exact H1 | lia]. }
  assert (Hwf : wellFormed TM_EDGE faceList edgeList = true).
  { unfold wellFormed. simpl (TM_EDGE =? TM_EDGE). cbv iota.
    apply forallb_forall. intros e He. apply list_elem_of_In in He.
    apply andb_true_intro. split.
    - apply proper_side_faceOfEdge; [assumption|].
      apply (Hsides e 0%nat He). lia.
    - apply proper_side_faceOfEdge; [assumption|].
      apply (Hsides e 1%nat He). lia. }
  destruct (makeTetList_edge_mode_corners numPts faceList edgeList vertexList
              Hwf) as (tetList & Htet & Hlen & Htets).
  assert (Hnum : (length tetList / 4 = 2 * length edgeList)%nat).
  { rewrite Hlen, Nat.mul_comm. apply Nat.div_mul. lia. }
  rewrite Forall_forall in Hpts.
  assert (Hrange : cornersInRange (size pts) tetList).
  { unfold cornersInRange. apply Forall_forall. intros c Hc.
    apply corners_tetAt in Hc as (t & Ht & Hc). rewrite Hnum in Ht.
    destruct (lookup_lt_is_Some_2 edgeList (t / 2)) as [e He].
    { apply Nat.Div0.div_lt_upper_bound. lia. }
    pose proof (Nat.div_mod_eq t 2) as Et.
    pose proof (Nat.mod_upper_bound t 2) as Hm.
    destruct (Htets (t / 2)%nat (t mod 2)%nat e He)
      as (k & x & y & z & _ & Hz & Hx & Hy & _ & _ & Etet); [lia|].
    replace (2 * (t / 2) + t mod 2)%nat with t in Etet by lia.
    rewrite Etet in Hc. cbn [take] in Hc.
    apply Hpts.
    repeat match goal with
           | H : _ ∈ _ :: _ |- _ => apply elem_of_cons in H as [H|H]
           | H : _ ∈ [] |- _ => apply not_elem_of_nil in H; destruct H
           end; subst c; eapply list_elem_of_lookup_2; eassumption. }
  destruct (makeTetCenterList_edge pts tetList tetCenter0 Hrange)
    as (tc & Htc & _ & Hcentres).
  exists edgeList, tetList, tc.
  split; [assumption|]. split; [assumption|]. split; [assumption|].
  intros i j e He Hj.
  assert (Hin : e ∈ edgeList) by (eapply list_elem_of_lookup_2; eassumption).
  destruct (rotatesFace_proper numPts faceList e i (sel (faces e) j)
              (tetAt tetList (2 * i + j)) Hproper (Hsides e j Hin Hj)
              (Htets i j e He Hj))
    as (x & y & z & Etet & Hxy & _).
  destruct (Hcentres (2 * i + j)%nat)
    as (p0 & p1 & p2 & c & H0 & H1 & _ & Hc & Hcentre).
  { rewrite Hnum. apply lookup_lt_Some in He. lia. }
  assert (Lx : tetList !! (4 * (2 * i + j))%nat = Some x).
  { rewrite <- (Nat.add_0_r (4 * (2 * i + j))), <- tetAt_lookup by lia.
    now rewrite Etet. }
  assert (Ly : tetList !! (4 * (2 * i + j) + 1)%nat = Some y).
  { rewrite <- tetAt_lookup by lia. now rewrite Etet. }
  unfold point in H0, H1.
  rewrite (vat_lookup tetList (4 * (2 * i + j)) _ x) in H0
    by (lia || assumption).
  rewrite (vat_lookup tetList (4 * (2 * i + j) + 1) _ y) in H1
    by (lia || assumption).
  cbn [bind] in H0, H1.
  unfold centreOf in Hcentre. simpl (TM_EDGE =? _) in Hcentre.
  cbv iota in Hcentre. destruct Hcentre as [Hmid _].
  destruct (vertices e) as [v0 v1] eqn:Ev. cbn [fst snd].
  apply couple_of_ends in Hxy as [[-> ->] | [-> ->]].
  - exists p0, p1, c. auto.
  - exists p1, p0, c. split; [assumption|]. split; [assumption|].
    split; [assumption|].
    unfold veq, scale, plus in *. cbn [vx vy vz] in *.
    destruct Hmid as (Hx & Hy & Hz).
    rewrite Hx, Hy, Hz. repeat split; ring.
Qed.

Lemma unitSquare_points : Forall (fun c => 0 <= c < size squarePts) unitSquare.
Proof. unfold unitSquare. repeat constructor; cbn; lia. Qed.

Lemma edge_centres_are_edge_midpoints_witness :
  exists edgeList tetList tetCenter,
    makeEdgeList unitSquare = Ok (edgeList, size edgeList) /\
    makeTetList TM_EDGE 4 unitSquare edgeList []
      = Ok (tetList, 4 + size edgeList) /\
    makeTetCenterList TM_EDGE squarePts tetList [] = Ok tetCenter /\
    forall i j e,
      edgeList !! i = Some e -> (j < 2)%nat ->
      exists y0 y1 c,
        vat squarePts (fst (vertices e)) = Ok y0 /\
        vat squarePts (snd (vertices e)) = Ok y1 /\
        tetCenter !! (2 * i + j)%nat = Some c /\
        veq (scale 2 c) (plus y0 y1).
Proof.
  apply (edge_centres_are_edge_midpoints 4 squarePts unitSquare [] []).
  - exact unitSquare_proper.
  - exact unitSquare_points.
Defined.

(** ** Rows of the adjacency *)

Lemma adjAppend_Ok (P : Z -> Prop) (adj adj' : list (list Z)) a l :
  adjAppend adj a l = Ok adj' ->
  0 <= a < size adj /\ length adj' = length adj /\
  (Forall (Forall P) adj -> Forall P l -> Forall (Forall P) adj').
Proof.
  unfold adjAppend. intros H. step_bind H l0 El.
  apply vset_Ok in H as [Ha ->].
  split; [assumption|]. split; [apply length_insert|].
  intros Hall Hl. apply Forall_insert; [assumption|].
  apply Forall_app. split; [|assumption].
  rewrite Forall_forall in Hall. apply Hall. eapply vat_elem. eassumption.
Qed.

Lemma adjPush_Ok (P : Z -> Prop) (adj adj' : list (list Z)) a b :
  adjPush adj a b = Ok adj' ->
  0 <= a < size adj /\ length adj' = length adj /\
  (Forall (Forall P) adj -> P b -> Forall (Forall P) adj').
Proof.
  intros H.
  destruct (adjAppend_Ok P adj adj' a [b] H) as (Ha & Hlen & Hall).
  split; [assumption|]. split; [assumption|].
  intros H1 H2. apply Hall; [assumption|]. now constructor.
Qed.

Lemma adjLink_Ok (P : Z -> Prop) (adj adj' : list (list Z)) a b :
  adjLink adj a b = Ok adj' ->
  0 <= a < size adj /\ 0 <= b < size adj /\ length adj' = length adj /\
  (Forall (Forall P) adj -> P a -> P b -> Forall (Forall P) adj').
Proof.
  unfold adjLink. intros H. step_bind H adj1 E1.
  destruct (adjPush_Ok P _ _ _ _ E1) as (Ha & Hlen1 & Hall1).
  destruct (adjPush_Ok P _ _ _ _ H) as (Hb & Hlen2 & Hall2).
  unfold size in *. rewrite Hlen1 in Hb.
  split; [assumption|]. split; [assumption|]. split; [lia|].
  intros Hall Pa Pb. apply Hall2; [|assumption]. now apply Hall1.
Qed.

(** Linking one tetrahedron to every entry of a vector. *)
Lemma link_all_Ok n (adj adj' : list (list Z)) (share : list Z) a :
  forLoop (length share)
    (fun j adjacencyList =>
       let* x := vat share (Z.of_nat j) in adjLink adjacencyList a x)
    adj = Ok adj' ->
  length adj = n -> rowsInRange n adj ->
  length adj' = n /\ rowsInRange n adj'.
Proof.
  intros Hrun Hlen Hrows.
  apply (forLoop_inv
           (fun _ (adj0 : list (list Z)) =>
              length adj0 = n /\ rowsInRange n adj0)
           _ _ _ _ Hrun); [auto|].
  intros j adj0 adj1 Hj [Hlen0 Hrows0] Hstep.
  step_bind Hstep x Ex.
  destruct (adjLink_Ok (fun b => 0 <= b < Z.of_nat n) _ _ _ _ Hstep)
    as (Ha & Hx & Hlen1 & Hall).
  unfold size in *. split; [lia|]. apply Hall; [assumption | lia | lia].
Qed.

Lemma fanTets_range cur k x :
  0 <= cur -> x ∈ fanTets cur k -> 0 <= x < cur + Z.of_nat k.
Proof.
  intros Hcur Hx. unfold fanTets in Hx.
  apply list_elem_of_fmap in Hx as (j & -> & Hj).
  apply elem_of_seq in Hj. lia.
Qed.

Lemma shareEdge_Ok (n : nat) (pa : Z * Z) (cur : Z)
    (edges edges' : gmap (Z * Z) Z)
    (adj adj' : list (list Z)) (P : Z -> Prop) :
  shareEdge pa cur (edges, adj) = Ok (edges', adj') ->
  length adj = n ->
  (forall x, 0 <= x < Z.of_nat n -> P x) ->
  Forall (Forall P) adj ->
  length adj' = n /\ Forall (Forall P) adj'.
Proof.
  unfold shareEdge. intros H Hlen HP Hall.
  destruct (edges !! pa) as [c|].
  - step_bind H adj1 E1. injection H as _ <-.
    destruct (adjLink_Ok P _ _ _ _ E1) as (Ha & Hc & Hlen1 & Hall1).
    unfold size in *. split; [lia|].
    apply Hall1; [assumption | apply HP; lia | apply HP; lia].
  - injection H as _ <-. auto.
Qed.

(** Whenever [makeAdjacencyList] is defined, its rows hold tetrahedra. *)
Lemma makeAdjacencyList_Ok tetMode tetList edgeList vertexList adj :
  makeAdjacencyList tetMode tetList edgeList vertexList = Ok adj ->
  length adj = (length tetList / 4)%nat /\
  rowsInRange (length tetList / 4) adj.
Proof.
  unfold makeAdjacencyList. cbv zeta.
  set (n := (length tetList / 4)%nat).
  assert (H0 : length (resize n [] ([] : list (list Z))) = n /\
               rowsInRange n (resize n [] [])).
  { split; [apply length_resize|]. unfold rowsInRange.
    rewrite resize_nil. apply Forall_replicate. constructor. }
  destruct (tetMode =? TM_FACE).
  { intros Hrun.
    apply (forLoop_inv
             (fun _ (adj0 : list (list Z)) =>
                length adj0 = n /\ rowsInRange n adj0)
             _ _ _ _ Hrun); [exact H0|].
    intros i adj0 adj1 Hi [Hlen0 Hrows0] Hstep.
    step_bind Hstep e Ee.
    destruct (adjLink_Ok (fun b => 0 <= b < Z.of_nat n) _ _ _ _ Hstep)
      as (Ha & Hb & Hlen1 & Hall).
    unfold size in *. split; [lia|]. apply Hall; [assumption | lia | lia]. }
  destruct (tetMode =? TM_EDGE).
  { intros Hrun. step_bind Hrun st Est. destruct st as [fs adj0].
    injection Hrun as <-.
    assert (HI : length (snd (fs, adj0)) = n /\
                 rowsInRange n (snd (fs, adj0))).
    { apply (forLoop_inv
               (fun _ (st : list (list Z) * list (list Z)) =>
                  length (snd st) = n /\ rowsInRange n (snd st))
               _ _ _ _ Est); [exact H0|].
      intros i [fs1 adj1] [fs2 adj2] Hi [Hlen1 Hrows1] Hstep.
      cbn [snd] in *. unfold makeAdjacencyList_edge in Hstep.
      step_bind Hstep e Ee. step_bind Hstep adj3 E3.
      step_bind Hstep share0 Es0. step_bind Hstep adj4 E4.
      step_bind Hstep share1 Es1. step_bind Hstep adj5 E5.
      step_bind Hstep fs3 Ef3. step_bind Hstep fs4 Ef4.
      injection Hstep as _ <-.
      destruct (adjLink_Ok (fun b => 0 <= b < Z.of_nat n) _ _ _ _ E3)
        as (Ha & Hb & Hlen3 & Hall3).
      unfold size in *.
      assert (Hrows3 : rowsInRange n adj3)
        by (apply Hall3; [assumption | lia | lia]).
      destruct (link_all_Ok n _ _ _ _ E4) as [Hlen4 Hrows4];
        [lia | assumption |].
      apply (link_all_Ok n _ _ _ _ E5); assumption. }
    exact HI. }
  destruct ((tetMode =? TM_VERTEX) || (tetMode =? TM_VFACE)).
  { intros Hrun. step_bind Hrun st Est. destruct st as [[edges cur] adj0].
    injection Hrun as <-.
    assert (HI : 0 <= snd (fst (edges, cur, adj0)) <= Z.of_nat n /\
                 length (snd (edges, cur, adj0)) = n /\
                 rowsInRange n (snd (edges, cur, adj0))).
    { apply (forLoop_inv
               (fun _ (st : gmap (Z * Z) Z * Z * list (list Z)) =>
                  0 <= snd (fst st) <= Z.of_nat n /\
                  length (snd st) = n /\ rowsInRange n (snd st))
               _ _ _ _ Est).
      { split; [cbn; lia | exact H0]. }
      intros i [[ed1 cur1] adj1] st2 Hi (Hcur1 & Hlen1 & Hrows1) Hstep.
      cbn [fst snd] in *. step_bind Hstep v Ev.
      set (k := (length (connectedTriangles v) / 2)%nat) in *.
      pose (P := fun x : Z =>
        0 <= x /\ (x < Z.of_nat n \/ x < cur1 + Z.of_nat k)).
      assert (HJ : (snd (fst st2) = cur1 + Z.of_nat k /\
                    length (snd st2) = n /\
                    Forall (Forall P) (snd st2)) /\
                   ((0 < k)%nat -> cur1 + Z.of_nat k <= Z.of_nat n)).
      { apply (forLoop_inv
                 (fun j (st : gmap (Z * Z) Z * Z * list (list Z)) =>
                    (snd (fst st) = cur1 + Z.of_nat j /\
                     length (snd st) = n /\
                     Forall (Forall P) (snd st)) /\
                    ((0 < j)%nat -> cur1 + Z.of_nat j <= Z.of_nat n))
                 _ _ _ _ Hstep).
        - cbn [fst snd]. split; [|lia].
          split; [lia|]. split; [assumption|].
          eapply Forall_impl; [exact Hrows1|]. cbv beta. intros l Hl.
          eapply Forall_impl; [exact Hl|]. cbv beta. unfold P. lia.
        - intros j [[ed3 cur3] adj3] st4 Hj [(Hcur3 & Hlen3 & Hall3) _] Hw.
          cbn [fst snd] in *. subst cur3.
          unfold makeAdjacencyList_wedge in Hw.
          step_bind Hw adj5 E5. step_bind Hw s Es. step_bind Hw t Et.
          step_bind Hw st6 E6. destruct st6 as [ed6 adj6].
          step_bind Hw st7 E7. destruct st7 as [ed7 adj7].
          injection Hw as <-. cbn [fst snd].
          destruct (adjAppend_Ok P _ _ _ _ E5) as (Hrow & Hlen5 & Hall5).
          unfold size in Hrow.
          assert (HP : forall x, 0 <= x < Z.of_nat n -> P x)
            by (unfold P; lia).
          assert (Hall5' : Forall (Forall P) adj5).
          { apply Hall5; [assumption|]. apply Forall_forall. intros x Hx.
            apply fanTets_range in Hx; [|lia]. unfold P. lia. }
          destruct (shareEdge_Ok n _ _ _ _ _ _ P E6) as [Hlen6 Hall6];
            [lia | assumption | assumption |].
          destruct (shareEdge_Ok n _ _ _ _ _ _ P E7) as [Hlen7 Hall7];
            [lia | assumption | assumption |].
          split; [|lia]. split; [lia|]. split; assumption. }
      destruct HJ as [(Hcur2 & Hlen2 & Hall2) Hend].
      split; [destruct (Nat.eq_dec k 0%nat); lia|]. split; [assumption|].
      eapply Forall_impl; [exact Hall2|]. cbv beta. intros l Hl.
      eapply Forall_impl; [exact Hl|]. cbv beta. unfold P. intros x Hx.
      destruct (Nat.eq_dec k 0%nat); lia. }
    destruct HI as (_ & Hlen & Hrows). auto. }
  intros [= <-]. exact H0.
Qed.

(** X22.  In each of the four modes, on input that [makeAdjacencyList]
    reads and writes in range, the adjacency list is defined and every
    entry of every row is the number of a tetrahedron of [tetList]. *)
Theorem makeAdjacencyList_entries_are_tetrahedra
    tetMode tetList edgeList vertexList :
  tetMode = TM_FACE \/ tetMode = TM_EDGE \/
  tetMode = TM_VERTEX \/ tetMode = TM_VFACE ->
  adjacencyInput tetMode tetList edgeList vertexList = true ->
  exists adjacencyList,
    makeAdjacencyList tetMode tetList edgeList vertexList = Ok adjacencyList /\
    length adjacencyList = (length tetList / 4)%nat /\
    rowsInRange (length tetList / 4) adjacencyList.
Proof.
  intros Hmode Hin.
  assert (Hdef : exists adj,
             makeAdjacencyList tetMode tetList edgeList vertexList = Ok adj).
  { destruct Hmode as [-> | [-> | Hfan]].
    - destruct (makeAdjacencyList_face tetList edgeList vertexList Hin)
        as (adj & Hrun & _). eauto.
    - destruct (makeAdjacencyList_edge_mode tetList edgeList vertexList Hin)
        as (adj & Hrun & _). eauto.
    - destruct (makeAdjacencyList_fan_mode tetMode tetList edgeList
                  vertexList Hfan Hin) as (adj & Hrun & _). eauto. }
  destruct Hdef as [adj Hrun]. exists adj. split; [assumption|].
  now apply (makeAdjacencyList_Ok tetMode tetList edgeList vertexList).
Qed.

Lemma makeAdjacencyList_entries_are_tetrahedra_witness :
  exists adjacencyList,
    makeAdjacencyList TM_VERTEX fanTetList [] [fanVertex] = Ok adjacencyList /\
    length adjacencyList = (length fanTetList / 4)%nat /\
    rowsInRange (length fanTetList / 4) adjacencyList.
Proof.
  apply (makeAdjacencyList_entries_are_tetrahedra TM_VERTEX fanTetList []
           [fanVertex]).
  - right. right. left. reflexivity.
  - reflexivity.
Defined.

(** ** Round trip of the weights in the per-vertex modes *)

Lemma anchorsBefore_S (tetList : list Z) i c :
  tetList !! (4 * i)%nat = Some c ->
  anchorsBefore tetList (S i) = anchorsBefore tetList i ++ [c].
Proof.
  intros Hc. unfold anchorsBefore.
  rewrite (seq_S i 0), flat_map_app. cbn [flat_map Nat.add].
  rewrite app_nil_r. f_equal.
  rewrite (drop_S _ _ _ Hc). reflexivity.
Qed.

Lemma anchor_in_range numPts (tetList : list Z) i :
  cornersInRange numPts tetList ->
  (i < length tetList / 4)%nat ->
  exists c, tetList !! (4 * i)%nat = Some c /\
            vat tetList (4 * Z.of_nat i) = Ok c /\ 0 <= c < numPts.
Proof.
  intros Hrange Hi.
  destruct (corner_in_range numPts tetList i 0 Hrange Hi) as (c & Hc & Hcr);
    [lia|].
  rewrite Z.add_0_r in Hc. exists c. split; [|auto].
  apply vat_Ok in Hc as [_ Hc].
  now replace (Z.to_nat (4 * Z.of_nat i)) with (4 * i)%nat in Hc by lia.
Qed.

(** Point to tetrahedron: every tetrahedron gets the weight of its first
    entry. *)
Lemma makeWeightList_fan_values
    tetMode tetList faceList edgeList vertexList ptsWeight tetWeight0 :
  tetMode = TM_VERTEX \/ tetMode = TM_VFACE ->
  cornersInRange (size ptsWeight) tetList ->
  exists tetWeight,
    makeWeightList tetMode tetList faceList edgeList vertexList
                   ptsWeight tetWeight0 = Ok tetWeight /\
    length tetWeight = (length tetList / 4)%nat /\
    forall i c, (i < length tetList / 4)%nat ->
      tetList !! (4 * i)%nat = Some c ->
      exists w, ptsWeight !! Z.to_nat c = Some w /\ tetWeight !! i = Some w.
Proof.
  intros Hmode Hrange. unfold makeWeightList.
  assert (Hsel : (tetMode =? TM_FACE) = false /\
                 (tetMode =? TM_EDGE) = false /\
                 ((tetMode =? TM_VERTEX) || (tetMode =? TM_VFACE)) = true)
    by (destruct Hmode as [-> | ->]; repeat split).
  destruct Hsel as (-> & -> & ->). cbv iota zeta.
  set (n := (length tetList / 4)%nat).
  assert (Hn : size tetList / 4 = Z.of_nat n).
  { unfold size, n. now rewrite Nat2Z.inj_div. }
  rewrite Hn, Nat2Z.id.
  match goal with
  | |- context [forLoop n ?body ?s0] =>
      destruct (forLoop_total
        (fun i (tw : list Q) => length tw = n /\
           forall k c, (k < i)%nat -> tetList !! (4 * k)%nat = Some c ->
             exists w, ptsWeight !! Z.to_nat c = Some w /\ tw !! k = Some w)
        body n s0) as (tw & Hrun & Hlen & Hval)
  end.
  - split; [apply length_resize | intros; lia].
  - intros i tw Hi [Hlen Hval].
    destruct (anchor_in_range _ tetList i Hrange Hi) as (c & Lc & Rc & Hc).
    destruct (vat_lt ptsWeight c Hc) as [w Hw].
    rewrite Rc. cbn [bind]. rewrite Hw. cbn [bind].
    rewrite vset_lt by (unfold size; lia).
    eexists; split; [reflexivity|]. rewrite Nat2Z.id.
    split; [now rewrite length_insert|].
    intros k c' Hk Hc'. destruct (Nat.eq_dec k i) as [->|Hne].
    + rewrite Lc in Hc'. injection Hc' as <-.
      exists w. split; [now apply vat_Ok in Hw|].
      apply list_lookup_insert_eq. lia.
    + rewrite list_lookup_insert_ne by lia. apply Hval; [lia | assumption].
  - exists tw. auto.
Qed.

(** Tetrahedron to point, on the weights of the first entries. *)
Lemma makePtsWeightList_fan_anchor
    tetMode tetList faceList edgeList vertexList ptsWeight tetWeight :
  tetMode = TM_VERTEX \/ tetMode = TM_VFACE ->
  cornersInRange (size ptsWeight) tetList ->
  (forall i c, (i < length tetList / 4)%nat ->
     tetList !! (4 * i)%nat = Some c ->
     exists w, ptsWeight !! Z.to_nat c = Some w /\ tetWeight !! i = Some w) ->
  exists pw,
    makePtsWeightList tetMode (size ptsWeight) tetList faceList edgeList
                      vertexList tetWeight = Ok pw /\
    length pw = length ptsWeight /\
    forall p w x, ptsWeight !! p = Some w -> pw !! p = Some x ->
                  (x == w * Qnat (anchorCount tetList (Z.of_nat p)))%Q.
Proof.
  intros Hmode Hrange Htw. unfold makePtsWeightList.
  destruct (Z.ltb_spec (size ptsWeight) 0) as [Hneg|_];
    [unfold size in Hneg; lia|].
  assert (Hsel : (tetMode =? TM_FACE) = false /\
                 (tetMode =? TM_EDGE) = false /\
                 ((tetMode =? TM_VERTEX) || (tetMode =? TM_VFACE)) = true)
    by (destruct Hmode as [-> | ->]; repeat split).
  destruct Hsel as (-> & -> & ->). cbv iota zeta.
  unfold anchorCount.
  set (n := (length tetList / 4)%nat) in *.
  assert (Hn : size tetList / 4 = Z.of_nat n).
  { unfold size, n. now rewrite Nat2Z.inj_div. }
  rewrite Hn, Nat2Z.id. unfold size at 1. rewrite Nat2Z.id.
  match goal with
  | |- context [forLoop n ?body ?s0] =>
      destruct (forLoop_total
        (fun i (pw : list Q) =>
           length pw = length ptsWeight /\
           forall p w x, ptsWeight !! p = Some w -> pw !! p = Some x ->
             (x == w * Qnat (hits (Z.of_nat p) (anchorsBefore tetList i)))%Q)
        body n s0) as (pw & Hrun & Hlen & Hval)
  end.
  - split; [apply length_resize|].
    intros p w x _ Hx. rewrite resize_nil in Hx.
    apply lookup_replicate in Hx as [-> _].
    unfold anchorsBefore, hits, Qnat. cbn. ring.
  - intros i pw Hi [Hlen Hval].
    destruct (anchor_in_range _ tetList i Hrange Hi) as (c & Lc & Rc & Hc).
    destruct (Htw i c Hi Lc) as (wc & Hwc & Htwi).
    rewrite Rc. cbn [bind].
    rewrite (proj2 (vat_nat tetWeight i wc) Htwi). cbn [bind].
    unfold vadd. unfold size in Hc.
    destruct (vat_lt pw c) as [x Hx]; [unfold size; lia|].
    rewrite Hx. cbn [bind].
    rewrite vset_lt by (unfold size; lia).
    eexists; split; [reflexivity|].
    split; [now rewrite length_insert|].
    intros p w y Hw Hy. rewrite (anchorsBefore_S tetList i c Lc), hits_snoc.
    apply vat_Ok in Hx as [_ Hx].
    destruct (Nat.eq_dec p (Z.to_nat c)) as [->|Hne].
    + rewrite list_lookup_insert_eq in Hy by lia. injection Hy as <-.
      rewrite Hwc in Hw. injection Hw as <-.
      rewrite Z2Nat.id by lia.
      destruct (decide (c = c)) as [_|]; [|congruence].
      rewrite Nat.add_1_r, Qnat_S.
      rewrite (Hval _ _ _ Hwc Hx), Z2Nat.id by lia. ring.
    + rewrite list_lookup_insert_ne in Hy by lia.
      destruct (decide (c = Z.of_nat p)) as [->|_]; [lia|].
      rewrite Nat.add_0_r. now apply Hval.
  - exists pw. auto.
Qed.

(** X23.  In the per-vertex and vface modes, for any point weights,
    [makeWeightList] followed by [makePtsWeightList] is defined and
    multiplies the weight of every point by the number of tetrahedra
    that start with the point, that is, by the number of wedges of the
    vertex at the point; a point that starts no tetrahedron gets zero. *)
Theorem fan_weight_roundtrip
    tetMode tetList faceList edgeList vertexList ptsWeight tetWeight0 :
  tetMode = TM_VERTEX \/ tetMode = TM_VFACE ->
  cornersInRange (size ptsWeight) tetList ->
  exists tetWeight pw,
    makeWeightList tetMode tetList faceList edgeList vertexList
                   ptsWeight tetWeight0 = Ok tetWeight /\
    makePtsWeightList tetMode (size ptsWeight) tetList faceList edgeList
                      vertexList tetWeight = Ok pw /\
    length pw = length ptsWeight /\
    forall p w x, ptsWeight !! p = Some w -> pw !! p = Some x ->
                  (x == w * Qnat (anchorCount tetList (Z.of_nat p)))%Q.
Proof.
  intros Hmode Hrange.
  destruct (makeWeightList_fan_values tetMode tetList faceList edgeList
              vertexList ptsWeight tetWeight0 Hmode Hrange)
    as (tw & Htw & _ & Hval).
  destruct (makePtsWeightList_fan_anchor tetMode tetList faceList edgeList
              vertexList ptsWeight tw Hmode Hrange Hval)
    as (pw & Hpw & Hlen & Hx).
  exists tw, pw. auto.
Qed.

Lemma fanTetList_in_range : cornersInRange (size squareWeights) fanTetList.
Proof.
  unfold cornersInRange. cbn. repeat constructor; lia.
Qed.

Lemma fan_weight_roundtrip_witness :
  exists tetWeight pw,
    makeWeightList TM_VERTEX fanTetList [] [] [fanVertex]
                   squareWeights [] = Ok tetWeight /\
    makePtsWeightList TM_VERTEX (size squareWeights) fanTetList [] []
                      [fanVertex] tetWeight = Ok pw /\
    length pw = length squareWeights /\
    forall p w x, squareWeights !! p = Some w -> pw !! p = Some x ->
                  (x == w * Qnat (anchorCount fanTetList (Z.of_nat p)))%Q.
Proof.
  apply (fan_weight_roundtrip TM_VERTEX fanTetList [] [] [fanVertex]
           squareWeights []).
  - left. reflexivity.
  - exact fanTetList_in_range.
Defined.

(** ** Where the adjacency construction is defined *)

Lemma link_all_length (adj adj' : list (list Z)) (share : list Z) a :
  forLoop (length share)
    (fun j adjacencyList =>
       let* x := vat share (Z.of_nat j) in adjLink adjacencyList a x)
    adj = Ok adj' ->
  length adj' = length adj.
Proof.
  intros Hrun.
  apply (forLoop_inv
           (fun _ (adj0 : list (list Z)) => length adj0 = length adj)
           _ _ _ _ Hrun); [reflexivity|].
  intros j adj0 adj1 Hj Hlen0 Hstep. step_bind Hstep x Ex.
  destruct (adjLink_Ok (fun _ => True) _ _ _ _ Hstep) as (_ & _ & Hlen1 & _).
  lia.
Qed.

Lemma shareEdge_length (pa : Z * Z) (cur : Z)
    (edges edges' : gmap (Z * Z) Z) (adj adj' : list (list Z)) :
  shareEdge pa cur (edges, adj) = Ok (edges', adj') ->
  length adj' = length adj.
Proof.
  unfold shareEdge. intros H. destruct (edges !! pa) as [c|].
  - step_bind H adj1 E1. injection H as _ <-.
    now destruct (adjLink_Ok (fun _ => True) _ _ _ _ E1) as (_ & _ & ? & _).
  - now injection H as _ <-.
Qed.

(** Whenever [makeAdjacencyList] is defined, its input was in range. *)
Lemma makeAdjacencyList_Ok_input tetMode tetList edgeList vertexList adj :
  makeAdjacencyList tetMode tetList edgeList vertexList = Ok adj ->
  adjacencyInput tetMode tetList edgeList vertexList = true.
Proof.
  unfold makeAdjacencyList, adjacencyInput. cbv zeta.
  set (n := (length tetList / 4)%nat).
  destruct (tetMode =? TM_FACE).
  { intros Hrun.
    assert (HI : length adj = n /\
                 forall i e, (i < length edgeList)%nat ->
                   edgeList !! i = Some e ->
                   0 <= fst (faces e) < Z.of_nat n /\
                   0 <= snd (faces e) < Z.of_nat n).
    { apply (forLoop_inv
               (fun m (adj0 : list (list Z)) =>
                  length adj0 = n /\
                  forall i e, (i < m)%nat -> edgeList !! i = Some e ->
                    0 <= fst (faces e) < Z.of_nat n /\
                    0 <= snd (faces e) < Z.of_nat n)
               _ _ _ _ Hrun).
      - split; [apply length_resize | intros; lia].
      - intros i adj0 adj1 Hi [Hlen0 Hdone] Hstep.
        step_bind Hstep e Ee. apply vat_nat in Ee.
        destruct (adjLink_Ok (fun _ => True) _ _ _ _ Hstep)
          as (Ha & Hb & Hlen1 & _).
        unfold size in *. split; [lia|].
        intros i' e' Hi' He'. destruct (Nat.eq_dec i' i) as [->|Hne].
        + rewrite Ee in He'. injection He' as <-. lia.
        + apply (Hdone i'); [lia | assumption]. }
    destruct HI as [_ HI]. apply forallb_forall. intros e He.
    apply list_elem_of_In, list_elem_of_lookup in He as [i Hi].
    destruct (HI i e (lookup_lt_Some _ _ _ Hi) Hi) as [H0 H1].
    apply andb_true_intro. split; apply inRange_spec; assumption. }
  destruct (tetMode =? TM_EDGE).
  { intros Hrun. step_bind Hrun st Est. destruct st as [fs adj0].
    injection Hrun as <-.
    set (m := length edgeList) in *.
    assert (HI : (length (fst (fs, adj0)) = (2 * m)%nat /\
                  length (snd (fs, adj0)) = n) /\
                 ((0 < m)%nat -> (2 * m <= n)%nat) /\
                 forall i e, (i < m)%nat -> edgeList !! i = Some e ->
                   0 <= fst (faces e) < 2 * Z.of_nat m /\
                   0 <= snd (faces e) < 2 * Z.of_nat m).
    { apply (forLoop_inv
               (fun k (st : list (list Z) * list (list Z)) =>
                  (length (fst st) = (2 * m)%nat /\ length (snd st) = n) /\
                  ((0 < k)%nat -> (2 * k <= n)%nat) /\
                  forall i e, (i < k)%nat -> edgeList !! i = Some e ->
                    0 <= fst (faces e) < 2 * Z.of_nat m /\
                    0 <= snd (faces e) < 2 * Z.of_nat m)
               _ _ _ _ Est).
      - cbn [fst snd]. rewrite !length_resize.
        split; [split; reflexivity|]. split; intros; lia.
      - intros i [fs1 adj1] [fs2 adj2] Hi ([Hlenf Hlena] & _ & Hdone) Hstep.
        cbn [fst snd] in *. unfold makeAdjacencyList_edge in Hstep.
        step_bind Hstep e Ee. apply vat_nat in Ee.
        step_bind Hstep adj3 E3.
        step_bind Hstep share0 Es0. step_bind Hstep adj4 E4.
        step_bind Hstep share1 Es1. step_bind Hstep adj5 E5.
        step_bind Hstep fs3 Ef3. step_bind Hstep fs4 Ef4.
        injection Hstep as <- <-.
        destruct (adjLink_Ok (fun _ => True) _ _ _ _ E3)
          as (Ha & Hb & Hlen3 & _).
        apply link_all_length in E4, E5.
        apply vat_Ok in Es0 as [Hf0 Es0]. apply lookup_lt_Some in Es0.
        apply vat_Ok in Es1 as [Hf1 Es1]. apply lookup_lt_Some in Es1.
        destruct (adjPush_Ok (fun _ => True) _ _ _ _ Ef3) as (_ & Hlf3 & _).
        destruct (adjPush_Ok (fun _ => True) _ _ _ _ Ef4) as (_ & Hlf4 & _).
        unfold size in *.
        split; [split; lia|]. split; [lia|].
        intros i' e' Hi' He'. destruct (Nat.eq_dec i' i) as [->|Hne].
        + rewrite Ee in He'. injection He' as <-. lia.
        + apply (Hdone i'); [lia | assumption]. }
    cbn [fst snd] in HI. destruct HI as (_ & Hn & HI).
    apply andb_true_intro. split.
    - apply Nat.leb_le. fold m. destruct (Nat.eq_dec m 0%nat); lia.
    - apply forallb_forall. intros e He.
      apply list_elem_of_In, list_elem_of_lookup in He as [i Hi].
      destruct (HI i e (lookup_lt_Some _ _ _ Hi) Hi) as [H0 H1].
      fold m. apply andb_true_intro. split; apply inRange_spec; lia. }
  destruct ((tetMode =? TM_VERTEX) || (tetMode =? TM_VFACE)); [|reflexivity].
  intros Hrun. step_bind Hrun st Est. destruct st as [[edges cur] adj0].
  injection Hrun as <-.
  assert (HI : snd (fst (edges, cur, adj0))
               = Z.of_nat (wedgeCount (take (length vertexList) vertexList)) /\
               length (snd (edges, cur, adj0)) = n /\
               (wedgeCount (take (length vertexList) vertexList) <= n)%nat).
  { apply (forLoop_inv
             (fun i (st : gmap (Z * Z) Z * Z * list (list Z)) =>
                snd (fst st) = Z.of_nat (wedgeCount (take i vertexList)) /\
                length (snd st) = n /\
                (wedgeCount (take i vertexList) <= n)%nat)
             _ _ _ _ Est).
    { cbn [fst snd]. rewrite length_resize.
      change (wedgeCount (take 0 vertexList)) with 0%nat.
      split; [reflexivity|]. split; [reflexivity | lia]. }
    intros i [[ed1 cur1] adj1] st2 Hi (Hcur1 & Hlen1 & Hle1) Hstep.
    cbn [fst snd] in *. step_bind Hstep v Ev. apply vat_nat in Ev.
    rewrite (wedgeCount_take_S _ _ _ Ev). unfold wedges.
    set (k := (length (connectedTriangles v) / 2)%nat) in *.
    assert (HJ : (snd (fst st2) = cur1 + Z.of_nat k /\
                  length (snd st2) = n) /\
                 ((0 < k)%nat -> cur1 + Z.of_nat k <= Z.of_nat n)).
    { apply (forLoop_inv
               (fun j (st : gmap (Z * Z) Z * Z * list (list Z)) =>
                  (snd (fst st) = cur1 + Z.of_nat j /\
                   length (snd st) = n) /\
                  ((0 < j)%nat -> cur1 + Z.of_nat j <= Z.of_nat n))
               _ _ _ _ Hstep).
      - cbn [fst snd]. split; [split; [lia | assumption] | lia].
      - intros j [[ed3 cur3] adj3] st4 Hj [[Hcur3 Hlen3] _] Hw.
        cbn [fst snd] in *. subst cur3.
        unfold makeAdjacencyList_wedge in Hw.
        step_bind Hw adj5 E5. step_bind Hw s Es. step_bind Hw t Et.
        step_bind Hw st6 E6. destruct st6 as [ed6 adj6].
        step_bind Hw st7 E7. destruct st7 as [ed7 adj7].
        injection Hw as <-. cbn [fst snd].
        destruct (adjAppend_Ok (fun _ => True) _ _ _ _ E5)
          as (Hrow & Hlen5 & _).
        apply shareEdge_length in E6, E7.
        unfold size in Hrow. split; [split; lia | lia]. }
    destruct HJ as [[Hcur2 Hlen2] Hend].
    split; [lia|]. split; [assumption|].
    destruct (Nat.eq_dec k 0%nat); lia. }
  cbn [fst snd] in HI. rewrite firstn_all in HI.
  apply Nat.leb_le. lia.
Qed.

(** X24.  In each of the four modes [makeAdjacencyList] is defined
    exactly on the input that it reads and writes in range: in per-face
    mode every face of every edge is a tetrahedron; in per-edge mode
    there are two tetrahedra for every edge and every face of every edge
    is below [2 * edgeList.size()], the number of rows of
    [faceShareList], which that face indexes; in the per-vertex and vface
    modes there is a tetrahedron for every wedge. *)
Theorem makeAdjacencyList_defined_iff tetMode tetList edgeList vertexList :
  tetMode = TM_FACE \/ tetMode = TM_EDGE \/
  tetMode = TM_VERTEX \/ tetMode = TM_VFACE ->
  ((exists adjacencyList,
       makeAdjacencyList tetMode tetList edgeList vertexList
       = Ok adjacencyList) <->
   adjacencyInput tetMode tetList edgeList vertexList = true).
Proof.
  intros Hmode. split.
  - intros [adj Hrun]. eapply makeAdjacencyList_Ok_input. eassumption.
  - intros Hin. destruct Hmode as [-> | [-> | Hfan]].
    + destruct (makeAdjacencyList_face tetList edgeList vertexList Hin)
        as (adj & Hrun & _). eauto.
    + destruct (makeAdjacencyList_edge_mode tetList edgeList vertexList Hin)
        as (adj & Hrun & _). eauto.
    + destruct (makeAdjacencyList_fan_mode tetMode tetList edgeList
                  vertexList Hfan Hin) as (adj & Hrun & _). eauto.
Qed.

Lemma makeAdjacencyList_defined_iff_witness :
  (exists adjacencyList,
      makeAdjacencyList TM_EDGE squareEdgeTets [squareEdge] []
      = Ok adjacencyList) <->
  adjacencyInput TM_EDGE squareEdgeTets [squareEdge] [] = true.
Proof.
  apply (makeAdjacencyList_defined_iff TM_EDGE squareEdgeTets [squareEdge] []).
  right. left. reflexivity.
Defined.

(** ** Cross products of unit vectors *)

Open Scope Q_scope.

(** Lagrange's identity. *)
Lemma squaredNorm_cross a b :
  squaredNorm (cross a b)
  == squaredNorm a * squaredNorm b - dot a b * dot a b.
Proof. unfold squaredNorm, dot, cross. cbn [vx vy vz]. ring. Qed.

Lemma cross_unit_le a b :
  squaredNorm a == 1 -> squaredNorm b == 1 -> squaredNorm (cross a b) <= 1.
Proof.
  intros Ha Hb. rewrite squaredNorm_cross, Ha, Hb.
  pose proof (sq_nonneg (dot a b)). lra.
Qed.

Lemma square_le_one r : 0 <= r -> r * r <= 1 -> r <= 1.
Proof.
  intros H0 H1. apply Qnot_lt_le. intros Hr.
  assert (H : 1 * 1 < r * r).
  { apply Qle_lt_trans with (1 * r).
    - assert (E : 1 * 1 == 1) by ring. rewrite E. lra.
    - apply Qmult_lt_compat_r; lra. }
  lra.
Qed.

Close Scope Q_scope.

(** ** Square roots and rescaled vectors *)

Open Scope Q_scope.

Lemma sqrtQ_positive : sqrtPositive sqrtQ.
Proof.
  intros x Hx. unfold sqrtQ.
  pose proof (Qred_correct x) as E.
  destruct (Qred x) as [n d]. cbn [Qnum Qden].
  assert (Hn : (0 < n)%Z).
  { rewrite <- E in Hx. unfold Qlt in Hx. cbn [Qnum Qden] in Hx. lia. }
  unfold Qlt. cbn [Qnum Qden]. rewrite Z.mul_0_l, Z.mul_1_r.
  apply Z.sqrt_pos.
  assert (H4 : (0 < 4 ^ 52)%Z) by (apply Z.pow_pos_nonneg; lia).
  apply Z.mul_pos_pos; [|assumption].
  apply Z.mul_pos_pos; [assumption | apply Pos2Z.is_pos].
Qed.

(** [sqrtQ] is exact on the square of a rational. *)
Lemma Qred_square (a : Z) (b : positive) :
  Z.gcd a (Zpos b) = 1%Z -> Qred ((a * a) # (b * b)) = (a * a) # (b * b).
Proof.
  intros H. apply Qcanon.Qred_identity. cbn [Qnum Qden].
  rewrite Pos2Z.inj_mul.
  apply Z.coprime_mul_r; apply Z.coprime_mul_l; exact H.
Qed.

Lemma sqrtQ_square q : 0 <= q -> sqrtQ (q * q) == q.
Proof.
  intros Hq.
  pose proof (Qred_correct q) as Er.
  pose proof (gcd_Qred q) as Hg.
  destruct (Qred q) as [a b] eqn:Eq. cbn [Qnum Qden] in Hg.
  assert (Ha : (0 <= a)%Z).
  { rewrite <- Er in Hq. unfold Qle in Hq. cbn in Hq. lia. }
  assert (E2 : Qred (q * q) = (a * a) # (b * b)).
  { rewrite <- (Qred_square a b Hg). apply Qred_complete.
    rewrite <- Er. reflexivity. }
  unfold sqrtQ. rewrite E2. cbn [Qnum Qden].
  rewrite <- Er.
  assert (Es : (a * a * Z.pos (b * b) * 4 ^ 52
                = (a * Z.pos b * 2 ^ 52) * (a * Z.pos b * 2 ^ 52))%Z).
  { rewrite Pos2Z.inj_mul. change (4 ^ 52)%Z with (2 ^ 52 * 2 ^ 52)%Z. ring. }
  rewrite Es, Z.sqrt_square
    by (apply Z.mul_nonneg_nonneg; [lia | apply Z.pow_nonneg; lia]).
  unfold Qeq. cbn [Qnum Qden]. rewrite !Pos2Z.inj_mul, Pos2Z.inj_pow. ring.
Qed.

Lemma fdiv_defined x y : ~ y == 0 -> fdiv x y = Ok (x / y).
Proof.
  intros Hy. unfold fdiv. destruct (Qeq_bool y 0) eqn:E; [|reflexivity].
  apply Qeq_bool_iff in E. contradiction.
Qed.

(** The two cases of [normalized]. *)
Lemma normalized_pos sqrt a :
  sqrtPositive sqrt -> 0 < squaredNorm a ->
  normalized sqrt a
  = Ok (V3 (vx a / sqrt (squaredNorm a)) (vy a / sqrt (squaredNorm a))
           (vz a / sqrt (squaredNorm a))).
Proof.
  intros Hsqrt Hz. unfold normalized. cbv zeta.
  rewrite (proj2 (Qltb_lt _ _) Hz).
  specialize (Hsqrt _ Hz).
  rewrite !fdiv_defined by lra. reflexivity.
Qed.

Lemma normalized_zero sqrt a :
  ~ 0 < squaredNorm a -> normalized sqrt a = Ok a /\ squaredNorm a == 0.
Proof.
  intros Hz. unfold normalized. cbv zeta.
  rewrite (proj2 (Qltb_ge _ _) Hz). split; [reflexivity|].
  pose proof (squaredNorm_nonneg a). lra.
Qed.

Lemma veq_refl a : veq a a.
Proof. split; [|split]; reflexivity. Qed.

Lemma squaredNorm_veq a b : veq a b -> squaredNorm a == squaredNorm b.
Proof.
  intros (Hx & Hy & Hz). unfold squaredNorm, dot. now rewrite Hx, Hy, Hz.
Qed.

(** [normalized] is defined on every vector, and rescales it. *)
Lemma normalized_total sqrt a :
  sqrtPositive sqrt ->
  exists u, normalized sqrt a = Ok u /\ rescaledTo sqrt a u.
Proof.
  intros Hsqrt. destruct (Qlt_le_dec 0 (squaredNorm a)) as [Hz | Hz].
  - rewrite (normalized_pos sqrt a Hsqrt Hz). eexists. split; [reflexivity|].
    pose proof (Hsqrt _ Hz) as Hs.
    split; [intros H0; lra|]. intros _.
    split; [assumption|].
    unfold veq, scale. cbn [vx vy vz].
    remember (sqrt (squaredNorm a)) as s eqn:Es. clear Es.
    split.
    + split; [|split]; field; lra.
    + intros Hexact. unfold squaredNorm, dot in *. cbn [vx vy vz].
      transitivity ((vx a * vx a + vy a * vy a + vz a * vz a) / (s * s));
        [field; lra|].
      rewrite Hexact. field. lra.
  - destruct (normalized_zero sqrt a) as [-> H0]; [lra|].
    exists a. split; [reflexivity|]. split; [intros _; apply veq_refl|].
    intros H. lra.
Qed.

Lemma normalized_rescaled sqrt a u :
  sqrtPositive sqrt -> normalized sqrt a = Ok u -> rescaledTo sqrt a u.
Proof.
  intros Hsqrt Hu. destruct (normalized_total sqrt a Hsqrt) as (u' & Hu' & H).
  rewrite Hu in Hu'. injection Hu' as <-. exact H.
Qed.

(** The edge vector of a frame whose corner is the first corner plus a
    rescaled vector. *)
Lemma rescaledTo_offset sqrt v u p0 :
  rescaledTo sqrt v u -> rescaledTo sqrt v (minus (plus p0 u) p0).
Proof.
  assert (E : veq (minus (plus p0 u) p0) u).
  { unfold veq, minus, plus. cbn [vx vy vz]. split; [|split]; ring. }
  intros [H0 H1]. split.
  - intros Hz. destruct (H0 Hz) as (Hx & Hy & Hw).
    destruct E as (Ex & Ey & Ew). unfold veq.
    rewrite Ex, Ey, Ew. auto.
  - intros Hz. destruct (H1 Hz) as (Hs & (Hx & Hy & Hw) & Hu).
    split; [assumption|]. split.
    + destruct E as (Ex & Ey & Ew). unfold veq, scale in *.
      cbn [vx vy vz] in *. rewrite Ex, Ey, Ew. auto.
    + intros Hexact. rewrite (squaredNorm_veq _ _ E). auto.
Qed.

(** A rescaled vector is not longer than 1 where the root is exact. *)
Lemma rescaledTo_le_one sqrt v u :
  rescaledTo sqrt v u ->
  (0 < squaredNorm v ->
   sqrt (squaredNorm v) * sqrt (squaredNorm v) == squaredNorm v) ->
  squaredNorm u <= 1.
Proof.
  intros [H0 H1] Hexact.
  destruct (Qlt_le_dec 0 (squaredNorm v)) as [Hz | Hz].
  - destruct (H1 Hz) as (_ & _ & Hu). rewrite (Hu (Hexact Hz)). lra.
  - pose proof (squaredNorm_nonneg v).
    assert (Hv : squaredNorm v == 0) by lra.
    rewrite (squaredNorm_veq _ _ (H0 Hv)), Hv. lra.
Qed.

(** ** The frame on a triangle *)

(** The frame that the per-face branch builds on the triangle [p0], [p1],
    [p2]: its apex is [p0] plus the rescaled normal [n] of the triangle,
    and its determinant is minus [n.n] over the root of [n.n], that is
    minus the length of [n]. *)
Lemma face_frame sqrt p0 p1 p2 :
  sqrtPositive sqrt ->
  exists q,
    normalized sqrt (triNormal p0 p1 p2) = Ok q /\
    let z := squaredNorm (triNormal p0 p1 p2) in
    let M := mat p0 p1 p2 (plus q p0) in
    (z == 0 ->
     veq (plus q p0) p0 /\ determinant M == 0 /\ nonDegenerate M = false) /\
    (0 < z ->
     determinant M == - (z / sqrt z) /\ determinant M < 0 /\
     (nonDegenerate M = true <-> EPSILON < z / sqrt z) /\
     (sqrt z * sqrt z == z ->
      determinant M == - sqrt z /\
      squaredNorm (minus (plus q p0) p0) == 1)).
Proof.
  intros Hsqrt.
  destruct (normalized_total sqrt (triNormal p0 p1 p2) Hsqrt)
    as (q & Hq & Hres).
  exists q. split; [assumption|]. cbv zeta.
  set (n := triNormal p0 p1 p2) in *.
  assert (Edet : determinant (mat p0 p1 p2 (plus q p0)) == - dot n q).
  { rewrite determinant_mat. fold (triNormal p0 p1 p2). fold n.
    unfold dot, minus, plus. cbn [vx vy vz]. ring. }
  destruct Hres as [H0 H1]. split.
  - intros Hz. destruct (H0 Hz) as (Hx & Hy & Hw).
    destruct (squaredNorm_zero n Hz) as (Nx & Ny & Nw).
    assert (Ed : determinant (mat p0 p1 p2 (plus q p0)) == 0).
    { rewrite Edet. unfold dot. rewrite Nx, Ny, Nw. ring. }
    split; [|split; [assumption|]].
    + unfold veq, plus. cbn [vx vy vz]. rewrite Hx, Hy, Hw, Nx, Ny, Nw.
      split; [|split]; ring.
    + unfold nonDegenerate. apply Qltb_ge. rewrite Ed.
      intros H. vm_compute in H. discriminate.
  - intros Hz. destruct (H1 Hz) as (Hs & (Hx & Hy & Hw) & Hu).
    set (s := sqrt (squaredNorm n)) in *.
    unfold scale in Hx, Hy, Hw. cbn [vx vy vz] in Hx, Hy, Hw.
    assert (Enq : dot n q == squaredNorm n / s).
    { unfold squaredNorm, dot. rewrite <- Hx, <- Hy, <- Hw. field. lra. }
    assert (Hpos : 0 < squaredNorm n / s).
    { apply Qlt_shift_div_l; lra. }
    assert (Ed : determinant (mat p0 p1 p2 (plus q p0))
                 == - (squaredNorm n / s)) by (rewrite Edet, Enq; reflexivity).
    split; [assumption|]. split; [rewrite Ed; lra|].
    split; [now apply nonDegenerate_neg|].
    intros Hexact. split.
    + rewrite Ed, <- Hexact. field. lra.
    + rewrite squaredNorm_offset_l. auto.
Qed.

Close Scope Q_scope.

(** ** Loops that fill or extend a vector of frames *)

(** A loop that writes entry [i] of a vector in pass [i]. *)
Lemma fill_frames {A} (Spec : nat -> A -> Prop) body n (P0 : list A) :
  length P0 = n ->
  (forall i P, (i < n)%nat -> length P = n ->
     exists M, body i P = Ok (<[i := M]> P) /\ Spec i M) ->
  exists P,
    forLoop n body P0 = Ok P /\ length P = n /\
    forall i, (i < n)%nat -> exists M, P !! i = Some M /\ Spec i M.
Proof.
  intros Hlen0 Hbody.
  destruct (forLoop_total
    (fun i (P : list A) =>
       length P = n /\
       forall k, (k < i)%nat -> exists M, P !! k = Some M /\ Spec k M)
    body n P0) as (P & Hrun & Hlen & HP).
  - split; [assumption | intros; lia].
  - intros i P Hi [Hlen HP].
    destruct (Hbody i P Hi Hlen) as (M & -> & HM).
    eexists. split; [reflexivity|]. split; [now rewrite length_insert|].
    intros k Hk. destruct (Nat.eq_dec k i) as [->|Hne].
    + exists M. split; [apply list_lookup_insert_eq; lia | assumption].
    + rewrite list_lookup_insert_ne by lia. apply HP. lia.
  - exists P. auto.
Qed.

(** A loop that pushes one frame in every pass. *)
Lemma push_frames {A} (Spec : nat -> A -> Prop) body n (P0 : list A) :
  (forall j P, (j < n)%nat ->
     exists M, body j P = Ok (push_back P M) /\ Spec j M) ->
  exists Fs,
    forLoop n body P0 = Ok (P0 ++ Fs) /\ length Fs = n /\
    forall j, (j < n)%nat -> exists M, Fs !! j = Some M /\ Spec j M.
Proof.
  intros Hbody.
  destruct (forLoop_total
    (fun j (P : list A) =>
       exists Fs, P = P0 ++ Fs /\ length Fs = j /\
         forall k, (k < j)%nat -> exists M, Fs !! k = Some M /\ Spec k M)
    body n P0) as (P & Hrun & Fs & -> & Hlen & HP).
  - exists []. split; [now rewrite app_nil_r|]. split; [reflexivity|].
    intros; lia.
  - intros j P Hj (Fs & -> & Hlen & HP).
    destruct (Hbody j (P0 ++ Fs) Hj) as (M & -> & HM).
    eexists. split; [reflexivity|]. exists (Fs ++ [M]).
    split; [unfold push_back; now rewrite app_assoc|].
    split; [rewrite length_app; cbn; lia|].
    intros k Hk. destruct (Nat.eq_dec k j) as [->|Hne].
    + exists M. split; [|assumption].
      rewrite lookup_app_r by lia. now rewrite Hlen, Nat.sub_diag.
    + rewrite lookup_app_l by lia. apply HP. lia.
  - exists Fs. auto.
Qed.

(** A loop over the vertices that appends the frames of the wedges of
    each vertex: frame [j] of vertex [i] comes after the frames of the
    vertices before it. *)
Lemma fan_frames {A} (Spec : nat -> vertex -> nat -> A -> Prop) body
    (vertexList : list vertex) :
  (forall i v P, vertexList !! i = Some v ->
     exists Fs,
       body i P = Ok (P ++ Fs) /\ length Fs = wedges v /\
       forall j, (j < wedges v)%nat ->
                 exists M, Fs !! j = Some M /\ Spec i v j M) ->
  exists P : list A,
    forLoop (length vertexList) body [] = Ok P /\
    length P = wedgeCount vertexList /\
    forall i v j, vertexList !! i = Some v -> (j < wedges v)%nat ->
      exists M, P !! (wedgeCount (take i vertexList) + j)%nat = Some M /\
                Spec i v j M.
Proof.
  intros Hbody.
  destruct (forLoop_total
    (fun n (P : list A) =>
       length P = wedgeCount (take n vertexList) /\
       forall i v j, (i < n)%nat -> vertexList !! i = Some v ->
         (j < wedges v)%nat ->
         exists M, P !! (wedgeCount (take i vertexList) + j)%nat = Some M /\
                   Spec i v j M)
    body (length vertexList) []) as (P & Hrun & Hlen & HP).
  - split; [reflexivity | intros; lia].
  - intros n P Hn [Hlen HP].
    destruct (lookup_lt_is_Some_2 vertexList n Hn) as [v Hv].
    destruct (Hbody n v P Hv) as (Fs & -> & HlenFs & HFs).
    eexists. split; [reflexivity|]. split.
    + rewrite length_app, (wedgeCount_take_S _ _ _ Hv). lia.
    + intros i w j Hi Hw Hj. destruct (Nat.eq_dec i n) as [->|Hne].
      * rewrite Hv in Hw. injection Hw as <-.
        rewrite lookup_app_r by lia.
        replace (wedgeCount (take n vertexList) + j - length P)%nat
          with j by lia.
        now apply HFs.
      * destruct (HP i w j) as (M & HM & HS); [lia | assumption ..|].
        exists M. split; [|assumption].
        now apply lookup_app_l_Some.
  - exists P. rewrite firstn_all in Hlen. split; [assumption|].
    split; [assumption|]. intros i v j Hv Hj.
    apply HP; [|assumption ..]. eapply lookup_lt_Some. eassumption.
Qed.

(** ** Points of the tetrahedra, of the faces and of the fans *)

Lemma tet_points (pts : list Vector3d) (tetList : list Z) i :
  cornersInRange (size pts) tetList -> (i < length tetList / 4)%nat ->
  exists p0 p1 p2,
    point pts tetList (4 * Z.of_nat i) = Ok p0 /\
    point pts tetList (4 * Z.of_nat i + 1) = Ok p1 /\
    point pts tetList (4 * Z.of_nat i + 2) = Ok p2.
Proof.
  intros Hrange Hi.
  destruct (corner_point pts tetList i 0 Hrange Hi) as [p0 H0]; [lia|].
  destruct (corner_point pts tetList i 1 Hrange Hi) as [p1 H1]; [lia|].
  destruct (corner_point pts tetList i 2 Hrange Hi) as [p2 H2]; [lia|].
  rewrite Z.add_0_r in H0. exists p0, p1, p2. auto.
Qed.

Lemma fan_points (pts : list Vector3d) (v : vertex) j :
  Forall (fun x => 0 <= x < size pts) (connectedTriangles v) ->
  (j < wedges v)%nat ->
  exists p1 p2,
    point pts (connectedTriangles v) (2 * Z.of_nat j) = Ok p1 /\
    point pts (connectedTriangles v) (2 * Z.of_nat j + 1) = Ok p2.
Proof.
  intros Hrange Hj. rewrite Forall_forall in Hrange.
  destruct (wedge_reads v j Hj) as (a & b & Ha & Hb).
  destruct (vat_lt pts a) as [p1 H1]; [eauto using vat_elem|].
  destruct (vat_lt pts b) as [p2 H2]; [eauto using vat_elem|].
  exists p1, p2. unfold point. rewrite Ha, Hb. cbn [bind]. auto.
Qed.


(** ** Frames of the plain builder *)

Open Scope Q_scope.

Lemma numTet_nat (tetList : list Z) :
  Z.to_nat (size tetList / 4) = (length tetList / 4)%nat.
Proof. unfold size. rewrite <- (Nat2Z.inj_div _ 4). apply Nat2Z.id. Qed.

(** X16.  In the per-face and vface modes, on tetrahedra whose corners
    are valid points, [tetMatrix] is defined and frame [i] has the three
    corners [p0], [p1], [p2] of tetrahedron [i] and an apex [c].  With
    [z] the squared length of the normal [n = (p1-p0) x (p2-p0)]: on a
    triangle with a zero normal the apex is [p0], the determinant is 0
    and the frame fails the test of the degeneracy filter; otherwise the
    determinant is [- z / sqrt z], which is negative, and the frame
    passes the test exactly when [z / sqrt z] is above the threshold;
    where the root is exact the determinant is minus the length of [n]
    and the apex is at distance 1 from [p0]. *)
Theorem tetMatrix_face_determinant
    sqrt tetMode pts tetList faceList edgeList vertexList :
  sqrtPositive sqrt ->
  tetMode = TM_FACE \/ tetMode = TM_VFACE ->
  cornersInRange (size pts) tetList ->
  exists P,
    tetMatrix sqrt tetMode pts tetList faceList edgeList vertexList = Ok P /\
    length P = (length tetList / 4)%nat /\
    forall i, (i < length tetList / 4)%nat ->
      exists p0 p1 p2 c,
        point pts tetList (4 * Z.of_nat i) = Ok p0 /\
        point pts tetList (4 * Z.of_nat i + 1) = Ok p1 /\
        point pts tetList (4 * Z.of_nat i + 2) = Ok p2 /\
        P !! i = Some (mat p0 p1 p2 c) /\
        let z := squaredNorm (triNormal p0 p1 p2) in
        let M := mat p0 p1 p2 c in
        (z == 0 ->
         veq c p0 /\ determinant M == 0 /\ nonDegenerate M = false) /\
        (0 < z ->
         determinant M == - (z / sqrt z) /\ determinant M < 0 /\
         (nonDegenerate M = true <-> EPSILON < z / sqrt z) /\
         (sqrt z * sqrt z == z ->
          determinant M == - sqrt z /\ squaredNorm (minus c p0) == 1)).
Proof.
  intros Hsqrt Hmode Hrange. unfold tetMatrix.
  assert (Hsel : ((tetMode =? TM_FACE) || (tetMode =? TM_VFACE))%Z = true)
    by (destruct Hmode as [-> | ->]; reflexivity).
  rewrite Hsel. cbv zeta. rewrite numTet_nat.
  set (n := (length tetList / 4)%nat).
  destruct (fill_frames
    (fun i M =>
       exists p0 p1 p2 c,
         point pts tetList (4 * Z.of_nat i) = Ok p0 /\
         point pts tetList (4 * Z.of_nat i + 1) = Ok p1 /\
         point pts tetList (4 * Z.of_nat i + 2) = Ok p2 /\
         M = mat p0 p1 p2 c /\
         let z := squaredNorm (triNormal p0 p1 p2) in
         (z == 0 ->
          veq c p0 /\ determinant M == 0 /\ nonDegenerate M = false) /\
         (0 < z ->
          determinant M == - (z / sqrt z) /\ determinant M < 0 /\
          (nonDegenerate M = true <-> EPSILON < z / sqrt z) /\
          (sqrt z * sqrt z == z ->
           determinant M == - sqrt z /\ squaredNorm (minus c p0) == 1)))
    (tetMatrix_face sqrt pts tetList) n (resize n Matrix4d_default []))
    as (P & Hrun & Hlen & HP).
  - apply length_resize.
  - intros i P Hi Hlen. unfold tetMatrix_face. cbv zeta.
    destruct (tet_points pts tetList i Hrange Hi)
      as (p0 & p1 & p2 & E0 & E1 & E2).
    rewrite E0, E1, E2. cbn [bind].
    destruct (face_frame sqrt p0 p1 p2 Hsqrt) as (q & Hq & Hframe).
    unfold triNormal in Hq. rewrite Hq. cbn [bind].
    rewrite vset_lt by (unfold size; lia). rewrite Nat2Z.id.
    eexists. split; [reflexivity|].
    exists p0, p1, p2, (plus q p0). auto.
  - exists P. split; [assumption|]. split; [assumption|].
    intros i Hi. destruct (HP i Hi)
      as (M & HM & p0 & p1 & p2 & c & E0 & E1 & E2 & -> & Hframe).
    exists p0, p1, p2, c. auto.
Qed.

Lemma bigTriangle_in_range : cornersInRange (size bigTriangle) triangleTets.
Proof. unfold cornersInRange. cbn. repeat constructor; lia. Qed.

Lemma tetMatrix_face_determinant_witness :
  exists P,
    tetMatrix sqrtQ TM_FACE bigTriangle triangleTets [] [] [] = Ok P /\
    length P = (length triangleTets / 4)%nat /\
    forall i, (i < length triangleTets / 4)%nat ->
      exists p0 p1 p2 c,
        point bigTriangle triangleTets (4 * Z.of_nat i) = Ok p0 /\
        point bigTriangle triangleTets (4 * Z.of_nat i + 1) = Ok p1 /\
        point bigTriangle triangleTets (4 * Z.of_nat i + 2) = Ok p2 /\
        P !! i = Some (mat p0 p1 p2 c) /\
        let z := squaredNorm (triNormal p0 p1 p2) in
        let M := mat p0 p1 p2 c in
        (z == 0 ->
         veq c p0 /\ determinant M == 0 /\ nonDegenerate M = false) /\
        (0 < z ->
         determinant M == - (z / sqrtQ z) /\ determinant M < 0 /\
         (nonDegenerate M = true <-> EPSILON < z / sqrtQ z) /\
         (sqrtQ z * sqrtQ z == z ->
          determinant M == - sqrtQ z /\ squaredNorm (minus c p0) == 1)).
Proof.
  apply (tetMatrix_face_determinant sqrtQ TM_FACE bigTriangle triangleTets
           [] [] []).
  - exact sqrtQ_positive.
  - left. reflexivity.
  - exact bigTriangle_in_range.
Defined.

(** ** Frames of the normalised builder in vface mode *)

Lemma tetMatrixNormalised_vface_frames sqrt pts tetList :
  sqrtPositive sqrt ->
  cornersInRange (size pts) tetList ->
  exists P,
    forLoop (length tetList / 4) (tetMatrixNormalised_vface sqrt pts tetList)
      (resize (length tetList / 4) Matrix4d_default []) = Ok P /\
    length P = (length tetList / 4)%nat /\
    forall i, (i < length tetList / 4)%nat ->
      exists p0 x1 x2 M,
        point pts tetList (4 * Z.of_nat i) = Ok p0 /\
        point pts tetList (4 * Z.of_nat i + 1) = Ok x1 /\
        point pts tetList (4 * Z.of_nat i + 2) = Ok x2 /\
        P !! i = Some M /\
        rescaled sqrt p0 x1 x2 M /\
        let z := squaredNorm (cross (edge1 M) (edge2 M)) in
        (z == 0 -> determinant M == 0) /\
        (0 < z ->
         determinant M < 0 /\
         (sqrt z * sqrt z == z -> determinant M == - sqrt z)).
Proof.
  intros Hsqrt Hrange.
  set (n := (length tetList / 4)%nat).
  destruct (fill_frames
    (fun i M =>
       exists p0 x1 x2,
         point pts tetList (4 * Z.of_nat i) = Ok p0 /\
         point pts tetList (4 * Z.of_nat i + 1) = Ok x1 /\
         point pts tetList (4 * Z.of_nat i + 2) = Ok x2 /\
         rescaled sqrt p0 x1 x2 M /\
         let z := squaredNorm (cross (edge1 M) (edge2 M)) in
         (z == 0 -> determinant M == 0) /\
         (0 < z ->
          determinant M < 0 /\
          (sqrt z * sqrt z == z -> determinant M == - sqrt z)))
    (tetMatrixNormalised_vface sqrt pts tetList) n
    (resize n Matrix4d_default [])) as (P & Hrun & Hlen & HP).
  - apply length_resize.
  - intros i P Hi Hlen. unfold tetMatrixNormalised_vface. cbv zeta.
    destruct (tet_points pts tetList i Hrange Hi)
      as (p0 & x1 & x2 & E0 & E1 & E2).
    rewrite E0, E1. cbn [bind].
    destruct (normalized_total sqrt (minus x1 p0) Hsqrt) as (u1 & -> & R1).
    cbn [bind]. rewrite E2. cbn [bind].
    destruct (normalized_total sqrt (minus x2 p0) Hsqrt) as (u2 & -> & R2).
    cbn [bind].
    destruct (face_frame sqrt p0 (plus p0 u1) (plus p0 u2) Hsqrt)
      as (q & Hq & Hzero & Hpos).
    unfold triNormal in Hq. rewrite Hq. cbn [bind].
    rewrite vset_lt by (unfold size; lia). rewrite Nat2Z.id.
    eexists. split; [reflexivity|].
    exists p0, x1, x2. split; [reflexivity|]. split; [reflexivity|].
    split; [reflexivity|]. split.
    + split; [reflexivity|].
      split; apply rescaledTo_offset; assumption.
    + cbv zeta. split.
      * intros Hz. now apply Hzero.
      * intros Hz. destruct (Hpos Hz) as (_ & Hneg & _ & Hexact).
        split; [assumption|]. intros He. now apply Hexact.
  - exists P. split; [assumption|]. split; [assumption|].
    intros i Hi.
    destruct (HP i Hi) as (M & HM & p0 & x1 & x2 & E0 & E1 & E2 & HR & HD).
    exists p0, x1, x2, M. auto 10.
Qed.

(** X25.  In vface mode, on tetrahedra whose corners are valid points,
    [tetMatrixNormalised] is defined, and the determinant of every frame
    is at most 0; it is negative exactly when the cross product of the
    two rescaled edge vectors is not zero, so it is 0 on coincident or
    collinear points.  Where the three square roots that the frame takes
    are exact, the determinant is at least -1. *)
Theorem tetMatrixNormalised_vface_determinant
    sqrt pts tetList faceList edgeList vertexList :
  sqrtPositive sqrt ->
  cornersInRange (size pts) tetList ->
  exists P,
    tetMatrixNormalised sqrt TM_VFACE pts tetList faceList edgeList
                        vertexList = Ok P /\
    length P = (length tetList / 4)%nat /\
    forall i, (i < length tetList / 4)%nat ->
      exists p0 x1 x2 M,
        point pts tetList (4 * Z.of_nat i) = Ok p0 /\
        point pts tetList (4 * Z.of_nat i + 1) = Ok x1 /\
        point pts tetList (4 * Z.of_nat i + 2) = Ok x2 /\
        P !! i = Some M /\
        let z1 := squaredNorm (minus x1 p0) in
        let z2 := squaredNorm (minus x2 p0) in
        let z := squaredNorm (cross (edge1 M) (edge2 M)) in
        determinant M <= 0 /\
        (determinant M < 0 <-> 0 < z) /\
        ((0 < z1 -> sqrt z1 * sqrt z1 == z1) ->
         (0 < z2 -> sqrt z2 * sqrt z2 == z2) ->
         (0 < z -> sqrt z * sqrt z == z) ->
         -1 <= determinant M).
Proof.
  intros Hsqrt Hrange. unfold tetMatrixNormalised.
  simpl (_ =? _)%Z. cbv iota zeta. simpl (false || false). cbv iota.
  rewrite numTet_nat.
  destruct (tetMatrixNormalised_vface_frames sqrt pts tetList Hsqrt Hrange)
    as (P & Hrun & Hlen & HP).
  exists P. split; [assumption|]. split; [assumption|].
  intros i Hi.
  destruct (HP i Hi)
    as (p0 & x1 & x2 & M & E0 & E1 & E2 & HM & (_ & R1 & R2) & HD).
  exists p0, x1, x2, M. split; [assumption|]. split; [assumption|].
  split; [assumption|]. split; [assumption|].
  cbv zeta in *. destruct HD as [Hzero Hpos].
  pose proof (squaredNorm_nonneg (cross (edge1 M) (edge2 M))) as Hz0.
  destruct (Qlt_le_dec 0 (squaredNorm (cross (edge1 M) (edge2 M))))
    as [Hz | Hz].
  - destruct (Hpos Hz) as [Hneg Hexact].
    split; [lra|]. split; [tauto|].
    intros X1 X2 X. rewrite (Hexact (X Hz)).
    assert (Hle : squaredNorm (cross (edge1 M) (edge2 M)) <= 1).
    { rewrite squaredNorm_cross.
      pose proof (rescaledTo_le_one _ _ _ R1 X1) as L1.
      pose proof (rescaledTo_le_one _ _ _ R2 X2) as L2.
      pose proof (squaredNorm_nonneg (edge1 M)) as N1.
      pose proof (squaredNorm_nonneg (edge2 M)) as N2.
      pose proof (sq_nonneg (dot (edge1 M) (edge2 M))) as N3.
      assert (Hprod : squaredNorm (edge1 M) * squaredNorm (edge2 M) <= 1 * 1).
      { apply Qle_trans with (1 * squaredNorm (edge2 M)).
        - apply Qmult_le_compat_r; assumption.
        - apply Qmult_le_l; lra. }
      lra. }
    rewrite <- (X Hz) in Hle.
    assert (Hs : sqrt (squaredNorm (cross (edge1 M) (edge2 M))) <= 1).
    { apply square_le_one; [|assumption].
      apply Qlt_le_weak. now apply Hsqrt. }
    lra.
  - assert (E : squaredNorm (cross (edge1 M) (edge2 M)) == 0) by lra.
    rewrite (Hzero E). split; [lra|]. split; [|intros; lra].
    split; intros H; lra.
Qed.

Lemma tetMatrixNormalised_vface_determinant_witness :
  exists P,
    tetMatrixNormalised sqrtQ TM_VFACE bigTriangle triangleTets [] [] []
    = Ok P /\
    length P = (length triangleTets / 4)%nat /\
    forall i, (i < length triangleTets / 4)%nat ->
      exists p0 x1 x2 M,
        point bigTriangle triangleTets (4 * Z.of_nat i) = Ok p0 /\
        point bigTriangle triangleTets (4 * Z.of_nat i + 1) = Ok x1 /\
        point bigTriangle triangleTets (4 * Z.of_nat i + 2) = Ok x2 /\
        P !! i = Some M /\
        let z1 := squaredNorm (minus x1 p0) in
        let z2 := squaredNorm (minus x2 p0) in
        let z := squaredNorm (cross (edge1 M) (edge2 M)) in
        determinant M <= 0 /\
        (determinant M < 0 <-> 0 < z) /\
        ((0 < z1 -> sqrtQ z1 * sqrtQ z1 == z1) ->
         (0 < z2 -> sqrtQ z2 * sqrtQ z2 == z2) ->
         (0 < z -> sqrtQ z * sqrtQ z == z) ->
         -1 <= determinant M).
Proof.
  apply (tetMatrixNormalised_vface_determinant sqrtQ bigTriangle triangleTets
           [] [] []).
  - exact sqrtQ_positive.
  - exact bigTriangle_in_range.
Defined.

Close Scope Q_scope.

(** ** Frames of the wedges *)

(** An equation between results that rewriting may have closed. *)
Ltac closed_eq := first [reflexivity | assumption].

(** The apex of the wedges of a vertex is the point of the vertex plus a
    rescaled vector. *)
Lemma vertexApex_total sqrt (pts : list Vector3d) (v : vertex) p0 :
  sqrtPositive sqrt ->
  Forall (fun x => 0 <= x < size pts) (connectedTriangles v) ->
  exists s cn,
    vertexApex sqrt pts v p0 = Ok (plus p0 cn) /\ rescaledTo sqrt s cn.
Proof.
  intros Hsqrt Hrange. unfold vertexApex. fold (wedges v).
  destruct (forLoop_total (fun _ (_ : Vector3d) => True)
    (fun j c =>
       let* p1 := point pts (connectedTriangles v) (2 * Z.of_nat j) in
       let* p2 := point pts (connectedTriangles v) (2 * Z.of_nat j + 1) in
       let* q := normalized sqrt (cross (minus p1 p0) (minus p2 p0)) in
       Ok (plus c q))
    (wedges v) Zero) as (s & Hs & _).
  - exact I.
  - intros j c Hj _.
    destruct (fan_points pts v j Hrange Hj) as (p1 & p2 & -> & ->).
    cbn [bind].
    destruct (normalized_total sqrt (cross (minus p1 p0) (minus p2 p0)) Hsqrt)
      as (q & -> & _).
    cbn [bind]. eauto.
  - rewrite Hs. cbn [bind].
    destruct (normalized_total sqrt s Hsqrt) as (cn & -> & Hcn).
    cbn [bind]. eauto.
Qed.

Lemma fan_vertex (pts : list Vector3d) (vertexList : list vertex) i v :
  fansInRange (size pts) vertexList ->
  vertexList !! i = Some v ->
  vat vertexList (Z.of_nat i) = Ok v /\
  (exists p0, vat pts (index v) = Ok p0) /\
  Forall (fun x => 0 <= x < size pts) (connectedTriangles v).
Proof.
  intros Hrange Hv. unfold fansInRange in Hrange.
  rewrite Forall_forall in Hrange.
  destruct (Hrange v (list_elem_of_lookup_2 _ _ _ Hv)) as [Hi Hct].
  split; [now apply vat_nat|]. split; [now apply vat_lt | assumption].
Qed.


Lemma squareFan_in_range : fansInRange (size squarePts) [fanVertex].
Proof.
  unfold fansInRange. repeat constructor; cbn; lia.
Qed.


(** The frames of the normalised builder in per-vertex mode. *)
Lemma tetMatrixNormalised_vertex_frames sqrt pts vertexList :
  sqrtPositive sqrt ->
  fansInRange (size pts) vertexList ->
  exists P,
    forLoop (length vertexList)
      (tetMatrixNormalised_vertex sqrt pts vertexList) [] = Ok P /\
    length P = wedgeCount vertexList /\
    forall i v j, vertexList !! i = Some v -> (j < wedges v)%nat ->
      exists p0 x1 x2 M,
        vat pts (index v) = Ok p0 /\
        point pts (connectedTriangles v) (2 * Z.of_nat j) = Ok x1 /\
        point pts (connectedTriangles v) (2 * Z.of_nat j + 1) = Ok x2 /\
        P !! (wedgeCount (take i vertexList) + j)%nat = Some M /\
        rescaled sqrt p0 x1 x2 M.
Proof.
  intros Hsqrt Hrange.
  destruct (fan_frames
    (fun (i : nat) (v : vertex) (j : nat) (M : Matrix4d) =>
       exists p0 x1 x2,
         vat pts (index v) = Ok p0 /\
         point pts (connectedTriangles v) (2 * Z.of_nat j) = Ok x1 /\
         point pts (connectedTriangles v) (2 * Z.of_nat j + 1) = Ok x2 /\
         rescaled sqrt p0 x1 x2 M)
    (tetMatrixNormalised_vertex sqrt pts vertexList) vertexList)
    as (P & Hrun & Hlen & HP).
  - intros i v P Hv. unfold tetMatrixNormalised_vertex.
    destruct (fan_vertex pts vertexList i v Hrange Hv)
      as (Ev & [p0 E0] & Hct).
    rewrite Ev. cbn [bind]. rewrite E0. cbn [bind].
    destruct (vertexApex_total sqrt pts v p0 Hsqrt Hct)
      as (s & cn & Ec & Hcn).
    rewrite Ec. cbn [bind]. fold (wedges v).
    apply push_frames. intros j R Hj.
    destruct (fan_points pts v j Hct Hj) as (x1 & x2 & E1 & E2).
    rewrite E1. cbn [bind].
    destruct (normalized_total sqrt (minus x1 p0) Hsqrt) as (u1 & -> & R1).
    cbn [bind]. rewrite E2. cbn [bind].
    destruct (normalized_total sqrt (minus x2 p0) Hsqrt) as (u2 & -> & R2).
    cbn [bind].
    eexists. split; [reflexivity|].
    exists p0, x1, x2. split; [closed_eq|]. split; [closed_eq|].
    split; [closed_eq|]. split; [reflexivity|].
    split; apply rescaledTo_offset; assumption.
  - exists P. split; [assumption|]. split; [assumption|].
    intros i v j Hv Hj.
    destruct (HP i v j Hv Hj) as (M & HM & p0 & x1 & x2 & E0 & E1 & E2 & HR).
    exists p0, x1, x2, M. auto.
Qed.

(** ** Frames of the edges *)






(** ** The normalised builder against the plain builder *)

(** C4, on the code.  In per-face mode the normalised builder returns the
    frame of the plain builder: on a triangle with two sides of length 2
    the edge vectors of the frame keep the squared length 4. *)
Lemma tetMatrixNormalised_face_not_rescaled :
  exists M,
    tetMatrixNormalised sqrtQ TM_FACE bigTriangle triangleTets [] [] []
    = Ok [M] /\
    tetMatrix sqrtQ TM_FACE bigTriangle triangleTets [] [] [] = Ok [M] /\
    edge1 M = V3 2 0 0 /\ edge2 M = V3 0 2 0 /\
    (squaredNorm (edge1 M) == 4)%Q /\ ~ (squaredNorm (edge1 M) == 1)%Q /\
    (squaredNorm (edge2 M) == 4)%Q /\ ~ (squaredNorm (edge2 M) == 1)%Q.
Proof.
  eexists. split; [vm_compute; reflexivity|].
  split; [vm_compute; reflexivity|].
  split; [reflexivity|]. split; [reflexivity|].
  repeat split; intros H; vm_compute in H; discriminate.
Qed.

(** C4, amended.  In the per-face and per-edge modes the normalised
    frame builder returns exactly what the plain builder [tetMatrix]
    returns.  In the vface and per-vertex modes, on input whose point
    indices are valid, it is defined, and the frame of every tetrahedron
    starts at the first point [p0] of the tetrahedron and has the edge
    vectors [x1-p0] and [x2-p0] to its second and third point rescaled:
    divided by the square root of their squared length, which gives them
    the length 1 where the root is exact; a zero edge vector is left as
    it is. *)
Theorem tetMatrixNormalised_modes
    sqrt tetMode pts tetList faceList edgeList vertexList :
  sqrtPositive sqrt ->
  (tetMode = TM_FACE \/ tetMode = TM_EDGE ->
   tetMatrixNormalised sqrt tetMode pts tetList faceList edgeList vertexList
   = tetMatrix sqrt tetMode pts tetList faceList edgeList vertexList) /\
  (tetMode = TM_VFACE ->
   cornersInRange (size pts) tetList ->
   exists P,
     tetMatrixNormalised sqrt tetMode pts tetList faceList edgeList
                         vertexList = Ok P /\
     length P = (length tetList / 4)%nat /\
     forall i, (i < length tetList / 4)%nat ->
       exists p0 x1 x2 M,
         point pts tetList (4 * Z.of_nat i) = Ok p0 /\
         point pts tetList (4 * Z.of_nat i + 1) = Ok x1 /\
         point pts tetList (4 * Z.of_nat i + 2) = Ok x2 /\
         P !! i = Some M /\
         rescaled sqrt p0 x1 x2 M) /\
  (tetMode = TM_VERTEX ->
   fansInRange (size pts) vertexList ->
   exists P,
     tetMatrixNormalised sqrt tetMode pts tetList faceList edgeList
                         vertexList = Ok P /\
     length P = wedgeCount vertexList /\
     forall i v j, vertexList !! i = Some v -> (j < wedges v)%nat ->
       exists p0 x1 x2 M,
         vat pts (index v) = Ok p0 /\
         point pts (connectedTriangles v) (2 * Z.of_nat j) = Ok x1 /\
         point pts (connectedTriangles v) (2 * Z.of_nat j + 1) = Ok x2 /\
         P !! (wedgeCount (take i vertexList) + j)%nat = Some M /\
         rescaled sqrt p0 x1 x2 M).
Proof.
  intros Hsqrt. split; [|split].
  - intros [-> | ->]; reflexivity.
  - intros -> Hrange. unfold tetMatrixNormalised.
    simpl (_ =? _). cbv iota zeta. simpl (false || false). cbv iota.
    rewrite numTet_nat.
    destruct (tetMatrixNormalised_vface_frames sqrt pts tetList Hsqrt Hrange)
      as (P & Hrun & Hlen & HP).
    exists P. split; [assumption|]. split; [assumption|].
    intros i Hi.
    destruct (HP i Hi) as (p0 & x1 & x2 & M & E0 & E1 & E2 & HM & HR & _).
    exists p0, x1, x2, M. auto.
  - intros -> Hrange. unfold tetMatrixNormalised.
    simpl (_ =? _). cbv iota zeta. simpl (false || false). cbv iota.
    apply tetMatrixNormalised_vertex_frames; assumption.
Qed.

Lemma tetMatrixNormalised_modes_witness :
  (exists P,
     tetMatrix sqrtQ TM_EDGE squarePts squareEdgeTets unitSquare
               [squareEdge] [] = Ok P /\
     tetMatrixNormalised sqrtQ TM_EDGE squarePts squareEdgeTets unitSquare
                         [squareEdge] [] = Ok P) /\
  (exists P,
     tetMatrixNormalised sqrtQ TM_VFACE bigTriangle triangleTets [] [] []
     = Ok P /\
     length P = (length triangleTets / 4)%nat /\
     forall i, (i < length triangleTets / 4)%nat ->
       exists p0 x1 x2 M,
         point bigTriangle triangleTets (4 * Z.of_nat i) = Ok p0 /\
         point bigTriangle triangleTets (4 * Z.of_nat i + 1) = Ok x1 /\
         point bigTriangle triangleTets (4 * Z.of_nat i + 2) = Ok x2 /\
         P !! i = Some M /\
         rescaled sqrtQ p0 x1 x2 M) /\
  (exists P,
     tetMatrixNormalised sqrtQ TM_VERTEX squarePts fanTetList [] []
                         [fanVertex] = Ok P /\
     length P = wedgeCount [fanVertex] /\
     forall i v j, ([fanVertex] : list vertex) !! i = Some v ->
       (j < wedges v)%nat ->
       exists p0 x1 x2 M,
         vat squarePts (index v) = Ok p0 /\
         point squarePts (connectedTriangles v) (2 * Z.of_nat j) = Ok x1 /\
         point squarePts (connectedTriangles v) (2 * Z.of_nat j + 1)
         = Ok x2 /\
         P !! (wedgeCount (take i [fanVertex]) + j)%nat = Some M /\
         rescaled sqrtQ p0 x1 x2 M).
Proof.
  split; [|split].
  - eexists. split; [vm_compute; reflexivity|].
    rewrite (proj1 (tetMatrixNormalised_modes sqrtQ TM_EDGE squarePts
                      squareEdgeTets unitSquare [squareEdge] []
                      sqrtQ_positive) (or_intror eq_refl)).
    vm_compute. reflexivity.
  - apply (proj1 (proj2 (tetMatrixNormalised_modes sqrtQ TM_VFACE bigTriangle
                           triangleTets [] [] [] sqrtQ_positive))).
    + reflexivity.
    + exact bigTriangle_in_range.
  - apply (proj2 (proj2 (tetMatrixNormalised_modes sqrtQ TM_VERTEX squarePts
                           fanTetList [] [] [fanVertex] sqrtQ_positive))).
    + reflexivity.
    + exact squareFan_in_range.
Defined.

(** On the triangle with two sides of length 2, whose roots [sqrtQ]
    takes exactly, the vface mode returns a frame with unit edge
    vectors. *)
Lemma tetMatrixNormalised_vface_unit_example :
  exists M,
    tetMatrixNormalised sqrtQ TM_VFACE bigTriangle triangleTets [] [] []
    = Ok [M] /\
    veq (edge1 M) (V3 1 0 0) /\ veq (edge2 M) (V3 0 1 0) /\
    (squaredNorm (edge1 M) == 1)%Q /\ (squaredNorm (edge2 M) == 1)%Q.
Proof.
  eexists. split; [vm_compute; reflexivity|].
  repeat split; vm_compute; reflexivity.
Qed.


(** ** Interior edges *)

Lemma couple_of_iff a b c d :
  couple_of a b = couple_of c d <-> (a = c /\ b = d) \/ (a = d /\ b = c).
Proof.
  split; [apply couple_of_eq|]. unfold couple_of.
  destruct (Z.gtb_spec a b), (Z.gtb_spec c d);
    intros [[-> ->] | [-> ->]];
    try first [reflexivity | exfalso; lia | f_equal; lia].
Qed.

(** On a triangle with three different corners, the sides of the
    triangle that join two different points [a] and [b]: one if both are
    corners, none otherwise. *)
Lemma seen_face faceList a b i :
  properTriangles faceList -> a <> b -> (i < length faceList / 3)%nat ->
  seen (couple_of a b)
       (sideOn faceList i 0 ++ sideOn faceList i 1 ++ sideOn faceList i 2)
  = if decide (a ∈ faceAt faceList i /\ b ∈ faceAt faceList i)
    then [Z.of_nat i] else [].
Proof.
  intros Hproper Hab Hi.
  pose proof (Nat.Div0.mul_div_le (length faceList) 3) as Hdiv.
  destruct (lookup_lt_is_Some_2 faceList (3 * i)) as [x Hx]; [lia|].
  destruct (lookup_lt_is_Some_2 faceList (3 * i + 1)) as [y Hy]; [lia|].
  destruct (lookup_lt_is_Some_2 faceList (3 * i + 2)) as [z Hz]; [lia|].
  destruct (Hproper i x y z Hx Hy Hz) as (Hxy & Hyz & Hzx).
  rewrite (faceAt_three faceList i x y z Hx Hy Hz).
  rewrite !seen_app, !seen_sideOn. unfold sideOf.
  change ((0 + 1) mod 3)%nat with 1%nat.
  change ((1 + 1) mod 3)%nat with 2%nat.
  change ((2 + 1) mod 3)%nat with 0%nat.
  rewrite !Nat.add_0_r, Hx, Hy, Hz.
  assert (Hin : forall c, c ∈ [x; y; z] <-> c = x \/ c = y \/ c = z).
  { intros c. rewrite !elem_of_cons, elem_of_nil. tauto. }
  repeat case_decide;
    repeat match goal with
           | H : Some _ = Some _ |- _ => injection H as H
           | H : Some ?u <> Some ?v |- _ =>
               assert (u <> v) by (intros E; apply H; now f_equal); clear H
           end;
    repeat match goal with
           | H : couple_of _ _ = couple_of _ _ |- _ =>
               apply couple_of_iff in H
           | H : couple_of ?p ?q <> couple_of ?r ?s |- _ =>
               assert (~ ((p = r /\ q = s) \/ (p = s /\ q = r)))
                 by (intros E; apply H; now apply couple_of_iff);
               clear H
           | H : _ ∈ _ /\ _ ∈ _ |- _ => rewrite !Hin in H
           | H : ~ (_ ∈ _ /\ _ ∈ _) |- _ => rewrite !Hin in H
           end;
    cbn [app]; try reflexivity; exfalso; clear Hin;
    repeat match goal with
           | H : _ /\ _ |- _ => destruct H
           | H : _ \/ _ |- _ => destruct H
           end; subst; intuition congruence.
Qed.

(** On triangles with three different corners the sightings of a pair
    of two different points are the triangles in which the pair
    occurs. *)
Lemma sightings_trianglesWith faceList a b :
  properTriangles faceList -> a <> b ->
  sightings faceList (couple_of a b) = trianglesWith faceList a b.
Proof.
  intros Hproper Hab.
  assert (E : sightings faceList (couple_of a b)
              = seen (couple_of a b)
                     (sidesBefore faceList (length faceList / 3) 0)).
  { unfold seen, sightings, allSides, sidesBefore.
    simpl (flat_map _ (seq 0 0)). now rewrite app_nil_r. }
  rewrite E. clear E. unfold trianglesWith.
  assert (H : forall n, (n <= length faceList / 3)%nat ->
            seen (couple_of a b) (sidesBefore faceList n 0)
            = Z.of_nat <$> filter (fun f => a ∈ faceAt faceList f /\
                                            b ∈ faceAt faceList f)
                                  (seq 0 n)).
  { induction n as [|n IH]; intros Hn.
    - reflexivity.
    - rewrite sidesBefore_face, seen_app, IH by lia.
      rewrite (seen_face faceList a b n Hproper Hab) by lia.
      rewrite (seq_S n 0), filter_app, fmap_app. f_equal.
      rewrite filter_cons, filter_nil. cbn [Nat.add].
      case_decide; reflexivity. }
  apply H. lia.
Qed.

(** No side of a triangle with three different corners joins a point to
    itself. *)
Lemma sightings_same faceList a :
  properTriangles faceList -> sightings faceList (couple_of a a) = [].
Proof.
  intros Hproper.
  destruct (sightings faceList (couple_of a a)) as [|f fs] eqn:E;
    [reflexivity|]. exfalso.
  assert (Hin : f ∈ sightings faceList (couple_of a a)) by (rewrite E; left).
  unfold sightings in Hin. apply list_elem_of_fmap in Hin.
  destruct Hin as ([pa f'] & _ & Hin).
  apply list_elem_of_filter in Hin as [Hpa Hin]. cbn [fst] in Hpa. subst pa.
  unfold allSides in Hin. apply list_elem_of_In, in_flat_map in Hin.
  destruct Hin as (i & Hi & Hin). apply in_seq in Hi.
  apply in_flat_map in Hin.
  destruct Hin as (j & Hj & Hin). apply in_seq in Hj.
  unfold sideOf in Hin.
  destruct (faceList !! (3 * i + j)%nat) as [s|] eqn:Es; [|destruct Hin].
  destruct (faceList !! (3 * i + (j + 1) mod 3)%nat) as [t|] eqn:Et;
    [|destruct Hin].
  destruct Hin as [Hin | []]. injection Hin as Hin _.
  apply couple_of_iff in Hin.
  assert (Hst : s = t) by (destruct Hin as [[-> ->] | [-> ->]]; reflexivity).
  subst t.
  pose proof (Nat.Div0.mul_div_le (length faceList) 3) as Hdiv.
  destruct (lookup_lt_is_Some_2 faceList (3 * i)) as [x Hx]; [lia|].
  destruct (lookup_lt_is_Some_2 faceList (3 * i + 1)) as [y Hy]; [lia|].
  destruct (lookup_lt_is_Some_2 faceList (3 * i + 2)) as [z Hz]; [lia|].
  destruct (Hproper i x y z Hx Hy Hz) as (Hxy & Hyz & Hzx).
  destruct j as [|[|[|j]]]; [| | |lia];
    cbn [Nat.add Nat.modulo Nat.divmod fst snd Nat.sub] in Et;
    rewrite ?Nat.add_0_r in *; congruence.
Qed.

(** C6, on the code.  The triangle list [5; 5; 7] has one triangle, so
    no pair occurs in more than two triangles and the pair of 5 and 7
    occurs in one triangle only; [makeEdgeList] sights the pair twice, as
    the second and the third side, and emits an edge for it, with the
    face 0 on both sides. *)
Lemma makeEdgeList_repeated_corner :
  (forall a b, (length (trianglesWith repeatedCorner a b) <= 2)%nat) /\
  trianglesWith repeatedCorner 5 7 = [0] /\
  makeEdgeList repeatedCorner = Ok ([newEdge 5 7 0 0], 1) /\
  joins 5 7 (newEdge 5 7 0 0).
Proof.
  split; [|split; [reflexivity|split; [reflexivity|now left]]].
  intros a b. unfold trianglesWith. rewrite length_fmap.
  etransitivity; [apply length_filter|]. cbn. lia.
Qed.

(** C6, amended.  On a triangle list whose triangles have three
    different corners and in which no pair of two different points occurs
    in more than two triangles, [makeEdgeList] is defined and emits
    exactly one edge for each pair that occurs in exactly two triangles,
    which records the two triangles in their order; it emits no edge for
    a pair that occurs in one triangle only (a boundary side) or in none;
    every emitted edge stores its smaller point index first, and joins a
    pair that occurs in exactly two triangles. *)
Theorem makeEdgeList_interior_edges faceList :
  properTriangles faceList ->
  (forall a b, a <> b -> (length (trianglesWith faceList a b) <= 2)%nat) ->
  exists edgeList,
    makeEdgeList faceList = Ok (edgeList, size edgeList) /\
    (forall a b f g,
        a <> b -> trianglesWith faceList a b = [f; g] ->
        filter (joins a b) edgeList
        = [newEdge (Z.min a b) (Z.max a b) f g]) /\
    (forall a b,
        a <> b -> (length (trianglesWith faceList a b) <= 1)%nat ->
        forall e, e ∈ edgeList -> ~ joins a b e) /\
    (forall e, e ∈ edgeList -> fst (vertices e) < snd (vertices e)) /\
    (forall e, e ∈ edgeList ->
       exists f g,
         trianglesWith faceList (fst (vertices e)) (snd (vertices e))
         = [f; g] /\
         e = newEdge (fst (vertices e)) (snd (vertices e)) f g).
Proof.
  intros Hproper Htwo.
  assert (Hsight : forall a b,
             (length (sightings faceList (couple_of a b)) <= 2)%nat).
  { intros a b. destruct (Z.eq_dec a b) as [->|Hab].
    - rewrite sightings_same by assumption. cbn. lia.
    - rewrite sightings_trianglesWith by assumption. now apply Htwo. }
  destruct (makeEdgeList_sighted_edges faceList Hsight)
    as (edgeList & Hrun & Hshared & Hboundary & Hord & Hemitted).
  assert (Hstrict : forall e, e ∈ edgeList ->
             fst (vertices e) < snd (vertices e)).
  { intros e He. specialize (Hord e He).
    destruct (Hemitted e He) as (f & g & Hfg & _).
    destruct (Z.eq_dec (fst (vertices e)) (snd (vertices e))) as [E|]; [|lia].
    exfalso.
    assert (Hc : vertices e = couple_of (fst (vertices e)) (fst (vertices e))).
    { unfold couple_of. rewrite Z.gtb_ltb, Z.ltb_irrefl.
      rewrite E at 2. apply surjective_pairing. }
    rewrite Hc, sightings_same in Hfg by assumption. discriminate. }
  exists edgeList. split; [assumption|]. split; [|split; [|split]].
  - intros a b f g Hab Hfg. apply Hshared.
    now rewrite sightings_trianglesWith.
  - intros a b Hab Hone. apply Hboundary.
    now rewrite sightings_trianglesWith.
  - assumption.
  - intros e He. destruct (Hemitted e He) as (f & g & Hfg & Heq).
    exists f, g. split; [|assumption].
    pose proof (Hstrict e He) as Hlt.
    rewrite <- sightings_trianglesWith by (assumption || lia).
    replace (couple_of (fst (vertices e)) (snd (vertices e)))
      with (vertices e); [assumption|].
    unfold couple_of.
    destruct (Z.gtb_spec (fst (vertices e)) (snd (vertices e))); [lia|].
    apply surjective_pairing.
Qed.

(** The unit square split along the diagonal 0-2: a pair occurs in at
    most two triangles, and the pair of 0 and 2 in both. *)
Lemma unitSquare_pairs a b :
  a <> b -> (length (trianglesWith unitSquare a b) <= 2)%nat.
Proof.
  intros _. unfold trianglesWith. rewrite length_fmap.
  etransitivity; [apply length_filter|]. cbn. lia.
Qed.

Lemma makeEdgeList_interior_edges_witness :
  exists edgeList,
    makeEdgeList unitSquare = Ok (edgeList, size edgeList) /\
    (forall a b f g,
        a <> b -> trianglesWith unitSquare a b = [f; g] ->
        filter (joins a b) edgeList
        = [newEdge (Z.min a b) (Z.max a b) f g]) /\
    (forall a b,
        a <> b -> (length (trianglesWith unitSquare a b) <= 1)%nat ->
        forall e, e ∈ edgeList -> ~ joins a b e) /\
    (forall e, e ∈ edgeList -> fst (vertices e) < snd (vertices e)) /\
    (forall e, e ∈ edgeList ->
       exists f g,
         trianglesWith unitSquare (fst (vertices e)) (snd (vertices e))
         = [f; g] /\
         e = newEdge (fst (vertices e)) (snd (vertices e)) f g).
Proof.
  apply (makeEdgeList_interior_edges unitSquare).
  - exact unitSquare_proper.
  - exact unitSquare_pairs.
Defined.

(** ** Multiplicity of the adjacency in per-edge mode *)

Lemma adjPush_lookup (adj : list (list Z)) a b :
  0 <= a < size adj ->
  exists adj' l,
    adjPush adj a b = Ok adj' /\ length adj' = length adj /\
    adj !! Z.to_nat a = Some l /\
    forall k, adj' !! k = if decide (k = Z.to_nat a) then Some (l ++ [b])
                          else adj !! k.
Proof.
  intros Ha. unfold adjPush.
  destruct (vat_lt adj a Ha) as [l Hl]. rewrite Hl. cbn [bind].
  rewrite vset_lt by assumption. apply vat_Ok in Hl as [_ Hl].
  eexists. exists l. split; [reflexivity|]. split; [apply length_insert|].
  split; [assumption|]. intros k. unfold push_back.
  destruct (decide (k = Z.to_nat a)) as [->|Hne].
  - apply list_lookup_insert_eq. unfold size in Ha. lia.
  - now apply list_lookup_insert_ne.
Qed.

(** Linking a tetrahedron to every entry of a share list, counted. *)
Lemma link_all_links (adj : list (list Z)) (share : list Z) a :
  0 <= a < size adj ->
  Forall (fun x => 0 <= x < size adj) share ->
  exists adj',
    forLoop (length share)
      (fun j adjacencyList =>
         let* x := vat share (Z.of_nat j) in adjLink adjacencyList a x)
      adj = Ok adj' /\
    length adj' = length adj /\
    forall (x : nat) (y : Z),
      links adj' x y
      = (links adj x y
         + (if decide (x = Z.to_nat a) then hits y share else 0)
         + (if decide (y = a) then hits (Z.of_nat x) share else 0))%nat.
Proof.
  intros Ha Hshare.
  destruct (forLoop_total
    (fun j (adj' : list (list Z)) =>
       length adj' = length adj /\
       forall (x : nat) (y : Z),
         links adj' x y
         = (links adj x y
            + (if decide (x = Z.to_nat a) then hits y (take j share) else 0)
            + (if decide (y = a) then hits (Z.of_nat x) (take j share)
               else 0))%nat)
    (fun j adjacencyList =>
       let* x := vat share (Z.of_nat j) in adjLink adjacencyList a x)
    (length share) adj) as (adj' & Hrun & Hlen & Hl).
  - split; [reflexivity|]. intros x y. rewrite take_0. unfold hits. cbn.
    repeat case_decide; lia.
  - intros j adj0 Hj [Hlen0 Hl0].
    destruct (lookup_lt_is_Some_2 share j Hj) as [s Hs].
    rewrite (proj2 (vat_nat share j s) Hs). cbn [bind].
    rewrite Forall_forall in Hshare.
    specialize (Hshare s (list_elem_of_lookup_2 _ _ _ Hs)).
    destruct (adjLink_spec adj0 a s) as (adj1 & -> & Hlen1 & Hl1);
      [unfold size in *; lia ..|].
    eexists. split; [reflexivity|]. split; [lia|].
    intros x y. rewrite Hl1, Hl0, (take_S_r _ _ _ Hs), !hits_snoc.
    repeat case_decide; lia.
  - exists adj'. rewrite firstn_all in Hl. auto.
Qed.

Lemma shareOf_S edgeList m e f :
  edgeList !! m = Some e ->
  shareOf edgeList (S m) f
  = shareOf edgeList m f
    ++ (if decide (fst (faces e) = f) then [2 * Z.of_nat m] else [])
    ++ (if decide (snd (faces e) = f) then [2 * Z.of_nat m + 1] else []).
Proof.
  intros He. unfold shareOf. rewrite (seq_S m 0), flat_map_app.
  cbn [flat_map Nat.add]. now rewrite He, app_nil_r.
Qed.

Lemma shareOf_range edgeList m f x :
  x ∈ shareOf edgeList m f -> 0 <= x < 2 * Z.of_nat m.
Proof.
  unfold shareOf. intros Hx. apply list_elem_of_In, in_flat_map in Hx.
  destruct Hx as (i & Hi & Hx). apply in_seq in Hi.
  destruct (edgeList !! i) as [e|]; [|destruct Hx].
  apply in_app_or in Hx.
  destruct Hx as [Hx | Hx]; case_decide; cbn in Hx; intuition lia.
Qed.

(** The tetrahedron [2i'+j'] is in the row of face [f] once if its edge
    has been visited and its face is [f]. *)
Lemma hits_shareOf edgeList m f i' j' :
  (j' < 2)%nat ->
  hits (Z.of_nat (2 * i' + j')) (shareOf edgeList m f)
  = match edgeList !! i' with
    | Some e' =>
        if decide ((i' < m)%nat /\ sel (faces e') j' = f) then 1%nat
        else 0%nat
    | None => 0%nat
    end.
Proof.
  intros Hj'. induction m as [|m IH].
  - unfold shareOf, hits. cbn.
    destruct (edgeList !! i'); [|reflexivity]. case_decide; [lia|reflexivity].
  - destruct (edgeList !! m) as [e|] eqn:He.
    + rewrite (shareOf_S _ _ _ _ He). unfold hits in *.
      rewrite !filter_app, !length_app, IH.
      destruct (edgeList !! i') as [e'|] eqn:He'.
      * destruct (Nat.eq_dec i' m) as [->|Hne].
        -- rewrite He in He'. injection He' as <-.
           destruct j' as [|[|j']]; [| |lia]; cbn [sel];
             repeat case_decide; rewrite ?filter_cons, ?filter_nil;
             repeat case_decide; cbn [length]; lia.
        -- repeat case_decide; rewrite ?filter_cons, ?filter_nil;
             repeat case_decide; cbn [length]; lia.
      * repeat case_decide; rewrite ?filter_cons, ?filter_nil;
          repeat case_decide; cbn [length]; try lia.
        all: exfalso;
          assert (i' = m) by lia; subst; congruence.
    + assert (E : shareOf edgeList (S m) f = shareOf edgeList m f).
      { unfold shareOf. rewrite (seq_S m 0), flat_map_app.
        cbn [flat_map Nat.add]. now rewrite He, !app_nil_r. }
      rewrite E, IH. destruct (edgeList !! i') as [e'|] eqn:He';
        [|reflexivity].
      repeat case_decide; try lia.
      assert (i' = m) by lia. subst. congruence.
Qed.

(** Case analysis on the tests of a count, dropping the cases that
    arithmetic excludes. *)
Ltac decide_cases :=
  repeat match goal with
         | |- context [decide ?P] =>
             destruct (decide P); try (exfalso; lia); try (exfalso; congruence)
         end.

Lemma makeAdjacencyList_edge_links tetList edgeList vertexList :
  adjacencyInput TM_EDGE tetList edgeList vertexList = true ->
  exists adj,
    makeAdjacencyList TM_EDGE tetList edgeList vertexList = Ok adj /\
    forall i j i' j', (j < 2)%nat -> (j' < 2)%nat ->
      links adj (2 * i + j) (Z.of_nat (2 * i' + j'))
      = edgeRelations edgeList i j i' j'.
Proof.
  unfold adjacencyInput, makeAdjacencyList.
  simpl (TM_EDGE =? _). cbv iota zeta.
  set (numTet := (length tetList / 4)%nat).
  set (n := length edgeList).
  intros Hin. apply andb_prop in Hin as [Hn Hin].
  apply Nat.leb_le in Hn. rewrite forallb_forall in Hin.
  destruct (forLoop_total
    (fun m (st : list (list Z) * list (list Z)) =>
       length (snd st) = numTet /\ length (fst st) = (2 * n)%nat /\
       (forall f, (f < 2 * n)%nat ->
          fst st !! f = Some (shareOf edgeList m (Z.of_nat f))) /\
       forall i j i' j', (j < 2)%nat -> (j' < 2)%nat ->
         links (snd st) (2 * i + j) (Z.of_nat (2 * i' + j'))
         = edgeRelations (take m edgeList) i j i' j')
    (makeAdjacencyList_edge edgeList) n
    (resize (2 * n) [] [], resize numTet [] []))
    as ([fs adj] & Hrun & _ & _ & _ & Hl).
  - cbn [fst snd]. rewrite !length_resize.
    split; [reflexivity|]. split; [reflexivity|]. split.
    + intros f Hf. rewrite resize_nil. now apply lookup_replicate_2.
    + intros i j i' j' _ _. rewrite links_empty. unfold edgeRelations.
      rewrite take_0. reflexivity.
  - intros m [fs adj] Hm (Hlen & Hlenfs & Hfs & Hl). cbn [fst snd] in *.
    unfold makeAdjacencyList_edge.
    destruct (lookup_lt_is_Some_2 edgeList m Hm) as [e He].
    rewrite (proj2 (vat_nat edgeList m e) He). cbn [bind].
    specialize (Hin e). rewrite <- list_elem_of_In in Hin.
    specialize (Hin (list_elem_of_lookup_2 _ _ _ He)).
    apply andb_prop in Hin as [H0 H1]. apply inRange_spec in H0, H1.
    fold n in H0, H1.
    destruct (adjLink_spec adj (2 * Z.of_nat m) (2 * Z.of_nat m + 1))
      as (adj1 & -> & Hlen1 & Hl1); [unfold size; lia ..|]. cbn [bind].
    assert (Hs0 : vat fs (fst (faces e))
                  = Ok (shareOf edgeList m (fst (faces e)))).
    { apply vat_Ok. split; [lia|]. rewrite Hfs by lia.
      now rewrite Z2Nat.id by lia. }
    assert (Hs1 : vat fs (snd (faces e))
                  = Ok (shareOf edgeList m (snd (faces e)))).
    { apply vat_Ok. split; [lia|]. rewrite Hfs by lia.
      now rewrite Z2Nat.id by lia. }
    assert (Hshare : forall f,
              Forall (fun x => 0 <= x < Z.of_nat numTet)
                     (shareOf edgeList m f)).
    { intros f. apply Forall_forall. intros x Hx.
      apply shareOf_range in Hx. lia. }
    rewrite Hs0. cbn [bind].
    destruct (link_all_links adj1 (shareOf edgeList m (fst (faces e)))
                (2 * Z.of_nat m))
      as (adj2 & -> & Hlen2 & Hl2);
      [unfold size; lia | unfold size; rewrite Hlen1, Hlen; apply Hshare |].
    cbn [bind]. rewrite Hs1. cbn [bind].
    destruct (link_all_links adj2 (shareOf edgeList m (snd (faces e)))
                (2 * Z.of_nat m + 1))
      as (adj3 & -> & Hlen3 & Hl3);
      [unfold size; lia
      | unfold size; rewrite Hlen2, Hlen1, Hlen; apply Hshare |].
    cbn [bind].
    destruct (adjPush_lookup fs (fst (faces e)) (2 * Z.of_nat m))
      as (fs1 & l0 & -> & Hlenfs1 & Hl0 & Hfs1); [unfold size; lia|].
    cbn [bind].
    destruct (adjPush_lookup fs1 (snd (faces e)) (2 * Z.of_nat m + 1))
      as (fs2 & l1 & -> & Hlenfs2 & Hl1' & Hfs2); [unfold size; lia|].
    cbn [bind].
    eexists. split; [reflexivity|]. cbn [fst snd].
    split; [lia|]. split; [lia|]. split.
    + intros f Hf. rewrite Hfs2, (shareOf_S _ _ _ _ He).
      rewrite Hfs1 in Hl1'. rewrite Hfs in Hl0 by lia.
      injection Hl0 as <-.
      destruct (decide (f = Z.to_nat (snd (faces e)))) as [->|Hne1].
      * destruct (decide (Z.to_nat (snd (faces e))
                          = Z.to_nat (fst (faces e)))) as [E|Hne0].
        -- injection Hl1' as <-. rewrite <- E, !Z2Nat.id by lia.
           assert (E' : fst (faces e) = snd (faces e)) by lia.
           rewrite E'.
           destruct (decide (snd (faces e) = snd (faces e))); [|congruence].
           now rewrite <- app_assoc.
        -- rewrite Hfs in Hl1' by lia. injection Hl1' as <-.
           rewrite !Z2Nat.id by lia.
           destruct (decide (fst (faces e) = snd (faces e))); [lia|].
           destruct (decide (snd (faces e) = snd (faces e))); [|congruence].
           reflexivity.
      * rewrite Hfs1.
        destruct (decide (f = Z.to_nat (fst (faces e)))) as [->|Hne0].
        -- rewrite !Z2Nat.id by lia.
           destruct (decide (fst (faces e) = fst (faces e))); [|congruence].
           destruct (decide (snd (faces e) = fst (faces e))); [lia|].
           now rewrite app_nil_r.
        -- rewrite Hfs by lia.
           destruct (decide (fst (faces e) = Z.of_nat f)); [lia|].
           destruct (decide (snd (faces e) = Z.of_nat f)); [lia|].
           now rewrite !app_nil_r.
    + intros i j i' j' Hj Hj'.
      rewrite Hl3, Hl2, Hl1, (Hl i j i' j' Hj Hj').
      pose proof (hits_shareOf edgeList m (fst (faces e)) i' j' Hj') as A0.
      pose proof (hits_shareOf edgeList m (fst (faces e)) i j Hj) as B0.
      pose proof (hits_shareOf edgeList m (snd (faces e)) i' j' Hj') as A1.
      pose proof (hits_shareOf edgeList m (snd (faces e)) i j Hj) as B1.
      rewrite A0, B0, A1, B1. clear A0 B0 A1 B1.
      unfold edgeRelations. rewrite !lookup_take.
      destruct j as [|[|j]], j' as [|[|j']]; try lia; cbn [sel];
        destruct (edgeList !! i) as [e1|] eqn:E1;
        destruct (edgeList !! i') as [e2|] eqn:E2;
        destruct (lt_eq_lt_dec i m) as [[Him | Him] | Him];
        destruct (lt_eq_lt_dec i' m) as [[Him' | Him'] | Him'];
        subst; simplify_eq;
        decide_cases; try reflexivity; try lia.
  - cbn [fst snd] in *. exists adj. rewrite Hrun. cbn [bind].
    split; [reflexivity|]. unfold n in Hl. rewrite firstn_all in Hl.
    exact Hl.
Qed.

(** ** Multiplicity of the adjacency in the per-vertex modes *)

Lemma sharedFrom_snoc pre keys pa c x y :
  sharedFrom pre (keys ++ [(pa, c)]) x y
  = (sharedFrom pre keys x y
     + (if decide (c = x /\ head (seen pa (pre ++ keys)) = Some y)
        then 1 else 0))%nat.
Proof.
  revert pre. induction keys as [|[pa0 c0] keys IH]; intros pre.
  - cbn [app sharedFrom]. rewrite app_nil_r. lia.
  - cbn [app sharedFrom]. rewrite IH, <- app_assoc. cbn [app]. lia.
Qed.

Lemma sharedWith_snoc keys pa c x y :
  sharedWith (keys ++ [(pa, c)]) x y
  = (sharedWith keys x y
     + (if decide (c = x /\ head (seen pa keys) = Some y) then 1 else 0))%nat.
Proof. unfold sharedWith. now rewrite sharedFrom_snoc. Qed.

Lemma fanLinks_snoc cur l v x y :
  fanLinks cur (l ++ [v]) x y
  = (fanLinks cur l x y
     + fanRows (cur + wedgeCount l) (wedges v) (wedges v) x y)%nat.
Proof.
  revert cur. induction l as [|w l IH]; intros cur.
  - cbn. rewrite !Nat.add_0_r. reflexivity.
  - cbn [app fanLinks wedgeCount foldr]. rewrite IH.
    fold (wedgeCount l).
    replace (cur + (wedges w + wedgeCount l))%nat
      with (cur + wedges w + wedgeCount l)%nat by lia.
    lia.
Qed.

Lemma fanKeys_snoc cur l v :
  fanKeys cur (l ++ [v])
  = fanKeys cur l ++ vertexKeys v (cur + wedgeCount l) (wedges v).
Proof.
  revert cur. induction l as [|w l IH]; intros cur.
  - cbn. now rewrite !Nat.add_0_r, app_nil_r.
  - cbn [app fanKeys wedgeCount foldr]. rewrite IH.
    fold (wedgeCount l).
    replace (cur + (wedges w + wedgeCount l))%nat
      with (cur + wedges w + wedgeCount l)%nat by lia.
    now rewrite app_assoc.
Qed.

Lemma vertexKeys_S v cur j :
  vertexKeys v cur (S j) = vertexKeys v cur j ++ wedgeKeys v cur j.
Proof.
  unfold vertexKeys. rewrite (seq_S j 0), flat_map_app.
  cbn [flat_map Nat.add]. now rewrite app_nil_r.
Qed.

(** The test of a pair against the map, counted: the map holds the first
    wedge of every pair seen so far. *)
Lemma shareEdge_links (pre : list ((Z * Z) * Z)) (pa : Z * Z) (cur : Z)
    (edges : gmap (Z * Z) Z) (adj : list (list Z)) :
  0 <= cur < size adj ->
  (forall pa, edges !! pa = head (seen pa pre)) ->
  (forall pa c, edges !! pa = Some c -> 0 <= c < size adj) ->
  exists edges' adj',
    shareEdge pa cur (edges, adj) = Ok (edges', adj') /\
    length adj' = length adj /\
    (forall pa', edges' !! pa' = head (seen pa' (pre ++ [(pa, cur)]))) /\
    (forall pa c, edges' !! pa = Some c -> 0 <= c < size adj) /\
    forall x y : nat,
      links adj' x (Z.of_nat y)
      = (links adj x (Z.of_nat y)
         + (if decide (cur = Z.of_nat x /\
                       head (seen pa pre) = Some (Z.of_nat y))
            then 1 else 0)
         + (if decide (cur = Z.of_nat y /\
                       head (seen pa pre) = Some (Z.of_nat x))
            then 1 else 0))%nat.
Proof.
  intros Hcur Hmap Hrange. unfold shareEdge.
  pose proof (Hmap pa) as Hpa.
  destruct (edges !! pa) as [c|] eqn:E.
  - pose proof (Hrange pa c E) as Hc.
    destruct (adjLink_spec adj cur c Hcur Hc) as (adj' & -> & Hlen & Hl).
    cbn [bind]. exists edges, adj'.
    split; [reflexivity|]. split; [assumption|]. split; [|split].
    + intros pa'. rewrite seen_snoc.
      destruct (decide (pa = pa')) as [<-|Hne];
        [|rewrite app_nil_r; apply Hmap].
      rewrite E. destruct (seen pa pre); [discriminate | exact Hpa].
    + assumption.
    + intros x y. rewrite Hl, <- Hpa.
      destruct (decide (x = Z.to_nat cur /\ Z.of_nat y = c)),
        (decide (x = Z.to_nat c /\ Z.of_nat y = cur)),
        (decide (cur = Z.of_nat x /\ Some c = Some (Z.of_nat y))),
        (decide (cur = Z.of_nat y /\ Some c = Some (Z.of_nat x)));
        try reflexivity; exfalso;
        repeat match goal with
               | H : _ /\ _ |- _ => destruct H
               | H : Some _ = Some _ |- _ => injection H as H
               | H : ~ (_ /\ Some _ = Some _) |- _ =>
                   apply H; split; [lia | f_equal; lia]
               | H : ~ (_ /\ _) |- _ => apply H; split; lia
               end.
  - exists (<[pa := cur]> edges), adj.
    split; [reflexivity|]. split; [reflexivity|]. split; [|split].
    + intros pa'. rewrite seen_snoc.
      destruct (decide (pa = pa')) as [<-|Hne].
      * rewrite lookup_insert_eq.
        destruct (seen pa pre); [reflexivity | discriminate].
      * rewrite lookup_insert_ne by assumption.
        rewrite app_nil_r. apply Hmap.
    + intros pa' c. destruct (decide (pa = pa')) as [<-|Hne].
      * rewrite lookup_insert_eq. intros [= <-]. assumption.
      * rewrite lookup_insert_ne by assumption. apply Hrange.
    + intros x y. rewrite <- Hpa.
      destruct (decide (cur = Z.of_nat x /\ None = Some (Z.of_nat y)))
        as [[_ ?]|]; [discriminate|].
      destruct (decide (cur = Z.of_nat y /\ None = Some (Z.of_nat x)))
        as [[_ ?]|]; [discriminate|]. lia.
Qed.

(** One wedge of a fan of [n] wedges that starts at tetrahedron [m],
    counted; [F] counts the relations of the vertices before, and [pre]
    are the pairs seen so far. *)
Lemma makeAdjacencyList_wedge_links (F : nat -> nat -> nat) (v : vertex)
    (m j : nat) (pre : list ((Z * Z) * Z))
    (edges : gmap (Z * Z) Z) (adj : list (list Z)) :
  (j < wedges v)%nat ->
  (m + wedges v <= length adj)%nat ->
  (forall pa, edges !! pa = head (seen pa pre)) ->
  (forall pa c, edges !! pa = Some c -> 0 <= c < size adj) ->
  (forall x y : nat,
     links adj x (Z.of_nat y)
     = (F x y + fanRows m j (wedges v) x y
        + sharedWith pre (Z.of_nat x) (Z.of_nat y)
        + sharedWith pre (Z.of_nat y) (Z.of_nat x))%nat) ->
  exists edges' adj',
    makeAdjacencyList_wedge v (fanTets (Z.of_nat m) (wedges v)) j
      (edges, Z.of_nat (m + j), adj)
    = Ok (edges', Z.of_nat (m + S j), adj') /\
    length adj' = length adj /\
    (forall pa, edges' !! pa = head (seen pa (pre ++ wedgeKeys v m j))) /\
    (forall pa c, edges' !! pa = Some c -> 0 <= c < size adj) /\
    forall x y : nat,
      links adj' x (Z.of_nat y)
      = (F x y + fanRows m (S j) (wedges v) x y
         + sharedWith (pre ++ wedgeKeys v m j) (Z.of_nat x) (Z.of_nat y)
         + sharedWith (pre ++ wedgeKeys v m j) (Z.of_nat y) (Z.of_nat x))%nat.
Proof.
  intros Hj Hroom Hmap Hrange Hl. unfold makeAdjacencyList_wedge.
  set (n := wedges v) in *.
  assert (Hcur : 0 <= Z.of_nat (m + j) < size adj) by (unfold size; lia).
  destruct (adjAppend_spec adj (Z.of_nat (m + j)) (fanTets (Z.of_nat m) n) Hcur)
    as (adj1 & -> & Hlen1 & Hl1). cbn [bind].
  destruct (wedge_reads v j Hj) as (s & t & Es & Et).
  rewrite Es, Et. cbn [bind].
  assert (Hkeys : wedgeKeys v m j
                  = [((index v, s), Z.of_nat (m + j));
                     ((t, index v), Z.of_nat (m + j))]).
  { unfold wedgeKeys. apply vat_Ok in Es as [_ Es]. apply vat_Ok in Et as [_ Et].
    replace (Z.to_nat (2 * Z.of_nat j)) with (2 * j)%nat in Es by lia.
    replace (Z.to_nat (2 * Z.of_nat j + 1)) with (2 * j + 1)%nat in Et by lia.
    now rewrite Es, Et. }
  assert (Hsize1 : size adj1 = size adj) by (unfold size; lia).
  destruct (shareEdge_links pre (index v, s) (Z.of_nat (m + j)) edges adj1)
    as (edges2 & adj2 & -> & Hlen2 & Hmap2 & Hrange2 & Hl2);
    [lia | assumption | intros pa c Hc; rewrite Hsize1; eauto |].
  cbn [bind].
  assert (Hsize2 : size adj2 = size adj) by (unfold size; lia).
  destruct (shareEdge_links (pre ++ [((index v, s), Z.of_nat (m + j))])
              (t, index v) (Z.of_nat (m + j)) edges2 adj2)
    as (edges3 & adj3 & -> & Hlen3 & Hmap3 & Hrange3 & Hl3);
    [lia | assumption
     | intros pa c Hc; rewrite Hsize2, <- Hsize1; eauto |].
  cbn [bind].
  exists edges3, adj3. split.
  { do 3 f_equal. lia. }
  split; [lia|]. split; [|split].
  - intros pa. rewrite Hkeys, Hmap3, <- app_assoc. reflexivity.
  - intros pa c Hc. rewrite <- Hsize2. eauto.
  - intros x y. rewrite Hl3, Hl2, Hl1, Hl, fanTets_count, Nat2Z.id, Hkeys.
    change [((index v, s), Z.of_nat (m + j)); ((t, index v), Z.of_nat (m + j))]
      with ([((index v, s), Z.of_nat (m + j))]
            ++ [((t, index v), Z.of_nat (m + j))]).
    rewrite app_assoc, !sharedWith_snoc. unfold fanRows.
    repeat match goal with
           | |- context [decide ?P] => destruct (decide P)
           end; try lia;
      exfalso;
      repeat match goal with
             | H : _ /\ _ |- _ => destruct H
             | H : ~ (_ /\ _) |- _ => apply H; split; (lia || assumption)
             end; lia.
Qed.

Lemma makeAdjacencyList_fan_links tetMode tetList edgeList vertexList :
  tetMode = TM_VERTEX \/ tetMode = TM_VFACE ->
  adjacencyInput tetMode tetList edgeList vertexList = true ->
  exists adj,
    makeAdjacencyList tetMode tetList edgeList vertexList = Ok adj /\
    forall x y : nat,
      links adj x (Z.of_nat y)
      = (fanLinks 0 vertexList x y
         + sharedWith (fanKeys 0 vertexList) (Z.of_nat x) (Z.of_nat y)
         + sharedWith (fanKeys 0 vertexList) (Z.of_nat y) (Z.of_nat x))%nat.
Proof.
  intros Hmode.
  assert (Hsel : makeAdjacencyList tetMode tetList edgeList vertexList
                 = makeAdjacencyList TM_VERTEX tetList edgeList vertexList /\
                 adjacencyInput tetMode tetList edgeList vertexList
                 = adjacencyInput TM_VERTEX tetList edgeList vertexList)
    by (destruct Hmode as [-> | ->]; split; reflexivity).
  destruct Hsel as [-> ->]. clear Hmode tetMode.
  unfold adjacencyInput, makeAdjacencyList.
  simpl (TM_VERTEX =? _). cbv iota zeta. simpl (false || true).
  cbv iota.
  set (numTet := (length tetList / 4)%nat).
  intros Hroom. apply Nat.leb_le in Hroom.
  pose (Inv := fun (F : nat -> nat -> nat) (m j n : nat)
                   (pre : list ((Z * Z) * Z))
                   (st : gmap (Z * Z) Z * Z * list (list Z)) =>
    snd (fst st) = Z.of_nat (m + j) /\
    length (snd st) = numTet /\
    (forall pa, fst (fst st) !! pa = head (seen pa pre)) /\
    (forall pa c, fst (fst st) !! pa = Some c -> 0 <= c < Z.of_nat numTet) /\
    forall x y : nat,
      links (snd st) x (Z.of_nat y)
      = (F x y + fanRows m j n x y
         + sharedWith pre (Z.of_nat x) (Z.of_nat y)
         + sharedWith pre (Z.of_nat y) (Z.of_nat x))%nat).
  match goal with
  | |- context [forLoop _ ?body ?s0] =>
      destruct (forLoop_total
        (fun i => Inv (fanLinks 0 (take i vertexList))
                      (wedgeCount (take i vertexList)) 0%nat 0%nat
                      (fanKeys 0 (take i vertexList)))
        body (length vertexList) s0)
        as ([[edges cur] adj] & Hrun & _ & _ & _ & _ & Hl)
  end.
  - unfold Inv. cbn [fst snd take wedgeCount foldr fanKeys fanLinks].
    rewrite length_resize.
    split; [reflexivity|]. split; [reflexivity|]. split; [|split].
    + intros pa. now rewrite lookup_empty.
    + intros pa c Hc. now rewrite lookup_empty in Hc.
    + intros x y. rewrite links_empty. unfold fanRows, sharedWith. cbn.
      case_decide; [lia | reflexivity].
  - intros i [[edges cur] adj] Hi (Hcur & Hlen & Hmap & Hrange & Hl).
    cbn [fst snd] in *. rewrite Nat.add_0_r in Hcur. subst cur.
    destruct (lookup_lt_is_Some_2 vertexList i Hi) as [v Hv].
    rewrite (proj2 (vat_nat vertexList i v) Hv). cbn [bind].
    assert (EF : forall x y,
               fanLinks 0 (take (S i) vertexList) x y
               = (fanLinks 0 (take i vertexList) x y
                  + fanRows (wedgeCount (take i vertexList)) (wedges v)
                            (wedges v) x y)%nat).
    { intros x y. now rewrite (take_S_r _ _ _ Hv), fanLinks_snoc. }
    assert (EK : fanKeys 0 (take (S i) vertexList)
                 = fanKeys 0 (take i vertexList)
                   ++ vertexKeys v (wedgeCount (take i vertexList))
                                 (wedges v)).
    { now rewrite (take_S_r _ _ _ Hv), fanKeys_snoc. }
    pose proof (wedgeCount_take_S _ _ _ Hv) as EW.
    set (m := wedgeCount (take i vertexList)) in *.
    set (F := fanLinks 0 (take i vertexList)) in *.
    set (K := fanKeys 0 (take i vertexList)) in *.
    fold (wedges v).
    assert (Hm : (m + wedges v <= numTet)%nat).
    { rewrite <- (take_drop (S i) vertexList), wedgeCount_app in Hroom.
      rewrite (wedgeCount_take_S _ _ _ Hv) in Hroom. fold m in Hroom. lia. }
    destruct (forLoop_total
      (fun j => Inv F m j (wedges v) (K ++ vertexKeys v m j))
      (makeAdjacencyList_wedge v (fanTets (Z.of_nat m) (wedges v)))
      (wedges v) (edges, Z.of_nat m, adj))
      as (st' & Hrun' & HI').
    + unfold Inv. cbn [fst snd]. rewrite Nat.add_0_r.
      unfold vertexKeys. cbn [seq flat_map]. rewrite app_nil_r.
      split; [reflexivity|]. split; [assumption|].
      split; [assumption|]. split; [assumption|].
      intros x y. rewrite Hl. unfold fanRows.
      repeat case_decide; lia.
    + intros j [[edges0 cur0] adj0] Hj
        (Hcur0 & Hlen0 & Hmap0 & Hrange0 & Hl0).
      cbn [fst snd] in *. subst cur0.
      destruct (makeAdjacencyList_wedge_links F v m j
                  (K ++ vertexKeys v m j) edges0 adj0)
        as (edges1 & adj1 & Hstep & Hlen1 & Hmap1 & Hrange1 & Hl1);
        [assumption | lia | assumption
         | unfold size; rewrite Hlen0; assumption | assumption |].
      eexists; split; [exact Hstep|].
      unfold Inv. cbn [fst snd]. rewrite vertexKeys_S, app_assoc.
      split; [reflexivity|]. split; [lia|]. split; [assumption|].
      split; [|assumption].
      intros pa c Hc. specialize (Hrange1 pa c Hc).
      unfold size in Hrange1. lia.
    + exists st'. split; [assumption|].
      destruct HI' as (Hc' & Hl' & Hm' & Hr' & Hs').
      unfold Inv. rewrite Nat.add_0_r, EW, EK.
      split; [assumption|]. split; [assumption|].
      split; [assumption|]. split; [assumption|].
      intros x y. rewrite Hs', EF. unfold fanRows.
      repeat case_decide; lia.
  - cbn [fst snd] in *. exists adj. rewrite Hrun. cbn [bind].
    rewrite firstn_all in Hl. split; [reflexivity|].
    intros x y. rewrite Hl. unfold fanRows.
    case_decide; lia.
Qed.

(** ** Symmetry and multiplicity of the adjacency *)

Lemma edgeRelations_sym edgeList i j i' j' :
  edgeRelations edgeList i j i' j' = edgeRelations edgeList i' j' i j.
Proof.
  unfold edgeRelations.
  destruct (edgeList !! i), (edgeList !! i'); try reflexivity.
  repeat case_decide; try reflexivity; try lia; congruence.
Qed.

(** C7.  In each of the four modes, on input that [makeAdjacencyList]
    reads and writes in range, the adjacency list is defined, has one
    entry list per tetrahedron, and is symmetric counting multiplicity:
    [b] is listed in [list[a]] as many times as [a] in [list[b]].
    Nothing is deduplicated, every relation gives one entry on each side.
    In per-face mode [b] is listed in [list[a]] once for every edge
    between the faces [a] and [b].  In per-edge mode the tetrahedra
    [2i+j] and [2i'+j'] list each other once if they are the two
    tetrahedra of an edge, and once if they are tetrahedra of two
    different edges on the same face.  In the per-vertex and vface modes
    two wedges list each other once if they are wedges of the same
    vertex, and once more for every time one of them comes with a
    directed pair that has been seen before, and first with the
    other. *)
Theorem makeAdjacencyList_symmetric tetMode tetList edgeList vertexList :
  tetMode = TM_FACE \/ tetMode = TM_EDGE \/
  tetMode = TM_VERTEX \/ tetMode = TM_VFACE ->
  adjacencyInput tetMode tetList edgeList vertexList = true ->
  exists adjacencyList,
    makeAdjacencyList tetMode tetList edgeList vertexList = Ok adjacencyList /\
    length adjacencyList = (length tetList / 4)%nat /\
    symmetric adjacencyList /\
    (tetMode = TM_FACE ->
     forall a b, links adjacencyList a b
                 = edgesBetween edgeList (Z.of_nat a) b) /\
    (tetMode = TM_EDGE ->
     forall i j i' j', (j < 2)%nat -> (j' < 2)%nat ->
       links adjacencyList (2 * i + j) (Z.of_nat (2 * i' + j'))
       = edgeRelations edgeList i j i' j') /\
    (tetMode = TM_VERTEX \/ tetMode = TM_VFACE ->
     forall a b : nat,
       links adjacencyList a (Z.of_nat b)
       = (fanLinks 0 vertexList a b
          + sharedWith (fanKeys 0 vertexList) (Z.of_nat a) (Z.of_nat b)
          + sharedWith (fanKeys 0 vertexList) (Z.of_nat b) (Z.of_nat a))%nat).
Proof.
  intros [-> | [-> | Hfan]] Hin.
  - destruct (makeAdjacencyList_face tetList edgeList vertexList Hin)
      as (adj & Hrun & Hlen & Hl).
    exists adj. split; [assumption|]. split; [assumption|].
    split; [|split; [auto|split; [discriminate|]]].
    + intros a b. rewrite !Hl. unfold edgesBetween. lia.
    + intros [H | H]; discriminate H.
  - destruct (makeAdjacencyList_edge_mode tetList edgeList vertexList Hin)
      as (adj & Hrun & Hlen & Hsym).
    destruct (makeAdjacencyList_edge_links tetList edgeList vertexList Hin)
      as (adj' & Hrun' & Hl).
    rewrite Hrun in Hrun'. injection Hrun' as <-.
    exists adj. split; [assumption|]. split; [assumption|].
    split; [assumption|]. split; [discriminate|]. split; [auto|].
    intros [H | H]; discriminate H.
  - destruct (makeAdjacencyList_fan_mode tetMode tetList edgeList vertexList
                Hfan Hin) as (adj & Hrun & Hlen & Hsym & _).
    destruct (makeAdjacencyList_fan_links tetMode tetList edgeList vertexList
                Hfan Hin) as (adj' & Hrun' & Hl).
    rewrite Hrun in Hrun'. injection Hrun' as <-.
    exists adj. split; [assumption|]. split; [assumption|].
    split; [assumption|].
    split; [destruct Hfan as [-> | ->]; discriminate|].
    split; [destruct Hfan as [-> | ->]; discriminate | auto].
Qed.

(** A vertex whose two wedges share the directed pair (0, 1): the two
    wedges are wedges of one vertex and share a pair, and list each other
    twice. *)
Lemma makeAdjacencyList_symmetric_witness :
  exists adjacencyList,
    makeAdjacencyList TM_VERTEX squareTets [] [twinVertex]
    = Ok adjacencyList /\
    length adjacencyList = (length squareTets / 4)%nat /\
    symmetric adjacencyList /\
    (TM_VERTEX = TM_FACE ->
     forall a b, links adjacencyList a b = edgesBetween [] (Z.of_nat a) b) /\
    (TM_VERTEX = TM_EDGE ->
     forall i j i' j', (j < 2)%nat -> (j' < 2)%nat ->
       links adjacencyList (2 * i + j) (Z.of_nat (2 * i' + j'))
       = edgeRelations [] i j i' j') /\
    (TM_VERTEX = TM_VERTEX \/ TM_VERTEX = TM_VFACE ->
     forall a b : nat,
       links adjacencyList a (Z.of_nat b)
       = (fanLinks 0 [twinVertex] a b
          + sharedWith (fanKeys 0 [twinVertex]) (Z.of_nat a) (Z.of_nat b)
          + sharedWith (fanKeys 0 [twinVertex]) (Z.of_nat b) (Z.of_nat a))%nat).
Proof.
  apply (makeAdjacencyList_symmetric TM_VERTEX squareTets [] [twinVertex]).
  - right. right. left. reflexivity.
  - reflexivity.
Defined.

(** The adjacency of that vertex: the two wedges are related twice and
    list each other twice. *)
Lemma makeAdjacencyList_repeated_relations :
  makeAdjacencyList TM_VERTEX squareTets [] [twinVertex]
  = Ok [[0; 1; 1]; [0; 1; 0]] /\
  fanLinks 0 [twinVertex] 1 0 = 1%nat /\
  sharedWith (fanKeys 0 [twinVertex]) 1 0 = 1%nat /\
  sharedWith (fanKeys 0 [twinVertex]) 0 1 = 0%nat.
Proof. repeat split. Qed.
